(* ===== verification/_CoqProject ===== *)
-Q . S2P
Prelude.v
Effects.v
Externals.v
Handshake.v
Blocking.v
Lease.v
Runtime.v
Endpoint.v
Port.v
Dispatcher.v
ReadBatch.v
ProviderIo.v
Provider.v
NvmfExport.v
NvmeController.v
System.v
