(* ===== verification/Prelude.v ===== *)
(** * Zettide data node: verification of the SPDK layer

    The data node reaches block devices, NVMe controllers and NVMe/TCP targets
    through a layer of C files in src/services/data-node/spdk/.  The layer runs
    SPDK in a thread of its own, hands work from ordinary threads to SPDK threads
    and back, and releases everything again on every path.  This development models
    those six C files and proves what their clients rely on.

    ** The program

    - runtime.c starts the SPDK application in a thread, gives out leases on it and
      stops it.  A lease holds the runtime ready.
    - bdev_endpoint.c opens a block device on an SPDK thread and submits reads,
      writes and flushes, with retries when SPDK is out of requests.
    - bdev_dispatcher.c lets other threads use an endpoint: blocking commands on the
      caller's stack, and asynchronous batches of reads.
    - bdev_provider.c is an SPDK block device served by a backend of the client.
    - nvmf_tcp_export.c exports a block device over NVMe/TCP.
    - nvme_controller.c attaches a remote NVMe controller.
    The last four take a lease of the runtime; the dispatcher also calls the
    endpoint.

    ** The files

    - Prelude.v: machine integers, errno values, tactics, shared lemmas.
    - Effects.v: the monad the functions are written in (store, heap, current SPDK
      thread, calls to outside code, faults, blocking) and the rules of its weakest
      precondition.
    - Externals.v: the SPDK and POSIX functions the code calls.  None has a
      definition: each is a call whose answer an oracle chooses, depending on the
      whole history.  [sample_env] is a concrete oracle for examples.
    - Handshake.v: the hand-over of a blocking command ([complete_command],
      [owner_done] and the wait of [dispatch_command]) as two threads interleaved
      over the command on the client's stack.  Blocking.v: the POSIX calls around it.
    - Lease.v: the class [RuntimeLease], what a runtime promises to its clients;
      Runtime.v: runtime.c.  Its functions are split where the code takes and leaves
      the mutex; the step relation [rt_step] interleaves those sections, [pump_step]
      the messages of the shutdown.  The instance [RuntimeLeases] discharges the
      class.
    - Endpoint.v: bdev_endpoint.c, with the step relation [ep_step] over all calls,
      events and completions.  Port.v: the class [EndpointPort], what an endpoint
      promises to the dispatcher, and its instance for Endpoint.v.
    - Dispatcher.v and ReadBatch.v: bdev_dispatcher.c, for any runtime and endpoint
      of these classes; the batches with the step relation [batch_step].
    - ProviderIo.v: the I/O path of bdev_provider.c with the step relation
      [prov_step]; Provider.v: the creation and deletion of devices, for any runtime,
      with the step relation [life_step].
    - NvmfExport.v and NvmeController.v: nvmf_tcp_export.c and nvme_controller.c, for
      any runtime.
    - System.v: the clients on the runtime and endpoint of this repository, and the
      generic theorems at concrete inputs.

    A C struct is a record, an object of the heap an entry of a finite map by its
    address, and each function a definition with the name it has in C.  An access
    to an address without an entry, a second [free], a failed [assert] and
    [abort()] are faults.  A callback SPDK owes is a set entry or an answer of the
    oracle, and delivering it is a step of its own.

    ** The theorems

    - No fault under any interleaving: [endpoint_steps_never_fault],
      [read_batch_never_faults], [provider_io_never_faults],
      [provider_life_never_faults], [runtime_assertions_hold].
    - Every accepted operation is reported exactly once:
      [endpoint_callback_exactly_once], [read_batch_callback_exactly_once],
      [provider_completes_exactly_once]; the statuses are there when it is
      ([read_batch_statuses_filled]).
    - Leases: they block the teardown ([runtime_lease_blocks_teardown]), are
      conserved ([provider_leases_balance]), and so devices and dispatchers keep
      their runtime ([devices_keep_runtime], [open_dispatcher_keeps_runtime]).
    - The hand-over between threads is sound, loses no wake-up, ends, and refines a
      call ([handshake_...]); blocking calls return only when nothing refers to their
      stack any more ([dispatcher_io_returns_after_callback],
      [delete_wait_returns_when_over]).
    - Creation is all or nothing on every error path, and closing releases
      everything or can be repeated ([..._all_or_nothing], [..._returns_lease],
      [export_close_releases], [endpoint_open_balanced],
      [endpoint_close_only_when_idle]).
    - Data: [iovs_round_trip], [read_delivers_backend_bytes],
      [bounce_copies_each_item]; linked lists represent groups
      ([complete_batch_groups_by_thread]).
    - 64-bit arithmetic agrees with the unbounded one or is refused:
      [validate_range_accepts_exactly], [bounce_layout_exact],
      [provider_opts_valid_exactly], [dma_capable_iff_tiled].
    - Ends of loops and protocols: [handshake_terminates], [shutdown_stops_app_once],
      [send_delete_terminates], [dma_capable_iff_tiled].

    - A defect: [stop_send_failure_revives_exited_runtime] is a run in which a
      failed message lets [stop] declare a runtime ready whose thread has exited.

    ** Assumptions, bounds and fuel

    - Theorems quantify over all oracles; where the code relies on documented
      behaviour the hypothesis is named: [posix_ok] (destroying an unused mutex
      succeeds), [sends_accepted] and [commands_accepted] (SPDK accepts a message;
      the code aborts otherwise), [undo_ok], [callbacks_called], [outcomes_called].
      The examples of System.v satisfy all of them.
    - Loops over lists recurse on the list.  The DMA test has fuel for every byte,
      lists of completions for every request, and running out is the fault
      [Diverged], which the theorems exclude.  The retry of [delete_wait] is bounded
      by the refusals of SPDK.
    - The target is LP64; the heap has at most [UINTPTR_MAX] objects and does not
      reuse addresses.
    - Mutual exclusion is assumed of pthread mutexes: a section between lock and
      unlock is one step.  A port has a heap disjoint from its client's.

    ** Not modelled

    - The contents of the JSON configuration and the registration of the provider's
      SPDK module and I/O channels: they only pass values on.
    - SPDK's devices, controllers and targets themselves: answers of the oracle.
    - Closing a dispatcher while one of its read batches is pending: the batches of
      ReadBatch.v run on dispatchers that stay open.
    - The Zig code of the storage engine and of the data node, and the tests. *)

From stdpp Require Export base gmap list strings.
From Stdlib Require Export ZArith Lia.

Declare Scope zettide_scope.
Open Scope Z_scope.

(** ** Identifiers *)

(** Addresses of heap objects, SPDK threads and opaque SPDK handles. *)
Abbreviation ptr := nat.

(** A [void *] a callback gets back: an object and an index into it, since the
    code passes interior pointers. *)
Abbreviation cookie := (nat * nat)%type.

Abbreviation thread := nat.
Abbreviation handle := nat.

(** ** Machine integers of the LP64 target *)

Definition UINT32_MAX : Z := 4294967295.
Definition UINT64_MAX : Z := 18446744073709551615.
Definition SIZE_MAX : Z := UINT64_MAX.
Definition UINTPTR_MAX : Z := UINT64_MAX.

(** Wrap-around of [uint64_t], [size_t] and [uintptr_t]. *)
Definition u64 (x : Z) : Z := x mod 18446744073709551616.

Definition u32 (x : Z) : Z := x mod 4294967296.

Definition is_u32 (x : Z) : Prop := 0 <= x <= UINT32_MAX.
Definition is_u64 (x : Z) : Prop := 0 <= x <= UINT64_MAX.

(** ** errno values (Linux) *)

Definition EPERM : Z := 1.
Definition ENOENT : Z := 2.
Definition EIO : Z := 5.
Definition EBADF : Z := 9.
Definition ENOMEM : Z := 12.
Definition EBUSY : Z := 16.
Definition EEXIST : Z := 17.
Definition ENODEV : Z := 19.
Definition EINVAL : Z := 22.
Definition ERANGE : Z := 34.
Definition EDEADLK : Z := 35.
Definition EOVERFLOW : Z := 75.
Definition ENOTSUP : Z := 95.
Definition ESHUTDOWN : Z := 108.
Definition EALREADY : Z := 114.
Definition EINPROGRESS : Z := 115.

(** ** C booleans and null tests *)

Definition is_null {A} (p : option A) : bool :=
  match p with None => true | Some _ => false end.

Notation "x '!=?' y" := (negb (Z.eqb x y)) (at level 70) : zettide_scope.
Open Scope zettide_scope.

(** What an [opts_init] function leaves in the caller's struct: nothing is written,
    only the first [bytes] are cleared, or the fields are set. *)
Inductive opts_init_result (A : Type) :=
  | OptsUntouched
  | OptsCleared (bytes : Z)
  | OptsInitialised (opts : A).
Arguments OptsUntouched {A}.
Arguments OptsCleared {A} bytes.
Arguments OptsInitialised {A} opts.

(** ** Tactics *)

Ltac destruct_match_goal :=
  match goal with
  | |- context [match ?x with _ => _ end] =>
      lazymatch x with
      | context [match _ with _ => _ end] => fail
      | _ => destruct x eqn:?
      end
  end.

(** Turn boolean tests of the code into the propositions they decide. *)
Ltac breflect :=
  repeat match goal with
  | H : andb _ _ = true |- _ => apply andb_true_iff in H; destruct H
  | H : orb _ _ = false |- _ => apply orb_false_iff in H; destruct H
  | H : negb _ = true |- _ => apply negb_true_iff in H
  | H : negb _ = false |- _ => apply negb_false_iff in H
  | H : Z.eqb _ _ = true |- _ => apply Z.eqb_eq in H
  | H : Z.eqb _ _ = false |- _ => apply Z.eqb_neq in H
  | H : Z.ltb _ _ = true |- _ => apply Z.ltb_lt in H
  | H : Z.ltb _ _ = false |- _ => apply Z.ltb_ge in H
  | H : Z.leb _ _ = true |- _ => apply Z.leb_le in H
  | H : Z.leb _ _ = false |- _ => apply Z.leb_gt in H
  | H : Z.gtb _ _ = true |- _ => rewrite Z.gtb_ltb in H; apply Z.ltb_lt in H
  | H : Z.gtb _ _ = false |- _ => rewrite Z.gtb_ltb in H; apply Z.ltb_ge in H
  | H : Nat.eqb _ _ = true |- _ => apply Nat.eqb_eq in H
  | H : Nat.eqb _ _ = false |- _ => apply Nat.eqb_neq in H
  | H : bool_decide _ = true |- _ => apply bool_decide_eq_true in H
  | H : bool_decide _ = false |- _ => apply bool_decide_eq_false in H
  end.

(** Case analysis on the equality tests of the goal and the hypotheses. *)
Ltac case_eqb :=
  repeat match goal with
  | |- context [if (?a =? ?b)%nat then _ else _] => destruct (Nat.eqb_spec a b)
  | H : context [if (?a =? ?b)%nat then _ else _] |- _ => destruct (Nat.eqb_spec a b)
  | |- context [if (?a =? ?b)%Z then _ else _] => destruct (Z.eqb_spec a b)
  | H : context [if (?a =? ?b)%Z then _ else _] |- _ => destruct (Z.eqb_spec a b)
  end.

Create HintDb zettide.

(** ** Generic lemmas *)

Lemma u64_small x : is_u64 x -> u64 x = x.
Proof. unfold is_u64, u64, UINT64_MAX. intros. apply Z.mod_small. lia. Qed.

Lemma u64_range x : is_u64 (u64 x).
Proof.
  unfold is_u64, u64, UINT64_MAX.
  pose proof (Z.mod_pos_bound x 18446744073709551616). lia.
Qed.

Lemma u32_range x : is_u32 (u32 x).
Proof.
  unfold is_u32, u32, UINT32_MAX. pose proof (Z.mod_pos_bound x 4294967296). lia.
Qed.

#[export] Hint Resolve u64_small u64_range u32_range : zettide.

(** The guard the code uses against multiplication overflow. *)
Lemma mul_guard a b m : 0 < b -> 0 <= m -> (a <= m / b <-> a * b <= m).
Proof.
  intros Hb Hm. split; intros H.
  - apply Z.le_trans with (m / b * b); [nia|].
    rewrite Z.mul_comm. apply Z.mul_div_le. lia.
  - apply Z.div_le_lower_bound; lia.
Qed.

(** A whole number of blocks is a multiple of [u] blocks exactly when the byte
    count is a multiple of [u * b] bytes. *)
Lemma block_units x b u :
  0 < b -> 0 < u -> x mod b = 0 -> ((x / b) mod u = 0 <-> x mod (u * b) = 0).
Proof.
  intros Hb Hu Hx. apply Z.div_exact in Hx; [|lia].
  rewrite !Z.mod_divide by lia. split.
  - intros [k Hk]. exists k. rewrite Hx, Hk. ring.
  - intros [k Hk]. exists k. apply (Z.mul_reg_l _ _ b); [lia|]. rewrite <- Hx, Hk. ring.
Qed.
