(* ===== verification/Effects.v ===== *)
(** * Effects: the monad the C functions are written in

    A C function is a computation [M S A] over the store [S] of its component.
    Besides the store it sees
    - the SPDK thread it runs on ([spdk_get_thread]),
    - the answers of code outside the repository ([call]), given by an oracle
      that may depend on everything that happened before,
    - the heap: [calloc] may fail, [free] of an address that is not live is a
      fault.
    Every external call and every allocation is recorded in the history, so
    that a theorem can speak about what was called, how often and with what.
    [wp] is the weakest precondition; its rules quantify over all answers the
    outside may give. *)

From S2P Require Import Prelude.

(** The interface to outside code: calls and the type of their answers. *)
Class Sig := {
  call_sig : Type;
  resp : call_sig -> Type;
}.

(** Undefined behaviour, failed assertions and [abort()]. *)
Inductive fault :=
  | AssertFailed
  | Aborted
  | BadPointer
  | DivByZero
  | BadIndex
  | Diverged.

(** [Blocked] is a thread that still waits for another one. *)
Inductive outcome (A : Type) :=
  | Done (a : A)
  | Fault (f : fault)
  | Blocked.
Arguments Done {A} a.
Arguments Fault {A} f.
Arguments Blocked {A}.

Section Monad.
Context `{Sig}.

Inductive event :=
  | EvCall (c : call_sig) (r : resp c)
  | EvAlloc (p : option ptr)
  | EvFree (p : ptr).

Record env := Env {
  cur_thread : option thread;
  oracle : list event -> forall c : call_sig, resp c;
  alloc_ok : list event -> bool;
}.

(** The most recent event is the head of [hist]. *)
Record conf (S : Type) := Conf {
  store : S;
  live : gset ptr;
  hist : list event;
}.
Arguments Conf {S} _ _ _.
Arguments store {S} _.
Arguments live {S} _.
Arguments hist {S} _.

Definition M (S A : Type) : Type := env -> conf S -> outcome A * conf S.

Definition ret {S A} (a : A) : M S A := fun _ c => (Done a, c).

Definition bind {S A B} (m : M S A) (k : A -> M S B) : M S B :=
  fun e c =>
    match m e c with
    | (Done a, c') => k a e c'
    | (Fault f, c') => (Fault f, c')
    | (Blocked, c') => (Blocked, c')
    end.

Definition fail {S A} (f : fault) : M S A := fun _ c => (Fault f, c).
Definition blocked {S A} : M S A := fun _ c => (Blocked, c).

Definition get {S} : M S S := fun _ c => (Done (store c), c).
Definition modify {S} (f : S -> S) : M S unit :=
  fun _ c => (Done tt, Conf (f (store c)) (live c) (hist c)).

Definition call {S} (c : call_sig) : M S (resp c) :=
  fun e s =>
    let r := oracle e (hist s) c in
    (Done r, Conf (store s) (live s) (EvCall c r :: hist s)).

Definition spdk_get_thread {S} : M S (option thread) :=
  fun e c => (Done (cur_thread e), c).

(** Run a message on the SPDK thread it was sent to. *)
Definition run_on {S A} (t : option thread) (m : M S A) : M S A :=
  fun e c => m (Env t (oracle e) (alloc_ok e)) c.

(** Addresses are never used twice; there are at most [UINTPTR_MAX] objects. *)
Definition fresh_ptr {S} (c : conf S) : ptr := Datatypes.S (length (hist c)).

Definition calloc {S} : M S (option ptr) :=
  fun e c =>
    if alloc_ok e (hist c) && (Z.of_nat (size (live c)) <? UINTPTR_MAX) then
      let p := fresh_ptr c in
      (Done (Some p), Conf (store c) ({[p]} ∪ live c) (EvAlloc (Some p) :: hist c))
    else (Done None, Conf (store c) (live c) (EvAlloc None :: hist c)).

Definition free {S} (p : option ptr) : M S unit :=
  fun _ c =>
    match p with
    | None => (Done tt, c)
    | Some p =>
        if decide (p ∈ live c) then
          (Done tt, Conf (store c) (live c ∖ {[p]}) (EvFree p :: hist c))
        else (Fault BadPointer, c)
    end.

Definition assert {S} (b : bool) : M S unit :=
  if b then ret tt else fail AssertFailed.

Definition deref {S A} (o : option A) : M S A :=
  match o with Some a => ret a | None => fail BadPointer end.

(** Run an operation of a sub-component on its part of the store. *)
Definition zoom {S T A} (gt : T -> S) (pt : S -> T -> T) (m : M S A) : M T A :=
  fun e c =>
    let '(o, c') := m e (Conf (gt (store c)) (live c) (hist c)) in
    (o, Conf (pt (store c') (store c)) (live c') (hist c')).

(** ** Weakest preconditions *)

Definition wp {S A} (m : M S A) (e : env) (c : conf S)
    (Q : outcome A -> conf S -> Prop) : Prop :=
  Q (m e c).1 (m e c).2.

(** The computation returns, without a fault, and its result satisfies [Q]. *)
Definition returns {A S} (Q : A -> conf S -> Prop) : outcome A -> conf S -> Prop :=
  fun o c => match o with Done a => Q a c | _ => False end.

(** Addresses in use are older than the present. *)
Definition conf_ok {S} (c : conf S) : Prop :=
  (forall p, p ∈ live c -> (p <= length (hist c))%nat)
  /\ Z.of_nat (size (live c)) <= UINTPTR_MAX.

(** Number of events of the history a predicate selects. *)
Fixpoint count_events (f : event -> bool) (h : list event) : Z :=
  match h with
  | [] => 0
  | ev :: h => (if f ev then 1 else 0) + count_events f h
  end.

(** Sum of a measure over the history. *)
Fixpoint sum_events (f : event -> Z) (h : list event) : Z :=
  match h with
  | [] => 0
  | ev :: h => f ev + sum_events f h
  end.

End Monad.

Arguments Conf {_ S} _ _ _.
Arguments store {_ S} _.
Arguments live {_ S} _.
Arguments hist {_ S} _.

Notation "'let!' x := m 'in' k" := (bind m (fun x => k))
  (at level 10, x pattern, m at level 100, k at level 200,
   format "'[v' 'let!'  x  :=  m  'in' '/' k ']'") : zettide_scope.
Notation "m ';;;' k" := (bind m (fun _ => k))
  (at level 100, k at level 200, right associativity,
   format "'[v' m  ';;;' '/' k ']'") : zettide_scope.

Section Rules.
Context `{Sig}.
Context {S : Type}.
Implicit Types (e : env) (c : conf S).

Lemma wp_ret {A} (a : A) e c Q : Q (Done a) c -> wp (ret a) e c Q.
Proof. done. Qed.

Lemma wp_bind {A B} (m : M S A) (k : A -> M S B) e c Q :
  wp m e c (fun o c' => match o with
                        | Done a => wp (k a) e c' Q
                        | Fault f => Q (Fault f) c'
                        | Blocked => Q Blocked c'
                        end) ->
  wp (bind m k) e c Q.
Proof. unfold wp, bind. destruct (m e c) as [[a|f|] c']; done. Qed.

Lemma wp_mono {A} (m : M S A) e c (Q Q' : outcome A -> conf S -> Prop) :
  wp m e c Q -> (forall o c', Q o c' -> Q' o c') -> wp m e c Q'.
Proof. unfold wp. auto. Qed.

(** Sequencing when the first computation returns. *)
Lemma wp_bind_returns {A B} (m : M S A) (k : A -> M S B) e c R Q :
  wp m e c (returns R) ->
  (forall a c', R a c' -> wp (k a) e c' Q) ->
  wp (bind m k) e c Q.
Proof.
  intros Hm Hk. apply wp_bind. eapply wp_mono; [exact Hm|].
  intros [a|f|] c'; simpl; auto; done.
Qed.

Lemma wp_fail {A} f e c (Q : outcome A -> conf S -> Prop) :
  Q (Fault f) c -> wp (fail f) e c Q.
Proof. done. Qed.

Lemma wp_get e c Q : Q (Done (store c)) c -> wp get e c Q.
Proof. done. Qed.

Lemma wp_modify f e c Q :
  Q (Done tt) (Conf (f (store c)) (live c) (hist c)) -> wp (modify f) e c Q.
Proof. done. Qed.

(** The answer of outside code is arbitrary. *)
Lemma wp_call cl e c Q :
  (forall r, Q (Done r) (Conf (store c) (live c) (EvCall cl r :: hist c))) ->
  wp (call cl) e c Q.
Proof. intros HQ. apply HQ. Qed.

(** A call whose answer is known. *)
Lemma wp_call_is cl r e c Q :
  oracle e (hist c) cl = r ->
  Q (Done r) (Conf (store c) (live c) (EvCall cl r :: hist c)) -> wp (call cl) e c Q.
Proof. intros <-. done. Qed.

(** A call whose answer stays tied to the oracle. *)
Lemma wp_call_oracle cl e c Q :
  (forall r, r = oracle e (hist c) cl -> Q (Done r) (Conf (store c) (live c) (EvCall cl r :: hist c))) ->
  wp (call cl) e c Q.
Proof. intros HQ. by apply HQ. Qed.

Lemma wp_get_thread e c Q : Q (Done (cur_thread e)) c -> wp spdk_get_thread e c Q.
Proof. done. Qed.

Lemma wp_run_on {A} t (m : M S A) e c Q :
  wp m (Env t (oracle e) (alloc_ok e)) c Q -> wp (run_on t m) e c Q.
Proof. done. Qed.

Lemma wp_calloc e c Q :
  (Q (Done None) (Conf (store c) (live c) (EvAlloc None :: hist c))) ->
  (let p := fresh_ptr c in
   Z.of_nat (size (live c)) < UINTPTR_MAX ->
   Q (Done (Some p)) (Conf (store c) ({[p]} ∪ live c) (EvAlloc (Some p) :: hist c))) ->
  wp calloc e c Q.
Proof.
  intros HN HS. unfold wp, calloc.
  destruct (alloc_ok e (hist c)); simpl; [|done].
  destruct (Z.ltb_spec (Z.of_nat (size (live c))) UINTPTR_MAX); simpl; auto.
Qed.

Lemma wp_free_null e c Q : Q (Done tt) c -> wp (free None) e c Q.
Proof. done. Qed.

Lemma wp_free p e c Q :
  p ∈ live c ->
  Q (Done tt) (Conf (store c) (live c ∖ {[p]}) (EvFree p :: hist c)) ->
  wp (free (Some p)) e c Q.
Proof. intros Hp HQ. unfold wp, free. by rewrite decide_True. Qed.

Lemma wp_assert b e c Q : b = true -> Q (Done tt) c -> wp (assert b) e c Q.
Proof. intros ->. done. Qed.

Lemma wp_deref {A} (a : A) o e c Q :
  o = Some a -> Q (Done a) c -> wp (deref o) e c Q.
Proof. intros ->. done. Qed.

Lemma wp_zoom {T A} (gt : T -> S) (pt : S -> T -> T) (m : M S A) e (c : conf T) Q :
  wp m e (Conf (gt (store c)) (live c) (hist c))
    (fun o c' => Q o (Conf (pt (store c') (store c)) (live c') (hist c'))) ->
  wp (zoom gt pt m) e c Q.
Proof. unfold wp, zoom. by destruct (m e _) as [o c']. Qed.

(** From [wp] to the executed function. *)
Lemma wp_run {A} (m : M S A) e c Q o c' : wp m e c Q -> m e c = (o, c') -> Q o c'.
Proof. unfold wp. intros HQ E. by rewrite E in HQ. Qed.

Lemma wp_returns_run {A} (m : M S A) e c Q :
  wp m e c (returns Q) -> exists a c', m e c = (Done a, c') /\ Q a c'.
Proof.
  unfold wp. destruct (m e c) as [[a|f|] c'] eqn:E; simpl; [|done|done].
  intros HQ. by exists a, c'.
Qed.

Lemma fresh_not_live c : conf_ok c -> fresh_ptr c ∉ live c.
Proof. unfold fresh_ptr. intros [Hc _] Hin. apply Hc in Hin. lia. Qed.

Lemma count_events_nonneg f h : 0 <= count_events f h.
Proof. induction h as [|ev h IH]; simpl; [lia|]. destruct (f ev); lia. Qed.

Lemma sum_events_quiet f k h : Forall (fun ev => f ev = 0) k -> sum_events f (k ++ h) = sum_events f h.
Proof. induction 1 as [|ev k Hev _ IH]; simpl; [done|]. rewrite Hev. lia. Qed.

Lemma count_events_app f h1 h2 :
  count_events f (h1 ++ h2) = count_events f h1 + count_events f h2.
Proof. induction h1 as [|ev h IH]; simpl; lia. Qed.

End Rules.

(** ** The heap *)

Section Heap.
Context `{Sig}.

Lemma conf_ok_log {S} (c : conf S) ev (s : S) :
  conf_ok c -> conf_ok (Conf s (live c) (ev :: hist c)).
Proof. intros [H1 H2]. split; simpl; [|done]. intros p Hp. specialize (H1 p Hp). lia. Qed.

Lemma conf_ok_suffix {S T} (s : S) (s' : T) l h h' :
  conf_ok (Conf s l h) -> h `suffix_of` h' -> conf_ok (Conf s' l h').
Proof.
  intros [H1 H2] Hh. apply suffix_length in Hh. split; simpl in *; [|done].
  intros p Hp. specialize (H1 p Hp). lia.
Qed.

Lemma fresh_lookup {V} (m : gmap ptr V) {S} (s : S) l h :
  conf_ok (Conf s l h) ->
  (forall p v, m !! p = Some v -> p ∈ l) -> m !! Datatypes.S (length h) = None.
Proof.
  intros [Hc _] Hm. apply eq_None_not_Some. intros [v Hv].
  apply Hm in Hv. apply Hc in Hv. simpl in Hv. lia.
Qed.

Lemma conf_ok_alloc {S} (s s' : S) l h p :
  conf_ok (Conf s l h) -> p = Datatypes.S (length h) ->
  Z.of_nat (size l) < UINTPTR_MAX ->
  conf_ok (Conf s' ({[p]} ∪ l) (EvAlloc (Some p) :: h)).
Proof.
  intros [H1 H2] -> Hsz. split; simpl in *.
  - intros q [->%elem_of_singleton|Hq]%elem_of_union; [lia|]. specialize (H1 q Hq). lia.
  - rewrite size_union_alt, size_singleton.
    pose proof (subseteq_size (l ∖ {[Datatypes.S (length h)]}) l) as Hle.
    assert (l ∖ {[Datatypes.S (length h)]} ⊆ l) as Hsub by set_solver.
    specialize (Hle Hsub). lia.
Qed.

Lemma conf_ok_free {S} (s s' : S) l h p :
  conf_ok (Conf s l h) -> conf_ok (Conf s' (l ∖ {[p]}) (EvFree p :: h)).
Proof.
  intros [H1 H2]. split; simpl in *.
  - intros q Hq. assert (q ∈ l) as Hl by set_solver. specialize (H1 q Hl). lia.
  - assert (l ∖ {[p]} ⊆ l) as Hsub by set_solver.
    pose proof (subseteq_size _ _ Hsub). lia.
Qed.

Definition opt_set (o : option ptr) : gset ptr :=
  match o with None => ∅ | Some p => {[p]} end.

Lemma wp_free_opt {S} o e (c : conf S) Q :
  opt_set o ⊆ live c ->
  (forall h, hist c `suffix_of` h ->
     Q (Done tt) (Conf (store c) (live c ∖ opt_set o) h)) ->
  wp (free o) e c Q.
Proof.
  destruct o as [p|]; simpl; intros Hin HQ.
  - apply wp_free; [set_solver|]. apply HQ. by apply suffix_cons_r.
  - apply wp_free_null. destruct c as [s l h]. simpl in *.
    specialize (HQ h). rewrite difference_empty_L in HQ. by apply HQ.
Qed.

(** [calloc] as the heap sees it: the new address was not in use. *)
Lemma wp_calloc_fresh {S} e (c : conf S) Q :
  conf_ok c ->
  (forall o h, hist c `suffix_of` h -> opt_set o ## live c ->
     conf_ok (Conf (store c) (opt_set o ∪ live c) h) ->
     Q (Done o) (Conf (store c) (opt_set o ∪ live c) h)) ->
  wp calloc e c Q.
Proof.
  intros Hok HQ. destruct c as [s l h]. simpl in *. apply wp_calloc.
  - simpl. specialize (HQ None (EvAlloc None :: h)). simpl in HQ.
    rewrite (left_id_L ∅ (∪)) in HQ. apply HQ; [by apply suffix_cons_r|set_solver|].
    by apply (conf_ok_log (Conf s l h)).
  - intros p Hsz. simpl in Hsz. apply (HQ (Some p)); [by apply suffix_cons_r| |].
    + pose proof (fresh_not_live _ Hok) as Hf. simpl in *. set_solver.
    + by apply (conf_ok_alloc s).
Qed.

End Heap.

(** One step of symbolic execution. *)
Ltac wp_step :=
  lazymatch goal with
  | |- wp (bind _ _) _ _ _ => apply wp_bind
  | |- wp (ret _) _ _ _ => apply wp_ret
  | |- wp (fail _) _ _ _ => apply wp_fail
  | |- wp get _ _ _ => apply wp_get
  | |- wp (modify _) _ _ _ => apply wp_modify
  | |- wp (call ?cl) ?e ?c ?Q => refine (wp_call cl e c Q _); intros ?
  | |- wp spdk_get_thread _ _ _ => apply wp_get_thread
  | |- wp (run_on _ _) _ _ _ => apply wp_run_on
  | |- wp (zoom _ _ _) _ _ _ => apply wp_zoom
  | |- wp (free None) _ _ _ => apply wp_free_null
  | |- wp (if ?b then _ else _) _ _ _ => destruct b eqn:?
  end; cbv beta.

Ltac wp_steps := repeat wp_step.

(** Case analysis on the test of the next [if], named. *)
Tactic Notation "wp_if" "as" ident(H) :=
  lazymatch goal with
  | |- wp (if ?b then _ else _) _ _ _ => destruct b eqn:H
  end.

(** Symbolic execution of a call whose answer the lemma [L] gives. *)
Tactic Notation "wp_known" constr(L) :=
  lazymatch goal with
  | |- wp (call ?cl) ?e ?c ?Q => refine (wp_call_is cl _ e c Q _ _); [apply L|]
  end.

(** Symbolic execution of a call that remembers where the answer comes from. *)
Tactic Notation "wp_oracle" "as" ident(r) ident(H) :=
  lazymatch goal with
  | |- wp (call ?cl) ?e ?c ?Q => refine (wp_call_oracle cl e c Q _); intros r H; cbv beta
  end.
