(* ===== verification/Externals.v ===== *)
(** * Externals: the SPDK and pthread functions the C files call

    None of these functions is part of the repository: each is a call whose
    answer the environment chooses.  Callbacks the code hands to SPDK are
    delivered later, by the steps of the component that registered them;
    [IoCallback], [EventCallback] and the like are the calls the code makes to
    function pointers its clients supplied. *)

From S2P Require Import Prelude Effects.

(** [enum spdk_bdev_io_type], the values the sources use. *)
Inductive bdev_io_type :=
  | SPDK_BDEV_IO_TYPE_READ
  | SPDK_BDEV_IO_TYPE_WRITE
  | SPDK_BDEV_IO_TYPE_FLUSH
  | SPDK_BDEV_IO_TYPE_RESET
  | SPDK_BDEV_IO_TYPE_OTHER.

(** [enum spdk_bdev_io_status], the values the sources use. *)
Inductive bdev_io_status :=
  | SPDK_BDEV_IO_STATUS_SUCCESS
  | SPDK_BDEV_IO_STATUS_FAILED
  | SPDK_BDEV_IO_STATUS_NOMEM.

(** [enum zettide_spdk_bdev_provider_operation] *)
Inductive provider_operation :=
  | ZETTIDE_SPDK_BDEV_PROVIDER_READ
  | ZETTIDE_SPDK_BDEV_PROVIDER_WRITE
  | ZETTIDE_SPDK_BDEV_PROVIDER_FLUSH
  | ZETTIDE_SPDK_BDEV_PROVIDER_RESET.

#[export] Instance provider_operation_eq : EqDecision provider_operation.
Proof. solve_decision. Defined.

(** The buffer of a provider request: none, memory of the frontend, or a block of
    the heap. *)
Inductive io_buffer_ref :=
  | BufNull
  | BufFrontend (address : Z)
  | BufHeap (block : ptr).

(** Functions the code sends to SPDK threads as messages. *)
Inductive msg_fn :=
  | FnDispatcherOwnerStopped
  | FnStopDispatcherOwner
  | FnBindDispatcherOwner
  | FnStopRuntime
  | FnRunCommand
  | FnRunReadBatch
  | FnRunProviderCommand
  | FnCompleteProviderIoBatch
  | FnProviderStartDelete
  | FnRunAttach
  | FnRunDetach
  | FnRunCreate
  | FnRunClose.

#[export] Instance msg_fn_eq : EqDecision msg_fn.
Proof. solve_decision. Defined.

Inductive ext_call :=
  (* spdk/bdev.h, spdk/env.h *)
  | SpdkBdevOpenExt (name : string) (writable : bool) (context : ptr)
  | SpdkBdevDescGetBdev (descriptor : handle)
  | SpdkBdevClose (descriptor : handle)
  | SpdkBdevIoTypeSupported (bdev : handle) (type : bdev_io_type)
  | SpdkBdevGetMdSize (bdev : handle)
  | SpdkBdevIsZoned (bdev : handle)
  | SpdkBdevGetIoChannel (descriptor : handle)
  | SpdkPutIoChannel (channel : handle)
  | SpdkBdevGetNumBlocks (bdev : handle)
  | SpdkBdevGetBlockSize (bdev : handle)
  | SpdkBdevGetBufAlign (bdev : handle)
  | SpdkBdevGetWriteUnitSize (bdev : handle)
  | SpdkBdevHasWriteCache (bdev : handle)
  | SpdkBdevGetName (bdev : handle)
  | SpdkVtophys (address size : Z)
  | SpdkBdevRead (descriptor channel : handle) (buffer offset length : Z) (request : ptr)
  | SpdkBdevWrite (descriptor channel : handle) (buffer offset length : Z) (request : ptr)
  | SpdkBdevFlush (descriptor channel : handle) (offset length : Z) (request : ptr)
  | SpdkBdevQueueIoWait (bdev channel : handle) (request : ptr)
  | SpdkBdevIoGetAioStatus (bdev_io : handle)
  | SpdkBdevFreeIo (bdev_io : handle)
  | SpdkIoOutcome (request : ptr)
  | SpdkDmaMalloc (size alignment : Z)
  | SpdkDmaZmalloc (size alignment : Z)
  | SpdkDmaFree (address : Z)
  | InlineCompletion (context : cookie)
  | BatchCallback (batch : ptr) (callback context : nat) (direct : bool) (statuses : list (option Z))
  (* spdk/bdev_module.h *)
  | SpdkBdevIoComplete (bdev_io : ptr) (status : bdev_io_status)
  | SpdkBdevIoGetBuf (bdev_io : ptr) (length : Z)
  | BackendSubmit (operation : provider_operation) (offset : Z) (buffer : io_buffer_ref) (length : Z)
      (context : ptr)
  | SpdkBdevRegister (provider : ptr)
  | SpdkBdevUnregister (provider : ptr) (request : nat)
  | DeleteCallback (callback context : nat) (status : Z)
  | SchedYield
  (* function pointers of the endpoint's client *)
  | IoCallback (request : ptr) (callback : nat) (context : cookie) (status : Z)
  | EventCallback (callback context : nat) (endpoint : ptr) (event : Z)
  (* spdk/module/bdev/nvme.h, spdk/nvme.h *)
  | SpdkNvmeDefaultHostnqn
  | SpdkBdevNvmeDefaultOpts
  | SpdkBdevNvmeCreate (name : string) (capacity : Z)
  | AttachOutcome (controller : ptr)
  | SpdkBdevNvmeDelete (name : string)
  | DetachOutcome (controller : ptr)
  (* spdk/nvmf.h *)
  | SpdkNvmfGetTgt (name : option string)
  | SpdkNvmfTgtFindSubsystem (target : handle) (nqn : string)
  | SpdkNvmfSubsystemCreate (target : handle) (nqn : string) (max_namespaces : Z)
      (sn mn : option string)
  | SpdkNvmfSubsystemAddNs (subsystem : handle) (bdev : string) (nsid : Z)
  | SpdkNvmfSubsystemSetAllowAnyHost (subsystem : handle)
  | SpdkNvmfSubsystemAddHost (subsystem : handle) (host : option string)
  | SpdkNvmfTgtListen (target : handle) (traddr trsvcid : string)
  | SpdkNvmfSubsystemAddListener (subsystem : handle)
  | SpdkNvmfSubsystemStart (subsystem : handle)
  | SpdkNvmfSubsystemStop (subsystem : handle)
  | SpdkNvmfSubsystemRemoveListener (subsystem : handle)
  | SpdkNvmfTgtStopListen (target : handle)
  | SpdkNvmfSubsystemDestroy (subsystem : handle)
  (* the callbacks of these functions; None: not yet called *)
  | NvmfListenerAdded (subsystem : handle)
  | NvmfStarted (subsystem : handle)
  | NvmfStopped (subsystem : handle)
  | NvmfDestroyed (subsystem : handle)
  (* pthread.h *)
  | PthreadSetcancelstate (disable : bool)
  | PthreadMutexInit
  | PthreadCondInit
  | PthreadCondDestroy
  | PthreadMutexDestroy
  | PthreadMutexLock
  | PthreadCreate
  (* spdk/thread.h, spdk/event.h, spdk/env.h *)
  | SpdkThreadSendMsg (target : thread) (fn : msg_fn) (context : ptr)
  | SpdkThreadCreate (core : Z)
  | SpdkThreadExit (t : option thread)
  | SpdkThreadBind (t : option thread)
  | SpdkAppStop (status : Z)
  | SpdkAppStart (name reactor_mask : option string) (json_data : option ptr) (json_data_size mem_size : Z)
      (no_pci no_huge disable_signal_handlers disable_cpumask_locks : bool)
  | SpdkAppFini
  | SpdkEnvGetCurrentCore
  | SpdkEnvGetCoreCount
  | SpdkEnvForeachCore.

Definition ext_resp (c : ext_call) : Type :=
  match c with
  | SpdkBdevOpenExt _ _ _ => Z * handle
  | SpdkBdevDescGetBdev _ => handle
  | SpdkBdevIoTypeSupported _ _ => bool
  | SpdkBdevGetMdSize _ => Z
  | SpdkBdevIsZoned _ => bool
  | SpdkBdevGetIoChannel _ => handle
  | SpdkBdevGetNumBlocks _ | SpdkBdevGetBlockSize _ | SpdkBdevGetBufAlign _
  | SpdkBdevGetWriteUnitSize _ => Z
  | SpdkBdevHasWriteCache _ => bool
  | SpdkBdevGetName _ => string
  | SpdkVtophys _ _ => option Z
  | SpdkIoOutcome _ => handle * bool
  | BackendSubmit _ _ _ _ _ | SpdkBdevRegister _ => Z
  | SpdkBdevUnregister _ _ | DeleteCallback _ _ _ | SchedYield => unit
  | SpdkBdevIoComplete _ _ | SpdkBdevIoGetBuf _ _ => unit
  | SpdkDmaMalloc _ _ | SpdkDmaZmalloc _ _ => Z
  | InlineCompletion _ => bool
  | SpdkDmaFree _ | BatchCallback _ _ _ _ _ => unit
  | SpdkBdevRead _ _ _ _ _ _ | SpdkBdevWrite _ _ _ _ _ _ | SpdkBdevFlush _ _ _ _ _
  | SpdkBdevQueueIoWait _ _ _ | SpdkBdevIoGetAioStatus _ => Z
  | SpdkBdevClose _ | SpdkPutIoChannel _ | SpdkBdevFreeIo _
  | IoCallback _ _ _ _ | EventCallback _ _ _ _ => unit
  | PthreadSetcancelstate _ | PthreadMutexInit | PthreadCondInit | PthreadCondDestroy
  | PthreadMutexDestroy | PthreadMutexLock
  | PthreadCreate | SpdkThreadSendMsg _ _ _ => Z
  | SpdkNvmeDefaultHostnqn => string
  | SpdkBdevNvmeDefaultOpts => bool
  | SpdkBdevNvmeCreate _ _ | SpdkBdevNvmeDelete _ => Z
  | AttachOutcome _ => option (Z * Z * list string)
  | DetachOutcome _ => option Z
  | SpdkNvmfGetTgt _ | SpdkNvmfSubsystemCreate _ _ _ _ _ => option handle
  | SpdkNvmfTgtFindSubsystem _ _ => bool
  | SpdkNvmfSubsystemAddNs _ _ _ | SpdkNvmfSubsystemSetAllowAnyHost _
  | SpdkNvmfSubsystemAddHost _ _ | SpdkNvmfTgtListen _ _ _ | SpdkNvmfSubsystemStart _
  | SpdkNvmfSubsystemStop _ | SpdkNvmfSubsystemRemoveListener _ | SpdkNvmfTgtStopListen _
  | SpdkNvmfSubsystemDestroy _ => Z
  | SpdkNvmfSubsystemAddListener _ => unit
  | NvmfListenerAdded _ | NvmfStarted _ | NvmfStopped _ => option Z
  | NvmfDestroyed _ => option unit
  | SpdkThreadCreate _ => option thread
  | SpdkThreadExit _ | SpdkThreadBind _ | SpdkAppStop _ | SpdkAppFini
  | SpdkAppStart _ _ _ _ _ _ _ _ _ => unit
  | SpdkEnvGetCurrentCore | SpdkEnvGetCoreCount => Z
  | SpdkEnvForeachCore => list Z
  end.

#[export] Instance ExtSig : Sig := {| call_sig := ext_call; resp := ext_resp |}.

(** Answers of an unsigned C type lie in the range of that type. *)
Definition call_u64 {S} (c : ext_call) (view : ext_resp c -> Z) : M S Z :=
  let! r := call c in ret (u64 (view r)).

Definition call_u32 {S} (c : ext_call) (view : ext_resp c -> Z) : M S Z :=
  let! r := call c in ret (u32 (view r)).

(** Sizes of character arrays and names in SPDK's headers. *)
Class SpdkLimits := {
  SPDK_NVMF_TRADDR_MAX_LEN : Z;
  SPDK_NVMF_TRSVCID_MAX_LEN : Z;
  SPDK_NVMF_NQN_MAX_LEN : Z;
  SPDK_NVME_CTRLR_SN_LEN : Z;
  SPDK_NVME_CTRLR_MN_LEN : Z;
  NVMF_TGT_NAME_MAX_LENGTH : Z;
}.

(** ** C strings *)

(** [strlen]: up to the first NUL. *)
Fixpoint strlen (s : string) : Z :=
  match s with
  | EmptyString => 0
  | String a s => if Ascii.eqb a Ascii.zero then 0 else 1 + strlen s
  end.

Definition strnlen (s : string) (n : Z) : Z := Z.min (strlen s) n.

Lemma strlen_nonneg s : 0 <= strlen s.
Proof. induction s as [|a s IH]; simpl; [done|]. destruct (Ascii.eqb a Ascii.zero); lia. Qed.

(** ** A concrete environment, in which every call succeeds *)

Definition sample_oracle (h : list event) (c : ext_call) : ext_resp c :=
  match c as c return ext_resp c with
  | SpdkBdevOpenExt _ _ _ => (0, 7%nat)
  | SpdkBdevDescGetBdev _ => 8%nat
  | SpdkBdevIoTypeSupported _ _ => true
  | SpdkBdevGetMdSize _ => 0
  | SpdkBdevIsZoned _ => false
  | SpdkBdevGetIoChannel _ => 9%nat
  | SpdkBdevGetNumBlocks _ => 1024
  | SpdkBdevGetBlockSize _ => 512
  | SpdkBdevGetBufAlign _ => 8
  | SpdkBdevGetWriteUnitSize _ => 1
  | SpdkBdevHasWriteCache _ => true
  | SpdkBdevGetName _ => "bdev0"%string
  | SpdkVtophys _ size => Some size
  | SpdkIoOutcome _ => (6%nat, true)
  | BackendSubmit _ _ _ _ _ | SpdkBdevRegister _ => 0
  | SpdkBdevUnregister _ _ | DeleteCallback _ _ _ | SchedYield => tt
  | SpdkBdevIoComplete _ _ | SpdkBdevIoGetBuf _ _ => tt
  | SpdkDmaMalloc _ _ | SpdkDmaZmalloc _ _ => 65536
  | InlineCompletion _ => false
  | SpdkDmaFree _ | BatchCallback _ _ _ _ _ => tt
  | SpdkNvmeDefaultHostnqn => "host"%string
  | SpdkBdevNvmeDefaultOpts => true
  | SpdkBdevNvmeCreate _ _ | SpdkBdevNvmeDelete _ => 0
  | AttachOutcome _ => Some (1, 0, ["n0"%string])
  | DetachOutcome _ => Some 0
  | SpdkNvmfGetTgt _ => Some 11%nat
  | SpdkNvmfSubsystemCreate _ _ _ _ _ => Some 12%nat
  | SpdkNvmfTgtFindSubsystem _ _ => false
  | SpdkNvmfSubsystemAddNs _ _ nsid => nsid
  | SpdkNvmfSubsystemSetAllowAnyHost _
  | SpdkNvmfSubsystemAddHost _ _ | SpdkNvmfTgtListen _ _ _ | SpdkNvmfSubsystemStart _
  | SpdkNvmfSubsystemStop _ | SpdkNvmfSubsystemRemoveListener _ | SpdkNvmfTgtStopListen _
  | SpdkNvmfSubsystemDestroy _ => 0
  | SpdkNvmfSubsystemAddListener _ => tt
  | NvmfListenerAdded _ | NvmfStarted _ | NvmfStopped _ => Some 0
  | NvmfDestroyed _ => Some tt
  | SpdkThreadCreate core => Some (Z.to_nat core)
  | SpdkEnvGetCurrentCore => 1
  | SpdkEnvGetCoreCount => 3
  | SpdkEnvForeachCore => [0; 1; 2]
  | SpdkBdevRead _ _ _ _ _ _ | SpdkBdevWrite _ _ _ _ _ _ | SpdkBdevFlush _ _ _ _ _
  | SpdkBdevQueueIoWait _ _ _ | SpdkBdevIoGetAioStatus _
  | PthreadSetcancelstate _ | PthreadMutexInit | PthreadCondInit | PthreadCondDestroy
  | PthreadMutexDestroy | PthreadMutexLock
  | PthreadCreate | SpdkThreadSendMsg _ _ _ => 0
  | SpdkBdevClose _ | SpdkPutIoChannel _ | SpdkBdevFreeIo _
  | IoCallback _ _ _ _ | EventCallback _ _ _ _
  | SpdkThreadExit _ | SpdkThreadBind _ | SpdkAppStop _ | SpdkAppFini
  | SpdkAppStart _ _ _ _ _ _ _ _ _ => tt
  end.

Definition sample_env (t : option thread) : env := Env t sample_oracle (fun _ => true).

Definition sample_limits : SpdkLimits := {|
  SPDK_NVMF_TRADDR_MAX_LEN := 256;
  SPDK_NVMF_TRSVCID_MAX_LEN := 32;
  SPDK_NVMF_NQN_MAX_LEN := 223;
  SPDK_NVME_CTRLR_SN_LEN := 20;
  SPDK_NVME_CTRLR_MN_LEN := 40;
  NVMF_TGT_NAME_MAX_LENGTH := 256;
|}.
