(* ===== verification/Handshake.v ===== *)
(** * Handshake: blocking commands between a client thread and an SPDK thread

    [dispatch_command] of bdev_dispatcher.c, [dispatch_provider_command] of
    bdev_provider.c and [dispatch_command] of nvme_controller.c share one
    protocol.  The client puts a command on its stack, sends it to the owner
    thread and waits until [completed && !owner_active].  The owner runs the
    command; its completion comes from the command itself or later from an I/O
    callback, possibly on another thread; [owner_done] is the owner's last access.
    The sections between [pthread_mutex_lock] and [pthread_mutex_unlock] are
    single steps; [pthread_cond_wait] may wake spuriously.

    The plain variant of nvmf_tcp_export.c has no [owner_active]: there
    [complete_command] is itself the last access. *)

From S2P Require Import Prelude.

(** ** Data *)

Record command := Command {
  completed : bool;
  owner_active : bool;
  status : Z;
}.

(** [command->completed = false; command->owner_active = true; status = 0]. *)
Definition command_init : command := Command false true 0.

(** ** The locked sections *)

(** The new command and whether the condition was signalled; [None] is the
    failed [assert(!command->completed)]. *)
Definition complete_command (c : command) (st : Z) : option (command * bool) :=
  if completed c then None
  else
    let c := Command true (owner_active c) st in
    Some (c, negb (owner_active c)).

Definition owner_done (c : command) : command * bool :=
  let c := Command (completed c) false (status c) in
  (c, completed c).

(** The negation of the [while] condition of the waiting client. *)
Definition wait_over (c : command) : bool :=
  negb (negb (completed c) || owner_active c).

(** ** Threads *)

Inductive waiter_pc :=
  | WChecking
  | WSleeping
  | WReturned (st : Z).

Inductive owner_pc :=
  | OQueued
  | ORunning
  | OReturning
  | OFinished.

(** The I/O a command may have submitted. *)
Inductive io_state :=
  | IoNone
  | IoPending
  | IoDelivered.

Record sys := Sys {
  cmd : command;
  waiter : waiter_pc;
  ownr : owner_pc;
  io : io_state;
}.

Definition sys_init : sys := Sys command_init WChecking OQueued IoNone.

Definition wake (signal : bool) (w : waiter_pc) : waiter_pc :=
  match w with
  | WSleeping => if signal then WChecking else WSleeping
  | w => w
  end.

(** One turn of the waiting loop. *)
Definition check (c : command) : waiter_pc :=
  if wait_over c then WReturned (status c) else WSleeping.

(** Steps that make progress; [HsSpurious] is apart. *)
Inductive hs_step : sys -> sys -> Prop :=
  | HsRun c w i : hs_step (Sys c w OQueued i) (Sys c w ORunning i)
  | HsComplete c c' sg w i st :
      complete_command c st = Some (c', sg) ->
      hs_step (Sys c w ORunning i) (Sys c' (wake sg w) OReturning i)
  | HsSubmit c w :
      hs_step (Sys c w ORunning IoNone) (Sys c w OReturning IoPending)
  | HsIo c c' sg w o st :
      complete_command c st = Some (c', sg) ->
      hs_step (Sys c w o IoPending) (Sys c' (wake sg w) o IoDelivered)
  | HsOwnerDone c w i :
      hs_step (Sys c w OReturning i)
              (Sys (owner_done c).1 (wake (owner_done c).2 w) OFinished i)
  | HsCheck c o i :
      hs_step (Sys c WChecking o i) (Sys c (check c) o i).

Inductive hs_spurious : sys -> sys -> Prop :=
  | HsSpurious c o i : hs_spurious (Sys c WSleeping o i) (Sys c WChecking o i).

Definition hs_any (s s' : sys) : Prop := hs_step s s' \/ hs_spurious s s'.

(** Another thread is about to access the command. *)
Definition will_access (s : sys) : Prop :=
  ownr s <> OFinished \/ io s = IoPending.

(** ** The promise of the protocol *)

(** A blocking call as the client sees it. *)
Inductive call_state :=
  | Calling
  | Completed (st : Z)
  | Returned (st : Z).

Inductive call_step : call_state -> call_state -> Prop :=
  | CallCompletes st : call_step Calling (Completed st)
  | CallReturns st : call_step (Completed st) (Returned st).

Definition call_view (s : sys) : call_state :=
  match waiter s with
  | WReturned st => Returned st
  | _ => if completed (cmd s) then Completed (status (cmd s)) else Calling
  end.

#[export] Instance owner_pc_eq : EqDecision owner_pc.
Proof. solve_decision. Defined.
#[export] Instance io_state_eq : EqDecision io_state.
Proof. solve_decision. Defined.

(** ** Invariant *)

Definition hs_inv (s : sys) : bool :=
  let finished := bool_decide (ownr s = OFinished) in
  let body_over := finished || bool_decide (ownr s = OReturning) in
  Bool.eqb (owner_active (cmd s)) (negb finished)
  && Bool.eqb (completed (cmd s)) (body_over && bool_decide (io s <> IoPending))
  && (body_over || bool_decide (io s = IoNone))
  && match waiter s with
     | WChecking => true
     | WSleeping => negb (wait_over (cmd s))
     | WReturned st => wait_over (cmd s) && (status (cmd s) =? st)
     end.

(** Remaining work, in half steps. *)
Definition hs_measure (s : sys) : nat :=
  (2 * (match ownr s with OQueued => 4 | ORunning => 3 | OReturning => 1 | OFinished => 0 end
        + match io s with IoPending => 1 | _ => 0 end)
   + match waiter s with WChecking => 1 | _ => 0 end)%nat.

(** ** Lemmas *)

Lemma hs_init_inv : hs_inv sys_init = true.
Proof. reflexivity. Qed.

(** Enumerate the control states of a step. *)
Ltac hs_enum :=
  repeat match goal with
  | c : command |- _ => destruct c as [[] [] ?]
  | w : waiter_pc |- _ => destruct w
  | o : owner_pc |- _ => destruct o
  | i : io_state |- _ => destruct i
  end; unfold complete_command, owner_done, check, wait_over in *; simpl in *; simplify_eq.

Lemma hs_any_inv s s' : hs_inv s = true -> hs_any s s' -> hs_inv s' = true.
Proof.
  intros Hi [Hstep|Hstep]; destruct Hstep; hs_enum; unfold hs_inv in *; simpl in *;
    try discriminate; rewrite ?Z.eqb_refl; done.
Qed.

Lemma hs_reach_inv s : rtc hs_any sys_init s -> hs_inv s = true.
Proof.
  intros Hr. assert (forall x, rtc hs_any x s -> hs_inv x = true -> hs_inv s = true) as Hall.
  { intros x Hx. induction Hx; eauto using hs_any_inv. }
  eapply Hall; [exact Hr|apply hs_init_inv].
Qed.

Lemma hs_step_decreases s s' : hs_step s s' -> (hs_measure s' < hs_measure s)%nat.
Proof. intros Hs. destruct Hs; hs_enum; unfold hs_measure; simpl; lia. Qed.

Lemma hs_progress s :
  hs_inv s = true -> (forall st, waiter s <> WReturned st) -> exists s', hs_step s s'.
Proof.
  intros Hi Hw. destruct s as [c w o i]. simpl in *. destruct w as [| |st].
  - eexists. constructor.
  - destruct o; [eexists; constructor| | |].
    + hs_enum; unfold hs_inv in Hi; simpl in Hi; try discriminate.
      eexists. eapply (HsComplete _ _ _ _ _ 0). reflexivity.
    + eexists. constructor.
    + hs_enum; unfold hs_inv in Hi; simpl in Hi; try discriminate.
      eexists. eapply (HsIo _ _ _ _ _ 0). reflexivity.
  - by destruct (Hw st).
Qed.

(** ** Properties *)

(** C12: The command lives on the client's stack: once the client has returned, no
    thread will access it any more, and as long as another thread has to complete
    it the assertion [!completed] of [complete_command] holds. *)
Theorem handshake_no_access_after_return s :
  rtc hs_any sys_init s ->
  (forall st, waiter s = WReturned st -> ~ will_access s) /\
  (forall st, ownr s = ORunning \/ io s = IoPending ->
     exists c sg, complete_command (cmd s) st = Some (c, sg)).
Proof.
  intros Hr. apply hs_reach_inv in Hr. destruct s as [c w o i]. unfold will_access. split.
  - simpl. intros st ->. hs_enum; unfold hs_inv in Hr; simpl in Hr; try discriminate;
      intros [?|?]; congruence.
  - simpl. intros st Ho. hs_enum; unfold hs_inv in Hr; simpl in Hr; try discriminate;
      destruct Ho; try discriminate; eauto.
Qed.

(** C13: No wake-up is lost: a sleeping client still has to wait, so the thread
    that makes the condition true finds it asleep and signals it. *)
Theorem handshake_no_lost_wakeup s :
  rtc hs_any sys_init s -> waiter s = WSleeping -> wait_over (cmd s) = false /\ will_access s.
Proof.
  intros Hr Hw. apply hs_reach_inv in Hr. destruct s as [c w o i]. simpl in *. subst w.
  unfold will_access. hs_enum; unfold hs_inv in Hr; simpl in Hr; try discriminate; auto.
Qed.


(** C15: The handshake refines a blocking call: seen from the client every step of
    the two threads is invisible, the completion of the call or its return with
    the completion status. *)
Theorem handshake_refines_call s s' :
  rtc hs_any sys_init s -> hs_any s s' ->
  call_view s' = call_view s \/ call_step (call_view s) (call_view s').
Proof.
  intros Hr Hs. apply hs_reach_inv in Hr. destruct Hs as [Hs|Hs]; destruct Hs; hs_enum;
    unfold hs_inv in Hr; simpl in Hr; try discriminate; unfold call_view; simpl; auto;
    right; constructor.
Qed.

(** ** The properties at concrete inputs *)

(** The owner submits an I/O whose completion comes before [owner_done]. *)
Definition sample_sleeping : sys := Sys (Command true true (-5)) WSleeping OReturning IoDelivered.
Definition sample_returned : sys := Sys (Command true false (-5)) (WReturned (-5)) OFinished IoDelivered.

Lemma sample_sleeping_reachable : rtc hs_any sys_init sample_sleeping.
Proof.
  eapply rtc_l. { left. apply HsCheck. }
  eapply rtc_l. { left. apply HsRun. }
  eapply rtc_l. { left. apply HsSubmit. }
  eapply rtc_l. { left. by apply (HsIo _ (Command true true (-5)) false _ _ (-5)). }
  apply rtc_refl.
Qed.

Lemma sample_returned_reachable : rtc hs_any sys_init sample_returned.
Proof.
  eapply rtc_r.
  - eapply rtc_r; [exact sample_sleeping_reachable|]. left. apply HsOwnerDone.
  - left. apply HsCheck.
Qed.

Lemma handshake_no_access_after_return_witness : ~ will_access sample_returned.
Proof.
  destruct (handshake_no_access_after_return sample_returned sample_returned_reachable) as [H _].
  exact (H (-5) eq_refl).
Defined.

Lemma handshake_no_lost_wakeup_witness :
  wait_over (cmd sample_sleeping) = false /\ will_access sample_sleeping.
Proof. apply (handshake_no_lost_wakeup sample_sleeping sample_sleeping_reachable). reflexivity. Defined.


Lemma handshake_refines_call_witness :
  let s' := Sys (Command true false (-5)) WChecking OFinished IoDelivered in
  call_view s' = call_view sample_sleeping \/ call_step (call_view sample_sleeping) (call_view s').
Proof.
  apply (handshake_refines_call sample_sleeping _ sample_sleeping_reachable).
  left. apply HsOwnerDone.
Defined.
