(* ===== verification/Blocking.v ===== *)
(** * Blocking: setting up and tearing down a blocking command

    The [dispatch_command] functions of bdev_dispatcher.c, bdev_provider.c,
    nvmf_tcp_export.c and nvme_controller.c begin and end with the same calls:
    they refuse to run on an SPDK thread, disable cancellation and create the
    mutex and the condition of the command, undoing the earlier steps when a later
    one fails; once the command is over they destroy both and restore the
    cancellation state.  What happens between is the protocol of Handshake.v. *)

From S2P Require Import Prelude Effects Externals.

(** The calls before the message; a negative error, or 0. *)
Definition command_setup {S} : M S Z :=
  let! t := spdk_get_thread in
  if negb (is_null t) then ret (- EDEADLK) else
  let! rc := call (PthreadSetcancelstate true) in
  if rc !=? 0 then ret (- rc) else
  let! rc := call PthreadMutexInit in
  if rc !=? 0 then call (PthreadSetcancelstate false) ;;; ret (- rc) else
  let! rc := call PthreadCondInit in
  if rc !=? 0 then
    call PthreadMutexDestroy ;;; call (PthreadSetcancelstate false) ;;; ret (- rc)
  else ret 0.

(** The calls behind the wait. *)
Definition command_cleanup {S} : M S unit :=
  let! rc := call PthreadCondDestroy in
  assert (rc =? 0) ;;;
  let! rc := call PthreadMutexDestroy in
  assert (rc =? 0) ;;;
  let! rc := call (PthreadSetcancelstate false) in
  assert (rc =? 0).

(** POSIX: destroying a mutex that is not locked or a condition nobody waits on,
    and restoring a cancellation state, succeed. *)
Record posix_ok (e : env) : Prop := {
  cond_destroy_ok : forall h, oracle e h PthreadCondDestroy = 0;
  mutex_destroy_ok : forall h, oracle e h PthreadMutexDestroy = 0;
  restore_ok : forall h, oracle e h (PthreadSetcancelstate false) = 0;
}.

(** SPDK accepts messages to its threads. *)
Definition sends_accepted (e : env) : Prop :=
  forall h t fn x, oracle e h (SpdkThreadSendMsg t fn x) = 0.

(** Calls of pthread.h. *)
Definition is_pthread (ev : event) : Prop :=
  match ev with
  | EvCall (PthreadSetcancelstate _) _ | EvCall PthreadMutexInit _ | EvCall PthreadCondInit _
  | EvCall PthreadCondDestroy _ | EvCall PthreadMutexDestroy _ => True
  | _ => False
  end.

(** [h'] is [h] and more calls of pthread.h. *)
Definition synced (h h' : list event) : Prop := exists k, h' = k ++ h /\ Forall is_pthread k.

Lemma synced_refl h : synced h h.
Proof. by exists []. Qed.

Lemma synced_cons h h' ev : synced h h' -> is_pthread ev -> synced h (ev :: h').
Proof. intros (k & -> & Hk) Hev. exists (ev :: k). split; [done|]. by constructor. Qed.

Lemma synced_suffix h h' : synced h h' -> h `suffix_of` h'.
Proof. intros (k & -> & _). by exists k. Qed.

Ltac solve_synced := repeat (apply synced_cons; [|exact I]); apply synced_refl.

Section Rules.
Context {S : Type}.
Implicit Types (c : conf S).

Lemma wp_setup_sync e c Q :
  (forall rc h, rc <> 0 -> synced (hist c) h -> Q (Done rc) (Conf (store c) (live c) h)) ->
  (forall h, cur_thread e = None -> synced (hist c) h -> Q (Done 0) (Conf (store c) (live c) h)) ->
  wp command_setup e c Q.
Proof.
  intros Hno Hgo. destruct c as [s l h]. simpl in *. unfold command_setup.
  wp_step. wp_step. wp_if as Ht; [wp_step; apply Hno; [done|solve_synced]|].
  do 2 wp_step. wp_if as H1; [wp_step; breflect; apply Hno; [lia|solve_synced]|].
  do 2 wp_step. wp_if as H2; [do 3 wp_step; breflect; apply Hno; [lia|solve_synced]|].
  do 2 wp_step. wp_if as H3; [do 5 wp_step; breflect; apply Hno; [lia|solve_synced]|].
  wp_step. apply Hgo; [by destruct (cur_thread e)|solve_synced].
Qed.

Lemma wp_cleanup_sync e c Q :
  posix_ok e ->
  (forall h, synced (hist c) h -> Q (Done tt) (Conf (store c) (live c) h)) ->
  wp command_cleanup e c Q.
Proof.
  intros [Hc Hm Hr] HQ. destruct c as [s l h]. simpl in *. unfold command_cleanup.
  wp_step. wp_known Hc. wp_step. apply wp_assert; [done|].
  wp_step. wp_known Hm. wp_step. apply wp_assert; [done|].
  wp_step. wp_known Hr. apply wp_assert; [done|]. apply HQ. solve_synced.
Qed.

Lemma wp_setup e c Q :
  (forall rc h, rc <> 0 -> hist c `suffix_of` h -> Q (Done rc) (Conf (store c) (live c) h)) ->
  (forall h, cur_thread e = None -> hist c `suffix_of` h -> Q (Done 0) (Conf (store c) (live c) h)) ->
  wp command_setup e c Q.
Proof. intros Hno Hgo. apply wp_setup_sync; intros; [apply Hno|apply Hgo]; auto using synced_suffix. Qed.

Lemma wp_cleanup e c Q :
  posix_ok e ->
  (forall h, hist c `suffix_of` h -> Q (Done tt) (Conf (store c) (live c) h)) ->
  wp command_cleanup e c Q.
Proof. intros Hpx HQ. apply wp_cleanup_sync; [done|]. intros; apply HQ; auto using synced_suffix. Qed.

End Rules.

Lemma sample_posix_ok t : posix_ok (sample_env t).
Proof. by split. Qed.
