(* ===== verification/Lease.v ===== *)
(** * Lease: what a runtime promises to its clients

    The dispatcher, the provider, the export and the controller reach the runtime
    only through [zettide_spdk_runtime_acquire], [_acquire_dispatcher] and
    [_release].  The class states what they rely on; Runtime.v discharges it for
    the model of runtime.c. *)

From S2P Require Import Prelude Effects Externals.

(** Operations on one runtime and their laws.  [rl_leases] counts the leases
    held; [rl_ok] is what a client relies on. *)
Class RuntimeLease (R : Type) := {
  rl_acquire : ptr -> M R (Z * option thread);
  rl_acquire_dispatcher : ptr -> M R (Z * option thread);
  rl_release : ptr -> M R unit;
  rl_leases : ptr -> R -> Z;
  rl_ok : ptr -> R -> Prop;
  rl_leases_nonneg : forall p r, rl_ok p r -> 0 <= rl_leases p r;
  rl_acquire_law : forall p e (c : conf R), rl_ok p (store c) ->
    rl_leases p (store c) < UINT64_MAX ->
    wp (rl_acquire p) e c (returns (fun '(rc, o) c' =>
      rl_ok p (store c') /\ live c' = live c /\ hist c' = hist c /\
      (rc = 0 /\ is_Some o /\ rl_leases p (store c') = rl_leases p (store c) + 1 \/
       rc <> 0 /\ o = None /\ rl_leases p (store c') = rl_leases p (store c))));
  rl_acquire_dispatcher_law : forall p e (c : conf R), rl_ok p (store c) ->
    rl_leases p (store c) < UINT64_MAX ->
    wp (rl_acquire_dispatcher p) e c (returns (fun '(rc, o) c' =>
      rl_ok p (store c') /\ live c' = live c /\ hist c' = hist c /\
      (rc = 0 /\ is_Some o /\ rl_leases p (store c') = rl_leases p (store c) + 1 \/
       rc <> 0 /\ o = None /\ rl_leases p (store c') = rl_leases p (store c))));
  rl_release_law : forall p e (c : conf R), rl_ok p (store c) ->
    0 < rl_leases p (store c) ->
    wp (rl_release p) e c (returns (fun _ c' =>
      rl_ok p (store c') /\ live c' = live c /\ hist c' = hist c /\
      rl_leases p (store c') = rl_leases p (store c) - 1));
}.
