(* ===== verification/Runtime.v ===== *)
(** * Runtime: services/data-node/spdk/runtime.c

    One SPDK application per process, run by a thread of its own.  Clients hold
    leases on a runtime that is [READY]; [stop] is refused while a lease is held.
    The sections under [runtime->mutex] are pure functions on the struct; the
    functions around them are computations on the store.  Below them
    [rt_step] interleaves the sections of concurrent calls. *)

From S2P Require Import Prelude Effects Externals Blocking Lease.

(** ** Data *)

Inductive runtime_state :=
  | RUNTIME_STARTING
  | RUNTIME_READY
  | RUNTIME_STOPPING
  | RUNTIME_STOPPED
  | RUNTIME_FAILED.

#[export] Instance runtime_state_eq : EqDecision runtime_state.
Proof. solve_decision. Defined.

(** The options the runtime keeps for its application. *)
Record app_config := AppConfig {
  ac_name : option string;
  ac_reactor_mask : option string;
  ac_json_data_size : Z;
  ac_mem_size_mb : Z;
  ac_no_pci : bool;
  ac_no_huge : bool;
  ac_disable_cpumask_locks : bool;
}.

(** The struct; [f_...] are the addresses of its heap copies, [rt_config] the strings
    in them and the other options. *)
Record runtime := Runtime {
  rt_state : runtime_state;
  owner : option thread;
  dispatcher_owners : list (option thread);
  dispatcher_owner_count : Z;
  next_dispatcher_owner : Z;
  dispatcher_owners_stopping : Z;
  active_leases : Z;
  app_status : Z;
  f_name : option ptr;
  f_reactor_mask : option ptr;
  f_json_data : option ptr;
  f_dispatcher_owners : option ptr;
  rt_config : app_config;
}.

Record runtime_opts := RuntimeOpts {
  opts_size : Z;
  o_name : option string;
  o_reactor_mask : option string;
  o_json_data : option ptr;
  o_json_data_size : Z;
  o_mem_size_mb : Z;
  o_no_pci : bool;
  o_no_huge : bool;
  o_disable_signal_handlers : bool;
  o_disable_cpumask_locks : bool;
  o_retired_vhost_socket_path : option string;
}.

(** [sizeof(struct zettide_spdk_runtime_opts)] on LP64. *)
Definition sizeof_runtime_opts : Z := 56.

Definition zettide_spdk_runtime_opts_init (opts : bool) (size : Z) : opts_init_result runtime_opts :=
  if negb opts || (size =? 0) then OptsUntouched
  else if size >=? sizeof_runtime_opts then
    OptsInitialised (RuntimeOpts size None None None 0 0 false false true false None)
  else OptsCleared size.

Record RtStore := RtS {
  g_runtime_active : bool;
  runtimes : gmap ptr runtime;
}.

(** ** Field updates *)

Definition set_state (st : runtime_state) (r : runtime) : runtime :=
  Runtime st (owner r) (dispatcher_owners r) (dispatcher_owner_count r)
    (next_dispatcher_owner r) (dispatcher_owners_stopping r) (active_leases r)
    (app_status r) (f_name r) (f_reactor_mask r) (f_json_data r) (f_dispatcher_owners r) (rt_config r).

Definition set_owner (t : option thread) (r : runtime) : runtime :=
  Runtime (rt_state r) t (dispatcher_owners r) (dispatcher_owner_count r)
    (next_dispatcher_owner r) (dispatcher_owners_stopping r) (active_leases r)
    (app_status r) (f_name r) (f_reactor_mask r) (f_json_data r) (f_dispatcher_owners r) (rt_config r).

Definition set_owners (l : list (option thread)) (n : Z) (r : runtime) : runtime :=
  Runtime (rt_state r) (owner r) l n (next_dispatcher_owner r)
    (dispatcher_owners_stopping r) (active_leases r)
    (app_status r) (f_name r) (f_reactor_mask r) (f_json_data r) (f_dispatcher_owners r) (rt_config r).

Definition set_next (n : Z) (r : runtime) : runtime :=
  Runtime (rt_state r) (owner r) (dispatcher_owners r) (dispatcher_owner_count r) n
    (dispatcher_owners_stopping r) (active_leases r)
    (app_status r) (f_name r) (f_reactor_mask r) (f_json_data r) (f_dispatcher_owners r) (rt_config r).

Definition set_stopping (n : Z) (r : runtime) : runtime :=
  Runtime (rt_state r) (owner r) (dispatcher_owners r) (dispatcher_owner_count r)
    (next_dispatcher_owner r) n (active_leases r)
    (app_status r) (f_name r) (f_reactor_mask r) (f_json_data r) (f_dispatcher_owners r) (rt_config r).

Definition set_leases (n : Z) (r : runtime) : runtime :=
  Runtime (rt_state r) (owner r) (dispatcher_owners r) (dispatcher_owner_count r)
    (next_dispatcher_owner r) (dispatcher_owners_stopping r) n
    (app_status r) (f_name r) (f_reactor_mask r) (f_json_data r) (f_dispatcher_owners r) (rt_config r).

Definition set_app_status (st : Z) (r : runtime) : runtime :=
  Runtime (rt_state r) (owner r) (dispatcher_owners r) (dispatcher_owner_count r)
    (next_dispatcher_owner r) (dispatcher_owners_stopping r) (active_leases r)
    st (f_name r) (f_reactor_mask r) (f_json_data r) (f_dispatcher_owners r) (rt_config r).

Definition set_fields (n m j d : option ptr) (r : runtime) : runtime :=
  Runtime (rt_state r) (owner r) (dispatcher_owners r) (dispatcher_owner_count r)
    (next_dispatcher_owner r) (dispatcher_owners_stopping r) (active_leases r)
    (app_status r) n m j d (rt_config r).

Definition set_config (x : app_config) (r : runtime) : runtime :=
  Runtime (rt_state r) (owner r) (dispatcher_owners r) (dispatcher_owner_count r)
    (next_dispatcher_owner r) (dispatcher_owners_stopping r) (active_leases r)
    (app_status r) (f_name r) (f_reactor_mask r) (f_json_data r) (f_dispatcher_owners r) x.

(** The struct as [calloc] returns it. *)
Definition runtime_zero : runtime :=
  Runtime RUNTIME_STARTING None [] 0 0 0 0 0 None None None None (AppConfig None None 0 0 false false false).

(** ** Sections under the runtime's mutex *)

(** [runtime_started]: the outcome of the start-up, [None] when the assertion on
    the state fails. *)
Definition started_section (status : Z) (r : runtime) : option runtime :=
  if decide (rt_state r = RUNTIME_STARTING) then
    Some (if status =? 0 then set_state RUNTIME_READY r else set_app_status status r)
  else None.

(** [run_runtime] after [spdk_app_start] returned [status]. *)
Definition exit_section (status : Z) (r : runtime) : option runtime :=
  let r := set_owner None (set_app_status status r) in
  match rt_state r with
  | RUNTIME_STARTING => Some (set_state RUNTIME_FAILED r)
  | RUNTIME_STOPPING => Some r
  | RUNTIME_READY => Some (set_state RUNTIME_FAILED r)
  | _ => None
  end.

(** First section of [zettide_spdk_runtime_stop]: the status it returns at once,
    or the struct in state [STOPPING] and the owner to notify. *)
Definition stop_section (r : runtime) : Z + (runtime * option thread) :=
  match rt_state r with
  | RUNTIME_STOPPED => inl 0
  | RUNTIME_FAILED =>
      if active_leases r !=? 0 then inl (- EIO)
      else inr (set_state RUNTIME_STOPPING r, None)
  | RUNTIME_READY =>
      if active_leases r !=? 0 then inl (- EBUSY)
      else inr (set_state RUNTIME_STOPPING r, owner r)
  | _ => inl (- EALREADY)
  end.

(** The section after [pthread_join]: [None] is the failed assertion. *)
Definition stopped_section (r : runtime) : option (runtime * Z) :=
  if decide (rt_state r = RUNTIME_STOPPING) then
    Some (set_state RUNTIME_STOPPED r, app_status r)
  else None.

(** Status and the value stored in [*owner_out]. *)
Definition acquire_section (r : runtime) : Z * option thread * runtime :=
  if decide (rt_state r = RUNTIME_READY) then
    (0, owner r, set_leases (u64 (active_leases r + 1)) r)
  else (- ESHUTDOWN, None, r).

Definition acquire_dispatcher_section (r : runtime)
    : option (Z * option thread * runtime) :=
  if decide (rt_state r = RUNTIME_READY) then
    if dispatcher_owner_count r >? 0 then
      match dispatcher_owners r !! Z.to_nat (next_dispatcher_owner r) with
      | None => None
      | Some t =>
          Some (0, t, set_leases (u64 (active_leases r + 1))
                 (set_next (u64 (next_dispatcher_owner r + 1) mod dispatcher_owner_count r) r))
      end
    else None
  else Some (- ESHUTDOWN, None, r).

Definition release_section (r : runtime) : option runtime :=
  if active_leases r >? 0 then Some (set_leases (u64 (active_leases r - 1)) r) else None.

(** ** Store access *)

Definition get_rt (p : ptr) : M RtStore runtime :=
  let! s := get in deref (runtimes s !! p).

Definition put_rt (p : ptr) (r : runtime) : M RtStore unit :=
  modify (fun s => RtS (g_runtime_active s) (<[p:=r]> (runtimes s))).

Definition lift_section (p : ptr) (o : option runtime) : M RtStore unit :=
  match o with None => fail AssertFailed | Some r => put_rt p r end.

(** ** Reactor threads *)

Definition dispatcher_owner_stopped (p : ptr) : M RtStore unit :=
  let! r := get_rt p in
  let! t := spdk_get_thread in
  assert (bool_decide (t = owner r)) ;;;
  assert (dispatcher_owners_stopping r >? 0) ;;;
  let r := set_stopping (dispatcher_owners_stopping r - 1) r in
  put_rt p r ;;;
  if dispatcher_owners_stopping r =? 0 then call (SpdkAppStop (app_status r)) else ret tt.

Definition stop_dispatcher_owner (p : ptr) : M RtStore unit :=
  let! t := spdk_get_thread in
  call (SpdkThreadExit t) ;;;
  let! r := get_rt p in
  let! o := deref (owner r) in
  let! status := call (SpdkThreadSendMsg o FnDispatcherOwnerStopped p) in
  if status !=? 0 then call (SpdkAppStop status) else ret tt.

(** The [for] loop of [stop_dispatcher_owners], [todo] owners from [index] on. *)
Fixpoint send_stops (p : ptr) (todo index : nat) : M RtStore unit :=
  match todo with
  | O => ret tt
  | S todo =>
      let! r := get_rt p in
      match dispatcher_owners r !! index with
      | None => fail BadIndex
      | Some o =>
          let! o := deref o in
          let! status := call (SpdkThreadSendMsg o FnStopDispatcherOwner p) in
          if status !=? 0 then call (SpdkAppStop status) else send_stops p todo (S index)
      end
  end.

Definition stop_dispatcher_owners (p : ptr) : M RtStore unit :=
  let! r := get_rt p in
  let! t := spdk_get_thread in
  assert (bool_decide (t = owner r)) ;;;
  assert (dispatcher_owners_stopping r =? 0) ;;;
  if dispatcher_owner_count r <? 2 then call (SpdkAppStop (app_status r)) else
  put_rt p (set_stopping (dispatcher_owner_count r - 1) r) ;;;
  send_stops p (Z.to_nat (dispatcher_owner_count r - 1)) 1.

Definition stop_runtime (p : ptr) : M RtStore unit := stop_dispatcher_owners p.

Definition bind_dispatcher_owner : M RtStore unit :=
  let! t := spdk_get_thread in call (SpdkThreadBind t).

(** [runtime->dispatcher_owners[i] = t] with [i] in the allocated array. *)
Definition write_owner (p : ptr) (i : Z) (t : option thread) (n : Z) : M RtStore unit :=
  let! r := get_rt p in
  if (0 <=? i) && (i <? Z.of_nat (length (dispatcher_owners r))) then
    put_rt p (set_owners (<[Z.to_nat i:=t]> (dispatcher_owners r)) n r)
  else fail BadIndex.

(** The body of [SPDK_ENV_FOREACH_CORE]. *)
Fixpoint create_loop (p : ptr) (app_core : Z) (cores : list Z) : M RtStore Z :=
  match cores with
  | [] => ret 0
  | core :: rest =>
      if core =? app_core then create_loop p app_core rest else
      let! t := call (SpdkThreadCreate core) in
      match t with
      | None => ret (- ENOMEM)
      | Some t =>
          let! r := get_rt p in
          write_owner p (dispatcher_owner_count r) (Some t)
            (u64 (dispatcher_owner_count r + 1)) ;;;
          let! status := call (SpdkThreadSendMsg t FnBindDispatcherOwner 0%nat) in
          if status !=? 0 then ret status else create_loop p app_core rest
      end
  end.

Definition create_dispatcher_owners (p : ptr) : M RtStore Z :=
  let! app_core := call SpdkEnvGetCurrentCore in
  let! n := call SpdkEnvGetCoreCount in
  let! array := calloc in
  match array with
  | None => ret (- ENOMEM)
  | Some a =>
      let! r := get_rt p in
      put_rt p (set_fields (f_name r) (f_reactor_mask r) (f_json_data r) (Some a)
                 (set_owners (replicate (Z.to_nat n) None) (dispatcher_owner_count r) r)) ;;;
      write_owner p 0 (owner r) 1 ;;;
      let! cores := call SpdkEnvForeachCore in
      create_loop p app_core cores
  end.

Definition runtime_started (p : ptr) : M RtStore unit :=
  let! t := spdk_get_thread in
  let! r := get_rt p in
  put_rt p (set_owner t r) ;;;
  let! status := (if is_null t then ret (- EIO) else create_dispatcher_owners p) in
  let! r := get_rt p in
  lift_section p (started_section status r) ;;;
  if status !=? 0 then
    if is_null t then call (SpdkAppStop status) else stop_dispatcher_owners p
  else ret tt.

(** [run_runtime] after [spdk_app_start] returned: the last section and
    [spdk_app_fini]. *)
Definition run_runtime_exit (p : ptr) (status : Z) : M RtStore unit :=
  let! r := get_rt p in
  lift_section p (exit_section status r) ;;;
  call SpdkAppFini.

(** The thread of the runtime; [inside] is all that runs while [spdk_app_start] has
    not returned, and its status. *)
Definition run_runtime (inside : M RtStore Z) (p : ptr) : M RtStore unit :=
  let! r := get_rt p in
  let x := rt_config r in
  call (SpdkAppStart (ac_name x) (ac_reactor_mask x) (f_json_data r) (ac_json_data_size x) (ac_mem_size_mb x)
          (ac_no_pci x) (ac_no_huge x) true (ac_disable_cpumask_locks x)) ;;;
  let! status := inside in
  run_runtime_exit p status.

(** ** Starting *)

Definition release_process_slot : M RtStore unit :=
  let! s := get in
  assert (g_runtime_active s) ;;;
  modify (fun s => RtS false (runtimes s)).

Definition free_runtime_fields (r : runtime) : M RtStore unit :=
  free (f_dispatcher_owners r) ;;;
  free (f_json_data r) ;;;
  free (f_reactor_mask r) ;;;
  free (f_name r).

(** [free(runtime)] of the struct itself. *)
Definition free_struct (p : ptr) : M RtStore unit :=
  modify (fun s => RtS (g_runtime_active s) (delete p (runtimes s))) ;;;
  free (Some p).

Definition free_runtime (p : ptr) : M RtStore unit :=
  let! r := get_rt p in
  free_runtime_fields r ;;;
  let! rc := call PthreadCondDestroy in
  assert (rc =? 0) ;;;
  let! rc := call PthreadMutexDestroy in
  assert (rc =? 0) ;;;
  free_struct p.

(** An error exit of [zettide_spdk_runtime_start] between the allocation and the
    creation of the thread. *)
Definition start_fail (p : ptr) (status : Z) : M RtStore (Z + ptr) :=
  let! r := get_rt p in
  free_runtime_fields r ;;;
  free_struct p ;;;
  release_process_slot ;;;
  ret (inl status).

Definition opts_invalid (opts : option runtime_opts) (runtime_out : bool) : bool :=
  match opts with
  | None => true
  | Some o =>
      negb runtime_out || (opts_size o !=? sizeof_runtime_opts) || is_null (o_name o)
      || negb (o_disable_signal_handlers o) || negb (is_null (o_retired_vhost_socket_path o))
      || (is_null (o_json_data o) && (o_json_data_size o !=? 0))
  end.

Definition config_of (o : runtime_opts) : app_config :=
  AppConfig (o_name o) (o_reactor_mask o) (o_json_data_size o) (o_mem_size_mb o) (o_no_pci o) (o_no_huge o)
    (o_disable_cpumask_locks o).

(** [strdup] of an optional string, [malloc] of optional data: the allocation; the
    contents are in [config_of]. *)
Definition dup {A} (o : option A) : M RtStore (option ptr) :=
  match o with None => ret None | Some _ => calloc end.

(** [zettide_spdk_runtime_start] up to and including [pthread_create]: the status
    it returns at once, or the runtime whose thread now runs. *)
Definition start_prepare (opts : option runtime_opts) (runtime_out : bool)
    : M RtStore (Z + ptr) :=
  if opts_invalid opts runtime_out then ret (inl (- EINVAL)) else
  let! o := deref opts in
  let! rc := call PthreadMutexLock in
  if rc !=? 0 then ret (inl (- rc)) else
  let! s := get in
  if g_runtime_active s then ret (inl (- EBUSY)) else
  modify (fun s => RtS true (runtimes s)) ;;;
  let! mp := calloc in
  match mp with
  | None => release_process_slot ;;; ret (inl (- ENOMEM))
  | Some p =>
      let! name := dup (o_name o) in
      let! mask := dup (o_reactor_mask o) in
      let! json := (if o_json_data_size o !=? 0 then calloc else ret None) in
      put_rt p (set_fields name mask json None runtime_zero) ;;;
      if is_null name || (negb (is_null (o_reactor_mask o)) && is_null mask)
         || ((o_json_data_size o !=? 0) && is_null json)
      then start_fail p (- ENOMEM) else
      put_rt p (set_config (config_of o) (set_fields name mask json None runtime_zero)) ;;;
      let! rc := call PthreadMutexInit in
      if rc !=? 0 then start_fail p (- rc) else
      let! rc := call PthreadCondInit in
      if rc !=? 0 then call PthreadMutexDestroy ;;; start_fail p (- rc) else
      let! rc := call PthreadCreate in
      if rc !=? 0 then free_runtime p ;;; release_process_slot ;;; ret (inl (- rc)) else
      ret (inr p)
  end.

(** The rest of [zettide_spdk_runtime_start]: wait until the runtime is no longer
    [STARTING]; [joined] says that the runtime's thread has exited, which
    [pthread_join] waits for.  The result is the status and [*runtime_out]. *)
Definition start_wait (p : ptr) (joined : bool) : M RtStore (Z * option ptr) :=
  let! rc := call (PthreadSetcancelstate true) in
  assert (rc =? 0) ;;;
  let! r := get_rt p in
  if bool_decide (rt_state r = RUNTIME_STARTING) then blocked else
  let! res :=
    (if bool_decide (rt_state r = RUNTIME_READY) then ret (0, Some p) else
     let status := if app_status r !=? 0 then app_status r else - EIO in
     if negb joined then blocked else
     free_runtime p ;;;
     release_process_slot ;;;
     ret (status, None)) in
  let! rc := call (PthreadSetcancelstate false) in
  assert (rc =? 0) ;;;
  ret res.

(** ** Stopping *)

(** Notify the owner; on failure the runtime is [READY] again. *)
Definition stop_send (p : ptr) (o : option thread) : M RtStore Z :=
  match o with
  | None => ret 0
  | Some t =>
      let! rc := call (SpdkThreadSendMsg t FnStopRuntime p) in
      if rc !=? 0 then
        let! r := get_rt p in
        put_rt p (set_state RUNTIME_READY r) ;;; ret (rc : Z)
      else ret 0
  end.

(** After [pthread_join]. *)
Definition stop_finish (p : ptr) : M RtStore Z :=
  let! r := get_rt p in
  match stopped_section r with
  | None => fail AssertFailed
  | Some (r', status) =>
      put_rt p r' ;;; release_process_slot ;;; ret status
  end.

(** [zettide_spdk_runtime_stop] with cancellation disabled. *)
Definition stop_run (p : ptr) (joined : bool) : M RtStore Z :=
  let! r := get_rt p in
  match stop_section r with
  | inl status => ret status
  | inr (r', o) =>
      put_rt p r' ;;;
      let! rc := stop_send p o in
      if rc !=? 0 then ret rc else
      if negb joined then blocked else stop_finish p
  end.

Definition zettide_spdk_runtime_stop (p : option ptr) (on_runtime_thread joined : bool)
    : M RtStore Z :=
  match p with
  | None => ret (- EINVAL)
  | Some p =>
      if on_runtime_thread then ret (- EDEADLK) else
      let! rc := call (PthreadSetcancelstate true) in
      if rc !=? 0 then ret (- rc) else
      let! status := stop_run p joined in
      let! rc := call (PthreadSetcancelstate false) in
      assert (rc =? 0) ;;; ret status
  end.

Definition zettide_spdk_runtime_destroy (p : option ptr) : M RtStore Z :=
  match p with
  | None => ret (- EINVAL)
  | Some p =>
      let! r := get_rt p in
      if bool_decide (rt_state r <> RUNTIME_STOPPED) then ret (- EBUSY) else
      free_runtime p ;;; ret 0
  end.

(** ** Leases: status and the value stored in [*owner_out], if it was written *)

Definition zettide_spdk_runtime_acquire (p : option ptr) (owner_out : bool)
    : M RtStore (Z * option (option thread)) :=
  match p with
  | None => ret (- EINVAL, None)
  | Some p =>
      if negb owner_out then ret (- EINVAL, None) else
      let! r := get_rt p in
      let '(rc, o, r') := acquire_section r in
      put_rt p r' ;;; ret (rc, Some o)
  end.

Definition zettide_spdk_runtime_acquire_dispatcher (p : option ptr) (owner_out : bool)
    : M RtStore (Z * option (option thread)) :=
  match p with
  | None => ret (- EINVAL, None)
  | Some p =>
      if negb owner_out then ret (- EINVAL, None) else
      let! r := get_rt p in
      match acquire_dispatcher_section r with
      | None => fail AssertFailed
      | Some (rc, o, r') => put_rt p r' ;;; ret (rc, Some o)
      end
  end.

Definition zettide_spdk_runtime_release (p : ptr) : M RtStore unit :=
  let! r := get_rt p in
  lift_section p (release_section r).

(** ** Concurrent calls *)

(** The thread that executes [run_runtime]. *)
Inductive rt_thread :=
  | TBefore
  | TLooping
  | TExited.

(** A call of [zettide_spdk_runtime_stop] past its first section. *)
Inductive stopper :=
  | StopSending (o : option thread)
  | StopJoining.

Record rtw := RtW {
  w_active : bool;
  w_rt : option runtime;
  w_thread : rt_thread;
  w_starter : bool;
  w_stoppers : list stopper;
  w_clients : Z;
}.

(** The state [start_prepare] leaves when it succeeds. *)
Definition rtw_init : rtw := RtW true (Some runtime_zero) TBefore true [] 0.

Inductive rt_step : rtw -> rtw -> Prop :=
  | RStarted r r' sp cl o l n status :
      (o = None -> status = - EIO) ->
      started_section status (set_owners l n (set_owner o r)) = Some r' ->
      rt_step (RtW true (Some r) TBefore true sp cl) (RtW true (Some r') TLooping true sp cl)
  | RExit a r r' th st sp cl status :
      th <> TExited ->
      exit_section status r = Some r' ->
      rt_step (RtW a (Some r) th st sp cl) (RtW a (Some r') TExited st sp cl)
  | RStartReturns a r th sp cl :
      rt_state r = RUNTIME_READY ->
      rt_step (RtW a (Some r) th true sp cl) (RtW a (Some r) th false sp cl)
  | RStartFails a r sp cl :
      rt_state r <> RUNTIME_STARTING -> rt_state r <> RUNTIME_READY ->
      rt_step (RtW a (Some r) TExited true sp cl) (RtW false None TExited false sp cl)
  | RStopBegins a r r' o th sp cl :
      stop_section r = inr (r', o) ->
      rt_step (RtW a (Some r) th false sp cl) (RtW a (Some r') th false (StopSending o :: sp) cl)
  | RStopSent a r th o sp1 sp2 cl :
      rt_step (RtW a (Some r) th false (sp1 ++ StopSending o :: sp2) cl)
              (RtW a (Some r) th false (sp1 ++ StopJoining :: sp2) cl)
  | RStopSendFails a r th t sp1 sp2 cl :
      rt_step (RtW a (Some r) th false (sp1 ++ StopSending (Some t) :: sp2) cl)
              (RtW a (Some (set_state RUNTIME_READY r)) th false (sp1 ++ sp2) cl)
  | RStopFinishes a r r' st sp1 sp2 cl :
      stopped_section r = Some (r', st) ->
      rt_step (RtW a (Some r) TExited false (sp1 ++ StopJoining :: sp2) cl)
              (RtW false (Some r') TExited false (sp1 ++ sp2) cl)
  | RAcquire a r r' th sp cl o :
      cl < UINT64_MAX -> acquire_section r = (0, o, r') ->
      rt_step (RtW a (Some r) th false sp cl) (RtW a (Some r') th false sp (cl + 1))
  | RAcquireDispatcher a r r' th sp cl o :
      cl < UINT64_MAX -> acquire_dispatcher_section r = Some (0, o, r') ->
      rt_step (RtW a (Some r) th false sp cl) (RtW a (Some r') th false sp (cl + 1))
  | RRelease a r r' th sp cl :
      0 < cl -> release_section r = Some r' ->
      rt_step (RtW a (Some r) th false sp cl) (RtW a (Some r') th false sp (cl - 1))
  | RDestroy a r th sp cl :
      rt_state r = RUNTIME_STOPPED ->
      rt_step (RtW a (Some r) th false sp cl) (RtW a None th false sp cl).

(** What each state of the struct says about the threads around it. *)
Definition rt_inv (w : rtw) : Prop :=
  match w_rt w with
  | None => w_active w = false /\ w_clients w = 0 /\ w_stoppers w = []
  | Some r =>
      active_leases r = w_clients w /\ 0 <= w_clients w <= UINT64_MAX /\
      (w_starter w = true -> w_clients w = 0) /\
      match rt_state r with
      | RUNTIME_STARTING =>
          w_active w = true /\ w_starter w = true /\ w_stoppers w = [] /\ w_thread w <> TExited
      | RUNTIME_READY =>
          w_active w = true /\ w_stoppers w = [] /\ w_thread w <> TBefore
      | RUNTIME_STOPPING =>
          w_active w = true /\ w_clients w = 0 /\ w_starter w = false /\
          (exists s, w_stoppers w = [s]) /\ w_thread w <> TBefore
      | RUNTIME_STOPPED =>
          w_active w = false /\ w_clients w = 0 /\ w_starter w = false /\
          w_stoppers w = [] /\ w_thread w = TExited
      | RUNTIME_FAILED =>
          w_active w = true /\ w_stoppers w = [] /\ w_thread w = TExited
      end
  end.

(** ** Lemmas *)

Lemma rtw_init_inv : rt_inv rtw_init.
Proof. unfold rt_inv. simpl. unfold UINT64_MAX. split_and!; try done; lia. Qed.

Lemma singleton_split {A} (s : A) l1 x l2 : l1 ++ x :: l2 = [s] -> l1 = [] /\ l2 = [] /\ x = s.
Proof. destruct l1 as [|? []]; simpl; intros ?; simplify_eq; auto. Qed.

Lemma rt_step_inv w w' : rt_inv w -> rt_step w w' -> rt_inv w'.
Proof.
  intros Hi Hs. destruct Hs; unfold rt_inv in *; simpl in *.
  - unfold started_section in H0. simpl in H0. case_decide; [|done]. simplify_eq.
    rewrite H1 in Hi. destruct (status =? 0); simpl; rewrite ?H1; naive_solver.
  - unfold exit_section in H0. simpl in H0.
    destruct (rt_state r) eqn:E; simplify_eq; simpl; rewrite ?E; naive_solver.
  - rewrite H in *. naive_solver.
  - destruct (rt_state r); naive_solver.
  - unfold stop_section in H. destruct (rt_state r) eqn:E; simplify_eq;
      destruct (active_leases r =? 0) eqn:Hl; simplify_eq; simpl; breflect; naive_solver.
  - destruct (rt_state r); try naive_solver;
      try (destruct Hi as (_ & _ & _ & Hi); destruct sp1; naive_solver).
    destruct Hi as (? & ? & ? & ? & ? & ? & (s & Hs) & ?).
    apply singleton_split in Hs as (-> & -> & _). naive_solver.
  - assert (rt_state r = RUNTIME_STOPPING) as E.
    { destruct (rt_state r); destruct sp1; naive_solver. }
    rewrite E in Hi. destruct Hi as (? & ? & ? & ? & ? & ? & (s & Hs) & ?).
    apply singleton_split in Hs as (-> & -> & _). naive_solver.
  - unfold stopped_section in H. case_decide as E; [|done]. simplify_eq. rewrite E in Hi. simpl.
    destruct Hi as (? & ? & ? & ? & ? & ? & (s & Hs) & ?).
    apply singleton_split in Hs as (-> & -> & _). naive_solver.
  - unfold acquire_section in H0. case_decide as E; simplify_eq. rewrite E in Hi. simpl.
    rewrite E. destruct Hi as (-> & ? & ? & ?). rewrite u64_small by (unfold is_u64; lia).
    split_and!; naive_solver lia.
  - unfold acquire_dispatcher_section in H0. case_decide as E; [|by simplify_eq].
    destruct (dispatcher_owner_count r >? 0); [|done].
    destruct (dispatcher_owners r !! _); [|done]. simplify_eq. rewrite E in Hi. simpl.
    rewrite E. destruct Hi as (-> & ? & ? & ?). rewrite u64_small by (unfold is_u64; lia).
    split_and!; naive_solver lia.
  - unfold release_section in H0. destruct (active_leases r >? 0); simplify_eq. simpl.
    destruct Hi as (-> & ? & ? & Hi). rewrite u64_small by (unfold is_u64; lia).
    destruct (rt_state r); naive_solver lia.
  - rewrite H in Hi. naive_solver.
Qed.

Lemma rt_reach_inv w : rtc rt_step rtw_init w -> rt_inv w.
Proof.
  intros Hr. assert (forall x, rtc rt_step x w -> rt_inv x -> rt_inv w) as Hall.
  { intros x Hx. induction Hx; eauto using rt_step_inv. }
  eapply Hall; [exact Hr|apply rtw_init_inv].
Qed.

Section RtRules.
Implicit Types (c : conf RtStore).

Lemma wp_get_rt p r e c Q :
  runtimes (store c) !! p = Some r -> Q (Done r) c -> wp (get_rt p) e c Q.
Proof. intros Hp HQ. unfold get_rt. wp_steps. by eapply wp_deref. Qed.

Lemma wp_put_rt p r e c Q :
  Q (Done tt) (Conf (RtS (g_runtime_active (store c)) (<[p:=r]> (runtimes (store c))))
                 (live c) (hist c)) -> wp (put_rt p r) e c Q.
Proof. done. Qed.

Lemma wp_release_slot e c Q :
  g_runtime_active (store c) = true ->
  Q (Done tt) (Conf (RtS false (runtimes (store c))) (live c) (hist c)) ->
  wp release_process_slot e c Q.
Proof.
  intros Ha HQ. unfold release_process_slot. wp_step. wp_step. wp_step.
  apply wp_assert; [done|]. by wp_steps.
Qed.

(** The four heap copies of a runtime and the struct itself. *)
Definition owned_by (p : ptr) (r : runtime) : gset ptr :=
  {[p]} ∪ opt_set (f_name r) ∪ opt_set (f_reactor_mask r) ∪ opt_set (f_json_data r)
  ∪ opt_set (f_dispatcher_owners r).

(** Disjointness of the copies, as successive allocations give it. *)
Definition apart (p : ptr) (r : runtime) : Prop :=
  opt_set (f_name r) ## {[p]} /\
  opt_set (f_reactor_mask r) ## {[p]} ∪ opt_set (f_name r) /\
  opt_set (f_json_data r) ## {[p]} ∪ opt_set (f_name r) ∪ opt_set (f_reactor_mask r) /\
  opt_set (f_dispatcher_owners r) ##
    {[p]} ∪ opt_set (f_name r) ∪ opt_set (f_reactor_mask r) ∪ opt_set (f_json_data r).

(** The store and the heap without the runtime at [p]. *)
Definition runtime_gone (p : ptr) (r : runtime) (c c' : conf RtStore) : Prop :=
  store c' = RtS (g_runtime_active (store c)) (delete p (runtimes (store c))) /\
  live c' = live c ∖ owned_by p r /\ hist c `suffix_of` hist c'.

Lemma free_fields_spec e c p r Q :
  apart p r -> owned_by p r ⊆ live c ->
  (forall h, hist c `suffix_of` h -> Q (Done tt) (Conf (store c) (live c ∖ (owned_by p r ∖ {[p]})) h)) ->
  wp (free_runtime_fields r) e c Q.
Proof.
  intros (H1 & H2 & H3 & H4) Hin HQ. unfold owned_by in *. unfold free_runtime_fields.
  wp_step. apply wp_free_opt; [set_solver|]. intros h1 Hh1. cbn [store live hist] in *.
  wp_step. apply wp_free_opt; [simpl; set_solver|]. intros h2 Hh2. cbn [store live hist] in *.
  wp_step. apply wp_free_opt; [simpl; set_solver|]. intros h3 Hh3. cbn [store live hist] in *.
  apply wp_free_opt; [simpl; set_solver|]. intros h4 Hh4. cbn [store live hist] in *.
  specialize (HQ h4 ltac:(trans h1; [done|]; trans h2; [done|]; by trans h3)).
  match goal with |- Q _ (Conf _ ?l _) => match type of HQ with Q _ (Conf _ ?l' _) => replace l with l'; [done|] end end.
  set_solver.
Qed.

Lemma free_struct_spec e c c0 p r :
  runtimes (store c0) !! p = Some r -> owned_by p r ⊆ live c0 -> store c = store c0 -> hist c0 `suffix_of` hist c ->
  live c = live c0 ∖ (owned_by p r ∖ {[p]}) ->
  wp (free_struct p) e c (returns (fun _ c' => runtime_gone p r c0 c')).
Proof.
  destruct c as [s l h]. simpl. intros Hp Hin -> Hh ->. unfold owned_by in *. unfold free_struct.
  wp_step. wp_step. apply wp_free; [simpl; set_solver|]. split; simpl; [done|]. split; [|by apply suffix_cons_r].
  unfold owned_by. apply set_eq. intros x. destruct (decide (x = p)); set_solver.
Qed.

Lemma free_runtime_spec e c p r :
  posix_ok e -> runtimes (store c) !! p = Some r -> apart p r -> owned_by p r ⊆ live c ->
  wp (free_runtime p) e c (returns (fun _ c' => runtime_gone p r c c')).
Proof.
  intros Hpx Hp Ha Hin. unfold free_runtime. wp_step. eapply wp_get_rt; [done|].
  wp_step. eapply free_fields_spec; [done|done|]. intros h Hh.
  wp_step. wp_known (cond_destroy_ok _ Hpx). wp_step. apply wp_assert; [done|].
  wp_step. wp_known (mutex_destroy_ok _ Hpx). wp_step. apply wp_assert; [done|].
  apply free_struct_spec; try done. simpl. etrans; [exact Hh|solve_suffix].
Qed.

(** What [start_prepare] leaves behind. *)
Definition start_post (opts : option runtime_opts) (c : conf RtStore) (res : Z + ptr) (c' : conf RtStore) : Prop :=
  match res with
  | inl status => status <> 0 /\ store c' = store c /\ live c' = live c
  | inr p =>
      g_runtime_active (store c) = false /\ runtimes (store c) !! p = None /\
      exists o n m j, let r := set_config (config_of o) (set_fields (Some n) m j None runtime_zero) in
        opts = Some o /\ store c' = RtS true (<[p:=r]> (runtimes (store c))) /\
        live c' = owned_by p r ∪ live c /\ owned_by p r ## live c /\ apart p r
  end.

Lemma start_fail_spec e c s0 l0 p r status :
  runtimes (store c) !! p = Some r -> apart p r -> live c = owned_by p r ∪ l0 ->
  owned_by p r ## l0 -> store c = RtS true (<[p:=r]> (runtimes s0)) ->
  g_runtime_active s0 = false -> runtimes s0 !! p = None -> status <> 0 ->
  forall opts h0, wp (start_fail p status) e c (returns (start_post opts (Conf s0 l0 h0))).
Proof.
  intros Hp Ha Hl Hd Hs Hg Hf Hst opts h0. unfold start_fail. wp_step. eapply wp_get_rt; [done|].
  wp_step. eapply free_fields_spec; [done|set_solver|]. intros h Hh. wp_step.
  eapply wp_mono; [apply (free_struct_spec _ _ c); [done|set_solver|done|done|done]|].
  intros [u|f|] c'; simpl; [|done|done]. intros (Hs' & Hl' & _).
  wp_step. apply wp_release_slot; [rewrite Hs', Hs; done|]. wp_step. simpl.
  split; [done|]. rewrite Hs', Hl', Hs. simpl. split; [|set_solver].
  rewrite delete_insert_id by done. destruct s0; simpl in *. by subst.
Qed.

End RtRules.

Lemma dup_spec {A} (o : option A) e (c : conf RtStore) Q :
  conf_ok c ->
  (forall q h, hist c `suffix_of` h -> opt_set q ## live c ->
     conf_ok (Conf (store c) (opt_set q ∪ live c) h) ->
     (o = None -> q = None) ->
     Q (Done q) (Conf (store c) (opt_set q ∪ live c) h)) ->
  wp (dup o) e c Q.
Proof.
  intros Hok HQ. unfold dup. destruct o as [a|].
  - apply wp_calloc_fresh; [done|]. intros q h Hh Hd Hc. by apply HQ.
  - wp_step. destruct c as [s l h]. specialize (HQ None h). simpl in *.
    rewrite (left_id_L ∅ (∪)) in HQ. apply HQ; [done|set_solver|done|done].
Qed.

(** The tail of [start_prepare] once all copies are made. *)
Lemma start_threads_spec e o s0 l0 h0 l h p n m j :
  let r := set_config (config_of o) (set_fields (Some n) m j None runtime_zero) in
  posix_ok e -> apart p r -> l = owned_by p r ∪ l0 -> owned_by p r ## l0 ->
  g_runtime_active s0 = false -> runtimes s0 !! p = None ->
  wp (let! rc := call PthreadMutexInit in
      if rc !=? 0 then start_fail p (- rc) else
      let! rc := call PthreadCondInit in
      if rc !=? 0 then call PthreadMutexDestroy ;;; start_fail p (- rc) else
      let! rc := call PthreadCreate in
      if rc !=? 0 then free_runtime p ;;; release_process_slot ;;; ret (inl (- rc)) else
      ret (inr p)) e (Conf (RtS true (<[p:=r]> (runtimes s0))) l h)
    (returns (start_post (Some o) (Conf s0 l0 h0))).
Proof.
  intros r Hpx Ha Hl Hd Hg Hf.
  assert (forall (rc : Z) h', (rc !=? 0) = true ->
    wp (start_fail p (- rc)) e (Conf (RtS true (<[p:=r]> (runtimes s0))) l h')
      (returns (start_post (Some o) (Conf s0 l0 h0)))) as Hfail.
  { intros rc h' Hrc. breflect. eapply start_fail_spec; try done; [by simplify_map_eq|lia]. }
  do 2 wp_step. wp_if as H1; [by apply Hfail|]. do 2 wp_step. wp_if as H2; [wp_step; wp_step; by apply Hfail|].
  do 2 wp_step. wp_if as H3.
  { wp_step. eapply wp_mono; [eapply free_runtime_spec; [done|simpl; by simplify_map_eq|done|set_solver]|].
    intros [u|f|] c'; simpl; [|done|done]. intros (Hs' & Hl' & _). simpl in *.
    wp_step. apply wp_release_slot; [by rewrite Hs'|]. wp_step. breflect. split; [lia|]. simpl. rewrite Hs', Hl', Hl. simpl.
    rewrite delete_insert_id by done. split; [|set_solver]. destruct s0; simpl in *. by subst. }
  wp_step. simpl.
  split; [done|]. split; [done|]. by exists o, n, m, j.
Qed.

Lemma start_prepare_spec e c opts out :
  posix_ok e -> conf_ok c -> (forall p r, runtimes (store c) !! p = Some r -> p ∈ live c) ->
  wp (start_prepare opts out) e c (returns (start_post opts c)).
Proof.
  destruct c as [s l h]. intros Hpx Hok Hdom. simpl in Hdom.
  unfold start_prepare. wp_if as Hinv; [by wp_step|].
  destruct opts as [o|]; [|done]. wp_step. eapply wp_deref; [done|].
  do 2 wp_step. wp_if as Hrc. { wp_step. breflect. simpl. split_and!; try done. lia. }
  do 2 wp_step. wp_if as Hact; [by wp_step|]. do 2 wp_step. simpl in Hact.
  wp_step. apply wp_calloc_fresh; [exact (conf_ok_log (Conf s l h) _ _ Hok)|].
  cbn [store live hist]. intros [p|] h1 Hh1 Hd1 Hok1.
  2:{ wp_step. apply wp_release_slot; [done|]. wp_step. simpl. split; [done|].
      rewrite (left_id_L ∅ (∪)). destruct s. simpl in *. by subst. }
  wp_step. apply dup_spec; [exact Hok1|]. cbn [store live hist]. intros nm h2 Hh2 Hd2 Hok2 _.
  wp_step. apply dup_spec; [exact Hok2|]. cbn [store live hist]. intros mk h3 Hh3 Hd3 Hok3 Hmk.
  wp_step. eapply (wp_mono _ _ _ (returns (fun js c' => exists h4,
    c' = Conf (RtS true (runtimes s)) (opt_set js ∪ (opt_set mk ∪ (opt_set nm ∪ (opt_set (Some p) ∪ l)))) h4 /\
    opt_set js ## opt_set mk ∪ (opt_set nm ∪ (opt_set (Some p) ∪ l))))).
  { wp_if as Hj.
    - apply wp_calloc_fresh; [exact Hok3|]. cbn [store live hist]. intros js h4 Hh4 Hd4 _.
      by exists h4.
    - wp_step. exists h3. simpl. rewrite (left_id_L ∅ (∪)). split; [done|set_solver]. }
  intros [js|f|] c'; simpl; [|done|done]. intros (h4 & -> & Hd4).
  wp_step. apply wp_put_rt. cbn [store live hist runtimes g_runtime_active].
  set (rt := set_fields nm mk js None runtime_zero).
  assert (runtimes s !! p = None) as Hfree.
  { apply eq_None_not_Some. intros [r0 Hr0]. apply Hdom in Hr0. set_solver. }
  assert (apart p rt) as Hap by (unfold apart; simpl; set_solver).
  assert (owned_by p rt ## l) as Hdl by (unfold owned_by; simpl; set_solver).
  assert (opt_set js ∪ (opt_set mk ∪ (opt_set nm ∪ ({[p]} ∪ l))) = owned_by p rt ∪ l) as Hl.
  { unfold owned_by. simpl. set_solver. }
  rewrite Hl. wp_if as Hnull.
  - eapply start_fail_spec; try done. by simplify_map_eq.
  - destruct nm as [n|]; [|done]. wp_step. apply wp_put_rt. cbn [store live hist runtimes g_runtime_active].
    rewrite insert_insert_eq. by apply start_threads_spec.
Qed.

(** ** The table of dispatcher owners *)

(** The first [k] of [N] entries are filled. *)
Record owners_ok (N k : nat) (r : runtime) : Prop := {
  ow_length : length (dispatcher_owners r) = N;
  ow_count : dispatcher_owner_count r = Z.of_nat k;
  ow_bound : (k <= N)%nat;
  ow_filled : forall i, (i < k)%nat -> exists t, dispatcher_owners r !! i = Some (Some t);
}.

(** What the creation of the table leaves alone. *)
Definition same_control (r r' : runtime) : Prop :=
  rt_state r' = rt_state r /\ owner r' = owner r /\
  next_dispatcher_owner r' = next_dispatcher_owner r /\
  dispatcher_owners_stopping r' = dispatcher_owners_stopping r /\
  active_leases r' = active_leases r /\ app_status r' = app_status r.

Lemma owners_ok_push N k r t :
  owners_ok N k r -> (k < N)%nat -> Z.of_nat N <= UINT64_MAX ->
  owners_ok N (S k) (set_owners (<[k:=Some t]> (dispatcher_owners r))
                       (u64 (dispatcher_owner_count r + 1)) r).
Proof.
  intros [Hl Hc Hb Hf] Hk HN. split; simpl.
  - by rewrite length_insert.
  - rewrite Hc, u64_small; unfold is_u64; lia.
  - lia.
  - intros i Hi. destruct (decide (i = k)) as [->|].
    + exists t. apply list_lookup_insert_eq. lia.
    + rewrite list_lookup_insert_ne by done. apply Hf. lia.
Qed.

Lemma wp_write_owner p i t n r e c Q :
  runtimes (store c) !! p = Some r -> 0 <= i < Z.of_nat (length (dispatcher_owners r)) ->
  Q (Done tt) (Conf (RtS (g_runtime_active (store c))
    (<[p:=set_owners (<[Z.to_nat i:=t]> (dispatcher_owners r)) n r]> (runtimes (store c))))
    (live c) (hist c)) ->
  wp (write_owner p i t n) e c Q.
Proof.
  intros Hp Hi HQ. unfold write_owner. wp_step. eapply wp_get_rt; [done|].
  rewrite (proj2 (Z.leb_le 0 i)), (proj2 (Z.ltb_lt i _)) by lia. simpl. by apply wp_put_rt.
Qed.

Definition others (app : Z) (cores : list Z) : list Z := filter (fun x => x <> app) cores.

Lemma create_loop_spec e p app cores N : forall k c r,
  runtimes (store c) !! p = Some r -> owners_ok N k r ->
  (k + length (others app cores) <= N)%nat -> Z.of_nat N <= UINT64_MAX ->
  wp (create_loop p app cores) e c (returns (fun rc c' => exists r' k',
    runtimes (store c') !! p = Some r' /\ owners_ok N k' r' /\ same_control r r' /\
    (k <= k')%nat /\ (rc = 0 -> k' = (k + length (others app cores))%nat))).
Proof.
  induction cores as [|core cores IH]; intros k c r Hp Hok Hk HN; simpl.
  - wp_step. exists r, k. split_and!; try done; try lia.
  - unfold others in *. rewrite filter_cons in *. wp_if as Hc; breflect.
    + rewrite decide_False in * by congruence. by apply IH.
    + rewrite decide_True in * by done. simpl in Hk.
      assert (forall r' k' rc c', runtimes (store c') !! p = Some r' -> owners_ok N k' r' ->
        same_control r r' -> (k <= k')%nat -> rc <> 0 ->
        returns (fun rc c' => exists r' k',
          runtimes (store c') !! p = Some r' /\ owners_ok N k' r' /\ same_control r r' /\
          (k <= k')%nat /\ (rc = 0 -> k' = (k + length (core :: filter (fun x => x <> app) cores))%nat))
          (Done rc) c') as Hno.
      { intros r' k' rc c' ? ? ? ? ?. simpl. exists r', k'. done. }
      wp_step. wp_step. destruct r0 as [t|]; simpl; [|wp_step; by eapply Hno].
      wp_step. eapply wp_get_rt; [done|]. wp_step.
      eapply wp_write_owner; [done|rewrite (ow_count _ _ _ Hok), (ow_length _ _ _ Hok); lia|]. simpl.
      rewrite (ow_count _ _ _ Hok), Nat2Z.id. rewrite <- (ow_count _ _ _ Hok) at 1.
      pose proof (owners_ok_push N k r t Hok ltac:(lia) HN) as Hok'.
      wp_step. wp_step. wp_if as Hs.
      * wp_step. breflect. eapply (Hno _ (S k)); [simpl; by simplify_map_eq|exact Hok'|done|lia|done].
      * eapply wp_mono; [eapply (IH (S k)); [simpl; by simplify_map_eq|exact Hok'|lia|done]|].
        intros [rc|f|] c'; simpl; [|done|done]. intros (r' & k' & Hr' & Ho' & Hsc & Hle & Hrc).
        exists r', k'. split_and!; try done; [lia|]. intros H0. rewrite Hrc by done. lia.
Qed.

(** SPDK's view of the reactors: the current core is one of the [cores]. *)
Definition reactors (e : env) (app : Z) (cores : list Z) : Prop :=
  NoDup cores /\ app ∈ cores /\ Z.of_nat (length cores) <= UINT32_MAX /\
  (forall h, oracle e h SpdkEnvGetCurrentCore = app) /\
  (forall h, oracle e h SpdkEnvGetCoreCount = Z.of_nat (length cores)) /\
  (forall h, oracle e h SpdkEnvForeachCore = cores).

Lemma others_length app cores :
  NoDup cores -> app ∈ cores -> S (length (others app cores)) = length cores.
Proof.
  unfold others. induction cores as [|x cores IH]; intros Hnd Hin; [by apply not_elem_of_nil in Hin|].
  apply NoDup_cons in Hnd as [Hx Hnd]. rewrite filter_cons. destruct (decide (x = app)) as [->|Hne].
  - rewrite decide_False by auto. simpl. f_equal. clear IH Hin Hnd.
    induction cores as [|y cores IH]; [done|]. rewrite filter_cons.
    apply not_elem_of_cons in Hx as [Hy Hx]. rewrite decide_True by congruence. simpl.
    f_equal. by apply IH.
  - rewrite decide_True by done. simpl. f_equal. apply IH; [done|].
    by apply elem_of_cons in Hin as [->|Hin].
Qed.

Lemma create_owners_spec e c p r t app cores :
  reactors e app cores -> runtimes (store c) !! p = Some r -> owner r = Some t ->
  wp (create_dispatcher_owners p) e c (returns (fun rc c' => exists r',
    runtimes (store c') !! p = Some r' /\
    (rc = 0 -> owners_ok (length cores) (length cores) r'))).
Proof.
  intros (Hnd & Hin & Hlen & Hcur & Hcnt & Hcores) Hp Ho.
  unfold create_dispatcher_owners. wp_step. wp_known Hcur.
  wp_step. wp_known Hcnt. wp_step. apply wp_calloc.
  { wp_step. simpl. exists r. done. }
  intros a Hsz. wp_step. eapply wp_get_rt; [done|]. wp_step. apply wp_put_rt. simpl.
  rewrite Nat2Z.id. wp_step.
  assert (0 < length cores)%nat as Hpos. { destruct cores; [by apply not_elem_of_nil in Hin|simpl; lia]. }
  eapply wp_write_owner; [simpl; by simplify_map_eq|simpl; rewrite length_replicate; lia|]. simpl.
  rewrite insert_insert_eq. wp_step. wp_known Hcores.
  eapply wp_mono.
  - eapply (create_loop_spec e p app cores (length cores) 1); [simpl; by simplify_map_eq| | |].
    + split; simpl; [by rewrite length_insert, length_replicate|done|lia|].
      intros i Hi. assert (i = 0%nat) as -> by lia. exists t. rewrite Ho.
      apply list_lookup_insert_eq. rewrite length_replicate. lia.
    + pose proof (others_length app cores Hnd Hin). lia.
    + unfold UINT32_MAX, UINT64_MAX in *. lia.
  - intros [rc|f|] c'; simpl; [|done|done]. intros (r' & k' & Hr' & Hok & _ & _ & Hrc).
    exists r'. split; [done|]. intros H0. rewrite <- (others_length app cores Hnd Hin) at 2.
    by rewrite <- (Hrc H0).
Qed.

(** ** Round robin *)

(** [n] successful calls of [zettide_spdk_runtime_acquire_dispatcher]: the owners
    they hand out, in order. *)
Fixpoint acquire_many (n : nat) (r : runtime) : option (list (option thread) * runtime) :=
  match n with
  | O => Some ([], r)
  | S n =>
      match acquire_dispatcher_section r with
      | Some (0, o, r') => option_map (fun '(l, r'') => (o :: l, r'')) (acquire_many n r')
      | _ => None
      end
  end.

Lemma acquire_dispatcher_ok r N :
  rt_state r = RUNTIME_READY -> owners_ok N N r -> (0 < N)%nat -> Z.of_nat N <= UINT32_MAX ->
  0 <= next_dispatcher_owner r < Z.of_nat N ->
  exists t r', acquire_dispatcher_section r = Some (0, Some t, r') /\
    dispatcher_owners r !! Z.to_nat (next_dispatcher_owner r) = Some (Some t) /\
    r' = set_leases (u64 (active_leases r + 1))
           (set_next ((next_dispatcher_owner r + 1) mod Z.of_nat N) r).
Proof.
  intros Hst [Hl Hc Hb Hf] HN HM Hn. unfold acquire_dispatcher_section.
  rewrite decide_True by done. rewrite Hc, (proj2 (Z.gtb_lt _ _)) by lia.
  destruct (Hf (Z.to_nat (next_dispatcher_owner r))) as [t Ht]; [lia|]. rewrite Ht.
  rewrite (u64_small (next_dispatcher_owner r + 1)) by (unfold is_u64, UINT64_MAX, UINT32_MAX in *; lia).
  eauto.
Qed.

Lemma acquire_many_spec N : forall n r,
  rt_state r = RUNTIME_READY -> owners_ok N N r -> (0 < N)%nat -> Z.of_nat N <= UINT32_MAX ->
  0 <= next_dispatcher_owner r < Z.of_nat N ->
  exists l r', acquire_many n r = Some (l, r') /\ length l = n /\
    forall i, (i < n)%nat -> exists t, l !! i = Some (Some t) /\
      dispatcher_owners r !! Z.to_nat ((next_dispatcher_owner r + Z.of_nat i) mod Z.of_nat N) = Some (Some t).
Proof.
  induction n as [|n IH]; intros r Hst Ho HN HM Hn; simpl.
  { exists [], r. split; [done|]. split; [done|]. intros i Hi. lia. }
  destruct (acquire_dispatcher_ok r N) as (t & r' & -> & Ht & ->); try done.
  destruct (IH (set_leases (u64 (active_leases r + 1))
             (set_next ((next_dispatcher_owner r + 1) mod Z.of_nat N) r))) as (l & r' & -> & Hl & Hi);
    try done; [by destruct Ho|simpl; apply Z.mod_pos_bound; lia|].
  exists (Some t :: l), r'. split; [done|]. split; [simpl; lia|].
  intros [|i] Hlt; simpl.
  - exists t. by rewrite Z.add_0_r, Z.mod_small.
  - destruct (Hi i) as (t' & ? & Ht'); [lia|]. exists t'. split; [done|].
    simpl in Ht'. rewrite Zplus_mod_idemp_l in Ht'. rewrite <- Ht'. do 3 f_equal. lia.
Qed.

(** ** The shutdown of the reactor threads *)

(** Messages between reactor threads in flight, and the runtime they concern. *)
Record pump := Pump {
  p_conf : conf RtStore;
  p_queue : list (thread * msg_fn);
}.

(** The handler a message runs on the thread it was sent to. *)
Definition deliver (p : ptr) (m : thread * msg_fn) : M RtStore unit :=
  run_on (Some m.1)
    match m.2 with
    | FnStopRuntime => stop_runtime p
    | FnStopDispatcherOwner => stop_dispatcher_owner p
    | FnDispatcherOwnerStopped => dispatcher_owner_stopped p
    | FnBindDispatcherOwner => bind_dispatcher_owner
    | _ => fail BadPointer
    end.

(** The messages accepted since the history was [h0]. *)
Fixpoint accepted (h : list event) : list (thread * msg_fn) :=
  match h with
  | [] => []
  | EvCall (SpdkThreadSendMsg t fn _) rc :: h => if rc =? 0 then (t, fn) :: accepted h else accepted h
  | _ :: h => accepted h
  end.

Definition new_events (h0 h1 : list event) : list event := take (length h1 - length h0) h1.

(** Deliver one message, in any order. *)
Inductive pump_step (e : env) (p : ptr) : pump -> pump -> Prop :=
  | PumpDeliver c c' q1 m q2 :
      deliver p m e c = (Done tt, c') ->
      pump_step e p (Pump c (q1 ++ m :: q2))
        (Pump c' (q1 ++ q2 ++ accepted (new_events (hist c) (hist c')))).

Definition is_app_stop (ev : event) : bool :=
  match ev with EvCall (SpdkAppStop _) _ => true | _ => false end.

Definition is_app_stop_of (status : Z) (ev : event) : bool :=
  match ev with EvCall (SpdkAppStop s) _ => s =? status | _ => false end.

Definition is_thread_exit (ev : event) : bool :=
  match ev with EvCall (SpdkThreadExit _) _ => true | _ => false end.

(** Messages of a kind in flight. *)
Definition in_flight (fn : msg_fn) (q : list (thread * msg_fn)) : nat :=
  length (filter (fun m => m.2 = fn) q).

Section Shutdown.
Variable e : env.
Variable p : ptr.
Variable r0 : runtime.
Variable o : thread.
Variable N : nat.
Variable h0 : list event.
Hypothesis r0_owner : owner r0 = Some o.
Hypothesis r0_owners : owners_ok N N r0.
Hypothesis sends_succeed : forall h t fn x, oracle e h (SpdkThreadSendMsg t fn x) = 0.

Lemma new_events_app l h : new_events h (l ++ h) = l.
Proof.
  unfold new_events. rewrite length_app. rewrite take_app_le by lia.
  apply take_ge. lia.
Qed.

(** The part of the log a handler adds: messages sent, [spdk_app_stop] calls (all
    with the status [app_status r0]) and thread exits. *)
Record adds (l : list event) (q : list (thread * msg_fn)) (stops exits : Z) : Prop := {
  ad_sent : accepted l = q;
  ad_stops : count_events is_app_stop l = stops;
  ad_status : count_events (is_app_stop_of (app_status r0)) l = stops;
  ad_exits : count_events is_thread_exit l = exits;
}.

Lemma send_stops_spec t0 : forall todo index c r s,
  runtimes (store c) !! p = Some r -> r = set_stopping s r0 ->
  (0 < index)%nat -> (index + todo <= N)%nat ->
  wp (send_stops p todo index) (Env t0 (oracle e) (alloc_ok e)) c (returns (fun _ c' => exists l q,
    store c' = store c /\ hist c' = l ++ hist c /\ adds l q 0 0 /\
    length q = todo /\ Forall (fun m => m.2 = FnStopDispatcherOwner) q)).
Proof.
  induction todo as [|todo IH]; intros index c r s Hp Hr Hi HN; simpl.
  { wp_step. exists [], []. done. }
  wp_step. eapply wp_get_rt; [done|]. destruct r0_owners as [Hl Hc Hb Hf].
  destruct (Hf index) as [t Ht]; [lia|]. subst r. simpl. rewrite Ht. wp_step.
  eapply wp_deref; [done|]. wp_step. wp_known sends_succeed. simpl.
  eapply wp_mono; [eapply (IH (S index)); [exact Hp|done|lia|lia]|].
  intros [u|f|] c'; simpl; [|done|done]. intros (l & q & Hs & Hh & [H1 H2 H3 H4] & Hq & Hall).
  exists (l ++ [@EvCall ExtSig (SpdkThreadSendMsg t FnStopDispatcherOwner p) 0]), (q ++ [(t, FnStopDispatcherOwner)]).
  split; [done|]. split; [rewrite Hh; by rewrite <- app_assoc|]. split.
  - split; rewrite ?count_events_app; simpl; try lia. rewrite <- H1. clear.
    induction l as [|[[]| |] l IHl]; simpl; rewrite ?IHl; try done. by destruct (_ =? 0).
  - rewrite length_app. simpl. split; [lia|]. apply Forall_app. auto.
Qed.

(** Nothing is stopped before the last exited thread was reported. *)
Definition pump_inv (P : pump) : Prop :=
  let h := hist (p_conf P) in
  let a := in_flight FnStopDispatcherOwner (p_queue P) in
  let b := in_flight FnDispatcherOwnerStopped (p_queue P) in
  let stops := count_events is_app_stop h - count_events is_app_stop h0 in
  let stops_ok := count_events (is_app_stop_of (app_status r0)) h
                  - count_events (is_app_stop_of (app_status r0)) h0 in
  let exits := count_events is_thread_exit h - count_events is_thread_exit h0 in
  (p_queue P = [(o, FnStopRuntime)] /\ runtimes (store (p_conf P)) !! p = Some r0 /\
     stops = 0 /\ stops_ok = 0 /\ exits = 0)
  \/ (Forall (fun m => m.2 = FnStopDispatcherOwner \/ m = (o, FnDispatcherOwnerStopped)) (p_queue P) /\
      runtimes (store (p_conf P)) !! p = Some (set_stopping (Z.of_nat (a + b)) r0) /\
      stops = (if (a + b =? 0)%nat then 1 else 0) /\ stops_ok = stops /\
      exits = Z.of_nat N - 1 - Z.of_nat a).

Lemma in_flight_app fn q1 q2 : in_flight fn (q1 ++ q2) = (in_flight fn q1 + in_flight fn q2)%nat.
Proof. unfold in_flight. by rewrite filter_app, length_app. Qed.

Lemma in_flight_cons fn m q :
  in_flight fn (m :: q) = ((if decide (m.2 = fn) then 1 else 0) + in_flight fn q)%nat.
Proof. unfold in_flight. rewrite filter_cons. by case_decide. Qed.

Lemma in_flight_all fn q : Forall (fun m => m.2 = fn) q -> in_flight fn q = length q.
Proof.
  induction 1 as [|m q Hm Hq IH]; [done|]. rewrite in_flight_cons, decide_True by done. simpl. lia.
Qed.

Lemma in_flight_none fn fn' q : Forall (fun m => m.2 = fn) q -> fn <> fn' -> in_flight fn' q = 0%nat.
Proof.
  intros Hq Hne. induction Hq as [|m q Hm Hq IH]; [done|].
  rewrite in_flight_cons, decide_False by congruence. done.
Qed.

Lemma stop_runtime_spec c :
  runtimes (store c) !! p = Some r0 -> dispatcher_owners_stopping r0 = 0 -> (0 < N)%nat ->
  wp (deliver p (o, FnStopRuntime)) e c (returns (fun _ c' => exists l q,
    runtimes (store c') !! p = Some (set_stopping (Z.of_nat (N - 1)) r0) /\
    hist c' = l ++ hist c /\ adds l q (if (N - 1 =? 0)%nat then 1 else 0) 0 /\
    length q = (N - 1)%nat /\ Forall (fun m => m.2 = FnStopDispatcherOwner) q)).
Proof.
  intros Hp Hs HN. unfold deliver, stop_runtime, stop_dispatcher_owners. simpl. wp_step.
  wp_step. eapply wp_get_rt; [done|]. wp_step. wp_step. wp_step.
  apply wp_assert; [simpl; rewrite r0_owner; by apply bool_decide_eq_true|].
  wp_step. apply wp_assert; [by apply Z.eqb_eq|].
  destruct r0_owners as [_ Hc _ _]. rewrite Hc. wp_if as Hlt; breflect.
  - assert (N = 1%nat) as -> by lia. wp_step. simpl.
    exists [@EvCall ExtSig (SpdkAppStop (app_status r0)) r], []. split.
    + rewrite Hp. f_equal. destruct r0. simpl in *. by subst.
    + split; [done|]. split; [|done]. split; simpl; rewrite ?Z.eqb_refl; lia || done.
  - wp_step. apply wp_put_rt.
    eapply wp_mono.
    { eapply send_stops_spec; [simpl; by simplify_map_eq|done|lia|lia]. }
    intros [u|f|] c'; simpl; [|done|done]. intros (l & q & Hst & Hh & Ha & Hq & Hall).
    exists l, q. rewrite Hst. simpl. simplify_map_eq. split; [do 2 f_equal; lia|].
    rewrite (proj2 (Nat.eqb_neq (N - 1) 0)) by lia. split_and!; try done; lia.
Qed.

Lemma stop_owner_spec c t s :
  runtimes (store c) !! p = Some (set_stopping s r0) ->
  wp (deliver p (t, FnStopDispatcherOwner)) e c (returns (fun _ c' => exists l,
    store c' = store c /\ hist c' = l ++ hist c /\ adds l [(o, FnDispatcherOwnerStopped)] 0 1)).
Proof.
  intros Hp. unfold deliver, stop_dispatcher_owner. simpl. wp_step. wp_step. wp_step. wp_step. wp_step.
  wp_step. eapply wp_get_rt; [done|]. wp_step. eapply wp_deref; [exact r0_owner|].
  wp_step. wp_known sends_succeed. simpl. wp_step. simpl.
  exists [@EvCall ExtSig (SpdkThreadSendMsg o FnDispatcherOwnerStopped p) 0; @EvCall ExtSig (SpdkThreadExit (Some t)) r].
  done.
Qed.

Lemma owner_stopped_spec c s :
  runtimes (store c) !! p = Some (set_stopping s r0) -> 0 < s ->
  wp (deliver p (o, FnDispatcherOwnerStopped)) e c (returns (fun _ c' => exists l,
    runtimes (store c') !! p = Some (set_stopping (s - 1) r0) /\
    hist c' = l ++ hist c /\ adds l [] (if s =? 1 then 1 else 0) 0)).
Proof.
  intros Hp Hs. unfold deliver, dispatcher_owner_stopped. simpl. wp_step. wp_step.
  eapply wp_get_rt; [done|]. wp_step. wp_step. wp_step.
  apply wp_assert; [simpl; rewrite r0_owner; by apply bool_decide_eq_true|].
  wp_step. apply wp_assert; [simpl; by apply Z.gtb_lt|]. wp_step. apply wp_put_rt. simpl.
  wp_if as Hz; breflect; wp_step.
  - exists [@EvCall ExtSig (SpdkAppStop (app_status r0)) r]. simpl. simplify_map_eq.
    rewrite (proj2 (Z.eqb_eq s 1)) by lia. split_and!; try done. split; simpl; rewrite ?Z.eqb_refl; done.
  - exists []. simpl. simplify_map_eq. rewrite (proj2 (Z.eqb_neq s 1)) by lia. done.
Qed.

(** Work the messages in flight still cause. *)
Definition msg_weight (m : thread * msg_fn) : nat :=
  match m.2 with
  | FnStopRuntime => 2 * N
  | FnStopDispatcherOwner => 2
  | _ => 1
  end.

Definition pump_measure (P : pump) : nat := sum_list_with msg_weight (p_queue P).

Lemma stops_weight q :
  Forall (fun m => m.2 = FnStopDispatcherOwner) q -> sum_list_with msg_weight q = (2 * length q)%nat.
Proof.
  induction 1 as [|m q Hm Hq IH]; simpl; [done|]. unfold msg_weight at 1. rewrite Hm, IH. lia.
Qed.

Hypothesis r0_stopping : dispatcher_owners_stopping r0 = 0.
Hypothesis N_pos : (0 < N)%nat.

(** Every message in flight can be delivered, and the invariant holds after it. *)
Lemma pump_inv_deliver c q1 m q2 :
  pump_inv (Pump c (q1 ++ m :: q2)) ->
  wp (deliver p m) e c (returns (fun _ c' =>
    let P' := Pump c' (q1 ++ q2 ++ accepted (new_events (hist c) (hist c'))) in
    pump_inv P' /\ (pump_measure P' < pump_measure (Pump c (q1 ++ m :: q2)))%nat)).
Proof.
  intros [(Hq & Hr & H1 & H2 & H3)|(Hq & Hr & H1 & H2 & H3)]; simpl in *.
  - apply singleton_split in Hq as (-> & -> & ->).
    eapply wp_mono; [by apply stop_runtime_spec|].
    intros [u|f|] c'; simpl; [|done|done]. intros (l & q & Hr' & Hh & [A1 A2 A3 A4] & Hl & Hall).
    rewrite Hh, new_events_app, A1.
    split; [|unfold pump_measure; simpl; rewrite ?sum_list_with_app; simpl; rewrite ?sum_list_with_app, ?(stops_weight _ Hall); cbn; lia]. right. simpl. rewrite Hh, !count_events_app.
    rewrite (in_flight_all _ _ Hall), (in_flight_none _ FnDispatcherOwnerStopped _ Hall) by done.
    rewrite Hl, Nat.add_0_r. split_and!; try done; try lia.
    eapply Forall_impl; [exact Hall|]. auto.
  - apply Forall_app in Hq as [Hq1 [Hm Hq2]%Forall_cons].
    rewrite !in_flight_app, !in_flight_cons in *.
    destruct m as [t fn]. destruct Hm as [Hm|Hm]; simpl in *; simplify_eq; simpl in *.
    + eapply wp_mono; [by eapply stop_owner_spec|].
      intros [u|f|] c'; simpl; [|done|done]. intros (l & Hst & Hh & [A1 A2 A3 A4]).
      rewrite Hh, new_events_app, A1.
      split; [|unfold pump_measure; simpl; rewrite ?sum_list_with_app; simpl; rewrite ?sum_list_with_app; cbn; lia]. right. simpl. rewrite Hh, !count_events_app, Hst.
      rewrite !in_flight_app, !in_flight_cons. simpl.
      change (in_flight FnStopDispatcherOwner []) with 0%nat.
      change (in_flight FnDispatcherOwnerStopped []) with 0%nat. split_and!.
      * rewrite !Forall_app. auto.
      * rewrite Hr. do 3 f_equal. simpl. lia.
      * case_eqb; lia.
      * lia.
      * lia.
    + eapply wp_mono; [eapply owner_stopped_spec; [done|lia]|].
      intros [u|f|] c'; simpl; [|done|done]. intros (l & Hst & Hh & [A1 A2 A3 A4]).
      rewrite Hh, new_events_app, A1, app_nil_r.
      split; [|unfold pump_measure; simpl; rewrite ?sum_list_with_app; simpl; rewrite ?sum_list_with_app; cbn; lia]. right. simpl. rewrite Hh, !count_events_app, Hst.
      rewrite !in_flight_app. simpl. split_and!.
      * rewrite !Forall_app. auto.
      * do 2 f_equal. lia.
      * case_eqb; lia.
      * lia.
      * lia.
Qed.
Lemma pump_inv_steps k P P' :
  nsteps (pump_step e p) k P P' -> pump_inv P ->
  pump_inv P' /\ (k + pump_measure P' <= pump_measure P)%nat.
Proof.
  induction 1 as [P|k P P' P'' Hs _ IH]; intros Hi; [split; [done|lia]|].
  destruct Hs as [c c' q1 m q2 Hd].
  pose proof (wp_run _ _ _ _ _ _ (pump_inv_deliver _ _ _ _ Hi) Hd) as [Hi' Hm].
  destruct (IH Hi') as [? ?]. split; [done|]. lia.
Qed.

End Shutdown.

(** ** The runtime as its clients see it *)

Definition client_acquire (p : ptr) : M RtStore (Z * option thread) :=
  let! a := zettide_spdk_runtime_acquire (Some p) true in ret (a.1, mjoin a.2).

Definition client_acquire_dispatcher (p : ptr) : M RtStore (Z * option thread) :=
  let! a := zettide_spdk_runtime_acquire_dispatcher (Some p) true in ret (a.1, mjoin a.2).

Definition client_leases (p : ptr) (s : RtStore) : Z :=
  match runtimes s !! p with Some r => active_leases r | None => 0 end.

(** A runtime with leases is ready or has failed; one that is ready has an owner and
    a full table. *)
Definition client_ok (p : ptr) (s : RtStore) : Prop :=
  exists r, runtimes s !! p = Some r /\ is_u64 (active_leases r) /\
    (0 < active_leases r -> rt_state r = RUNTIME_READY \/ rt_state r = RUNTIME_FAILED) /\
    (rt_state r = RUNTIME_READY -> is_Some (owner r) /\ exists N, owners_ok N N r /\ (0 < N)%nat /\
       Z.of_nat N <= UINT32_MAX /\ 0 <= next_dispatcher_owner r < Z.of_nat N).

#[export] Program Instance RuntimeLeases : RuntimeLease RtStore := {|
  rl_acquire := client_acquire;
  rl_acquire_dispatcher := client_acquire_dispatcher;
  rl_release := zettide_spdk_runtime_release;
  rl_leases := client_leases;
  rl_ok := client_ok;
|}.
Next Obligation.
  intros p s (r & Hp & Hu & _). unfold client_leases. rewrite Hp. unfold is_u64 in Hu. lia.
Qed.
Next Obligation.
  intros p e c (r & Hp & Hu & Hs & Hr) Hl. unfold client_leases in *. rewrite Hp in *.
  unfold client_acquire, zettide_spdk_runtime_acquire, acquire_section. simpl.
  wp_step. wp_step. eapply wp_get_rt; [done|]. case_decide as Hst.
  - wp_step. apply wp_put_rt. wp_step. wp_step. simpl. simplify_map_eq.
    unfold is_u64 in Hu. rewrite u64_small by (unfold is_u64; lia).
    destruct (Hr Hst) as (Ho & N & HN). split; [|split; [done|]; split; [done|]; by left].
    exists (set_leases (active_leases r + 1) r). simplify_map_eq. split; [done|].
    split; [unfold is_u64; simpl; lia|]. split; [by left|]. intros _. split; [done|]. exists N. simpl.
    destruct HN as ([] & ?). by split.
  - wp_step. apply wp_put_rt. wp_step. wp_step. simpl. simplify_map_eq.
    split; [|split; [done|]; split; [done|]; by right].
    exists r. simplify_map_eq. done.
Qed.
Next Obligation.
  intros p e c (r & Hp & Hu & Hs & Hr) Hl. unfold client_leases in *. rewrite Hp in *.
  unfold client_acquire_dispatcher, zettide_spdk_runtime_acquire_dispatcher. simpl.
  wp_step. wp_step. eapply wp_get_rt; [done|].
  destruct (decide (rt_state r = RUNTIME_READY)) as [Hst|Hst].
  - destruct (Hr Hst) as (Ho & N & HN & Hpos & HM & Hn).
    destruct (acquire_dispatcher_ok r N) as (t & r' & -> & _ & ->); try done.
    wp_step. apply wp_put_rt. wp_step. wp_step. simpl. simplify_map_eq.
    unfold is_u64 in Hu. rewrite u64_small by (unfold is_u64; lia).
    split; [|split; [done|]; split; [done|]; by left].
    eexists. simplify_map_eq. split; [done|].
    split; [unfold is_u64; simpl; lia|]. split; [by left|]. intros _. split; [done|]. exists N. simpl.
    split; [by destruct HN|]. split; [done|]. split; [done|]. apply Z.mod_pos_bound. lia.
  - unfold acquire_dispatcher_section. rewrite decide_False by done.
    wp_step. apply wp_put_rt. wp_step. wp_step. simpl. simplify_map_eq.
    split; [|split; [done|]; split; [done|]; by right].
    exists r. simplify_map_eq. done.
Qed.
Next Obligation.
  intros p e c (r & Hp & Hu & Hs & Hr) Hl. unfold client_leases in *. rewrite Hp in *.
  unfold zettide_spdk_runtime_release, release_section. wp_step. eapply wp_get_rt; [done|].
  rewrite (proj2 (Z.gtb_lt _ _)) by lia. unfold lift_section. apply wp_put_rt. simpl.
  unfold is_u64 in Hu. rewrite u64_small by (unfold is_u64; lia). simplify_map_eq.
  split; [|done]. eexists. simplify_map_eq. split; [done|]. split; [unfold is_u64; simpl; lia|].
  split; [intros _; apply Hs; lia|]. intros Hst. destruct (Hr Hst) as (Ho & N & HN & ?). split; [done|]. exists N. split; [by destruct HN|done].
Qed.

(** A leased runtime does not stop and is not destroyed. *)
Lemma leased_stop_refused p joined e (c : conf RtStore) :
  posix_ok e -> client_ok p (store c) -> 0 < client_leases p (store c) ->
  wp (zettide_spdk_runtime_stop (Some p) false joined) e c (returns (fun rc c' =>
    rc <> 0 /\ store c' = store c /\ live c' = live c)).
Proof.
  intros Hpx (r & Hp & Hu & Hs & _) Hl. unfold client_leases in Hl. rewrite Hp in Hl.
  unfold zettide_spdk_runtime_stop, stop_run. wp_step. wp_step.
  wp_if as Hrc; breflect; [wp_step; simpl; split; [lia|done]|].
  wp_step. wp_step. eapply wp_get_rt; [done|]. unfold stop_section.
  rewrite (proj2 (Z.eqb_neq (active_leases r) 0)) by lia. simpl.
  destruct (Hs Hl) as [-> | ->]; wp_step; wp_step; wp_known (restore_ok _ Hpx); wp_step;
    (apply wp_assert; [done|]); by wp_step.
Qed.

Lemma leased_destroy_refused p e (c : conf RtStore) :
  client_ok p (store c) -> 0 < client_leases p (store c) ->
  zettide_spdk_runtime_destroy (Some p) e c = (Done (- EBUSY), c).
Proof.
  intros (r & Hp & Hu & Hs & _) Hl. unfold client_leases in Hl. rewrite Hp in Hl.
  cut (wp (zettide_spdk_runtime_destroy (Some p)) e c (fun o c' => (o, c') = (Done (- EBUSY), c))).
  { unfold wp. by destruct (zettide_spdk_runtime_destroy (Some p) e c). }
  unfold zettide_spdk_runtime_destroy. wp_step. eapply wp_get_rt; [done|].
  rewrite bool_decide_eq_true_2; [by wp_step|]. destruct (Hs Hl) as [-> | ->]; done.
Qed.

(** ** Properties *)

(** C9: While a client holds a lease the runtime cannot be torn down: in every
    state reachable from a start, with any interleaving of start, stop, acquire,
    release, destroy and the exit of the application thread, an outstanding
    lease means that the struct is allocated, its lease counter is the number of
    outstanding leases, the process slot is taken, no [stop] is past its first
    section, and a [stop] called now is refused with [-EBUSY], or [-EIO] if the
    application has exited. *)
Theorem runtime_lease_blocks_teardown w :
  rtc rt_step rtw_init w -> 0 < w_clients w ->
  exists r, w_rt w = Some r /\ active_leases r = w_clients w /\ w_active w = true /\
    w_stoppers w = [] /\ rt_state r <> RUNTIME_STOPPED /\
    stop_section r = inl (if decide (rt_state r = RUNTIME_FAILED) then - EIO else - EBUSY).
Proof.
  intros Hr Hc. apply rt_reach_inv in Hr. unfold rt_inv in Hr.
  destruct (w_rt w) as [r|]; [|lia]. destruct Hr as (Hl & Hb & Hst & Hr). exists r.
  assert (w_starter w = false) as Hs0. { destruct (w_starter w); [|done]. specialize (Hst eq_refl). lia. }
  assert ((active_leases r !=? 0) = true) as Hne by (apply negb_true_iff, Z.eqb_neq; lia).
  unfold stop_section. rewrite Hne.
  destruct (rt_state r); try (exfalso; naive_solver lia); naive_solver.
Qed.


(** Only one [stop] is ever past its first section, and it sees a runtime in
    state [STOPPING] without leases; the process slot is free exactly when the
    runtime is [STOPPED] or gone, so that a second runtime can be started only
    then. *)
Theorem runtime_stop_exclusive w :
  rtc rt_step rtw_init w ->
  (length (w_stoppers w) <= 1)%nat /\
  (w_stoppers w <> [] -> w_clients w = 0 /\ exists r, w_rt w = Some r /\ rt_state r = RUNTIME_STOPPING) /\
  (w_active w = false <-> forall r, w_rt w = Some r -> rt_state r = RUNTIME_STOPPED).
Proof.
  intros Hr. apply rt_reach_inv in Hr. unfold rt_inv in Hr.
  destruct (w_rt w) as [r|] eqn:Ew; [|destruct Hr as (-> & ? & ->); simpl; split_and!; [lia|done|done]].
  destruct Hr as (Hl & Hb & Hst & Hr).
  assert (w_active w = false <-> rt_state r = RUNTIME_STOPPED) as Ha.
  { destruct (rt_state r); destruct Hr as (-> & _); split; done. }
  assert (w_stoppers w = [] \/ rt_state r = RUNTIME_STOPPING /\ w_clients w = 0 /\
    exists s, w_stoppers w = [s]) as Hs by (destruct (rt_state r); naive_solver).
  split_and!; [| |rewrite Ha; naive_solver]; destruct Hs as [Hs|(? & ? & s & Hs)]; rewrite Hs; simpl;
    naive_solver lia.
Qed.


(** The end of a failed start: when the runtime is [FAILED] and its thread has
    exited, [zettide_spdk_runtime_start] frees the struct and everything it owns,
    the array of dispatcher owners included, gives the process slot back and
    returns the non-zero status of the application without a runtime. *)
Theorem runtime_start_failure_cleans_up e c p r :
  posix_ok e -> (forall h, oracle e h (PthreadSetcancelstate true) = 0) -> g_runtime_active (store c) = true ->
  runtimes (store c) !! p = Some r -> rt_state r = RUNTIME_FAILED -> apart p r -> owned_by p r ⊆ live c ->
  exists status c', start_wait p true e c = (Done (status, None), c') /\ status <> 0 /\
    (app_status r <> 0 -> status = app_status r) /\
    store c' = RtS false (delete p (runtimes (store c))) /\ live c' = live c ∖ owned_by p r.
Proof.
  intros Hpx Hdis Hg Hp Hst Ha Hin.
  destruct (wp_returns_run (start_wait p true) e c (fun res c' => res.2 = None /\ res.1 <> 0 /\
    (app_status r <> 0 -> res.1 = app_status r) /\
    store c' = RtS false (delete p (runtimes (store c))) /\ live c' = live c ∖ owned_by p r))
    as ([status o] & c' & E & Ho & H1 & H2 & H3 & H4); [|simpl in *; subst o; by exists status, c'].
  unfold start_wait. wp_step. wp_known Hdis. wp_step. apply wp_assert; [done|].
  wp_step. eapply wp_get_rt; [done|]. rewrite Hst. simpl. wp_step.
  wp_step. eapply wp_mono; [by apply (free_runtime_spec _ _ _ r)|]. intros [u|f|] c1; simpl; [|done|done].
  intros (Hs' & Hl' & _). simpl in *. wp_step. apply wp_release_slot; [by rewrite Hs'|]. wp_step. wp_step.
  wp_known (restore_ok _ Hpx). wp_step. apply wp_assert; [done|]. wp_step. simpl.
  rewrite Hs', Hl'. simpl. destruct (Z.eqb_spec (app_status r) 0); simpl; split_and!; done.
Qed.

(** [create_dispatcher_owners] never writes outside the array it allocated,
    for any set of cores that contains the current one and any failing call;
    when it returns 0 the array has one non-null thread per core. *)
Theorem create_owners_in_bounds e c p r t app cores :
  reactors e app cores -> runtimes (store c) !! p = Some r -> owner r = Some t ->
  exists rc c' r', create_dispatcher_owners p e c = (Done rc, c') /\
    runtimes (store c') !! p = Some r' /\
    (rc = 0 -> owners_ok (length cores) (length cores) r').
Proof.
  intros Hre Hp Ho. destruct (wp_returns_run _ _ _ _ (create_owners_spec e c p r t app cores Hre Hp Ho))
    as (rc & c' & E & r' & H1 & H2). by exists rc, c', r'.
Qed.

(** [zettide_spdk_runtime_acquire_dispatcher] distributes the owners round
    robin: the [i]-th of [n] successive calls on a ready runtime returns the
    thread at index [(next_dispatcher_owner + i) mod dispatcher_owner_count], and
    no call reads outside the table. *)
Theorem dispatcher_owners_round_robin N n r :
  rt_state r = RUNTIME_READY -> owners_ok N N r -> (0 < N)%nat -> Z.of_nat N <= UINT32_MAX ->
  0 <= next_dispatcher_owner r < Z.of_nat N ->
  exists l r', acquire_many n r = Some (l, r') /\ length l = n /\
    forall i, (i < n)%nat -> exists t, l !! i = Some (Some t) /\
      dispatcher_owners r !! Z.to_nat ((next_dispatcher_owner r + Z.of_nat i) mod Z.of_nat N)
        = Some (Some t).
Proof. apply acquire_many_spec. Qed.


(** C40: A [stop] whose message cannot be sent sets the state back to [READY]
    without looking at it again: when the application thread has exited in
    between, the runtime is [READY] although no thread runs it, and an acquire
    succeeds with a null owner. *)
Theorem stop_send_failure_revives_exited_runtime :
  exists w r r', rtc rt_step rtw_init w /\ w_rt w = Some r /\ w_thread w = TExited /\
    rt_state r = RUNTIME_READY /\ acquire_section r = (0, None, r').
Proof.
  pose (r1 := set_state RUNTIME_READY (set_owners [Some 1%nat] 1 (set_owner (Some 1%nat) runtime_zero))).
  pose (r2 := set_state RUNTIME_STOPPING r1).
  pose (r3 := set_owner None (set_app_status 0 r2)).
  exists (RtW true (Some (set_state RUNTIME_READY r3)) TExited false [] 0), (set_state RUNTIME_READY r3).
  eexists. split; [|done].
  eapply rtc_l. { apply (RStarted runtime_zero r1 [] 0 (Some 1%nat) [Some 1%nat] 1 0); done. }
  eapply rtc_l. { by apply RStartReturns. }
  eapply rtc_l. { by apply (RStopBegins true r1 r2 (Some 1%nat)). }
  eapply rtc_l. { by apply (RExit true r2 r3 _ _ _ _ 0). }
  eapply rtc_l. { apply (RStopSendFails true r3 TExited 1%nat [] [] 0). }
  apply rtc_refl.
Qed.


(** ** The properties at concrete inputs *)

(** A ready runtime with three dispatcher owners. *)
Definition sample_runtime : runtime :=
  set_state RUNTIME_READY (set_owners [Some 1; Some 2; Some 3]%nat 3 (set_owner (Some 1%nat) runtime_zero)).

Definition sample_leased : rtw :=
  RtW true (Some (set_leases 1 sample_runtime)) TLooping false [] 1.

Lemma sample_leased_reachable : rtc rt_step rtw_init sample_leased.
Proof.
  eapply rtc_l.
  { by apply (RStarted runtime_zero sample_runtime [] 0 (Some 1%nat) [Some 1; Some 2; Some 3]%nat 3 0). }
  eapply rtc_l. { by apply RStartReturns. }
  eapply rtc_l. { by apply (RAcquire true sample_runtime (set_leases 1 sample_runtime) TLooping [] 0 (Some 1%nat)). }
  apply rtc_refl.
Qed.

Lemma sample_owners_ok : owners_ok 3 3 sample_runtime.
Proof.
  split; [done|done|lia|]. intros i Hi.
  destruct i as [|[|[|i]]]; [by eexists..|lia].
Qed.

Lemma runtime_lease_blocks_teardown_witness :
  exists r, w_rt sample_leased = Some r /\ active_leases r = 1 /\ stop_section r = inl (- EBUSY).
Proof.
  destruct (runtime_lease_blocks_teardown sample_leased sample_leased_reachable eq_refl)
    as (r & Hr & Hl & _ & _ & _ & Hs).
  exists r. injection Hr as <-. split; [reflexivity|]. split; [exact Hl|exact Hs].
Defined.


Lemma runtime_stop_exclusive_witness :
  (length (w_stoppers sample_leased) <= 1)%nat /\ w_active sample_leased <> false.
Proof.
  destruct (runtime_stop_exclusive sample_leased sample_leased_reachable) as (Hl & _ & Ha).
  split; [exact Hl|]. intros Hf. apply Ha with (r := set_leases 1 sample_runtime) in Hf; done.
Defined.

Definition sample_opts : runtime_opts :=
  RuntimeOpts 56 (Some "zettide"%string) None (Some 1%nat) 10 64 true true true true None.

Definition rt_conf0 : conf RtStore := Conf (RtS false ∅) ∅ [].


Definition rt_conf1 (r : runtime) : conf RtStore := Conf (RtS true {[5%nat := r]}) {[5%nat]} [].

Lemma create_owners_in_bounds_witness :
  exists rc c' r', create_dispatcher_owners 5 (sample_env (Some 1%nat))
      (rt_conf1 (set_owner (Some 1%nat) runtime_zero)) = (Done rc, c') /\
    runtimes (store c') !! 5%nat = Some r' /\ (rc = 0 -> owners_ok 3 3 r').
Proof.
  apply (create_owners_in_bounds (sample_env (Some 1%nat)) _ 5
    (set_owner (Some 1%nat) runtime_zero) 1%nat 1 [0; 1; 2]); try reflexivity.
  split; [|split; [set_solver|split; [vm_compute; discriminate|done]]].
  repeat constructor; set_solver.
Defined.

Lemma dispatcher_owners_round_robin_witness :
  exists l r', acquire_many 5 sample_runtime = Some (l, r') /\ length l = 5%nat.
Proof.
  destruct (dispatcher_owners_round_robin 3 5 sample_runtime eq_refl sample_owners_ok) as (l & r' & H1 & H2 & _);
    [lia|vm_compute; discriminate|simpl; lia|]. by exists l, r'.
Defined.

(** Delivery in the order of arrival, as long as no handler faults. *)
Fixpoint pump_fifo (e : env) (p : ptr) (k : nat) (P : pump) : option pump :=
  match k with
  | O => Some P
  | S k =>
      match p_queue P with
      | [] => None
      | m :: q =>
          match deliver p m e (p_conf P) with
          | (Done tt, c') =>
              pump_fifo e p k (Pump c' (q ++ accepted (new_events (hist (p_conf P)) (hist c'))))
          | _ => None
          end
      end
  end.

Lemma pump_fifo_steps e p k : forall P P', pump_fifo e p k P = Some P' -> nsteps (pump_step e p) k P P'.
Proof.
  induction k as [|k IH]; intros [c q] P'; simpl; [intros [= <-]; constructor|].
  destruct q as [|m q]; [done|]. destruct (deliver p m e c) as [[[]|f|] c'] eqn:E; [|done|done].
  intros Hk. econstructor; [exact (PumpDeliver e p c c' [] m q E)|]. by apply IH.
Qed.

Definition sample_shutdown : pump :=
  default (Pump (rt_conf1 sample_runtime) [(1%nat, FnStopRuntime)])
    (pump_fifo (sample_env None) 5 5 (Pump (rt_conf1 sample_runtime) [(1%nat, FnStopRuntime)])).

