(* ===== verification/Endpoint.v ===== *)
(** * Endpoint: services/data-node/spdk/bdev_endpoint.c

    An endpoint is an open SPDK block device with its I/O channel.  All its
    operations run on the SPDK thread that opened it.  The store keeps the live
    endpoints, the live requests and, for every live request, the callback SPDK
    owes: the completion of an accepted I/O or the retry of one that waits for
    a free [spdk_bdev_io]. *)

From S2P Require Import Prelude Effects Externals.

(** ** Data *)

Definition ZETTIDE_SPDK_BDEV_WRITABLE : Z := Z.shiftl 1 0.
Definition ZETTIDE_SPDK_BDEV_FLUSH_SUPPORTED : Z := Z.shiftl 1 1.
Definition ZETTIDE_SPDK_BDEV_WRITE_CACHE : Z := Z.shiftl 1 2.

Record bdev_geometry := Geometry {
  capacity_bytes : Z;
  block_count : Z;
  logical_block_size : Z;
  write_unit_blocks : Z;
  buffer_alignment : Z;
  flags : Z;
}.

Definition ZETTIDE_SPDK_BDEV_REMOVE : Z := 1.
Definition ZETTIDE_SPDK_BDEV_RESIZE : Z := 2.

Inductive request_operation :=
  | REQUEST_READ
  | REQUEST_WRITE
  | REQUEST_FLUSH.

Record endpoint := Endpoint {
  owner : option thread;
  descriptor : handle;
  bdev : handle;
  channel : handle;
  geometry : bdev_geometry;
  outstanding : Z;
  writable : bool;
  removed : bool;
  event_cb : option nat;
  event_context : nat;
}.

Record bdev_request := Request {
  rq_endpoint : ptr;
  rq_operation : request_operation;
  rq_buffer : Z;
  rq_offset : Z;
  rq_length : Z;
  rq_callback : nat;
  rq_context : cookie;
}.

(** [enum spdk_bdev_event_type] as the sources distinguish it. *)
Inductive bdev_event_type :=
  | SPDK_BDEV_EVENT_REMOVE
  | SPDK_BDEV_EVENT_RESIZE
  | SPDK_BDEV_EVENT_OTHER.

(** What SPDK owes for a live request. *)
Inductive owed_callback :=
  | OwesComplete
  | OwesRetry.

Record EpStore := EpS {
  endpoints : gmap ptr endpoint;
  requests : gmap ptr bdev_request;
  owed : gmap ptr owed_callback;
}.

(** ** Store access *)

Definition get_ep (p : ptr) : M EpStore endpoint :=
  let! s := get in deref (endpoints s !! p).

Definition get_request (r : ptr) : M EpStore bdev_request :=
  let! s := get in deref (requests s !! r).

Definition put_ep (p : ptr) (ep : endpoint) : M EpStore unit :=
  modify (fun s => EpS (<[p:=ep]> (endpoints s)) (requests s) (owed s)).

Definition put_request (r : ptr) (rq : bdev_request) : M EpStore unit :=
  modify (fun s => EpS (endpoints s) (<[r:=rq]> (requests s)) (owed s)).

Definition free_ep (p : ptr) : M EpStore unit :=
  modify (fun s => EpS (delete p (endpoints s)) (requests s) (owed s)) ;;;
  free (Some p).

Definition free_request (r : ptr) : M EpStore unit :=
  modify (fun s => EpS (endpoints s) (delete r (requests s)) (owed s)) ;;;
  free (Some r).

(** SPDK accepted a callback for request [r]. *)
Definition spdk_owes (r : ptr) (k : owed_callback) : M EpStore unit :=
  modify (fun s => EpS (endpoints s) (requests s) (<[r:=k]> (owed s))).

(** SPDK delivers the callback it owes for [r]. *)
Definition spdk_delivers (r : ptr) : M EpStore unit :=
  modify (fun s => EpS (endpoints s) (requests s) (delete r (owed s))).

#[global] Arguments get_ep : simpl never.
#[global] Arguments get_request : simpl never.
#[global] Arguments put_ep : simpl never.
#[global] Arguments put_request : simpl never.
#[global] Arguments free_ep : simpl never.
#[global] Arguments free_request : simpl never.
#[global] Arguments spdk_owes : simpl never.
#[global] Arguments spdk_delivers : simpl never.

Definition set_geometry (g : bdev_geometry) (ep : endpoint) : endpoint :=
  Endpoint (owner ep) (descriptor ep) (bdev ep) (channel ep) g (outstanding ep)
    (writable ep) (removed ep) (event_cb ep) (event_context ep).

Definition set_removed (ep : endpoint) : endpoint :=
  Endpoint (owner ep) (descriptor ep) (bdev ep) (channel ep) (geometry ep)
    (outstanding ep) (writable ep) true (event_cb ep) (event_context ep).

Definition set_outstanding (n : Z) (ep : endpoint) : endpoint :=
  Endpoint (owner ep) (descriptor ep) (bdev ep) (channel ep) (geometry ep) n
    (writable ep) (removed ep) (event_cb ep) (event_context ep).

Definition set_bdev (d b : handle) (ep : endpoint) : endpoint :=
  Endpoint (owner ep) d b (channel ep) (geometry ep) (outstanding ep)
    (writable ep) (removed ep) (event_cb ep) (event_context ep).

Definition set_channel (ch : handle) (ep : endpoint) : endpoint :=
  Endpoint (owner ep) (descriptor ep) (bdev ep) ch (geometry ep) (outstanding ep)
    (writable ep) (removed ep) (event_cb ep) (event_context ep).

Definition zero_geometry : bdev_geometry := Geometry 0 0 0 0 0 0.

(** ** Operations *)

Definition on_owner_thread {S} (ep : endpoint) : M S bool :=
  let! t := spdk_get_thread in ret (bool_decide (t = owner ep)).

Definition refresh_geometry (p : ptr) : M EpStore Z :=
  let! ep := get_ep p in
  let! blocks := call_u64 (SpdkBdevGetNumBlocks (bdev ep)) (fun r => r) in
  let! block_size := call_u32 (SpdkBdevGetBlockSize (bdev ep)) (fun r => r) in
  let! alignment := call_u64 (SpdkBdevGetBufAlign (bdev ep)) (fun r => r) in
  if (block_size =? 0) || (blocks >? UINT64_MAX / block_size)
     || (alignment >? UINT32_MAX)
  then ret (- EOVERFLOW)
  else
    let! write_unit := call_u32 (SpdkBdevGetWriteUnitSize (bdev ep)) (fun r => r) in
    let! flush := call (SpdkBdevIoTypeSupported (bdev ep) SPDK_BDEV_IO_TYPE_FLUSH) in
    let! cache := call (SpdkBdevHasWriteCache (bdev ep)) in
    let f0 := 0 in
    let f1 := if writable ep then Z.lor f0 ZETTIDE_SPDK_BDEV_WRITABLE else f0 in
    let f2 := if (flush : bool) then Z.lor f1 ZETTIDE_SPDK_BDEV_FLUSH_SUPPORTED else f1 in
    let f3 := if (cache : bool) then Z.lor f2 ZETTIDE_SPDK_BDEV_WRITE_CACHE else f2 in
    put_ep p (set_geometry
      (Geometry (u64 (blocks * block_size)) blocks block_size write_unit
         (u32 alignment) f3) ep) ;;;
    ret 0.

Definition run_event_cb (p : ptr) (event : Z) : M EpStore unit :=
  let! ep := get_ep p in
  match event_cb ep with
  | None => ret tt
  | Some cb => call (EventCallback cb (event_context ep) p event)
  end.

Definition bdev_event (type : bdev_event_type) (p : ptr) : M EpStore unit :=
  match type with
  | SPDK_BDEV_EVENT_REMOVE =>
      let! ep := get_ep p in
      put_ep p (set_removed ep) ;;;
      run_event_cb p ZETTIDE_SPDK_BDEV_REMOVE
  | SPDK_BDEV_EVENT_RESIZE =>
      let! rc := refresh_geometry p in
      if rc !=? 0 then
        let! ep := get_ep p in
        put_ep p (set_removed ep) ;;;
        run_event_cb p ZETTIDE_SPDK_BDEV_REMOVE
      else run_event_cb p ZETTIDE_SPDK_BDEV_RESIZE
  | SPDK_BDEV_EVENT_OTHER => ret tt
  end.

(** The [fail:] label of [zettide_spdk_bdev_open]. *)
Definition open_fail (p : ptr) (rc : Z) : M EpStore (Z * option (option ptr)) :=
  let! ep := get_ep p in
  call (SpdkBdevClose (descriptor ep)) ;;;
  free_ep p ;;;
  ret (rc, Some None).

(** The body of [zettide_spdk_bdev_open] once [spdk_bdev_open_ext] succeeded. *)
Definition open_device (p : ptr) (wr : bool) (desc : handle)
    : M EpStore (Z * option (option ptr)) :=
  let! b := call (SpdkBdevDescGetBdev desc) in
  let! ep := get_ep p in
  put_ep p (set_bdev desc b ep) ;;;
  let! rd := call (SpdkBdevIoTypeSupported b SPDK_BDEV_IO_TYPE_READ) in
  let! wt := (if rd && wr then
                let! r := call (SpdkBdevIoTypeSupported b SPDK_BDEV_IO_TYPE_WRITE) in
                ret (r : bool)
              else ret true) in
  if negb rd || (wr && negb wt) then open_fail p (- ENOTSUP) else
  let! md := call (SpdkBdevGetMdSize b) in
  let! zoned := (if md =? 0 then
                   let! r := call (SpdkBdevIsZoned b) in ret (r : bool)
                 else ret true) in
  if zoned then open_fail p (- ENOTSUP) else
  let! ch := call (SpdkBdevGetIoChannel desc) in
  let! ep := get_ep p in
  put_ep p (set_channel ch ep) ;;;
  if (ch =? 0)%nat then open_fail p (- ENOMEM) else
  let! rc := refresh_geometry p in
  if rc !=? 0 then
    call (SpdkPutIoChannel ch) ;;; open_fail p rc
  else ret (0, Some (Some p)).

(** The second component of the result is what was stored in [*endpoint_out]:
    [None] when it was not written. *)
Definition zettide_spdk_bdev_open (name : option string) (wr : bool)
    (cb : option nat) (context : nat) (endpoint_out : bool)
    : M EpStore (Z * option (option ptr)) :=
  match name with
  | None => ret (- EINVAL, None)
  | Some name =>
      if negb endpoint_out then ret (- EINVAL, None) else
      let! t := spdk_get_thread in
      if is_null t then ret (- EPERM, None) else
      let! mp := calloc in
      match mp with
      | None => ret (- ENOMEM, Some None)
      | Some p =>
          put_ep p (Endpoint t 0%nat 0%nat 0%nat zero_geometry 0 wr false cb context) ;;;
          let! r := call (SpdkBdevOpenExt name wr p) in
          if r.1 !=? 0 then free_ep p ;;; ret (r.1, Some None) else
          open_device p wr r.2
      end
  end.

Definition zettide_spdk_bdev_close (p : option ptr) : M EpStore Z :=
  match p with
  | None => ret (- EINVAL)
  | Some p =>
      let! ep := get_ep p in
      let! on_owner := on_owner_thread ep in
      if negb on_owner then ret (- EPERM) else
      if outstanding ep !=? 0 then ret (- EBUSY) else
      call (SpdkPutIoChannel (channel ep)) ;;;
      call (SpdkBdevClose (descriptor ep)) ;;;
      free_ep p ;;;
      ret 0
  end.

Definition zettide_spdk_bdev_get_geometry (p : option ptr)
    : M EpStore (option bdev_geometry) :=
  match p with
  | None => ret None
  | Some p => let! ep := get_ep p in ret (Some (geometry ep))
  end.

Definition zettide_spdk_bdev_get_name (p : option ptr) : M EpStore (option string) :=
  match p with
  | None => ret None
  | Some p =>
      let! ep := get_ep p in
      let! on_owner := on_owner_thread ep in
      if negb on_owner then ret None else
      let! name := call (SpdkBdevGetName (bdev ep)) in ret (Some (name : string))
  end.

(** The [while (remaining > 0)] loop.  Every turn consumes at least one byte,
    so [remaining] turns are enough. *)
Fixpoint dma_loop {S} (fuel : nat) (address remaining : Z) : M S bool :=
  if remaining >? 0 then
    match fuel with
    | O => fail Diverged
    | Datatypes.S fuel =>
        let! r := call (SpdkVtophys address remaining) in
        match r with
        | None => ret false
        | Some size =>
            let translated := u64 size in
            if translated =? 0 then ret false else
            let translated := if translated >? remaining then remaining else translated in
            dma_loop fuel (u64 (address + translated)) (remaining - translated)
        end
    end
  else ret true.

Definition zettide_spdk_bdev_buffer_is_dma_capable (p : option ptr) (buffer length : Z)
    : M EpStore bool :=
  match p with
  | None => ret false
  | Some p =>
      if (buffer =? 0) || (length =? 0) then ret false else
      let! ep := get_ep p in
      let! on_owner := on_owner_thread ep in
      if negb on_owner then ret false else
      let alignment := buffer_alignment (geometry ep) in
      if ((alignment >? 1) && (buffer mod alignment !=? 0))
         || (length >? UINTPTR_MAX - buffer)
      then ret false
      else dma_loop (Z.to_nat length) buffer length
  end.

(** [a % b] in C: a zero divisor is undefined behaviour. *)
Definition cmod {S} (a b : Z) : M S Z :=
  if b =? 0 then fail DivByZero else ret (a mod b).

Definition validate_range {S} (ep : endpoint) (buffer offset length : Z) (write : bool)
    : M S Z :=
  let block_size := logical_block_size (geometry ep) in
  let write_unit := write_unit_blocks (geometry ep) in
  let alignment := buffer_alignment (geometry ep) in
  let! on_owner := on_owner_thread ep in
  if negb on_owner then ret (- EPERM) else
  if removed ep then ret (- ENODEV) else
  if (buffer =? 0) || (length =? 0) then ret (- EINVAL) else
  let! offset_rem := cmod offset block_size in
  let! length_rem := cmod length block_size in
  if (offset_rem !=? 0) || (length_rem !=? 0) then ret (- EINVAL) else
  if (offset >? capacity_bytes (geometry ep))
     || (length >? u64 (capacity_bytes (geometry ep) - offset)) then ret (- ERANGE) else
  if (alignment >? 1) && (buffer mod alignment !=? 0) then ret (- EINVAL) else
  if negb write then ret 0 else
  if negb (writable ep) then ret (- EBADF) else
  let offset_blocks := offset / block_size in
  let length_blocks := length / block_size in
  if (write_unit =? 0) || (offset_blocks mod write_unit !=? 0)
     || (length_blocks mod write_unit !=? 0) then ret (- EINVAL) else
  ret 0.

Definition finish_request (r : ptr) (status : Z) : M EpStore unit :=
  let! rq := get_request r in
  let! ep := get_ep (rq_endpoint rq) in
  put_ep (rq_endpoint rq) (set_outstanding (u64 (outstanding ep - 1)) ep) ;;;
  free_request r ;;;
  call (IoCallback r (rq_callback rq) (rq_context rq) status).

Definition complete_request (bdev_io : handle) (success : bool) (r : ptr)
    : M EpStore unit :=
  let! rq := get_request r in
  let! status :=
    (if success then ret 0 else
     let! aio := call (SpdkBdevIoGetAioStatus bdev_io) in
     let status := if (aio : Z) >=? 0 then - EIO else aio in
     let! ep := get_ep (rq_endpoint rq) in
     ret (if removed ep then - ENODEV else status)) in
  call (SpdkBdevFreeIo bdev_io) ;;;
  finish_request r status.

Definition issue_request (r : ptr) : M EpStore Z :=
  let! rq := get_request r in
  let! ep := get_ep (rq_endpoint rq) in
  let! rc :=
    match rq_operation rq with
    | REQUEST_READ =>
        call (SpdkBdevRead (descriptor ep) (channel ep) (rq_buffer rq)
                (rq_offset rq) (rq_length rq) r)
    | REQUEST_WRITE =>
        call (SpdkBdevWrite (descriptor ep) (channel ep) (rq_buffer rq)
                (rq_offset rq) (rq_length rq) r)
    | REQUEST_FLUSH =>
        call (SpdkBdevFlush (descriptor ep) (channel ep)
                (rq_offset rq) (rq_length rq) r)
    end in
  (if rc =? 0 then spdk_owes r OwesComplete else ret tt) ;;;
  if rc !=? - ENOMEM then ret rc else
  let! rc := call (SpdkBdevQueueIoWait (bdev ep) (channel ep) r) in
  (if rc =? 0 then spdk_owes r OwesRetry else ret tt) ;;;
  ret (rc : Z).

Definition retry_request (r : ptr) : M EpStore unit :=
  let! rq := get_request r in
  let! ep := get_ep (rq_endpoint rq) in
  if removed ep then finish_request r (- ENODEV) else
  let! rc := issue_request r in
  if rc !=? 0 then finish_request r rc else ret tt.

Definition submit_request (p : option ptr) (operation : request_operation)
    (buffer offset length : Z) (callback : option nat) (context : cookie) : M EpStore Z :=
  match p, callback with
  | Some p, Some cb =>
      let! mr := calloc in
      match mr with
      | None => ret (- ENOMEM)
      | Some r =>
          put_request r (Request p operation buffer offset length cb context) ;;;
          let! ep := get_ep p in
          put_ep p (set_outstanding (u64 (outstanding ep + 1)) ep) ;;;
          let! rc := issue_request r in
          (if rc !=? 0 then
             let! ep := get_ep p in
             put_ep p (set_outstanding (u64 (outstanding ep - 1)) ep) ;;;
             free_request r
           else ret tt) ;;;
          ret rc
      end
  | _, _ => ret (- EINVAL)
  end.

Definition zettide_spdk_bdev_read (p : option ptr) (buffer offset length : Z)
    (callback : option nat) (context : cookie) : M EpStore Z :=
  match p with
  | None => ret (- EINVAL)
  | Some p' =>
      let! ep := get_ep p' in
      let! rc := validate_range ep buffer offset length false in
      if rc !=? 0 then ret rc else
      let! ok := call (SpdkBdevIoTypeSupported (bdev ep) SPDK_BDEV_IO_TYPE_READ) in
      if negb ok then ret (- ENOTSUP) else
      submit_request p REQUEST_READ buffer offset length callback context
  end.

Definition zettide_spdk_bdev_write (p : option ptr) (buffer offset length : Z)
    (callback : option nat) (context : cookie) : M EpStore Z :=
  match p with
  | None => ret (- EINVAL)
  | Some p' =>
      let! ep := get_ep p' in
      let! rc := validate_range ep buffer offset length true in
      if rc !=? 0 then ret rc else
      let! ok := call (SpdkBdevIoTypeSupported (bdev ep) SPDK_BDEV_IO_TYPE_WRITE) in
      if negb ok then ret (- ENOTSUP) else
      submit_request p REQUEST_WRITE buffer offset length callback context
  end.

Definition zettide_spdk_bdev_flush (p : option ptr) (offset length : Z)
    (callback : option nat) (context : cookie) : M EpStore Z :=
  match p, callback with
  | Some p', Some _ =>
      let! ep := get_ep p' in
      let! on_owner := on_owner_thread ep in
      if negb on_owner then ret (- EPERM) else
      if removed ep then ret (- ENODEV) else
      if negb (writable ep) then ret (- EBADF) else
      let! ok := call (SpdkBdevIoTypeSupported (bdev ep) SPDK_BDEV_IO_TYPE_FLUSH) in
      if negb ok then ret (- ENOTSUP) else
      if length =? 0 then ret (- EINVAL) else
      let! offset_rem := cmod offset (logical_block_size (geometry ep)) in
      let! length_rem := cmod length (logical_block_size (geometry ep)) in
      if (offset_rem !=? 0) || (length_rem !=? 0) then ret (- EINVAL) else
      if (offset >? capacity_bytes (geometry ep))
         || (length >? u64 (capacity_bytes (geometry ep) - offset)) then ret (- ERANGE) else
      submit_request p REQUEST_FLUSH 0 offset length callback context
  | _, _ => ret (- EINVAL)
  end.

(** Memory for DMA; the address 0 is NULL. *)
Definition zettide_spdk_dma_malloc {S} (size alignment : Z) : M S Z := call (SpdkDmaMalloc size alignment).
Definition zettide_spdk_dma_zmalloc {S} (size alignment : Z) : M S Z := call (SpdkDmaZmalloc size alignment).
Definition zettide_spdk_dma_free {S} (buffer : Z) : M S unit := call (SpdkDmaFree buffer).

#[global] Arguments validate_range : simpl never.
#[global] Arguments finish_request : simpl never.
#[global] Arguments complete_request : simpl never.
#[global] Arguments issue_request : simpl never.
#[global] Arguments retry_request : simpl never.
#[global] Arguments submit_request : simpl never.
#[global] Arguments refresh_geometry : simpl never.
#[global] Arguments open_fail : simpl never.
#[global] Arguments open_device : simpl never.

(** ** Invariant *)

(** The live requests of endpoint [p]. *)
Definition requests_of (p : ptr) (rs : gmap ptr bdev_request) : gmap ptr bdev_request :=
  filter (fun kv => rq_endpoint kv.2 = p) rs.

Definition geometry_ok (g : bdev_geometry) : Prop :=
  0 < logical_block_size g <= UINT32_MAX
  /\ 0 <= block_count g
  /\ capacity_bytes g = block_count g * logical_block_size g
  /\ capacity_bytes g <= UINT64_MAX
  /\ is_u32 (write_unit_blocks g)
  /\ is_u32 (buffer_alignment g).

Definition is_callback_of (r : ptr) (ev : event) : bool :=
  match ev with
  | EvCall (IoCallback r' _ _ _) _ => (r =? r')%nat
  | _ => false
  end.

(** How often the client callback of request [r] was called. *)
Definition callbacks (r : ptr) (h : list event) : Z := count_events (is_callback_of r) h.

(** [X]: requests whose callback SPDK has just delivered or not yet accepted,
    because one of the functions above is working on them; [Y]: endpoints under
    construction.  Between two calls both are empty. *)
Record ep_invX (X Y : gset ptr) (c : conf EpStore) : Prop := {
  inv_conf : conf_ok c;
  inv_live_ep : forall p ep, endpoints (store c) !! p = Some ep -> p ∈ live c;
  inv_live_rq : forall p rq, requests (store c) !! p = Some rq -> p ∈ live c;
  inv_disj : forall p ep, endpoints (store c) !! p = Some ep -> requests (store c) !! p = None;
  inv_req : forall r rq, requests (store c) !! r = Some rq ->
            is_Some (endpoints (store c) !! rq_endpoint rq);
  inv_owed : dom (owed (store c)) = dom (requests (store c)) ∖ X;
  inv_working : X ⊆ dom (requests (store c));
  inv_out : forall p ep, endpoints (store c) !! p = Some ep ->
            outstanding ep = Z.of_nat (size (requests_of p (requests (store c))));
  inv_geom : forall p ep, endpoints (store c) !! p = Some ep -> p ∉ Y ->
             geometry_ok (geometry ep);
  inv_once : forall r, callbacks r (hist c) <= 1;
  inv_zero : forall r, is_Some (requests (store c) !! r) \/ (length (hist c) < r)%nat ->
             callbacks r (hist c) = 0;
}.

Definition ep_inv (c : conf EpStore) : Prop := ep_invX ∅ ∅ c.

(** Along a computation the history grows, and a request leaves the store only
    when its callback is called. *)
Record evolves (c c' : conf EpStore) : Prop := {
  ev_hist : hist c `suffix_of` hist c';
  ev_requests : forall r, is_Some (requests (store c) !! r) ->
                is_Some (requests (store c') !! r) \/ 1 <= callbacks r (hist c');
}.

(** Descriptors and I/O channels the code holds after a history. *)
Definition desc_delta (ev : event) : Z :=
  match ev with
  | EvCall c r =>
      match c as c return ext_resp c -> Z with
      | SpdkBdevOpenExt _ _ _ => fun r => if r.1 =? 0 then 1 else 0
      | SpdkBdevClose _ => fun _ => -1
      | _ => fun _ => 0
      end r
  | _ => 0
  end.

Definition chan_delta (ev : event) : Z :=
  match ev with
  | EvCall c r =>
      match c as c return ext_resp c -> Z with
      | SpdkBdevGetIoChannel _ => fun r => if (r =? 0)%nat then 0 else 1
      | SpdkPutIoChannel _ => fun _ => -1
      | _ => fun _ => 0
      end r
  | _ => 0
  end.

(** From history [h] to [h'] the code acquired [d] descriptors and [k] channels
    (negative: released). *)
Definition acquired (h h' : list event) (d k : Z) : Prop :=
  sum_events desc_delta h' = sum_events desc_delta h + d /\
  sum_events chan_delta h' = sum_events chan_delta h + k.

(** ** The endpoint as a state machine *)

Inductive ep_label :=
  | LOpen (name : option string) (wr : bool) (cb : option nat) (context : nat) (out : bool)
  | LClose (p : option ptr)
  | LRead (p : option ptr) (buffer offset length : Z) (cb : option nat) (context : cookie)
  | LWrite (p : option ptr) (buffer offset length : Z) (cb : option nat) (context : cookie)
  | LFlush (p : option ptr) (offset length : Z) (cb : option nat) (context : cookie)
  | LEvent (type : bdev_event_type) (p : ptr)
  | LComplete (bdev_io : handle) (success : bool) (r : ptr)
  | LRetry (r : ptr).

Definition ep_exec (l : ep_label) : M EpStore unit :=
  match l with
  | LOpen name wr cb context out =>
      zettide_spdk_bdev_open name wr cb context out ;;; ret tt
  | LClose p => zettide_spdk_bdev_close p ;;; ret tt
  | LRead p b o n cb context => zettide_spdk_bdev_read p b o n cb context ;;; ret tt
  | LWrite p b o n cb context => zettide_spdk_bdev_write p b o n cb context ;;; ret tt
  | LFlush p o n cb context => zettide_spdk_bdev_flush p o n cb context ;;; ret tt
  | LEvent type p => bdev_event type p
  | LComplete io success r => spdk_delivers r ;;; complete_request io success r
  | LRetry r => spdk_delivers r ;;; retry_request r
  end.

Definition live_or_null (p : option ptr) (s : EpStore) : Prop :=
  match p with None => True | Some p => is_Some (endpoints s !! p) end.

(** Clients pass handles they opened and did not close, and offsets and lengths
    of type [uint64_t]; SPDK delivers events to
    open descriptors and exactly the callbacks it owes. *)
Definition ep_enabled (l : ep_label) (s : EpStore) : Prop :=
  match l with
  | LOpen _ _ _ _ _ => True
  | LClose p => live_or_null p s
  | LRead p _ o n _ _ | LWrite p _ o n _ _ | LFlush p o n _ _ =>
      live_or_null p s /\ is_u64 o /\ is_u64 n
  | LEvent _ p => is_Some (endpoints s !! p)
  | LComplete _ _ r => owed s !! r = Some OwesComplete
  | LRetry r => owed s !! r = Some OwesRetry
  end.

Inductive ep_step : conf EpStore -> conf EpStore -> Prop :=
  | EpStep (e : env) (l : ep_label) (c c' : conf EpStore) :
      ep_enabled l (store c) ->
      ep_exec l e c = (Done tt, c') ->
      ep_step c c'.

Definition ep_init : conf EpStore := Conf (EpS ∅ ∅ ∅) ∅ [].

(** ** Lemmas on the store *)

Lemma requests_of_insert p r rq rs :
  rs !! r = None -> rq_endpoint rq = p ->
  size (requests_of p (<[r:=rq]> rs)) = S (size (requests_of p rs)).
Proof.
  intros Hr Hp. unfold requests_of.
  rewrite map_filter_insert_True by done.
  apply map_size_insert_None. apply map_lookup_filter_None. auto.
Qed.

Lemma requests_of_insert_ne p r rq rs :
  rs !! r = None -> rq_endpoint rq <> p ->
  requests_of p (<[r:=rq]> rs) = requests_of p rs.
Proof.
  intros Hr Hp. unfold requests_of. rewrite map_filter_insert_not'; [done..|].
  intros y Hy. congruence.
Qed.

Lemma requests_of_delete p r rq rs :
  rs !! r = Some rq -> rq_endpoint rq = p ->
  S (size (requests_of p (delete r rs))) = size (requests_of p rs).
Proof.
  intros Hr Hp. rewrite <- (insert_delete_id rs r rq Hr) at 2.
  by rewrite requests_of_insert; [|apply lookup_delete_eq|].
Qed.

Lemma requests_of_delete_ne p r rq rs :
  rs !! r = Some rq -> rq_endpoint rq <> p ->
  requests_of p (delete r rs) = requests_of p rs.
Proof.
  intros Hr Hp. rewrite <- (insert_delete_id rs r rq Hr) at 2.
  by rewrite requests_of_insert_ne; [|apply lookup_delete_eq|].
Qed.

Lemma callbacks_mono r h h' : h `suffix_of` h' -> callbacks r h <= callbacks r h'.
Proof.
  intros [k ->]. unfold callbacks. induction k as [|ev k IH]; simpl; [lia|].
  destruct (is_callback_of r ev); lia.
Qed.

Lemma evolves_refl c : evolves c c.
Proof. split; auto. Qed.

Lemma evolves_trans c1 c2 c3 : evolves c1 c2 -> evolves c2 c3 -> evolves c1 c3.
Proof.
  intros [H1 R1] [H2 R2]. split; [by trans (hist c2)|].
  intros r Hr. destruct (R1 r Hr) as [Hin|Hcb]; [by apply R2|].
  right. pose proof (callbacks_mono r _ _ H2). lia.
Qed.

(** The store is the same and the history gained events that are no callbacks. *)
Definition quiet (ev : event) : Prop := forall r, is_callback_of r ev = false.

Lemma callbacks_quiet r ev h : quiet ev -> callbacks r (ev :: h) = callbacks r h.
Proof. intros Hq. unfold callbacks. simpl. by rewrite (Hq r). Qed.

Lemma inv_log X Y s l h ev :
  ep_invX X Y (Conf s l h) -> quiet ev -> ep_invX X Y (Conf s l (ev :: h)).
Proof.
  intros [] Hq. split; simpl in *; auto.
  - by apply (conf_ok_log (Conf s l h)).
  - intros r. by rewrite callbacks_quiet.
  - intros r [Hr|Hr]; rewrite callbacks_quiet by done; auto with lia.
Qed.

Lemma evolves_log s l l' h ev : evolves (Conf s l h) (Conf s l' (ev :: h)).
Proof. split; simpl; [by apply suffix_cons_r|]. auto. Qed.

(** ** What the primitive store updates do to the invariant *)

Lemma inv_put_ep X Y Y' s l h p ep ep' :
  ep_invX X Y (Conf s l h) ->
  endpoints s !! p = Some ep ->
  outstanding ep' = outstanding ep ->
  (p ∉ Y' -> geometry_ok (geometry ep')) ->
  (forall q, q <> p -> q ∉ Y' -> q ∉ Y) ->
  ep_invX X Y' (Conf (EpS (<[p:=ep']> (endpoints s)) (requests s) (owed s)) l h).
Proof.
  intros [] Hp Hout Hg HY. split; simpl in *; auto.
  - intros q eq Hq. destruct (decide (q = p)) as [->|]; simplify_map_eq; eauto.
  - intros q eq Hq. destruct (decide (q = p)) as [->|]; simplify_map_eq; eauto.
  - intros r rq Hr. apply lookup_insert_is_Some'. eauto.
  - intros q eq Hq. destruct (decide (q = p)) as [->|]; simplify_map_eq; [|eauto].
    rewrite Hout. eauto.
  - intros q eq Hq HqY. destruct (decide (q = p)) as [->|]; simplify_map_eq; eauto.
Qed.

Lemma requests_of_none p rs :
  (forall r rq, rs !! r = Some rq -> rq_endpoint rq <> p) -> requests_of p rs = ∅.
Proof.
  intros Hno. apply map_empty. intros r. apply map_lookup_filter_None. right.
  intros rq Hr. simpl. eauto.
Qed.

Lemma inv_new_ep X Y s l h p ep :
  ep_invX X Y (Conf s l h) -> p = Datatypes.S (length h) ->
  Z.of_nat (size l) < UINTPTR_MAX -> outstanding ep = 0 ->
  ep_invX X ({[p]} ∪ Y)
    (Conf (EpS (<[p:=ep]> (endpoints s)) (requests s) (owed s)) ({[p]} ∪ l)
       (EvAlloc (Some p) :: h)).
Proof.
  intros [] -> Hsz Hout. simpl in *. set (p := Datatypes.S (length h)).
  assert (endpoints s !! p = None) as HpE by by eapply fresh_lookup.
  assert (requests s !! p = None) as HpR by by eapply fresh_lookup.
  split; simpl; auto.
  - by eapply conf_ok_alloc.
  - intros q eq Hq. destruct (decide (q = p)) as [->|]; simplify_map_eq; set_solver.
  - intros q rq Hq. set_solver.
  - intros q eq Hq. destruct (decide (q = p)) as [->|]; simplify_map_eq; eauto.
  - intros r rq Hr. apply lookup_insert_is_Some'. eauto.
  - intros q eq Hq. destruct (decide (q = p)) as [->|]; simplify_map_eq; [|eauto].
    rewrite Hout, requests_of_none; [done|]. intros r rq Hr Heq.
    destruct (inv_req0 _ _ Hr) as [? ?]. congruence.
  - intros q eq Hq HqY. destruct (decide (q = p)) as [->|]; simplify_map_eq; [set_solver|].
    eapply inv_geom0; [done|]. set_solver.
  - intros r Hr. rewrite callbacks_quiet by done. apply inv_zero0.
    destruct Hr; [auto|right; lia].
Qed.

Lemma inv_free_ep X Y s l h p ep :
  ep_invX X Y (Conf s l h) -> endpoints s !! p = Some ep -> outstanding ep = 0 ->
  ep_invX X (Y ∖ {[p]})
    (Conf (EpS (delete p (endpoints s)) (requests s) (owed s)) (l ∖ {[p]}) (EvFree p :: h)).
Proof.
  intros [] Hp Hout. simpl in *.
  assert (forall r rq, requests s !! r = Some rq -> rq_endpoint rq <> p) as Hno.
  { intros r rq Hr Heq. assert (size (requests_of p (requests s)) = 0%nat) as Hz.
    { specialize (inv_out0 _ _ Hp). lia. }
    apply map_size_empty_inv in Hz.
    assert (requests_of p (requests s) !! r = Some rq) as Hin.
    { apply map_lookup_filter_Some. auto. }
    rewrite Hz in Hin. by rewrite lookup_empty in Hin. }
  split; simpl; auto.
  - by eapply conf_ok_free.
  - intros q eq Hq. destruct (decide (q = p)) as [->|]; simplify_map_eq. set_solver.
  - intros q rq Hq. specialize (inv_disj0 _ _ Hp). apply inv_live_rq0 in Hq as Hl.
    assert (q <> p) by congruence. set_solver.
  - intros q eq Hq. destruct (decide (q = p)) as [->|]; simplify_map_eq; eauto.
  - intros r rq Hr. rewrite lookup_delete_ne; eauto. by apply not_eq_sym, (Hno r).
  - intros q eq Hq. destruct (decide (q = p)) as [->|]; simplify_map_eq; eauto.
  - intros q eq Hq HqY. destruct (decide (q = p)) as [->|]; simplify_map_eq.
    eapply inv_geom0; [done|]. set_solver.
  - intros r Hr. rewrite callbacks_quiet by done. apply inv_zero0.
    destruct Hr; [auto|right; lia].
Qed.

Lemma ep_invX_eq X Y X' Y' c : ep_invX X Y c -> X = X' -> Y = Y' -> ep_invX X' Y' c.
Proof. by intros ? <- <-. Qed.

(** At most [UINTPTR_MAX - 1] requests fit beside the one being allocated, so the
    counter of outstanding requests does not wrap. *)
Lemma requests_of_bound p rs (l : gset ptr) :
  (forall r (rq : bdev_request), rs !! r = Some rq -> r ∈ l) ->
  Z.of_nat (size (requests_of p rs)) <= Z.of_nat (size l).
Proof.
  intros Hin. rewrite <- (size_dom (requests_of p rs)).
  assert (dom (requests_of p rs) ⊆ l) as Hsub.
  { intros r [rq Hr]%elem_of_dom. apply map_lookup_filter_Some in Hr as [Hr _]. eauto. }
  pose proof (subseteq_size _ _ Hsub). lia.
Qed.

Lemma inv_new_request X Y s l h p ep r rq :
  ep_invX X Y (Conf s l h) -> r = Datatypes.S (length h) ->
  Z.of_nat (size l) < UINTPTR_MAX ->
  endpoints s !! p = Some ep -> rq_endpoint rq = p ->
  ep_invX ({[r]} ∪ X) Y
    (Conf (EpS (<[p:=set_outstanding (u64 (outstanding ep + 1)) ep]> (endpoints s))
             (<[r:=rq]> (requests s)) (owed s)) ({[r]} ∪ l) (EvAlloc (Some r) :: h)).
Proof.
  intros [] -> Hsz Hp Hrq. simpl in *. set (r := Datatypes.S (length h)).
  assert (endpoints s !! r = None) as HrE by by eapply fresh_lookup.
  assert (requests s !! r = None) as HrR by by eapply fresh_lookup.
  assert (p <> r) as Hpr by congruence.
  split; simpl.
  - by eapply conf_ok_alloc.
  - intros q eq Hq. destruct (decide (q = p)) as [->|]; simplify_map_eq; set_solver.
  - intros q rq' Hq. destruct (decide (q = r)) as [->|]; simplify_map_eq; set_solver.
  - intros q eq Hq. assert (q <> r) as Hqr.
    { intros ->. by rewrite lookup_insert_ne in Hq by done; congruence. }
    rewrite lookup_insert_ne by done.
    destruct (decide (q = p)) as [->|]; simplify_map_eq; eauto.
  - intros q rq' Hq. apply lookup_insert_is_Some'. right.
    destruct (decide (q = r)) as [->|]; simplify_map_eq; eauto.
  - rewrite inv_owed0, dom_insert_L. apply eq_None_not_Some in HrR.
    assert (r ∉ dom (requests s)) by (by rewrite elem_of_dom). set_solver.
  - set_solver.
  - intros q eq Hq. destruct (decide (q = p)) as [->|]; simplify_map_eq.
    + rewrite requests_of_insert by done. simpl.
      rewrite (inv_out0 _ _ Hp).
      pose proof (requests_of_bound (rq_endpoint rq) _ _ inv_live_rq0) as Hb.
      rewrite u64_small by (unfold is_u64, UINTPTR_MAX in *; simpl in *; lia). lia.
    + rewrite requests_of_insert_ne by congruence. eauto.
  - intros q eq Hq HqY. destruct (decide (q = p)) as [->|]; simplify_map_eq; eauto.
  - intros r'. rewrite callbacks_quiet by done. auto.
  - intros r' Hr'. rewrite callbacks_quiet by done. apply inv_zero0.
    destruct (decide (r' = r)) as [->|]; [right; unfold r; lia|].
    rewrite lookup_insert_ne in Hr' by done. destruct Hr'; [auto|right; lia].
Qed.

Lemma inv_drop_request X Y s l h ep r rq :
  ep_invX X Y (Conf s l h) -> requests s !! r = Some rq -> r ∈ X ->
  endpoints s !! rq_endpoint rq = Some ep ->
  ep_invX (X ∖ {[r]}) Y
    (Conf (EpS (<[rq_endpoint rq:=set_outstanding (u64 (outstanding ep - 1)) ep]> (endpoints s))
             (delete r (requests s)) (owed s)) (l ∖ {[r]}) (EvFree r :: h)).
Proof.
  intros [] Hr HrX Hp. simpl in *. set (p := rq_endpoint rq) in *.
  assert (endpoints s !! r = None) as HrE.
  { apply eq_None_not_Some. intros [eq Heq]. apply inv_disj0 in Heq. congruence. }
  assert (p <> r) as Hpr by congruence.
  split; simpl.
  - by eapply conf_ok_free.
  - intros q eq Hq. destruct (decide (q = p)) as [->|]; simplify_map_eq.
    + apply inv_live_ep0 in Hp. set_solver.
    + assert (q <> r) by congruence. apply inv_live_ep0 in Hq. set_solver.
  - intros q rq' Hq. destruct (decide (q = r)) as [->|]; simplify_map_eq.
    apply inv_live_rq0 in Hq. set_solver.
  - intros q eq Hq. apply lookup_delete_None. right.
    destruct (decide (q = p)) as [->|]; simplify_map_eq; eauto.
  - intros q rq' Hq. apply lookup_delete_Some in Hq as [_ Hq].
    apply lookup_insert_is_Some'. eauto.
  - rewrite inv_owed0, dom_delete_L. set_solver.
  - rewrite dom_delete_L. set_solver.
  - intros q eq Hq. destruct (decide (q = p)) as [->|]; simplify_map_eq.
    + pose proof (requests_of_delete p r rq _ Hr eq_refl) as Hsz. simpl.
      rewrite (inv_out0 _ _ Hp), <- Hsz.
      pose proof (requests_of_bound p _ _ inv_live_rq0) as Hb.
      destruct inv_conf0 as [_ Hc]. simpl in Hc.
      rewrite u64_small; unfold is_u64, UINTPTR_MAX in *; lia.
    + rewrite (requests_of_delete_ne q r rq) by (done || congruence). eauto.
  - intros q eq Hq HqY. destruct (decide (q = p)) as [->|]; simplify_map_eq; eauto.
  - intros r'. rewrite callbacks_quiet by done. auto.
  - intros r' Hr'. rewrite callbacks_quiet by done. apply inv_zero0.
    destruct Hr' as [[rq' Hr']|]; [|right; lia].
    apply lookup_delete_Some in Hr' as [_ Hr']. eauto.
Qed.

Lemma inv_owes X Y s l h r k :
  ep_invX X Y (Conf s l h) -> r ∈ X ->
  ep_invX (X ∖ {[r]}) Y (Conf (EpS (endpoints s) (requests s) (<[r:=k]> (owed s))) l h).
Proof.
  intros [] HrX. split; simpl in *; auto; [|set_solver].
  rewrite dom_insert_L, inv_owed0.
  apply set_eq. intros q. destruct (decide (q = r)); set_solver.
Qed.

Lemma inv_delivers X Y s l h r k :
  ep_invX X Y (Conf s l h) -> owed s !! r = Some k ->
  ep_invX ({[r]} ∪ X) Y (Conf (EpS (endpoints s) (requests s) (delete r (owed s))) l h).
Proof.
  intros [] Hr. apply elem_of_dom_2 in Hr. split; simpl in *; auto; [|set_solver].
  rewrite dom_delete_L, inv_owed0. set_solver.
Qed.

Lemma inv_callback X Y s l h r cb ctx st (u : unit) :
  ep_invX X Y (Conf s l h) -> requests s !! r = None -> (r <= length h)%nat ->
  callbacks r h = 0 ->
  ep_invX X Y (Conf s l (EvCall (IoCallback r cb ctx st : call_sig) u :: h)).
Proof.
  intros [] Hr Hle Hz. split; simpl in *; auto.
  - by apply (conf_ok_log (Conf s l h)).
  - intros r'. unfold callbacks in *. simpl. specialize (inv_once0 r').
    destruct (Nat.eqb_spec r' r); subst; lia.
  - intros r' Hr'. unfold callbacks in *. simpl.
    destruct (Nat.eqb_spec r' r) as [->|].
    + destruct Hr' as [[? ?]|?]; [congruence|lia].
    + rewrite inv_zero0; [done|]. destruct Hr'; [auto|right; lia].
Qed.

(** ** Rules for the store accessors *)

Section AccessRules.
Implicit Types (c : conf EpStore).

Lemma wp_get_ep p ep e c Q :
  endpoints (store c) !! p = Some ep -> Q (Done ep) c -> wp (get_ep p) e c Q.
Proof. intros Hp HQ. unfold get_ep. wp_steps. by eapply wp_deref. Qed.

Lemma wp_get_request r rq e c Q :
  requests (store c) !! r = Some rq -> Q (Done rq) c -> wp (get_request r) e c Q.
Proof. intros Hp HQ. unfold get_request. wp_steps. by eapply wp_deref. Qed.

Lemma wp_put_ep p ep e c Q :
  Q (Done tt) (Conf (EpS (<[p:=ep]> (endpoints (store c))) (requests (store c)) (owed (store c)))
                 (live c) (hist c)) -> wp (put_ep p ep) e c Q.
Proof. done. Qed.

Lemma wp_put_request r rq e c Q :
  Q (Done tt) (Conf (EpS (endpoints (store c)) (<[r:=rq]> (requests (store c))) (owed (store c)))
                 (live c) (hist c)) -> wp (put_request r rq) e c Q.
Proof. done. Qed.

Lemma wp_free_ep p e c Q :
  p ∈ live c ->
  Q (Done tt) (Conf (EpS (delete p (endpoints (store c))) (requests (store c)) (owed (store c)))
                 (live c ∖ {[p]}) (EvFree p :: hist c)) ->
  wp (free_ep p) e c Q.
Proof. intros Hp HQ. unfold free_ep. wp_steps. by apply wp_free. Qed.

Lemma wp_free_request r e c Q :
  r ∈ live c ->
  Q (Done tt) (Conf (EpS (endpoints (store c)) (delete r (requests (store c))) (owed (store c)))
                 (live c ∖ {[r]}) (EvFree r :: hist c)) ->
  wp (free_request r) e c Q.
Proof. intros Hp HQ. unfold free_request. wp_steps. by apply wp_free. Qed.

End AccessRules.

Lemma wp_on_owner {S} ep e (c : conf S) Q :
  Q (Done (bool_decide (cur_thread e = owner ep))) c -> wp (on_owner_thread ep) e c Q.
Proof. done. Qed.

Ltac ep_step :=
  lazymatch goal with
  | |- wp (get_ep _) _ _ _ => eapply wp_get_ep; [try eassumption; by simplify_map_eq|]
  | |- wp (get_request _) _ _ _ => eapply wp_get_request; [try eassumption; by simplify_map_eq|]
  | |- wp (put_ep _ _) _ _ _ => apply wp_put_ep
  | |- wp (put_request _ _) _ _ _ => apply wp_put_request
  | |- wp (spdk_owes _ _) _ _ _ => unfold spdk_owes; apply wp_modify
  | |- wp (spdk_delivers _) _ _ _ => unfold spdk_delivers; apply wp_modify
  | |- wp (on_owner_thread _) _ _ _ => apply wp_on_owner
  | |- wp (call_u64 _ _) _ _ _ => unfold call_u64
  | |- wp (call_u32 _ _) _ _ _ => unfold call_u32
  | |- _ => wp_step
  end; simpl.
Ltac ep_steps := repeat ep_step.

(** Straight-line code up to the next [if]. *)
Ltac ep_line :=
  repeat lazymatch goal with
  | |- wp (if _ then _ else _) _ _ _ => fail
  | |- _ => ep_step
  end.

(** ** What each request handler does *)

Lemma quiet_free p : quiet (EvFree p).
Proof. done. Qed.

Lemma finish_request_spec X Y e c r rq status :
  ep_invX X Y c -> requests (store c) !! r = Some rq -> r ∈ X ->
  wp (finish_request r status) e c (returns (fun _ c' =>
    ep_invX (X ∖ {[r]}) Y c' /\ evolves c c'
    /\ requests (store c') = delete r (requests (store c))
    /\ dom (endpoints (store c')) = dom (endpoints (store c))
    /\ callbacks r (hist c') = 1)).
Proof.
  destruct c as [s l h]. intros Hinv Hr HrX. simpl in *.
  destruct (inv_req _ _ _ Hinv _ _ Hr) as [ep Hp]. simpl in Hp.
  pose proof (inv_live_rq _ _ _ Hinv _ _ Hr) as Hlive. simpl in Hlive.
  pose proof (inv_zero _ _ _ Hinv r (or_introl (mk_is_Some _ _ Hr))) as Hz. simpl in Hz.
  unfold finish_request. ep_steps.
  apply wp_free_request; [done|]. simpl. ep_steps. destruct r0.
  assert (callbacks r (EvFree r :: h) = 0) as Hz' by by rewrite callbacks_quiet.
  split; [|split; [split|split; [|split]]]; simpl.
  - apply inv_callback; simpl.
    + by apply inv_drop_request.
    + apply lookup_delete_eq.
    + destruct (inv_conf _ _ _ Hinv) as [Hc _]. specialize (Hc _ Hlive). simpl in Hc. lia.
    + done.
  - by do 2 apply suffix_cons_r.
  - intros r' Hr'. destruct (decide (r' = r)) as [->|]; [right|left; by simplify_map_eq].
    unfold callbacks in *. simpl in *. rewrite Nat.eqb_refl. lia.
  - done.
  - apply dom_insert_lookup_L. by eexists.
  - unfold callbacks in *. simpl in *. rewrite Nat.eqb_refl. lia.
Qed.

(** [issue_request] changes nothing but the callback SPDK owes. *)
Definition same_but_owed (c c' : conf EpStore) : Prop :=
  endpoints (store c') = endpoints (store c) /\
  requests (store c') = requests (store c) /\ live c' = live c.

Lemma issue_request_spec X Y e c r rq :
  ep_invX X Y c -> requests (store c) !! r = Some rq -> r ∈ X ->
  wp (issue_request r) e c (returns (fun rc c' =>
    evolves c c' /\ same_but_owed c c' /\
    (rc = 0 /\ ep_invX (X ∖ {[r]}) Y c' \/
     rc <> 0 /\ owed (store c') = owed (store c) /\ ep_invX X Y c'))).
Proof.
  destruct c as [s l h]. intros Hinv Hr HrX. simpl in *.
  destruct (inv_req _ _ _ Hinv _ _ Hr) as [ep Hp]. simpl in Hp.
  assert (forall (rc : Z) (ev : event), quiet ev ->
    wp (let! _ := (if rc =? 0 then spdk_owes r OwesComplete else ret tt) in
        if rc !=? - ENOMEM then ret rc else
        let! rc := call (SpdkBdevQueueIoWait (bdev ep) (channel ep) r) in
        (if rc =? 0 then spdk_owes r OwesRetry else ret tt) ;;; ret (rc : Z))
      e (Conf s l (ev :: h)) (returns (fun rc c' =>
        evolves (Conf s l h) c' /\ same_but_owed (Conf s l h) c' /\
        (rc = 0 /\ ep_invX (X ∖ {[r]}) Y c' \/
         rc <> 0 /\ owed (store c') = owed s /\ ep_invX X Y c')))) as Hrest.
  { intros rc ev Hev. assert (ep_invX X Y (Conf s l (ev :: h))) as Hi by by apply inv_log.
    ep_steps; breflect; subst; try done.
    - split; [|split; [done|]]; [split; [by apply suffix_cons_r|auto]|].
      left. split; [done|]. by apply inv_owes.
    - split; [|split; [done|]]; [split; [by apply suffix_cons_r|auto]|]. right. done.
    - split; [|split; [done|]]; [split; [by do 2 apply suffix_cons_r|auto]|].
      left. split; [done|]. apply inv_owes; [|done]. by apply inv_log.
    - split; [|split; [done|]]; [split; [by do 2 apply suffix_cons_r|auto]|].
      right. split; [done|]. split; [done|]. by apply inv_log. }
  unfold issue_request. ep_steps. destruct (rq_operation rq); ep_step; apply Hrest; done.
Qed.

(** Extra quiet events before a computation do not matter. *)
Lemma evolves_hist s l h h' c' :
  h `suffix_of` h' -> evolves (Conf s l h') c' -> evolves (Conf s l h) c'.
Proof.
  intros Hh He. eapply evolves_trans; [|exact He]. split; simpl; auto.
Qed.

Lemma complete_request_spec X Y e c io success r rq :
  ep_invX X Y c -> requests (store c) !! r = Some rq -> r ∈ X ->
  wp (complete_request io success r) e c (returns (fun _ c' =>
    ep_invX (X ∖ {[r]}) Y c' /\ evolves c c'
    /\ requests (store c') = delete r (requests (store c))
    /\ dom (endpoints (store c')) = dom (endpoints (store c))
    /\ callbacks r (hist c') = 1)).
Proof.
  destruct c as [s l h]. intros Hinv Hr HrX. simpl in *.
  destruct (inv_req _ _ _ Hinv _ _ Hr) as [ep Hp]. simpl in Hp.
  unfold complete_request. ep_steps; (eapply wp_mono;
    [ eapply finish_request_spec; [|eassumption|eassumption]; repeat (apply inv_log; [|done]);
      exact Hinv
    | intros [u|f|] c'; simpl; [|done|done]; intros (Hi & He & Hq & Hc);
      split; [done|]; split; [|done]; eapply evolves_hist; [|exact He]; solve_suffix ]).
Qed.

Lemma retry_request_spec X Y e c r rq :
  ep_invX X Y c -> requests (store c) !! r = Some rq -> r ∈ X ->
  wp (retry_request r) e c (returns (fun _ c' =>
    ep_invX (X ∖ {[r]}) Y c' /\ evolves c c'
    /\ (requests (store c') = delete r (requests (store c)) \/
        requests (store c') = requests (store c))
    /\ dom (endpoints (store c')) = dom (endpoints (store c)))).
Proof.
  intros Hinv Hr HrX.
  destruct (inv_req _ _ _ Hinv _ _ Hr) as [ep Hp].
  unfold retry_request. ep_steps.
  - eapply wp_mono; [by eapply finish_request_spec|].
    intros [u|f|] c'; simpl; [|done|done]. tauto.
  - eapply wp_mono; [by eapply issue_request_spec|].
    intros [rc|f|] c'; simpl; [|done|done]. intros (He & (Hep & Hrq & _) & Hrc).
    destruct Hrc as [[-> Hi]|(Hne & _ & Hi)]; simpl.
    + apply wp_ret. simpl. rewrite Hrq, Hep. split_and!; auto.
    + rewrite (proj2 (Z.eqb_neq rc 0) Hne). simpl. eapply wp_mono.
      * eapply finish_request_spec; [exact Hi|by rewrite Hrq|done].
      * intros [u|f|] c''; simpl; [|done|done]. intros (Hi' & He' & Hr' & Hd' & _).
        split; [done|]. split; [by eapply evolves_trans|]. rewrite Hr', Hd', Hrq, Hep. auto.
Qed.

(** A rejected submission leaves the store and the heap as they were; an
    accepted one adds exactly one request. *)
Definition submitted (p : ptr) (cb : option nat) (ctx : cookie) (rc : Z) (c c' : conf EpStore) : Prop :=
  (rc = 0 -> exists r rq, requests (store c) !! r = None
     /\ requests (store c') = <[r:=rq]> (requests (store c))
     /\ dom (endpoints (store c')) = dom (endpoints (store c))
     /\ rq_endpoint rq = p /\ Some (rq_callback rq) = cb /\ rq_context rq = ctx)
  /\ (rc <> 0 -> store c' = store c /\ live c' = live c).

(** Taking back a request that could not be submitted restores the store. *)
Lemma submit_undone s l h p ep r rq :
  ep_inv (Conf s l h) -> Z.of_nat (size l) < UINTPTR_MAX -> endpoints s !! p = Some ep -> requests s !! r = None ->
  EpS (<[p:=set_outstanding (u64 (u64 (outstanding ep + 1) - 1)) (set_outstanding (u64 (outstanding ep + 1)) ep)]>
         (<[p:=set_outstanding (u64 (outstanding ep + 1)) ep]> (endpoints s)))
      (delete r (<[r:=rq]> (requests s))) (owed s) = s.
Proof.
  intros Hinv Hsz Hp Hr. rewrite delete_insert_id by done. destruct s as [eps rqs ows]. simpl in *. f_equal.
  rewrite insert_insert_eq. apply insert_id. rewrite Hp. f_equal.
  pose proof (inv_out _ _ _ Hinv _ _ Hp) as Ho. simpl in Ho.
  pose proof (requests_of_bound p _ _ (inv_live_rq _ _ _ Hinv)) as Hb. simpl in Hb.
  rewrite !u64_small; unfold is_u64, UINTPTR_MAX in *; rewrite ?u64_small; unfold is_u64; try lia.
  destruct ep; simpl in *. unfold set_outstanding. simpl. f_equal. lia.
Qed.

Lemma submit_request_spec e c p op b o n cb ctx ep :
  ep_inv c -> endpoints (store c) !! p = Some ep ->
  wp (submit_request (Some p) op b o n cb ctx) e c (returns (fun rc c' =>
    ep_inv c' /\ evolves c c' /\ submitted p cb ctx rc c c')).
Proof.
  destruct c as [s l h]. intros Hinv Hp. simpl in *.
  unfold submit_request. destruct cb as [cb|].
  2:{ apply wp_ret. split; [done|]. split; [apply evolves_refl|]. by split. }
  ep_step. apply wp_calloc.
  { ep_steps. split; [by apply inv_log|]. split; [apply evolves_log|]. by split. }
  intros r Hsz. simpl in Hsz. ep_steps.
  set (rq := Request p op b o n cb ctx).
  pose proof (inv_new_request _ _ s l h p ep r rq Hinv eq_refl Hsz Hp eq_refl) as Hi.
  assert (requests s !! r = None) as HrR.
  { eapply fresh_lookup; [exact (inv_conf _ _ _ Hinv)|exact (inv_live_rq _ _ _ Hinv)]. }
  assert (endpoints s !! r = None) as HrE.
  { eapply fresh_lookup; [exact (inv_conf _ _ _ Hinv)|exact (inv_live_ep _ _ _ Hinv)]. }
  eapply wp_mono; [eapply issue_request_spec; [exact Hi|simpl; by simplify_map_eq|set_solver]|].
  intros [rc|f|] c'; simpl; [|done|done]. intros (He & (Hep & Hrq & Hl) & Hrc).
  assert (evolves (Conf s l h) c') as He'.
  { eapply evolves_trans; [|exact He]. split; simpl; [solve_suffix|].
    intros r' Hr'. left. apply lookup_insert_is_Some'. auto. }
  destruct Hrc as [[-> Hi']|(Hne & How & Hi')]; simpl.
  - ep_steps. replace (({[r]} ∪ ∅) ∖ {[r]}) with (∅ : gset ptr) in Hi' by set_solver.
    split; [done|]. split; [done|]. split; [|done]. intros _. exists r, rq. rewrite Hrq, Hep.
    split_and!; try done. apply dom_insert_lookup_L. by eexists.
  - rewrite (proj2 (Z.eqb_neq rc 0) Hne). simpl. destruct c' as [s' l' h']. simpl in *. subst l'.
    ep_steps. eapply wp_get_ep; [simpl; rewrite Hep; by simplify_map_eq|].
    ep_steps. apply wp_free_request; [simpl; set_solver|]. ep_steps.
    pose proof (inv_drop_request _ _ s' _ h' (set_outstanding (u64 (outstanding ep + 1)) ep) r rq Hi') as Hd.
    rewrite Hrq, Hep in Hd. simpl in Hd.
    replace (({[r]} ∪ ∅) ∖ {[r]}) with (∅ : gset ptr) in Hd by set_solver.
    specialize (Hd ltac:(by simplify_map_eq) ltac:(set_solver) ltac:(by simplify_map_eq)).
    rewrite Hrq, Hep. split; [exact Hd|].
    assert (delete r (<[r:=rq]> (requests s)) = requests s) as Hdel by by apply delete_insert_id.
    split; [split; simpl; rewrite ?Hdel|].
    + destruct He' as [He' _]. simpl in He'. by apply suffix_cons_r.
    + auto.
    + split; [done|]. intros _. split; simpl.
      * rewrite How. by apply (submit_undone s l h).
      * assert (r ∉ l). { intros Hin. apply (inv_conf _ _ _ Hinv) in Hin. unfold r, fresh_ptr in Hin. simpl in Hin. lia. }
        set_solver.
Qed.

(** ** Range validation *)

(** What a request must satisfy to be handed to SPDK. *)
Record range_valid (ep : endpoint) (cur : option thread) (buffer offset length : Z)
    (write : bool) : Prop := {
  rv_thread : cur = owner ep;
  rv_present : removed ep = false;
  rv_buffer : buffer <> 0;
  rv_length : 0 < length;
  rv_offset_blocks : offset mod logical_block_size (geometry ep) = 0;
  rv_length_blocks : length mod logical_block_size (geometry ep) = 0;
  rv_in_bounds : offset + length <= capacity_bytes (geometry ep);
  rv_align : buffer mod Z.max 1 (buffer_alignment (geometry ep)) = 0;
  rv_write : write = true ->
    writable ep = true /\ 0 < write_unit_blocks (geometry ep) /\
    offset mod (write_unit_blocks (geometry ep) * logical_block_size (geometry ep)) = 0 /\
    length mod (write_unit_blocks (geometry ep) * logical_block_size (geometry ep)) = 0;
}.

Lemma alignment_test a b :
  0 <= a -> (a >? 1) && (b mod a !=? 0) = false <-> b mod Z.max 1 a = 0.
Proof.
  intros Ha. destruct (Z.gtb_spec a 1); simpl.
  - rewrite Z.max_r by lia. rewrite negb_false_iff, Z.eqb_eq. done.
  - rewrite Z.max_l by lia. rewrite Z.mod_1_r. done.
Qed.

Lemma bounds_test o n cap :
  is_u64 o -> is_u64 n -> 0 <= cap <= UINT64_MAX ->
  (o >? cap) || (n >? u64 (cap - o)) = false <-> o + n <= cap.
Proof.
  unfold is_u64. intros Ho Hn Hc. rewrite orb_false_iff, !Z.gtb_ltb, !Z.ltb_ge. split.
  - intros [H1 H2]. rewrite u64_small in H2 by (unfold is_u64; lia). lia.
  - intros H. split; [lia|]. rewrite u64_small by (unfold is_u64; lia). lia.
Qed.

Lemma cmod_pos {S} a b (e : env) (c : conf S) Q :
  0 < b -> Q (Done (a mod b)) c -> wp (cmod a b) e c Q.
Proof. intros Hb HQ. unfold cmod. rewrite (proj2 (Z.eqb_neq b 0)) by lia. done. Qed.

Lemma validate_range_spec {S} ep b o n w e (c : conf S) :
  geometry_ok (geometry ep) -> is_u64 o -> is_u64 n ->
  wp (validate_range ep b o n w) e c (returns (fun rc c' =>
    c' = c /\ (rc = 0 <-> range_valid ep (cur_thread e) b o n w))).
Proof.
  intros (Hbs & Hbc & Hcap & Hmax & Hwu & Hal) Ho Hn.
  assert (0 <= capacity_bytes (geometry ep)) as Hcap0 by nia.
  assert (forall rc, rc <> 0 -> ~ range_valid ep (cur_thread e) b o n w ->
    returns (fun rc c' => c' = c /\ (rc = 0 <-> range_valid ep (cur_thread e) b o n w))
      (Done rc) c) as Hno.
  { intros rc Hrc Hv. simpl. split; [done|]. split; done. }
  unfold is_u64, is_u32 in *.
  unfold validate_range. wp_step. apply wp_on_owner. wp_if as Ht.
  { wp_step. apply Hno; [done|]. intros []. breflect. done. }
  wp_if as Hrem. { wp_step. apply Hno; [done|]. intros []. congruence. }
  wp_if as Hnull. { wp_step. apply Hno; [done|]. intros [].
    apply orb_true_iff in Hnull as [?%Z.eqb_eq|?%Z.eqb_eq]; lia. }
  wp_step. apply cmod_pos; [lia|]. wp_step. apply cmod_pos; [lia|]. wp_if as Hblk.
  { wp_step. apply Hno; [done|]. intros [].
    apply orb_true_iff in Hblk as [?%negb_true_iff%Z.eqb_neq|?%negb_true_iff%Z.eqb_neq]; done. }
  wp_if as Hrng. { wp_step. apply Hno; [done|]. intros [].
    rewrite (proj2 (bounds_test o n (capacity_bytes (geometry ep)) Ho Hn (conj Hcap0 Hmax))) in Hrng
      by done. done. }
  wp_if as Halign. { wp_step. apply Hno; [done|]. intros [].
    rewrite (proj2 (alignment_test _ b (proj1 Hal))) in Halign by done. done. }
  apply bounds_test in Hrng; [|unfold is_u64; lia..]. apply alignment_test in Halign; [|lia].
  breflect. wp_if as Hw.
  { wp_step. breflect. subst. split; [done|]. split; [|done]. intros _. split; done || lia. }
  breflect. wp_if as Hwr. { wp_step. apply Hno; [done|]. intros []. breflect.
    destruct (rv_write0 Hw). congruence. }
  breflect. wp_if as Hun.
  - wp_step. apply Hno; [done|]. intros []. destruct (rv_write0 Hw) as (_ & Hu & H1' & H2').
    rewrite <- block_units in H1', H2' by (done || lia).
    rewrite H1', H2', (proj2 (Z.eqb_neq _ 0)) in Hun by lia. done.
  - wp_step. split; [done|]. split; [|done]. intros _. breflect.
    assert (0 < write_unit_blocks (geometry ep)) by lia.
    split; try done; [lia|]. intros _. rewrite <- !block_units by (done || lia). done.
Qed.

(** ** The client operations *)

(** A call that touched nothing but the history. *)
Lemma unchanged_spec p cb ctx rc s l h h' :
  ep_inv (Conf s l h') -> h `suffix_of` h' -> rc <> 0 ->
  ep_inv (Conf s l h') /\ evolves (Conf s l h) (Conf s l h') /\
  submitted p cb ctx rc (Conf s l h) (Conf s l h').
Proof.
  intros Hi Hh Hrc. split; [done|]. split; [split; simpl; auto|]. split; done.
Qed.

Lemma submit_after_log e s l h h' p op b o n cb ctx ep (P : Prop) :
  ep_inv (Conf s l h') -> h `suffix_of` h' -> endpoints s !! p = Some ep -> P ->
  wp (submit_request (Some p) op b o n cb ctx) e (Conf s l h') (returns (fun rc c' =>
    ep_inv c' /\ evolves (Conf s l h) c' /\ submitted p cb ctx rc (Conf s l h) c'
    /\ (rc = 0 -> P))).
Proof.
  intros Hinv Hh Hp HP. eapply wp_mono; [by eapply submit_request_spec|].
  intros [rc|f|] c'; simpl; [|done|done]. intros (Hi & He & Hs).
  split; [done|]. split; [by eapply evolves_hist|]. split; [|done].
  destruct Hs as [Hs0 Hs1]. split; simpl in *; auto.
Qed.

(** The body [zettide_spdk_bdev_read] and [zettide_spdk_bdev_write] share. *)
Lemma io_spec e s l h p ep op type b o n w cb ctx :
  ep_inv (Conf s l h) -> endpoints s !! p = Some ep -> is_u64 o -> is_u64 n ->
  wp (let! ep := get_ep p in
      let! rc := validate_range ep b o n w in
      if rc !=? 0 then ret rc else
      let! ok := call (SpdkBdevIoTypeSupported (bdev ep) type) in
      if negb ok then ret (- ENOTSUP) else
      submit_request (Some p) op b o n cb ctx) e (Conf s l h) (returns (fun rc c' =>
    ep_inv c' /\ evolves (Conf s l h) c' /\ submitted p cb ctx rc (Conf s l h) c'
    /\ (rc = 0 -> range_valid ep (cur_thread e) b o n w))).
Proof.
  intros Hinv Hp Ho Hn. ep_steps.
  eapply wp_mono; [apply validate_range_spec; [|done|done]|].
  { eapply (inv_geom _ _ _ Hinv); [exact Hp|set_solver]. }
  intros [rc|f|] c'; simpl; [|done|done]. intros [-> Hrc]. wp_if as Hz; breflect.
  - wp_step. split; [done|]. split; [apply evolves_refl|]. by split.
  - apply Hrc in Hz as Hv. ep_step. ep_step. wp_if as Hok.
    + wp_step. split; [by apply inv_log|]. split; [apply evolves_log|]. by split.
    + apply submit_after_log with (ep := ep); try done; [by apply inv_log|solve_suffix].
Qed.

Lemma read_spec e c p ep b o n cb ctx :
  ep_inv c -> endpoints (store c) !! p = Some ep -> is_u64 o -> is_u64 n ->
  wp (zettide_spdk_bdev_read (Some p) b o n cb ctx) e c (returns (fun rc c' =>
    ep_inv c' /\ evolves c c' /\ submitted p cb ctx rc c c'
    /\ (rc = 0 -> range_valid ep (cur_thread e) b o n false))).
Proof. destruct c as [s l h]. apply io_spec. Qed.

Lemma write_spec e c p ep b o n cb ctx :
  ep_inv c -> endpoints (store c) !! p = Some ep -> is_u64 o -> is_u64 n ->
  wp (zettide_spdk_bdev_write (Some p) b o n cb ctx) e c (returns (fun rc c' =>
    ep_inv c' /\ evolves c c' /\ submitted p cb ctx rc c c'
    /\ (rc = 0 -> range_valid ep (cur_thread e) b o n true))).
Proof. destruct c as [s l h]. apply io_spec. Qed.

(** What an accepted flush satisfies. *)
Record flush_valid (ep : endpoint) (cur : option thread) (offset length : Z) : Prop := {
  fv_thread : cur = owner ep;
  fv_present : removed ep = false;
  fv_writable : writable ep = true;
  fv_length : length <> 0;
  fv_offset_blocks : offset mod logical_block_size (geometry ep) = 0;
  fv_length_blocks : length mod logical_block_size (geometry ep) = 0;
  fv_in_bounds : offset + length <= capacity_bytes (geometry ep);
}.

Lemma flush_spec e c p ep o n cb ctx :
  ep_inv c -> endpoints (store c) !! p = Some ep -> is_u64 o -> is_u64 n ->
  wp (zettide_spdk_bdev_flush (Some p) o n cb ctx) e c (returns (fun rc c' =>
    ep_inv c' /\ evolves c c' /\ submitted p cb ctx rc c c'
    /\ (rc = 0 -> flush_valid ep (cur_thread e) o n))).
Proof.
  destruct c as [s l h]. intros Hinv Hp Ho Hn. simpl in Hp.
  assert (geometry_ok (geometry ep)) as (Hbs & Hbc & Hcap & Hmax & _).
  { eapply (inv_geom _ _ _ Hinv); [exact Hp|set_solver]. }
  assert (0 <= capacity_bytes (geometry ep)) as Hcap0 by nia.
  assert (forall rc h', rc <> 0 -> ep_inv (Conf s l h') -> h `suffix_of` h' ->
    returns (fun rc c' => ep_inv c' /\ evolves (Conf s l h) c' /\
      submitted p cb ctx rc (Conf s l h) c' /\ (rc = 0 -> flush_valid ep (cur_thread e) o n))
      (Done rc) (Conf s l h')) as Hno.
  { intros rc h' Hrc Hi Hh. simpl.
    by destruct (unchanged_spec p cb ctx rc s l h h' Hi Hh Hrc) as (? & ? & ?). }
  unfold zettide_spdk_bdev_flush. destruct cb as [cb|]; [|by apply Hno].
  ep_step. ep_step. ep_step. ep_step.
  wp_if as Ht; [by apply Hno|]. wp_if as Hr; [by apply Hno|]. wp_if as Hw; [by apply Hno|].
  ep_step. ep_step.
  match goal with |- wp _ _ (Conf _ _ ?h') _ =>
    assert (ep_inv (Conf s l h')) as Hi by by apply inv_log end.
  wp_if as Hok; [apply Hno; [done..|solve_suffix]|].
  wp_if as Hz; [apply Hno; [done..|solve_suffix]|].
  wp_step. apply cmod_pos; [lia|]. wp_step. apply cmod_pos; [lia|].
  wp_if as Hm; [apply Hno; [done..|solve_suffix]|].
  wp_if as Hb; [apply Hno; [done..|solve_suffix]|].
  apply bounds_test in Hb; [|done|done|done]. breflect.
  apply submit_after_log with (ep := ep); try done; [solve_suffix || by split..].
Qed.

(** ** Opening, closing and device events *)

Lemma geometry_of_device blocks bs wu al fl :
  is_u64 blocks -> is_u32 bs -> is_u32 wu -> is_u64 al ->
  (bs =? 0) || (blocks >? UINT64_MAX / bs) || (al >? UINT32_MAX) = false ->
  geometry_ok (Geometry (u64 (blocks * bs)) blocks bs wu (u32 al) fl).
Proof.
  intros Hb Hs Hw Ha [[Hz Hm]%orb_false_iff Hal]%orb_false_iff. breflect.
  unfold is_u64, is_u32 in *. apply mul_guard in Hm; [|lia|unfold UINT64_MAX; lia].
  unfold geometry_ok. simpl. rewrite u64_small by (unfold is_u64; nia).
  unfold is_u32, u32, UINT32_MAX in *. rewrite Z.mod_small by lia. lia.
Qed.

Definition with_ep (s : EpStore) (p : ptr) (ep : endpoint) : EpStore :=
  EpS (<[p:=ep]> (endpoints s)) (requests s) (owed s).

Lemma refresh_geometry_spec X Y e s l h p ep :
  ep_invX X Y (Conf s l h) -> endpoints s !! p = Some ep ->
  wp (refresh_geometry p) e (Conf s l h) (returns (fun rc c' =>
    h `suffix_of` hist c' /\ live c' = l /\ acquired h (hist c') 0 0 /\
    (rc = 0 /\ (exists g, geometry_ok g /\ store c' = with_ep s p (set_geometry g ep)) /\
       ep_invX X (Y ∖ {[p]}) c' \/
     rc = - EOVERFLOW /\ store c' = s /\ ep_invX X Y c'))).
Proof.
  intros Hinv Hp. unfold refresh_geometry. ep_line. wp_if as Hg.
  - ep_steps. split; [solve_suffix|]. split; [done|].
    split; [unfold acquired; simpl; lia|]. right.
    split; [done|]. split; [done|]. by repeat (apply inv_log; [|done]).
  - ep_steps. split; [solve_suffix|]. split; [done|].
    split; [unfold acquired; simpl; lia|]. left.
    split; [done|].
    match goal with |- context [set_geometry ?g ep] => assert (geometry_ok g) as Hok end.
    { apply geometry_of_device; auto with zettide. }
    split; [by eexists|]. eapply (inv_put_ep X Y); [|exact Hp|done|done|set_solver].
    by repeat (apply inv_log; [|done]).
Qed.

Lemma evolves_same_requests c c' :
  hist c `suffix_of` hist c' -> requests (store c') = requests (store c) -> evolves c c'.
Proof. intros Hh Hr. split; [done|]. rewrite Hr. auto. Qed.

Lemma run_event_cb_spec e s l h p ep ev :
  ep_inv (Conf s l h) -> endpoints s !! p = Some ep ->
  wp (run_event_cb p ev) e (Conf s l h) (returns (fun _ c' =>
    ep_inv c' /\ store c' = s /\ h `suffix_of` hist c')).
Proof.
  intros Hinv Hp. unfold run_event_cb. ep_step. ep_step.
  destruct (event_cb ep); ep_steps; (split; [|split; [done|solve_suffix]]); try done.
  by apply inv_log.
Qed.

Lemma bdev_event_spec e c type p ep :
  ep_inv c -> endpoints (store c) !! p = Some ep ->
  wp (bdev_event type p) e c (returns (fun _ c' => ep_inv c' /\ evolves c c' /\
    exists ep', endpoints (store c') = <[p:=ep']> (endpoints (store c)) /\
      (removed ep = true -> removed ep' = true))).
Proof.
  destruct c as [s l h]. intros Hinv Hp. simpl in Hp.
  assert (geometry_ok (geometry ep)) as Hg.
  { eapply (inv_geom _ _ _ Hinv); [exact Hp|set_solver]. }
  (* marking the endpoint removed and telling the client *)
  assert (forall h', h `suffix_of` h' -> ep_inv (Conf s l h') ->
    wp (let! ep := get_ep p in put_ep p (set_removed ep) ;;;
        run_event_cb p ZETTIDE_SPDK_BDEV_REMOVE) e (Conf s l h')
      (returns (fun _ c' => ep_inv c' /\ evolves (Conf s l h) c' /\
        exists ep', endpoints (store c') = <[p:=ep']> (endpoints s) /\
          (removed ep = true -> removed ep' = true)))) as Hremove.
  { intros h' Hh Hi. ep_steps. eapply wp_mono.
    - eapply run_event_cb_spec with (ep := set_removed ep); [|by simplify_map_eq].
      eapply inv_put_ep; [exact Hi|exact Hp|done|done|set_solver].
    - intros [u|f|] [s' l' h'']; simpl; [|done|done]. intros (Hi' & -> & Hh').
      split; [done|]. split; [apply evolves_same_requests; simpl; [by trans h'|done]|].
      by exists (set_removed ep). }
  destruct type; unfold bdev_event.
  - by apply Hremove.
  - ep_step. eapply wp_mono; [by eapply refresh_geometry_spec|].
    intros [rc|f|] [s' l' h']; simpl; [|done|done]. intros (Hh & -> & _ & Hrc).
    destruct Hrc as [(-> & (g & Hgok & ->) & Hi)|(-> & -> & Hi)]; simpl; [|by apply Hremove].
    eapply wp_mono.
    + eapply run_event_cb_spec; [|simpl; by simplify_map_eq].
      by replace (∅ ∖ {[p]}) with (∅ : gset ptr) in Hi by set_solver.
    + intros [u|f|] [s' l' h'']; simpl; [|done|done]. intros (Hi' & -> & Hh').
      split; [done|]. split; [apply evolves_same_requests; simpl; [by trans h'|done]|].
      by exists (set_geometry g ep).
  - apply wp_ret. split; [done|]. split; [apply evolves_refl|]. exists ep. simpl.
    by rewrite insert_id.
Qed.

Lemma close_spec e c p ep :
  ep_inv c -> endpoints (store c) !! p = Some ep ->
  wp (zettide_spdk_bdev_close (Some p)) e c (returns (fun rc c' =>
    ep_inv c' /\ evolves c c' /\
    (rc = 0 /\ cur_thread e = owner ep /\ requests_of p (requests (store c)) = ∅ /\
       store c' = EpS (delete p (endpoints (store c))) (requests (store c)) (owed (store c)) /\
       live c' = live c ∖ {[p]} /\
       acquired (hist c) (hist c') (-1) (-1)
     \/ (rc = - EPERM \/ rc = - EBUSY) /\ c' = c))).
Proof.
  destruct c as [s l h]. intros Hinv Hp. simpl in Hp.
  unfold zettide_spdk_bdev_close. ep_step. ep_step. ep_step. ep_step. wp_if as Ht.
  { wp_step. split; [done|]. split; [apply evolves_refl|]. auto. }
  wp_if as Ho. { wp_step. split; [done|]. split; [apply evolves_refl|]. auto. }
  breflect. pose proof (inv_live_ep _ _ _ Hinv _ _ Hp) as Hlive. simpl in Hlive.
  do 5 ep_step. apply wp_free_ep; [done|]. ep_steps.
  split; [|split].
  - eapply ep_invX_eq; [eapply inv_free_ep|done|]; [by repeat (apply inv_log; [|done])|done..|].
    set_solver.
  - apply evolves_same_requests; simpl; [solve_suffix|done].
  - left. split; [done|]. split; [done|]. split.
    + apply map_size_empty_inv. pose proof (inv_out _ _ _ Hinv _ _ Hp). simpl in *. lia.
    + split; [done|]. split; [done|]. unfold acquired. simpl. lia.
Qed.

(** The error exits of [zettide_spdk_bdev_open]: the endpoint under construction
    is gone, the descriptor is closed and the heap is as before. *)
Lemma open_fail_spec e s l h p ep rc :
  ep_invX ∅ {[p]} (Conf s l h) -> endpoints s !! p = Some ep -> outstanding ep = 0 ->
  wp (open_fail p rc) e (Conf s l h) (returns (fun r c' =>
    r = (rc, Some None) /\ ep_inv c' /\ h `suffix_of` hist c' /\
    store c' = EpS (delete p (endpoints s)) (requests s) (owed s) /\ live c' = l ∖ {[p]} /\
    acquired h (hist c') (-1) 0)).
Proof.
  intros Hinv Hp Ho. pose proof (inv_live_ep _ _ _ Hinv _ _ Hp) as Hlive. simpl in Hlive.
  unfold open_fail. ep_steps. apply wp_free_ep; [done|]. ep_steps.
  split; [done|]. split.
  - eapply ep_invX_eq; [eapply inv_free_ep|done|]; [by apply inv_log|done..|]. set_solver.
  - split; [solve_suffix|]. split; [done|]. split; [done|]. unfold acquired. simpl. lia.
Qed.

Lemma acquired_refl h : acquired h h 0 0.
Proof. unfold acquired. lia. Qed.

#[export] Hint Resolve acquired_refl : zettide.

(** What [zettide_spdk_bdev_open] leaves behind. *)
Definition open_post (e : env) (wr : bool) (cb : option nat) (context : nat)
    (c : conf EpStore) (r : Z * option (option ptr)) (c' : conf EpStore) : Prop :=
  ep_inv c' /\ evolves c c' /\
  (r.1 <> 0 /\ (r.2 = None \/ r.2 = Some None) /\
     store c' = store c /\ live c' = live c /\ acquired (hist c) (hist c') 0 0
   \/
   exists p ep, r = (0, Some (Some p)) /\ endpoints (store c) !! p = None /\
     store c' = with_ep (store c) p ep /\ live c' = {[p]} ∪ live c /\
     acquired (hist c) (hist c') 1 1 /\
     owner ep = cur_thread e /\ is_Some (owner ep) /\ outstanding ep = 0 /\
     writable ep = wr /\ removed ep = false /\ event_cb ep = cb /\
     event_context ep = context /\ geometry_ok (geometry ep)).

Lemma open_rejected e wr cb context s l h rc o h' :
  rc <> 0 -> o = None \/ o = Some None -> h `suffix_of` h' -> acquired h h' 0 0 ->
  ep_inv (Conf s l h') ->
  open_post e wr cb context (Conf s l h) (rc, o) (Conf s l h').
Proof.
  intros Hrc Ho Hh Hheld Hi. split; [done|].
  split; [by apply evolves_same_requests|]. left. auto.
Qed.

Section OpenDevice.
Context (e : env) (wr : bool) (cb : option nat) (context : nat).
Context (s : EpStore) (l : gset ptr) (h : list event) (p : ptr).
Hypothesis Hfresh : endpoints s !! p = None.
Hypothesis Hdead : p ∉ l.

Lemma drop_new_ep ep : EpS (delete p (<[p:=ep]> (endpoints s))) (requests s) (owed s) = s.
Proof. rewrite delete_insert_id by done. by destruct s. Qed.

Lemma drop_new_ptr : ({[p]} ∪ l) ∖ {[p]} = l.
Proof. clear Hfresh. set_solver. Qed.

Lemma open_fail_post ep rc h' :
  rc <> 0 -> outstanding ep = 0 -> h `suffix_of` h' -> acquired h h' 1 0 ->
  ep_invX ∅ {[p]} (Conf (with_ep s p ep) ({[p]} ∪ l) h') ->
  wp (open_fail p rc) e (Conf (with_ep s p ep) ({[p]} ∪ l) h')
    (returns (open_post e wr cb context (Conf s l h))).
Proof.
  intros Hrc Ho Hh Hheld Hi. eapply wp_mono.
  { eapply open_fail_spec; [exact Hi|simpl; by simplify_map_eq|done]. }
  intros [r'|f|] [s' l' h'']; simpl; [|done|done]. rewrite drop_new_ep, drop_new_ptr.
  intros (-> & Hi' & Hh' & -> & -> & Hheld').
  apply open_rejected; auto; [by trans h'|]. unfold acquired in *. lia.
Qed.

Lemma with_ep_twice ep ep' : with_ep (with_ep s p ep) p ep' = with_ep s p ep'.
Proof. unfold with_ep. simpl. by rewrite insert_insert_eq. Qed.

(** The endpoint under construction may be updated freely. *)
Lemma inv_building ep ep' h' :
  ep_invX ∅ {[p]} (Conf (with_ep s p ep) ({[p]} ∪ l) h') ->
  outstanding ep' = outstanding ep ->
  ep_invX ∅ {[p]} (Conf (with_ep s p ep') ({[p]} ∪ l) h').
Proof.
  intros Hi Ho. rewrite <- (with_ep_twice ep ep'). unfold with_ep at 1.
  eapply (inv_put_ep ∅ {[p]}); [exact Hi|simpl; by simplify_map_eq|done|set_solver|done].
Qed.

(** The state of the construction: the new endpoint, no I/O channel yet. *)
Record building (ep : endpoint) (k : Z) (h' : list event) : Prop := {
  bd_out : outstanding ep = 0;
  bd_owner : owner ep = cur_thread e;
  bd_thread : is_Some (owner ep);
  bd_writable : writable ep = wr;
  bd_removed : removed ep = false;
  bd_cb : event_cb ep = cb;
  bd_context : event_context ep = context;
  bd_hist : h `suffix_of` h';
  bd_held : acquired h h' 1 k;
  bd_inv : ep_invX ∅ {[p]} (Conf (with_ep s p ep) ({[p]} ∪ l) h');
}.

Definition neutral (ev : event) : Prop := quiet ev /\ desc_delta ev = 0 /\ chan_delta ev = 0.

Lemma building_log ep k ev h' : building ep k h' -> neutral ev -> building ep k (ev :: h').
Proof.
  intros [] (Hq & Hd & Hc). split; try done; [solve_suffix| |by apply inv_log].
  unfold acquired in *. simpl. lia.
Qed.

Lemma building_fail ep rc h' :
  rc <> 0 -> building ep 0 h' ->
  wp (open_fail p rc) e (Conf (with_ep s p ep) ({[p]} ∪ l) h')
    (returns (open_post e wr cb context (Conf s l h))).
Proof. intros Hrc []. by apply open_fail_post. Qed.

(** A query of the device that may be skipped. *)
Lemma building_query (b : bool) (d : bool) (q : ext_call) (view : ext_resp q -> bool) ep h'
    (k : bool -> M EpStore (Z * option (option ptr))) Q :
  building ep 0 h' -> (forall r : ext_resp q, neutral (EvCall (q : call_sig) r)) ->
  (forall a h'', building ep 0 h'' ->
    wp (k a) e (Conf (with_ep s p ep) ({[p]} ∪ l) h'') Q) ->
  wp (let! a := (if b then let! r := call q in ret (view r) else ret d) in k a) e
    (Conf (with_ep s p ep) ({[p]} ∪ l) h') Q.
Proof.
  intros Hb Hq Hk. wp_step. wp_if as Hc; ep_steps; apply Hk; [|done].
  apply building_log; [done|apply Hq].
Qed.

(** The last stage: reading the geometry of the device. *)
Lemma open_finish_spec ep ch h' :
  building ep 1 h' ->
  wp (let! rc := refresh_geometry p in
      if rc !=? 0 then call (SpdkPutIoChannel ch) ;;; open_fail p rc
      else ret (0, Some (Some p))) e (Conf (with_ep s p ep) ({[p]} ∪ l) h')
    (returns (open_post e wr cb context (Conf s l h))).
Proof.
  intros Hb. pose proof (bd_inv _ _ _ Hb) as Hi. ep_step. eapply wp_mono.
  { eapply refresh_geometry_spec; [exact Hi|simpl; by simplify_map_eq]. }
  intros [rc|f|] [s' l' h'']; simpl; [|done|done]. destruct Hb.
  intros (Hh & -> & Hheld & [(-> & (g & Hg & ->) & Hi')|(-> & -> & Hi')]); simpl.
  - wp_step. rewrite with_ep_twice in *. split; [|split].
    + eapply ep_invX_eq; [exact Hi'|done|set_solver].
    + apply evolves_same_requests; simpl; [by trans h'|done].
    + right. exists p, (set_geometry g ep). simpl. unfold acquired in *.
      split_and!; try done; lia.
  - ep_step. ep_step. apply open_fail_post; try done.
    + apply suffix_cons_r. by trans h'.
    + unfold acquired in *. simpl. lia.
    + by apply inv_log.
Qed.

Lemma open_device_spec ep0 desc h0 :
  building ep0 0 h0 ->
  wp (open_device p wr desc) e (Conf (with_ep s p ep0) ({[p]} ∪ l) h0)
    (returns (open_post e wr cb context (Conf s l h))).
Proof.
  intros Hb. unfold open_device. do 8 ep_step. rewrite insert_insert_eq.
  set (ep1 := set_bdev _ _ _). fold (with_ep s p ep1).
  assert (building ep1 0 h0) as Hb1.
  { destruct Hb. split; try done. by eapply inv_building. }
  apply (building_query _ true (SpdkBdevIoTypeSupported r SPDK_BDEV_IO_TYPE_WRITE) (fun r => r));
    [by repeat apply building_log|done|].
  intros wt h1 Hb2. wp_if as Hsup; [by apply building_fail|]. ep_step. ep_step.
  apply (building_query _ true (SpdkBdevIsZoned r) (fun r => r)); [by apply building_log|done|].
  intros zoned h2 Hb3. wp_if as Hz; [by apply building_fail|]. do 6 ep_step.
  rewrite insert_insert_eq. set (ep2 := set_channel _ _). fold (with_ep s p ep2).
  assert (forall k h', building ep1 k h' -> building ep2 k h') as Hch.
  { intros k h' []. split; try done. by eapply inv_building. }
  apply Hch in Hb3. wp_if as Hc.
  { apply building_fail; [done|]. apply building_log; [done|].
    split; [done|]. split; [done|]. simpl. by rewrite Hc. }
  apply (open_finish_spec ep2). destruct Hb3. split; try done; [solve_suffix| |by apply inv_log].
  unfold acquired in *. simpl. rewrite Hc. lia.
Qed.
End OpenDevice.

Lemma open_spec e c name wr cb context out :
  ep_inv c ->
  wp (zettide_spdk_bdev_open name wr cb context out) e c
    (returns (open_post e wr cb context c)).
Proof.
  destruct c as [s l h]. intros Hinv.
  unfold zettide_spdk_bdev_open.
  destruct name as [name|]; [|wp_step; apply open_rejected; auto with zettide].
  wp_if as Hout; [wp_step; apply open_rejected; auto with zettide|].
  ep_step. ep_step. wp_if as Ht; [wp_step; apply open_rejected; auto with zettide|].
  ep_step. apply wp_calloc.
  { ep_steps. apply open_rejected; auto;
      first [solve_suffix | by apply inv_log | unfold acquired; simpl; lia]. }
  intros p Hsz. simpl in Hsz. do 4 ep_step.
  set (ep0 := Endpoint _ _ _ _ _ _ _ _ _ _). fold (with_ep s p ep0).
  pose proof (inv_new_ep _ _ s l h p ep0 Hinv eq_refl Hsz eq_refl) as Hi0.
  rewrite (right_id_L ∅ (∪)) in Hi0. fold (with_ep s p ep0) in Hi0.
  assert (endpoints s !! p = None) as HpE.
  { eapply fresh_lookup; [exact (inv_conf _ _ _ Hinv)|exact (inv_live_ep _ _ _ Hinv)]. }
  pose proof (fresh_not_live _ (inv_conf _ _ _ Hinv)) as Hpl. fold p in Hpl. simpl in Hpl.
  wp_if as Hrc; breflect.
  - ep_step. apply wp_free_ep; [simpl; set_solver|]. ep_steps.
    rewrite drop_new_ep, drop_new_ptr by done.
    apply open_rejected; auto; [solve_suffix|unfold acquired; simpl|].
    + rewrite (proj2 (Z.eqb_neq r.1 0) Hrc). lia.
    + rewrite <- (drop_new_ep s p HpE ep0) at 1. rewrite <- (drop_new_ptr l p Hpl).
      eapply ep_invX_eq; [eapply (inv_free_ep ∅ {[p]} (with_ep s p ep0))|done|set_solver];
        [by apply inv_log|simpl; by simplify_map_eq|done].
  - apply open_device_spec; [done..|]. split; try done.
    + simpl. by destruct (cur_thread e).
    + solve_suffix.
    + unfold acquired. simpl. rewrite Hrc. simpl. lia.
    + by apply inv_log.
Qed.

(** ** DMA capability *)

(** The translations in [k] (latest first) cover [n] bytes from [a] without gap
    or overlap. *)
Inductive dma_tiles : Z -> Z -> list event -> Prop :=
  | TilesDone a : dma_tiles a 0 []
  | TilesStep a n size k :
      0 < Z.min (u64 size) n ->
      dma_tiles (a + Z.min (u64 size) n) (n - Z.min (u64 size) n) k ->
      dma_tiles a n (k ++ [EvCall (SpdkVtophys a n : call_sig) (Some size)]).

(** The last event of [k] is a failed translation inside the buffer. *)
Definition dma_gap (a n : Z) (k : list event) : Prop :=
  exists a' n' (r : option Z) k', k = EvCall (SpdkVtophys a' n' : call_sig) r :: k' /\
    a <= a' /\ 0 < n' /\ a' + n' = a + n /\ (r = None \/ exists size, r = Some size /\ u64 size = 0).

Lemma dma_loop_spec {S} fuel a n e (c : conf S) :
  0 <= a -> 0 <= n <= Z.of_nat fuel -> a + n <= UINTPTR_MAX ->
  wp (dma_loop fuel a n) e c (returns (fun (b : bool) c' =>
    exists k, c' = Conf (store c) (live c) (k ++ hist c) /\
      (if b then dma_tiles a n k else dma_gap a n k))).
Proof.
  revert a n c. induction fuel as [|fuel IH]; intros a n c Ha Hn Hmax; simpl.
  - assert (n = 0) as -> by lia. simpl. wp_step. exists []. destruct c. split; [done|]. constructor.
  - destruct (Z.gtb_spec n 0); [|wp_step; exists []; destruct c; split; [done|];
      replace n with 0 by lia; constructor].
    wp_step. wp_step. destruct r as [size|]; simpl.
    2:{ wp_step. eexists [_]. split; [done|]. exists a, n, None, [].
        split; [done|]. split_and!; try lia. auto. }
    pose proof (u64_range size) as Hr. unfold is_u64 in Hr.
    wp_if as Hz; breflect.
    + wp_step. eexists [_]. split; [done|]. exists a, n, (Some size), [].
      split; [done|]. split_and!; try lia. eauto.
    + replace (if u64 size >? n then n else u64 size) with (Z.min (u64 size) n).
      2:{ destruct (Z.gtb_spec (u64 size) n); lia. }
      set (t := Z.min (u64 size) n). assert (0 < t <= n) as Ht by (unfold t; lia).
      rewrite u64_small by (unfold is_u64, UINTPTR_MAX in *; lia).
      eapply wp_mono; [apply IH; lia|].
      intros [b|f|] c'; simpl; [|done|done]. intros (k & -> & Hk). simpl.
      eexists (k ++ [_]). split; [by rewrite <- app_assoc|]. destruct b.
      * apply (TilesStep a n size k); [fold t; lia|done].
      * destruct Hk as (a' & n' & r & k' & -> & Hk'). exists a', n', r.
        eexists. split; [done|]. split_and!; try lia. tauto.
Qed.

(** ** Steps of the state machine *)

Lemma owed_request X Y c r k :
  ep_invX X Y c -> owed (store c) !! r = Some k -> exists rq, requests (store c) !! r = Some rq.
Proof.
  intros Hinv Hr. apply elem_of_dom_2 in Hr.
  rewrite (inv_owed _ _ _ Hinv) in Hr. apply elem_of_difference in Hr as [Hr _].
  by apply elem_of_dom in Hr as [rq Hr]; eauto.
Qed.

Lemma returns_drop {A S} (m : M S A) e (c : conf S) (R : A -> conf S -> Prop) (Q : unit -> conf S -> Prop) :
  wp m e c (returns R) -> (forall a c', R a c' -> Q tt c') ->
  wp (m ;;; ret tt) e c (returns Q).
Proof. intros Hm HQ. eapply wp_bind_returns; [exact Hm|]. intros a c' HR. wp_step. simpl. eauto. Qed.

Lemma ep_exec_spec e l c :
  ep_inv c -> ep_enabled l (store c) ->
  wp (ep_exec l) e c (returns (fun _ c' => ep_inv c' /\ evolves c c')).
Proof.
  intros Hinv Hen. destruct l as [name wr cb ctx out|p|p b o n cb ctx|p b o n cb ctx|p o n cb ctx
    |type p|io success r|r]; simpl in *.
  - eapply returns_drop; [by apply open_spec|]. unfold open_post. simpl. tauto.
  - destruct p as [p|]; [destruct Hen as [ep Hp]|by unfold wp; simpl; auto using evolves_refl].
    eapply returns_drop; [by eapply close_spec|]. simpl. tauto.
  - destruct Hen as (Hp & Ho & Hn).
    destruct p as [p|]; [destruct Hp as [ep Hp]|by unfold wp; simpl; auto using evolves_refl].
    eapply returns_drop; [by eapply read_spec|]. simpl. tauto.
  - destruct Hen as (Hp & Ho & Hn).
    destruct p as [p|]; [destruct Hp as [ep Hp]|by unfold wp; simpl; auto using evolves_refl].
    eapply returns_drop; [by eapply write_spec|]. simpl. tauto.
  - destruct Hen as (Hp & Ho & Hn).
    destruct p as [p|]; [destruct Hp as [ep Hp]|by unfold wp; simpl; auto using evolves_refl].
    eapply returns_drop; [by eapply flush_spec|]. simpl. tauto.
  - destruct Hen as [ep Hp]. eapply wp_mono; [by eapply bdev_event_spec|].
    intros [u|f|] c'; simpl; tauto.
  - destruct (owed_request _ _ _ _ _ Hinv Hen) as [rq Hr]. destruct c as [s l h]. simpl in *.
    ep_step. ep_step. eapply wp_mono.
    + eapply complete_request_spec; [by eapply inv_delivers|exact Hr|set_solver].
    + intros [u|f|] c'; simpl; [|done|done]. intros (Hi & [He1 He2] & _).
      split; [eapply ep_invX_eq; [exact Hi|set_solver|done]|]. by split.
  - destruct (owed_request _ _ _ _ _ Hinv Hen) as [rq Hr]. destruct c as [s l h]. simpl in *.
    ep_step. ep_step. eapply wp_mono.
    + eapply retry_request_spec; [by eapply inv_delivers|exact Hr|set_solver].
    + intros [u|f|] c'; simpl; [|done|done]. intros (Hi & [He1 He2] & _).
      split; [eapply ep_invX_eq; [exact Hi|set_solver|done]|]. by split.
Qed.

Lemma ep_init_inv : ep_inv ep_init.
Proof.
  split; simpl; try set_solver; try (intros; by simplify_map_eq).
Qed.

Lemma ep_step_inv c c' : ep_inv c -> ep_step c c' -> ep_inv c' /\ evolves c c'.
Proof.
  intros Hinv Hs. destruct Hs as [e l c c' Hen Hex].
  exact (wp_run _ _ _ _ _ _ (ep_exec_spec e l c Hinv Hen) Hex).
Qed.

Lemma ep_steps_inv c c' : ep_inv c -> rtc ep_step c c' -> ep_inv c' /\ evolves c c'.
Proof.
  intros Hinv Hs. induction Hs as [c|c1 c2 c3 Hs _ IH]; [auto using evolves_refl|].
  destruct (ep_step_inv _ _ Hinv Hs) as [Hi He]. destruct (IH Hi) as [Hi' He'].
  eauto using evolves_trans.
Qed.

(** ** Properties *)

(** C1: Memory safety of the endpoint under every interleaving: from the empty
    store, after any sequence of client calls, device events, I/O completions
    and retries, every further enabled call returns.  It never dereferences a
    freed endpoint or request, never frees twice and never divides by a zero
    block size, whatever SPDK answers. *)
Theorem endpoint_steps_never_fault c e l :
  rtc ep_step ep_init c -> ep_enabled l (store c) ->
  exists c', ep_exec l e c = (Done tt, c') /\ ep_step c c'.
Proof.
  intros Hr Hen. destruct (ep_steps_inv _ _ ep_init_inv Hr) as [Hinv _].
  destruct (wp_returns_run _ _ _ _ (ep_exec_spec e l c Hinv Hen)) as ([] & c' & Hex & _).
  exists c'. split; [done|]. by econstructor.
Qed.

(** C5: A submission that was accepted calls its callback exactly once: in every
    later state the request is still live, SPDK owes its callback and the client
    was not called yet, or the request is gone and the client was called once. *)
Theorem endpoint_callback_exactly_once c c' r :
  rtc ep_step ep_init c -> is_Some (requests (store c) !! r) -> rtc ep_step c c' ->
  (is_Some (requests (store c') !! r) /\ is_Some (owed (store c') !! r)
     /\ callbacks r (hist c') = 0)
  \/ (requests (store c') !! r = None /\ callbacks r (hist c') = 1).
Proof.
  intros Hr Hreq Hs. destruct (ep_steps_inv _ _ ep_init_inv Hr) as [Hinv _].
  destruct (ep_steps_inv _ _ Hinv Hs) as [Hinv' He].
  destruct (requests (store c') !! r) as [rq|] eqn:Hrq.
  - left. split; [done|]. split; [|apply (inv_zero _ _ _ Hinv'); left; by rewrite Hrq].
    apply elem_of_dom. rewrite (inv_owed _ _ _ Hinv'). apply elem_of_difference.
    split; [by apply elem_of_dom; rewrite Hrq|set_solver].
  - right. split; [done|]. destruct (ev_requests _ _ He r Hreq) as [[? ?]|Hcb]; [congruence|].
    pose proof (inv_once _ _ _ Hinv' r). lia.
Qed.

(** C33: Range validation accepts exactly the requests on the owner thread, on a
    device that is present, with a non-null aligned buffer and a non-empty
    block-aligned range that lies inside the device, and for writes on a writable
    endpoint and in whole write units; the 64-bit tests have no overflow. *)
Theorem validate_range_accepts_exactly {S} ep b o n w e (c : conf S) :
  geometry_ok (geometry ep) -> is_u64 o -> is_u64 n ->
  exists rc, validate_range ep b o n w e c = (Done rc, c) /\
    (rc = 0 <-> range_valid ep (cur_thread e) b o n w).
Proof.
  intros Hg Ho Hn.
  destruct (wp_returns_run _ _ _ _ (validate_range_spec ep b o n w e c Hg Ho Hn))
    as (rc & c' & Hex & -> & Hrc). by exists rc.
Qed.

(** C34: Opening an endpoint keeps its books on every path: an error leaves no
    endpoint, no allocation, no open descriptor and no I/O channel behind;
    success leaves exactly one of each, owned by the calling thread and with a
    consistent geometry. *)
Theorem endpoint_open_balanced e c name wr cb context out :
  ep_inv c ->
  exists r c', zettide_spdk_bdev_open name wr cb context out e c = (Done r, c') /\
    open_post e wr cb context c r c'.
Proof. intros Hinv. exact (wp_returns_run _ _ _ _ (open_spec e c name wr cb context out Hinv)). Qed.

(** C35: Closing succeeds only on the owner thread and when no request of the
    endpoint is live; it then releases descriptor, channel and memory.  A refused
    close changes nothing. *)
Theorem endpoint_close_only_when_idle e c p ep :
  ep_inv c -> endpoints (store c) !! p = Some ep ->
  exists rc c', zettide_spdk_bdev_close (Some p) e c = (Done rc, c') /\ ep_inv c' /\
    (rc = 0 /\ cur_thread e = owner ep /\ requests_of p (requests (store c)) = ∅ /\
       endpoints (store c') = delete p (endpoints (store c)) /\
       live c' = live c ∖ {[p]} /\ acquired (hist c) (hist c') (-1) (-1)
     \/ (rc = - EPERM \/ rc = - EBUSY) /\ c' = c).
Proof.
  intros Hinv Hp.
  destruct (wp_returns_run _ _ _ _ (close_spec e c p ep Hinv Hp)) as (rc & c' & Hex & Hi & _ & Hrc).
  exists rc, c'. split; [done|]. split; [done|].
  destruct Hrc as [(? & ? & ? & Hs & ? & ?)|?]; [left|by right]. split_and!; try done. by rewrite Hs.
Qed.

(** The write operation hands a request to SPDK only for a valid range, and
    then exactly one request is added; every rejected call leaves store and heap
    unchanged, so a failed submission leaks nothing and owes no callback. *)
Theorem endpoint_write_all_or_nothing e c p ep b o n cb ctx :
  ep_inv c -> endpoints (store c) !! p = Some ep -> is_u64 o -> is_u64 n ->
  exists rc c', zettide_spdk_bdev_write (Some p) b o n cb ctx e c = (Done rc, c') /\
    submitted p cb ctx rc c c' /\ (rc = 0 -> range_valid ep (cur_thread e) b o n true).
Proof.
  intros Hinv Hp Ho Hn.
  destruct (wp_returns_run _ _ _ _ (write_spec e c p ep b o n cb ctx Hinv Hp Ho Hn))
    as (rc & c' & Hex & _ & _ & Hs & Hv). by exists rc, c'.
Qed.

(** C36: The DMA test terminates after at most [length] translations and answers
    [true] only when the translations tile the buffer exactly; when the pre-tests
    pass, [false] means a translation inside the buffer failed. *)
Theorem dma_capable_iff_tiled e c p ep b n :
  endpoints (store c) !! p = Some ep -> 0 < b <= UINTPTR_MAX -> is_u64 n ->
  is_u32 (buffer_alignment (geometry ep)) ->
  exists r k, zettide_spdk_bdev_buffer_is_dma_capable (Some p) b n e c
      = (Done r, Conf (store c) (live c) (k ++ hist c)) /\
    (if r then cur_thread e = owner ep /\ 0 < n /\ b + n <= UINTPTR_MAX /\
               b mod Z.max 1 (buffer_alignment (geometry ep)) = 0 /\ dma_tiles b n k
     else (cur_thread e <> owner ep \/ n = 0 \/ UINTPTR_MAX < b + n \/
           b mod Z.max 1 (buffer_alignment (geometry ep)) <> 0) /\ k = [] \/ dma_gap b n k).
Proof.
  intros Hp Hb Hn Hal. unfold is_u64, is_u32 in *.
  assert (wp (zettide_spdk_bdev_buffer_is_dma_capable (Some p) b n) e c (returns (fun (r : bool) c' =>
    exists k, c' = Conf (store c) (live c) (k ++ hist c) /\
    (if r then cur_thread e = owner ep /\ 0 < n /\ b + n <= UINTPTR_MAX /\
               b mod Z.max 1 (buffer_alignment (geometry ep)) = 0 /\ dma_tiles b n k
     else (cur_thread e <> owner ep \/ n = 0 \/ UINTPTR_MAX < b + n \/
           b mod Z.max 1 (buffer_alignment (geometry ep)) <> 0) /\ k = [] \/ dma_gap b n k))))
    as Hwp.
  { unfold zettide_spdk_bdev_buffer_is_dma_capable.
    assert (c = Conf (store c) (live c) ([] ++ hist c)) as Hc by by destruct c.
    rewrite (proj2 (Z.eqb_neq b 0)) by lia. simpl. wp_if as Hz; breflect.
    { wp_step. exists []. split; [done|]. auto. }
    ep_line. wp_if as Ht; breflect. { wp_step. exists []. split; [done|]. auto. }
    pose proof (alignment_test (buffer_alignment (geometry ep)) b (proj1 Hal)) as Ha.
    wp_if as Hp2.
    - wp_step. exists []. split; [done|]. left. split; [|done].
      apply orb_true_iff in Hp2 as [Hp2|Hp2]; [|breflect; lia].
      do 3 right. intros Hm. apply Ha in Hm. by rewrite Hm in Hp2.
    - apply orb_false_iff in Hp2 as [Hp2 Hlen]. apply Ha in Hp2. breflect.
      eapply wp_mono; [apply dma_loop_spec; lia|].
      intros [r|f|] c'; simpl; [|done|done]. intros (k & -> & Hk). exists k.
      split; [done|]. destruct r; [|auto]. split_and!; try done; lia. }
  destruct (wp_returns_run _ _ _ _ Hwp) as (r & c' & Hex & k & -> & Hk). by exists r, k.
Qed.

(** ** The properties at concrete inputs *)

(** Open a device on thread 1 and submit a write of two blocks. *)
Definition sample_open : ep_label := LOpen (Some "bdev0"%string) true None 0 true.
Definition sample_opened : conf EpStore := (ep_exec sample_open (sample_env (Some 1%nat)) ep_init).2.
Definition sample_write : ep_label := LWrite (Some 1%nat) 4096 512 1024 (Some 3%nat) (4, 0)%nat.
Definition sample_written : conf EpStore := (ep_exec sample_write (sample_env (Some 1%nat)) sample_opened).2.
Definition sample_request : ptr :=
  hd 0%nat (elements (dom (requests (store sample_written)))).
Definition sample_completed : conf EpStore :=
  (ep_exec (LComplete 6 true sample_request) (sample_env (Some 1%nat)) sample_written).2.
Definition sample_endpoint : endpoint :=
  match endpoints (store sample_opened) !! 1%nat with
  | Some ep => ep
  | None => Endpoint None 0 0 0 (Geometry 0 0 0 0 0 0) 0 false false None 0
  end.

Lemma ep_step_exec e l c :
  ep_enabled l (store c) -> (ep_exec l e c).1 = Done tt -> ep_step c (ep_exec l e c).2.
Proof. intros Hen Ho. apply (EpStep e l); [done|]. destruct (ep_exec l e c). simpl in *. by subst. Qed.

Lemma sample_opened_reachable : rtc ep_step ep_init sample_opened.
Proof. apply rtc_once, ep_step_exec; [done|vm_compute; reflexivity]. Qed.

Lemma sample_written_reachable : rtc ep_step ep_init sample_written.
Proof.
  eapply rtc_r; [exact sample_opened_reachable|]. apply ep_step_exec; [|vm_compute; reflexivity].
  split; [vm_compute; by eexists|]. unfold is_u64, UINT64_MAX. lia.
Qed.

Lemma sample_written_completed : rtc ep_step sample_written sample_completed.
Proof. apply rtc_once, ep_step_exec; [vm_compute; reflexivity|vm_compute; reflexivity]. Qed.

Lemma sample_opened_inv : ep_inv sample_opened.
Proof. exact (proj1 (ep_steps_inv _ _ ep_init_inv sample_opened_reachable)). Qed.

Lemma sample_endpoint_at : endpoints (store sample_opened) !! 1%nat = Some sample_endpoint.
Proof. vm_compute. reflexivity. Qed.

Lemma endpoint_steps_never_fault_witness :
  exists c', ep_exec (LComplete 6 true sample_request) (sample_env (Some 1%nat)) sample_written
    = (Done tt, c') /\ ep_step sample_written c'.
Proof. apply (endpoint_steps_never_fault _ _ _ sample_written_reachable). vm_compute. reflexivity. Defined.

Lemma endpoint_callback_exactly_once_witness :
  callbacks sample_request (hist sample_completed) = 1.
Proof.
  destruct (endpoint_callback_exactly_once sample_written sample_completed sample_request
    sample_written_reachable ltac:(vm_compute; by eexists) sample_written_completed) as [(H & _)|[_ H]].
  - exfalso. vm_compute in H. by destruct H.
  - exact H.
Defined.

Lemma validate_range_accepts_exactly_witness :
  exists rc, validate_range sample_endpoint 4096 512 1024 true (sample_env (Some 1%nat)) sample_opened
      = (Done rc, sample_opened) /\
    (rc = 0 <-> range_valid sample_endpoint (Some 1%nat) 4096 512 1024 true).
Proof.
  apply (validate_range_accepts_exactly sample_endpoint 4096 512 1024 true (sample_env (Some 1%nat)) sample_opened).
  - exact (inv_geom _ _ _ sample_opened_inv _ _ sample_endpoint_at ltac:(set_solver)).
  - unfold is_u64, UINT64_MAX. lia.
  - unfold is_u64, UINT64_MAX. lia.
Defined.

Lemma endpoint_open_balanced_witness :
  exists r c', zettide_spdk_bdev_open (Some "bdev1"%string) false None 0 true (sample_env (Some 2%nat)) sample_opened
      = (Done r, c') /\
    open_post (sample_env (Some 2%nat)) false None 0 sample_opened r c'.
Proof. apply endpoint_open_balanced. exact sample_opened_inv. Defined.

Lemma endpoint_close_only_when_idle_witness :
  exists rc c', zettide_spdk_bdev_close (Some 1%nat) (sample_env (Some 1%nat)) sample_opened = (Done rc, c') /\
    ep_inv c'.
Proof.
  destruct (endpoint_close_only_when_idle (sample_env (Some 1%nat)) sample_opened 1%nat sample_endpoint
    sample_opened_inv sample_endpoint_at) as (rc & c' & H1 & H2 & _).
  exists rc, c'. split; [exact H1|exact H2].
Defined.

Lemma endpoint_write_all_or_nothing_witness :
  exists rc c', zettide_spdk_bdev_write (Some 1%nat) 4096 512 1024 (Some 3%nat) (4, 0)%nat
      (sample_env (Some 1%nat)) sample_opened = (Done rc, c') /\
    (rc = 0 -> range_valid sample_endpoint (Some 1%nat) 4096 512 1024 true).
Proof.
  destruct (endpoint_write_all_or_nothing (sample_env (Some 1%nat)) sample_opened 1%nat sample_endpoint
    4096 512 1024 (Some 3%nat) (4, 0)%nat sample_opened_inv sample_endpoint_at) as (rc & c' & H1 & _ & H2);
    [unfold is_u64, UINT64_MAX; lia..|].
  exists rc, c'. split; [exact H1|exact H2].
Defined.

Lemma dma_capable_iff_tiled_witness :
  exists r k, zettide_spdk_bdev_buffer_is_dma_capable (Some 1%nat) 4096 1024 (sample_env (Some 1%nat)) sample_opened
      = (Done r, Conf (store sample_opened) (live sample_opened) (k ++ hist sample_opened)).
Proof.
  destruct (dma_capable_iff_tiled (sample_env (Some 1%nat)) sample_opened 1%nat sample_endpoint 4096 1024
    sample_endpoint_at) as (r & k & H & _).
  - vm_compute. split; [reflexivity|discriminate].
  - unfold is_u64, UINT64_MAX. lia.
  - vm_compute. split; discriminate.
  - exists r, k. exact H.
Defined.
