(* ===== verification/Port.v ===== *)
(** * Port: what an endpoint promises to the dispatcher

    bdev_dispatcher.c reaches a device only through bdev_endpoint.h.  The class
    [EndpointPort] states what it relies on: operations return, endpoints stay
    open until they are closed, and every accepted submission is in flight until
    its callback is delivered, once.  The instance discharges the laws for the
    model of bdev_endpoint.c; a port has a heap of its own, disjoint from the
    heap of the client. *)

From S2P Require Import Prelude Effects Externals Endpoint.

(** A computation of the port. *)
Definition PM (P A : Type) : Type := env -> P -> outcome A * P.

(** [m] returns a result that satisfies [Q]. *)
Definition port_returns {P A} (m : PM P A) (e : env) (s : P) (Q : A -> P -> Prop) : Prop :=
  exists a s', m e s = (Done a, s') /\ Q a s'.

Class EndpointPort (P : Type) := {
  (** The status and what was stored in the pointer passed, if it was written. *)
  port_open : string -> bool -> PM P (Z * option (option ptr));
  port_close : option ptr -> PM P Z;
  port_geometry : option ptr -> PM P (option bdev_geometry);
  port_name : option ptr -> PM P (option string);
  port_dma_capable : option ptr -> Z -> Z -> PM P bool;
  port_submit : request_operation -> option ptr -> Z -> Z -> Z -> cookie -> PM P Z;
  (** The next callback for a cookie, if it comes: the status it passes. *)
  port_deliver : cookie -> PM P (option Z);
  port_eps : P -> gset ptr;
  port_inflight : P -> gset cookie;
  port_ok : P -> Prop;
  port_open_law : forall name wr e s, port_ok s ->
    port_returns (port_open name wr) e s (fun r s' =>
      port_ok s' /\ port_inflight s' = port_inflight s /\
      (r.1 <> 0 /\ (r.2 = None \/ r.2 = Some None) /\ port_eps s' = port_eps s \/
       exists q, r = (0, Some (Some q)) /\ q ∉ port_eps s /\ port_eps s' = {[q]} ∪ port_eps s));
  port_close_law : forall q e s, port_ok s -> q ∈ port_eps s ->
    port_returns (port_close (Some q)) e s (fun rc s' =>
      port_ok s' /\ port_inflight s' = port_inflight s /\
      port_eps s' = if rc =? 0 then port_eps s ∖ {[q]} else port_eps s);
  port_geometry_law : forall q e s, port_ok s -> q ∈ port_eps s ->
    port_returns (port_geometry (Some q)) e s (fun g s' => s' = s /\
      forall g', g = Some g' -> geometry_ok g');
  port_name_law : forall q e s, port_ok s -> q ∈ port_eps s ->
    port_returns (port_name (Some q)) e s (fun _ s' =>
      port_ok s' /\ port_inflight s' = port_inflight s /\ port_eps s' = port_eps s);
  port_dma_law : forall q b n e s, port_ok s -> q ∈ port_eps s -> 0 < b <= UINTPTR_MAX -> is_u64 n ->
    port_returns (port_dma_capable (Some q) b n) e s (fun _ s' =>
      port_ok s' /\ port_inflight s' = port_inflight s /\ port_eps s' = port_eps s);
  port_submit_law : forall op q b o n k e s, port_ok s -> q ∈ port_eps s -> is_u64 o -> is_u64 n ->
    k ∉ port_inflight s ->
    port_returns (port_submit op (Some q) b o n k) e s (fun rc s' =>
      port_ok s' /\ port_eps s' = port_eps s /\
      port_inflight s' = if rc =? 0 then {[k]} ∪ port_inflight s else port_inflight s);
  port_deliver_law : forall k e s, port_ok s -> k ∈ port_inflight s ->
    port_returns (port_deliver k) e s (fun st s' =>
      port_ok s' /\ port_eps s' = port_eps s /\
      port_inflight s' = if st is Some _ then port_inflight s ∖ {[k]} else port_inflight s);
}.

(** ** The endpoint of bdev_endpoint.c as a port *)

(** The callback the dispatcher passes. *)
Definition port_callback : nat := 1.

Definition ep_port_submit (op : request_operation) (q : option ptr) (b o n : Z) (k : cookie)
    : M EpStore Z :=
  match op with
  | REQUEST_READ => zettide_spdk_bdev_read q b o n (Some port_callback) k
  | REQUEST_WRITE => zettide_spdk_bdev_write q b o n (Some port_callback) k
  | REQUEST_FLUSH => zettide_spdk_bdev_flush q o n (Some port_callback) k
  end.

Definition find_request (k : cookie) (s : EpStore) : option ptr :=
  fst <$> head (filter (fun kv => rq_context kv.2 = k) (map_to_list (requests s))).

(** The status the callback of request [r] was last called with. *)
Fixpoint callback_status (r : ptr) (h : list event) : Z :=
  match h with
  | [] => 0
  | EvCall (IoCallback r' _ _ st) _ :: h => if (r =? r')%nat then st else callback_status r h
  | _ :: h => callback_status r h
  end.

Definition ep_port_deliver (k : cookie) : M EpStore (option Z) :=
  let! s := get in
  let! r := deref (find_request k s) in
  let! o := deref (owed s !! r) in
  spdk_delivers r ;;;
  (match o with
   | OwesComplete =>
       let! out := call (SpdkIoOutcome r) in
       complete_request out.1 out.2 r
   | OwesRetry => retry_request r
   end) ;;;
  fun _ c => (Done (match requests (store c) !! r with
                    | Some _ => None
                    | None => Some (callback_status r (hist c))
                    end), c).

Definition ep_port_open (name : string) (wr : bool) : M EpStore (Z * option (option ptr)) :=
  zettide_spdk_bdev_open (Some name) wr None 0 true.

(** Cookies of requests in flight are distinct. *)
Definition distinct_cookies (s : EpStore) : Prop :=
  forall r r' rq rq', requests s !! r = Some rq -> requests s !! r' = Some rq' ->
    rq_context rq = rq_context rq' -> r = r'.

Definition ep_port_ok (c : conf EpStore) : Prop := ep_inv c /\ distinct_cookies (store c).

Definition ep_port_inflight (c : conf EpStore) : gset cookie :=
  map_to_set (fun _ rq => rq_context rq) (requests (store c)).

(** ** Lemmas *)

Lemma dma_loop_inv fuel a n e c :
  ep_inv c -> 0 <= n <= Z.of_nat fuel ->
  wp (dma_loop fuel a n) e c (returns (fun _ c' => ep_inv c' /\ store c' = store c)).
Proof.
  revert a n c. induction fuel as [|fuel IH]; intros a n [s l h] Hi Hn; simpl.
  - assert (n = 0) as -> by lia. simpl. by wp_step.
  - destruct (Z.gtb_spec n 0); [|by wp_step].
    wp_step. wp_step. assert (ep_inv (Conf s l (EvCall (SpdkVtophys a n : call_sig) r :: h))) as Hi'
      by by apply inv_log.
    destruct r as [size|]; [|by wp_step]. pose proof (u64_range size) as Hr. unfold is_u64 in Hr.
    wp_if as Hz; breflect; [by wp_step|].
    eapply wp_mono; [apply IH; [exact Hi'|]|].
    + destruct (Z.gtb_spec (u64 size) n); lia.
    + intros [b|f|] c'; simpl; done.
Qed.

Lemma dma_capable_inv q ep b n e c :
  ep_inv c -> endpoints (store c) !! q = Some ep -> is_u64 n ->
  wp (zettide_spdk_bdev_buffer_is_dma_capable (Some q) b n) e c
    (returns (fun _ c' => ep_inv c' /\ store c' = store c)).
Proof.
  intros Hi Hq Hn. unfold is_u64 in Hn. unfold zettide_spdk_bdev_buffer_is_dma_capable.
  wp_if as Hz; [by wp_step|]. wp_step. eapply wp_get_ep; [done|]. wp_step. apply wp_on_owner.
  wp_if as Ho; [by wp_step|]. wp_if as Ha; [by wp_step|]. apply dma_loop_inv; [done|lia].
Qed.

Lemma elem_of_inflight k c :
  k ∈ ep_port_inflight c <-> exists r rq, requests (store c) !! r = Some rq /\ rq_context rq = k.
Proof. unfold ep_port_inflight. apply elem_of_map_to_set. Qed.

Lemma inflight_same c c' :
  requests (store c') = requests (store c) -> ep_port_inflight c' = ep_port_inflight c.
Proof. unfold ep_port_inflight. by intros ->. Qed.

Lemma distinct_same s s' : requests s' = requests s -> distinct_cookies s -> distinct_cookies s'.
Proof. unfold distinct_cookies. by intros ->. Qed.

(** A new request puts its cookie in flight. *)
Lemma inflight_insert c c' r rq :
  requests (store c) !! r = None -> requests (store c') = <[r:=rq]> (requests (store c)) ->
  ep_port_inflight c' = {[rq_context rq]} ∪ ep_port_inflight c.
Proof.
  intros Hr Hc. apply set_eq. intros k. rewrite elem_of_union, elem_of_singleton, !elem_of_inflight, Hc.
  split.
  - intros (r' & rq' & Hr' & <-). destruct (decide (r' = r)) as [->|]; simplify_map_eq; eauto.
  - intros [->|(r' & rq' & Hr' & <-)]; [exists r, rq; by simplify_map_eq|].
    exists r', rq'. rewrite lookup_insert_ne by congruence. done.
Qed.

Lemma distinct_insert s s' r rq k :
  requests s !! r = None -> requests s' = <[r:=rq]> (requests s) -> rq_context rq = k ->
  (forall r' rq', requests s !! r' = Some rq' -> rq_context rq' <> k) ->
  distinct_cookies s -> distinct_cookies s'.
Proof.
  intros Hr Hs Hk Hnew Hd r1 r2 rq1 rq2. rewrite Hs. intros H1 H2 He.
  destruct (decide (r1 = r)) as [->|], (decide (r2 = r)) as [->|]; simplify_map_eq; eauto.
  - exfalso. by eapply Hnew.
  - exfalso. by eapply Hnew.
Qed.

(** A finished request takes its cookie out of flight. *)
Lemma inflight_delete c c' r rq :
  distinct_cookies (store c) -> requests (store c) !! r = Some rq ->
  requests (store c') = delete r (requests (store c)) ->
  ep_port_inflight c' = ep_port_inflight c ∖ {[rq_context rq]}.
Proof.
  intros Hd Hr Hc. apply set_eq. intros k.
  rewrite elem_of_difference, elem_of_singleton, !elem_of_inflight, Hc. split.
  - intros (r' & rq' & (Hne & Hr')%lookup_delete_Some & <-). split; [eauto|]. intros Hk.
    apply Hne. by eapply Hd.
  - intros [(r' & rq' & Hr' & <-) Hk]. exists r', rq'. split; [|done].
    rewrite lookup_delete_ne; [done|]. intros ->. by simplify_eq.
Qed.

Lemma distinct_delete s s' r :
  requests s' = delete r (requests s) -> distinct_cookies s -> distinct_cookies s'.
Proof.
  intros Hs Hd r1 r2 rq1 rq2. rewrite Hs. intros [_ H1]%lookup_delete_Some [_ H2]%lookup_delete_Some.
  eauto.
Qed.

Lemma find_request_spec k s :
  (exists r rq, requests s !! r = Some rq /\ rq_context rq = k) ->
  exists r rq, find_request k s = Some r /\ requests s !! r = Some rq /\ rq_context rq = k.
Proof.
  intros (r & rq & Hr & Hk). unfold find_request.
  destruct (filter (fun kv => rq_context kv.2 = k) (map_to_list (requests s))) as [|[r' rq'] l] eqn:E.
  - exfalso. assert ((r, rq) ∈ filter (fun kv => rq_context kv.2 = k) (map_to_list (requests s))) as Hin.
    { apply list_elem_of_filter. split; [done|]. by apply elem_of_map_to_list. }
    rewrite E in Hin. by apply not_elem_of_nil in Hin.
  - assert ((r', rq') ∈ filter (fun kv => rq_context kv.2 = k) (map_to_list (requests s))) as Hin.
    { rewrite E. by left. }
    apply list_elem_of_filter in Hin as [Hk' Hin%elem_of_map_to_list]. simpl in *. eauto.
Qed.

Lemma submit_port_spec op q ep b o n k e c :
  ep_inv c -> endpoints (store c) !! q = Some ep -> is_u64 o -> is_u64 n ->
  wp (ep_port_submit op (Some q) b o n k) e c (returns (fun rc c' =>
    ep_inv c' /\ submitted q (Some port_callback) k rc c c')).
Proof.
  intros Hi Hq Ho Hn. destruct op; unfold ep_port_submit;
    (eapply wp_mono; [first [by eapply read_spec|by eapply write_spec|by eapply flush_spec]|]);
    (intros [rc|f|] c'; simpl; tauto).
Qed.

Lemma deliver_port_spec k e c :
  ep_port_ok c -> k ∈ ep_port_inflight c ->
  wp (ep_port_deliver k) e c (returns (fun st c' =>
    ep_inv c' /\ dom (endpoints (store c')) = dom (endpoints (store c)) /\
    exists r rq, requests (store c) !! r = Some rq /\ rq_context rq = k /\
      requests (store c') = if st is Some _ then delete r (requests (store c)) else requests (store c))).
Proof.
  intros [Hi Hd] Hk. apply elem_of_inflight, find_request_spec in Hk as (r & rq & Hf & Hr & Hk).
  destruct c as [s l h]. simpl in *. unfold ep_port_deliver. wp_step. wp_step. simpl. rewrite Hf.
  wp_step. eapply wp_deref; [done|].
  assert (is_Some (owed s !! r)) as [o Ho].
  { pose proof (inv_owed _ _ _ Hi) as Hdom. simpl in Hdom. apply elem_of_dom. rewrite Hdom.
    apply elem_of_difference.
    split; [by apply elem_of_dom_2 in Hr|set_solver]. }
  wp_step. eapply wp_deref; [done|]. wp_step. unfold spdk_delivers. wp_step. simpl. wp_step.
  pose proof (inv_delivers _ _ _ _ _ _ _ Hi Ho) as Hi'. simpl in Hi'.
  eapply (wp_mono _ _ _ (returns (fun _ c' => ep_inv c' /\
     dom (endpoints (store c')) = dom (endpoints s) /\
     (requests (store c') = delete r (requests s) \/ requests (store c') = requests s)))).
  - destruct o.
    + wp_step. wp_step. eapply wp_mono.
      { eapply complete_request_spec; [apply inv_log; [exact Hi'|done]|exact Hr|set_solver]. }
      intros [u|f|] c'; simpl; [|done|done]. intros (Hi'' & _ & Hq & Hdm & _).
      split; [eapply ep_invX_eq; [exact Hi''|set_solver|done]|]. auto.
    + eapply wp_mono; [eapply retry_request_spec; [exact Hi'|exact Hr|set_solver]|].
      intros [u|f|] c'; simpl; [|done|done]. intros (Hi'' & _ & Hq & Hdm).
      split; [eapply ep_invX_eq; [exact Hi''|set_solver|done]|]. auto.
  - intros [u|f|] c'; simpl; [|done|done]. intros (Hi'' & Hdm & Hq). unfold wp. simpl.
    split; [done|]. split; [done|]. exists r, rq. split; [done|]. split; [done|].
    destruct Hq as [Hq|Hq]; rewrite Hq; [by rewrite lookup_delete_eq|by rewrite Hr].
Qed.

#[export] Program Instance EndpointAsPort : EndpointPort (conf EpStore) := {|
  port_open := ep_port_open;
  port_close := zettide_spdk_bdev_close;
  port_geometry := zettide_spdk_bdev_get_geometry;
  port_name := zettide_spdk_bdev_get_name;
  port_dma_capable := zettide_spdk_bdev_buffer_is_dma_capable;
  port_submit := ep_port_submit;
  port_deliver := ep_port_deliver;
  port_eps := fun c => dom (endpoints (store c));
  port_inflight := ep_port_inflight;
  port_ok := ep_port_ok;
|}.
Next Obligation.
  intros name wr e c [Hi Hd]. apply wp_returns_run. unfold ep_port_open.
  eapply wp_mono; [by apply open_spec|].
  intros [r|f|] c'; simpl; [|done|done]. intros (Hi' & _ & Hr).
  destruct Hr as [(Hrc & Hout & Hs & _)|(q & ep & -> & Hq & Hs & _)].
  - rewrite Hs. split; [split; [done|by rewrite Hs]|]. split; [apply inflight_same; by rewrite Hs|].
    left. done.
  - split; [split; [done|by rewrite Hs]|]. split; [apply inflight_same; by rewrite Hs|].
    right. exists q. split; [done|]. rewrite not_elem_of_dom, Hs. split; [done|]. simpl. by rewrite dom_insert_L.
Qed.
Next Obligation.
  intros q e c [Hi Hd] [ep Hq]%elem_of_dom. apply wp_returns_run.
  eapply wp_mono; [by eapply close_spec|].
  intros [rc|f|] c'; simpl; [|done|done]. intros (Hi' & _ & [(-> & _ & _ & Hs & _)|[Hrc ->]]).
  - split; [split; [done|by rewrite Hs]|]. split; [apply inflight_same; by rewrite Hs|].
    rewrite Hs. simpl. by rewrite dom_delete_L.
  - split; [done|]. split; [done|]. destruct Hrc as [-> | ->]; done.
Qed.
Next Obligation.
  intros q e c [Hi Hd] [ep Hq]%elem_of_dom. apply wp_returns_run.
  unfold zettide_spdk_bdev_get_geometry. wp_step. eapply wp_get_ep; [done|]. wp_step.
  split; [done|]. intros g' [= <-]. eapply (inv_geom _ _ _ Hi); [exact Hq|set_solver].
Qed.
Next Obligation.
  intros q e c [Hi Hd] [ep Hq]%elem_of_dom. apply wp_returns_run. destruct c as [s l h].
  unfold zettide_spdk_bdev_get_name. wp_step. eapply wp_get_ep; [done|]. wp_step. apply wp_on_owner.
  wp_if as Ho; [by wp_step|]. wp_step. wp_step. wp_step. simpl.
  split; [|done]. split; [by apply inv_log|done].
Qed.
Next Obligation.
  intros q b n e c [Hi Hd] [ep Hq]%elem_of_dom Hb Hn. apply wp_returns_run.
  eapply wp_mono; [by eapply dma_capable_inv|].
  intros [r|f|] c'; simpl; [|done|done]. intros [Hi' Hs].
  split; [split; [done|by rewrite Hs]|]. rewrite Hs. split; [|done]. apply inflight_same. by rewrite Hs.
Qed.
Next Obligation.
  intros op q b o n k e c [Hi Hd] [ep Hq]%elem_of_dom Ho Hn Hk. apply wp_returns_run.
  eapply wp_mono; [by eapply submit_port_spec|].
  intros [rc|f|] c'; simpl; [|done|done]. intros (Hi' & H0 & H1).
  destruct (Z.eqb_spec rc 0) as [->|Hne].
  - destruct (H0 eq_refl) as (r & rq & Hr & Hrs & Hdm & _ & _ & <-).
    split; [split; [done|]|split; [done|by eapply inflight_insert]].
    eapply distinct_insert; [exact Hr|exact Hrs|done| |done]. intros r' rq' Hr' Hk'.
    apply Hk, elem_of_inflight. eauto.
  - destruct (H1 Hne) as [Hs _]. split; [split; [done|by rewrite Hs]|]. rewrite Hs.
    split; [done|]. apply inflight_same. by rewrite Hs.
Qed.
Next Obligation.
  intros k e c Hok Hk. apply wp_returns_run.
  eapply wp_mono; [by apply deliver_port_spec|]. destruct Hok as [Hi Hd].
  intros [st|f|] c'; simpl; [|done|done]. intros (Hi' & Hdm & r & rq & Hr & <- & Hq).
  destruct st as [st|].
  - split; [split; [done|by eapply distinct_delete]|]. split; [done|]. by eapply inflight_delete.
  - split; [split; [done|by eapply distinct_same]|]. split; [done|]. by apply inflight_same.
Qed.
