(* ===== verification/Dispatcher.v ===== *)
(** * Dispatcher: services/data-node/spdk/bdev_dispatcher.c, blocking commands

    A dispatcher lets threads that are not SPDK threads use an endpoint.  Each
    operation puts a command on the caller's stack, sends it to the owner thread
    and waits; Handshake.v shows that the waiting is sound, so that the model may
    run the command where the code waits for it.  A dispatcher opened on a
    runtime holds one of its leases until it is closed.  The asynchronous read
    batches are in ReadBatch.v. *)

From S2P Require Import Prelude Effects Externals Handshake Blocking Lease Endpoint Port.

(** ** Data *)

Record dispatcher := Dispatcher {
  d_owner : thread;
  d_runtime : option ptr;
  d_endpoint : option ptr;
}.

Inductive dispatcher_operation :=
  | DISPATCHER_OPEN
  | DISPATCHER_GET_GEOMETRY
  | DISPATCHER_GET_NAME
  | DISPATCHER_READ
  | DISPATCHER_WRITE
  | DISPATCHER_FLUSH
  | DISPATCHER_CLOSE.

(** The union [arguments]; a member that is not the one written last is not
    readable. *)
Inductive command_arguments :=
  | ArgNone
  | ArgOpen (name : string) (writable : bool)
  | ArgGeometry (g : bdev_geometry)
  | ArgName (name : option (ptr * string))
  | ArgIo (buffer offset length : Z)
  | ArgFlush (offset length : Z).

Record dispatcher_command := DispatcherCommand {
  cm_sync : command;
  cm_operation : dispatcher_operation;
  cm_dispatcher : ptr;
  cm_arguments : command_arguments;
}.

Record DispStore (R P : Type) := DispS {
  ds_rt : R;
  ds_port : P;
  dispatchers : gmap ptr dispatcher;
}.
Arguments DispS {R P} _ _ _.
Arguments ds_rt {R P} _.
Arguments ds_port {R P} _.
Arguments dispatchers {R P} _.

Section Dispatcher.
Context {R P : Type} `{RL : !RuntimeLease R} `{EP : !EndpointPort P}.
Abbreviation St := (DispStore R P).

(** ** Store access *)

Definition get_disp (d : ptr) : M St dispatcher :=
  let! s := get in deref (dispatchers s !! d).

Definition put_disp (d : ptr) (x : dispatcher) : M St unit :=
  modify (fun s => DispS (ds_rt s) (ds_port s) (<[d:=x]> (dispatchers s))).

Definition free_disp (d : ptr) : M St unit :=
  modify (fun s => DispS (ds_rt s) (ds_port s) (delete d (dispatchers s))) ;;;
  free (Some d).

(** An operation of the runtime. *)
Definition on_rt {A} (m : M R A) : M St A :=
  zoom ds_rt (fun r s => DispS r (ds_port s) (dispatchers s)) m.

(** An operation of the endpoint. *)
Definition on_port {A} (m : PM P A) : M St A :=
  fun e c =>
    let '(o, s') := m e (ds_port (store c)) in
    (o, Conf (DispS (ds_rt (store c)) s' (dispatchers (store c))) (live c) (hist c)).

(** ** Commands *)

Definition set_sync (x : command) (cmd : dispatcher_command) : dispatcher_command :=
  DispatcherCommand x (cm_operation cmd) (cm_dispatcher cmd) (cm_arguments cmd).

Definition set_arguments (x : command_arguments) (cmd : dispatcher_command) : dispatcher_command :=
  DispatcherCommand (cm_sync cmd) (cm_operation cmd) (cm_dispatcher cmd) x.

Definition complete (cmd : dispatcher_command) (st : Z) : M St dispatcher_command :=
  match complete_command (cm_sync cmd) st with
  | None => fail AssertFailed
  | Some (x, _) => ret (set_sync x cmd)
  end.

Definition io_complete (cmd : dispatcher_command) (st : Z) : M St dispatcher_command :=
  complete cmd st.

(** Submit an operation whose callback is [io_complete] with the command, which
    lives at [self]; complete the command at once if the submission fails. *)
Definition submit_io (self : nat) (op : request_operation) (ep : option ptr) (b o n : Z)
    (cmd : dispatcher_command) : M St dispatcher_command :=
  let! status := on_port (port_submit op ep b o n (self, 0%nat)) in
  if status !=? 0 then complete cmd status else ret cmd.

Definition run_operation (self : nat) (cmd : dispatcher_command) : M St dispatcher_command :=
  let! d := get_disp (cm_dispatcher cmd) in
  match cm_operation cmd, cm_arguments cmd with
  | DISPATCHER_OPEN, ArgOpen name wr =>
      let! r := on_port (port_open name wr) in
      (match r.2 with
       | Some ep => put_disp (cm_dispatcher cmd) (Dispatcher (d_owner d) (d_runtime d) ep)
       | None => ret tt
       end) ;;;
      complete cmd r.1
  | DISPATCHER_GET_GEOMETRY, _ =>
      let! g := on_port (port_geometry (d_endpoint d)) in
      match g with
      | None => complete cmd (- ENODEV)
      | Some g => complete (set_arguments (ArgGeometry g) cmd) 0
      end
  | DISPATCHER_GET_NAME, _ =>
      let! name := on_port (port_name (d_endpoint d)) in
      match name with
      | None => complete cmd (- ENODEV)
      | Some name =>
          let! copy := calloc in
          let cmd := set_arguments (ArgName (option_map (fun p => (p, name)) copy)) cmd in
          complete cmd (if is_null copy then - ENOMEM else 0)
      end
  | DISPATCHER_READ, ArgIo b o n => submit_io self REQUEST_READ (d_endpoint d) b o n cmd
  | DISPATCHER_WRITE, ArgIo b o n => submit_io self REQUEST_WRITE (d_endpoint d) b o n cmd
  | DISPATCHER_FLUSH, ArgFlush o n => submit_io self REQUEST_FLUSH (d_endpoint d) 0 o n cmd
  | DISPATCHER_CLOSE, _ =>
      let! status := on_port (port_close (d_endpoint d)) in
      (if status =? 0 then put_disp (cm_dispatcher cmd) (Dispatcher (d_owner d) (d_runtime d) None)
       else ret tt) ;;;
      complete cmd status
  | _, _ => fail BadPointer
  end.

Definition run_command (self : nat) (cmd : dispatcher_command) : M St dispatcher_command :=
  let! cmd := run_operation self cmd in
  ret (set_sync (owner_done (cm_sync cmd)).1 cmd).

(** The part of [dispatch_command] behind the message.  Where the code waits, the
    owner thread runs the command; an operation in flight ends when its callback
    is delivered, and the call is blocked until then. *)
Definition wait_command (self : nat) (owner : thread) (cmd : dispatcher_command)
    : M St (Z * dispatcher_command) :=
  let! cmd := run_on (Some owner) (run_command self cmd) in
  let! cmd :=
    (if completed (cm_sync cmd) then ret cmd else
     let! st := run_on (Some owner) (on_port (port_deliver (self, 0%nat))) in
     match st with
     | Some st => io_complete cmd st
     | None => blocked
     end) in
  if wait_over (cm_sync cmd) then
    command_cleanup ;;; ret (status (cm_sync cmd), cmd)
  else blocked.

(** The command lives at [self] on the caller's stack. *)
Definition dispatch_command (self : nat) (cmd : dispatcher_command)
    : M St (Z * dispatcher_command) :=
  let! rc := command_setup in
  if rc !=? 0 then ret (rc, cmd) else
  let cmd := set_sync command_init cmd in
  let! d := get_disp (cm_dispatcher cmd) in
  let! rc := call (SpdkThreadSendMsg (d_owner d) FnRunCommand self) in
  if rc !=? 0 then fail Aborted else
  wait_command self (d_owner d) cmd.

(** ** Operations *)

(** The status and the value stored in [*dispatcher_out], if it was written. *)
Definition open_on_owner (self : nat) (owner : option thread) (runtime : option ptr)
    (name : option string) (wr : bool) (dispatcher_out : bool) : M St (Z * option (option ptr)) :=
  match owner, name with
  | Some owner, Some name =>
      if negb dispatcher_out then ret (- EINVAL, None) else
      let! mp := calloc in
      match mp with
      | None => ret (- ENOMEM, Some None)
      | Some d =>
          put_disp d (Dispatcher owner runtime None) ;;;
          let! r := dispatch_command self
            (DispatcherCommand (Command false false 0) DISPATCHER_OPEN d (ArgOpen name wr)) in
          if r.1 !=? 0 then free_disp d ;;; ret (r.1, Some None)
          else ret (0, Some (Some d))
      end
  | _, _ => ret (- EINVAL, None)
  end.

Definition zettide_spdk_bdev_dispatcher_open (self : nat) (runtime : option ptr)
    (name : option string) (wr : bool) (dispatcher_out : bool) : M St (Z * option (option ptr)) :=
  match runtime with
  | None => ret (- EINVAL, None)
  | Some rt =>
      if negb dispatcher_out then ret (- EINVAL, None) else
      let! a := on_rt (rl_acquire_dispatcher rt) in
      if a.1 !=? 0 then ret (a.1, Some None) else
      let! r := open_on_owner self a.2 (Some rt) name wr dispatcher_out in
      (if r.1 !=? 0 then on_rt (rl_release rt) else ret tt) ;;;
      ret (r.1, match r.2 with Some x => Some x | None => Some None end)
  end.

Definition zettide_spdk_bdev_dispatcher_open_on_thread (self : nat) (owner : option thread)
    (name : option string) (wr : bool) (dispatcher_out : bool) : M St (Z * option (option ptr)) :=
  open_on_owner self owner None name wr dispatcher_out.

Definition new_command (op : dispatcher_operation) (d : ptr) (a : command_arguments)
    : dispatcher_command := DispatcherCommand (Command false false 0) op d a.

Definition zettide_spdk_bdev_dispatcher_get_geometry (self : nat) (d : option ptr)
    (geometry_out : bool) : M St (Z * option bdev_geometry) :=
  match d with
  | None => ret (- EINVAL, None)
  | Some d =>
      if negb geometry_out then ret (- EINVAL, None) else
      let! r := dispatch_command self (new_command DISPATCHER_GET_GEOMETRY d ArgNone) in
      ret (r.1, if r.1 =? 0 then
                  match cm_arguments r.2 with ArgGeometry g => Some g | _ => None end
                else None)
  end.

Definition zettide_spdk_bdev_dispatcher_get_name (self : nat) (d : option ptr)
    (name_out : bool) : M St (Z * option (ptr * string)) :=
  match d with
  | None => ret (- EINVAL, None)
  | Some d =>
      if negb name_out then ret (- EINVAL, None) else
      let! r := dispatch_command self (new_command DISPATCHER_GET_NAME d ArgNone) in
      ret (r.1, if r.1 =? 0 then
                  match cm_arguments r.2 with ArgName n => n | _ => None end
                else None)
  end.

Definition dispatch_io (self : nat) (d : option ptr) (op : dispatcher_operation) (b o n : Z)
    : M St Z :=
  match d with
  | None => ret (- EINVAL)
  | Some d => let! r := dispatch_command self (new_command op d (ArgIo b o n)) in ret r.1
  end.

Definition zettide_spdk_bdev_dispatcher_read (self : nat) (d : option ptr) (b o n : Z) : M St Z :=
  dispatch_io self d DISPATCHER_READ b o n.

Definition zettide_spdk_bdev_dispatcher_write (self : nat) (d : option ptr) (b o n : Z) : M St Z :=
  dispatch_io self d DISPATCHER_WRITE b o n.

Definition zettide_spdk_bdev_dispatcher_flush (self : nat) (d : option ptr) (o n : Z) : M St Z :=
  match d with
  | None => ret (- EINVAL)
  | Some d =>
      let! r := dispatch_command self (new_command DISPATCHER_FLUSH d (ArgFlush o n)) in ret r.1
  end.

Definition zettide_spdk_bdev_dispatcher_close (self : nat) (d : option ptr) : M St Z :=
  match d with
  | None => ret (- EINVAL)
  | Some d =>
      let! r := dispatch_command self (new_command DISPATCHER_CLOSE d ArgNone) in
      if r.1 =? 0 then
        let! x := get_disp d in
        (match d_runtime x with Some rt => on_rt (rl_release rt) | None => ret tt end) ;;;
        free_disp d ;;; ret (r.1)
      else ret (r.1)
  end.

(** ** Lemmas *)

Definition disp_ok (c : conf St) : Prop :=
  conf_ok c /\ (forall d x, dispatchers (store c) !! d = Some x -> d ∈ live c) /\
  port_ok (ds_port (store c)).

Lemma wp_get_disp d x e (c : conf St) Q :
  dispatchers (store c) !! d = Some x -> Q (Done x) c -> wp (get_disp d) e c Q.
Proof. intros Hd HQ. unfold get_disp. wp_steps. by eapply wp_deref. Qed.

Lemma wp_put_disp d x e (c : conf St) Q :
  Q (Done tt) (Conf (DispS (ds_rt (store c)) (ds_port (store c)) (<[d:=x]> (dispatchers (store c))))
                 (live c) (hist c)) -> wp (put_disp d x) e c Q.
Proof. done. Qed.

Lemma wp_on_port {A} (m : PM P A) e (c : conf St) Q0 Q :
  port_returns m e (ds_port (store c)) Q0 ->
  (forall a s', Q0 a s' -> Q (Done a) (Conf (DispS (ds_rt (store c)) s' (dispatchers (store c)))
                                       (live c) (hist c))) ->
  wp (on_port m) e c Q.
Proof.
  intros (a & s' & E & HQ0) HQ. unfold wp, on_port. rewrite E. simpl. by apply HQ.
Qed.

Lemma wp_on_rt {A} (m : M R A) e (c : conf St) Q0 Q :
  wp m e (Conf (ds_rt (store c)) (live c) (hist c)) (returns Q0) ->
  (forall a c', Q0 a c' -> Q (Done a) (Conf (DispS (store c') (ds_port (store c)) (dispatchers (store c)))
                                         (live c') (hist c'))) ->
  wp (on_rt m) e c Q.
Proof.
  intros Hm HQ. unfold on_rt. wp_step. eapply wp_mono; [exact Hm|].
  intros [a|f|] c'; simpl; [|done|done]. apply HQ.
Qed.

Lemma wp_free_disp d e (c : conf St) Q :
  d ∈ live c ->
  Q (Done tt) (Conf (DispS (ds_rt (store c)) (ds_port (store c)) (delete d (dispatchers (store c))))
                 (live c ∖ {[d]}) (EvFree d :: hist c)) ->
  wp (free_disp d) e c Q.
Proof. intros Hd HQ. unfold free_disp. wp_step. wp_step. by apply wp_free. Qed.

(** Completing a command that is not completed. *)
Lemma wp_complete cmd st e (c : conf St) Q :
  completed (cm_sync cmd) = false ->
  Q (Done (set_sync (Command true (owner_active (cm_sync cmd)) st) cmd)) c ->
  wp (complete cmd st) e c Q.
Proof. intros Hc HQ. unfold complete, complete_command. rewrite Hc. done. Qed.

(** Either a set-up step fails and nothing has happened, or the owner runs the
    command. *)
Lemma dispatch_spec self cmd e (c : conf St) x Q :
  dispatchers (store c) !! cm_dispatcher cmd = Some x -> sends_accepted e ->
  (forall rc h, rc <> 0 -> hist c `suffix_of` h -> Q (Done (rc, cmd)) (Conf (store c) (live c) h)) ->
  (forall h, hist c `suffix_of` h ->
     wp (wait_command self (d_owner x) (set_sync command_init cmd)) e (Conf (store c) (live c) h) Q) ->
  wp (dispatch_command self cmd) e c Q.
Proof.
  intros Hx Hsend Hno Hgo. destruct c as [s l h]. simpl in *. unfold dispatch_command.
  wp_step. apply wp_setup; simpl; intros.
  - rewrite (proj2 (Z.eqb_neq rc 0)) by done. simpl. wp_step. by apply Hno.
  - wp_step. eapply wp_get_disp; [exact Hx|]. wp_step. wp_known Hsend. simpl.
    apply Hgo. by apply suffix_cons_r.
Qed.

(** A command that the owner completes while it runs it. *)
Lemma wait_completed self t cmd e (c : conf St) (R0 : dispatcher_command -> conf St -> Prop) Q :
  posix_ok e ->
  wp (run_operation self cmd) (Env (Some t) (oracle e) (alloc_ok e)) c (returns R0) ->
  (forall cmd' c' h, R0 cmd' c' -> hist c' `suffix_of` h -> completed (cm_sync cmd') = true /\
     Q (Done (status (cm_sync cmd'), set_sync (owner_done (cm_sync cmd')).1 cmd'))
       (Conf (store c') (live c') h)) ->
  wp (wait_command self t cmd) e c Q.
Proof.
  intros Hpx Hop HQ. unfold wait_command, run_command. wp_step. wp_step. wp_step.
  eapply wp_mono; [exact Hop|]. intros [cmd'|f|] c'; simpl; [|done|done]. intros Hr.
  destruct (HQ _ _ _ Hr (reflexivity _)) as [Hc _]. wp_step. simpl. wp_step. rewrite Hc. wp_step.
  unfold wait_over. simpl. wp_step. apply wp_cleanup; [done|]. intros h Hh. wp_step.
  destruct (HQ _ _ _ Hr Hh) as [_ Hq]. unfold owner_done in Hq. rewrite Hc in Hq. exact Hq.
Qed.

(** What [open_on_owner] leaves behind. *)
Definition opened (owner : thread) (runtime : option ptr) (c : conf St)
    (r : Z * option (option ptr)) (c' : conf St) : Prop :=
  disp_ok c' /\ port_inflight (ds_port (store c')) = port_inflight (ds_port (store c)) /\
  (r.1 <> 0 /\ (r.2 = None \/ r.2 = Some None) /\
     dispatchers (store c') = dispatchers (store c) /\ live c' = live c /\
     port_eps (ds_port (store c')) = port_eps (ds_port (store c))
   \/ exists d q, r = (0, Some (Some d)) /\ d ∉ live c /\ live c' = {[d]} ∪ live c /\
     dispatchers (store c') = <[d:=Dispatcher owner runtime (Some q)]> (dispatchers (store c)) /\
     q ∉ port_eps (ds_port (store c)) /\
     port_eps (ds_port (store c')) = {[q]} ∪ port_eps (ds_port (store c))).

Lemma run_open self d name wr x e (c : conf St) :
  dispatchers (store c) !! d = Some x -> d_endpoint x = None -> port_ok (ds_port (store c)) ->
  wp (run_operation self (set_sync command_init (new_command DISPATCHER_OPEN d (ArgOpen name wr)))) e c
    (returns (fun cmd' c' => exists s' q,
      let rc := status (cm_sync cmd') in
      completed (cm_sync cmd') = true /\ port_ok s' /\
      port_inflight s' = port_inflight (ds_port (store c)) /\
      c' = Conf (DispS (ds_rt (store c)) s'
             (<[d:=Dispatcher (d_owner x) (d_runtime x) q]> (dispatchers (store c)))) (live c) (hist c) /\
      (rc <> 0 /\ port_eps s' = port_eps (ds_port (store c)) \/
       exists q', rc = 0 /\ q = Some q' /\ q' ∉ port_eps (ds_port (store c)) /\
         port_eps s' = {[q']} ∪ port_eps (ds_port (store c))))).
Proof.
  intros Hd Hx Hok. destruct c as [[rt pt ds] l h]. simpl in *. unfold run_operation. simpl.
  wp_step. eapply wp_get_disp; [done|]. wp_step.
  eapply wp_on_port; [by apply port_open_law|]. simpl.
  intros r s' (Hok' & Hfl & Hr). wp_step.
  eapply (wp_mono _ _ _ (returns (fun _ c' => exists q,
    c' = Conf (DispS rt s' (<[d:=Dispatcher (d_owner x) (d_runtime x) q]> ds)) l h /\
    mjoin r.2 = q))).
  - destruct r.2 as [ep|].
    + apply wp_put_disp. simpl. eauto.
    + wp_step. exists None. split; [|done]. rewrite <- Hx, (insert_id ds); [done|]. by destruct x.
  - intros [u|f|] c'; simpl; [|done|done]. intros (q & -> & Hq). apply wp_complete; [done|]. simpl.
    exists s', q. split; [done|]. split; [done|]. split; [done|]. split; [done|].
    destruct Hr as [(H1 & _ & H3)|(q' & -> & H2 & H3)]; [by left|]. right. exists q'. simpl in *. auto.
Qed.

(** A dispatcher whose endpoint could not be opened is freed. *)
Lemma open_fails t rt d q rc e s s' l h h' :
  conf_ok (Conf s l h) -> (forall d x, dispatchers s !! d = Some x -> d ∈ l) -> d ∉ l -> rc <> 0 -> port_ok s' ->
  h `suffix_of` h' -> port_inflight s' = port_inflight (ds_port s) -> port_eps s' = port_eps (ds_port s) ->
  wp (free_disp d ;;; ret (rc, Some None)) e
    (Conf (DispS (ds_rt s) s' (<[d:=q]> (dispatchers s))) ({[d]} ∪ l) h')
    (returns (fun r c' => opened t rt (Conf s l h) r c' /\ ds_rt (store c') = ds_rt s /\ r.1 <> 0)).
Proof.
  intros Hc Hl Hdl Hrc Hok Hh Hfl Heps. wp_step. apply wp_free_disp; [simpl; set_solver|].
  assert (dispatchers s !! d = None) as Hds by (apply eq_None_not_Some; intros [x Hx]; by apply Hl in Hx).
  wp_step. simpl in *. rewrite (delete_insert_id _ _ _ Hds).
  assert (({[d]} ∪ l) ∖ {[d]} = l) as -> by set_solver.
  split; [|done]. split; [|split; [done|left; by auto]].
  split; [|done]. eapply (conf_ok_suffix s); [exact Hc|]. by apply suffix_cons_r.
Qed.

Lemma open_on_owner_spec self t rt name wr out e (c : conf St) :
  disp_ok c -> sends_accepted e -> posix_ok e ->
  wp (open_on_owner self (Some t) rt name wr out) e c (returns (fun r c' =>
    opened t rt c r c' /\ ds_rt (store c') = ds_rt (store c) /\ (r.1 = 0 -> is_Some name))).
Proof.
  destruct c as [s l h]. intros (Hc & Hl & Hok) Hsend Hpx. simpl in *. unfold open_on_owner.
  assert (forall rc o h', rc <> 0 -> o = None \/ o = Some None -> h `suffix_of` h' ->
    opened t rt (Conf s l h) (rc, o) (Conf s l h') /\ ds_rt s = ds_rt s /\ (rc = 0 -> is_Some name)) as Hno.
  { intros rc o h' Hrc Ho Hh. split; [|done]. split; [|split; [done|left; done]].
    split; [by eapply conf_ok_suffix|]. done. }
  destruct name as [name|]; [|wp_step; apply Hno; auto; done].
  wp_if as Hout; [wp_step; apply Hno; auto; done|].
  wp_step. apply wp_calloc; [wp_step; apply Hno; try done; [by right|solve_suffix]|].
  intros d Hsz. simpl in Hsz. wp_step. apply wp_put_disp. simpl. wp_step.
  assert (d ∉ l) as Hdl. { apply (fresh_not_live _ Hc). }
  pose proof (conf_ok_alloc s s l h d Hc eq_refl Hsz) as Hca.
  assert (forall rc s' q h', rc <> 0 -> port_ok s' -> h `suffix_of` h' ->
    port_inflight s' = port_inflight (ds_port s) -> port_eps s' = port_eps (ds_port s) ->
    wp (free_disp d ;;; ret (rc, Some None)) e
      (Conf (DispS (ds_rt s) s' (<[d:=q]> (dispatchers s))) ({[d]} ∪ l) h')
      (returns (fun r c' => opened t rt (Conf s l h) r c' /\ ds_rt (store c') = ds_rt s /\
                            (r.1 = 0 -> is_Some (Some name))))) as Hfail.
  { intros. eapply wp_mono; [by apply open_fails|]. intros [r|f|] c'; simpl; [|done|done].
    intros (H1' & H2' & H3'). split; [exact H1'|]. split; [exact H2'|]. intros Hz. by destruct H3'. }
  eapply dispatch_spec; [simpl; by simplify_map_eq|done| |].
  - simpl. intros rc h' Hrc Hh. rewrite (proj2 (Z.eqb_neq rc 0) Hrc). simpl.
    apply Hfail; try done. simpl. etrans; [|exact Hh]. solve_suffix.
  - simpl. intros h' Hh. eapply wait_completed; [done| |].
    { eapply run_open; [simpl; by simplify_map_eq|done|done]. }
    simpl. intros cmd' c' h'' (s' & q & Hcomp & Hok' & Hfl & -> & Hr) Hh2. split; [done|]. simpl in Hh2.
    rewrite insert_insert_eq. assert (hist (Conf s l h) `suffix_of` h'') as Hh'.
    { simpl. etrans; [|exact Hh2]. etrans; [|exact Hh]. solve_suffix. }
    simpl.
    wp_if as Hz; breflect.
    + apply Hfail; try done. destruct Hr as [[_ Hr]|(? & ? & _)]; [done|lia].
    + wp_step. destruct Hr as [[? _]|(q' & _ & -> & Hq & Heps)]; [lia|].
      split; [|done]. split; [|split; [done|]].
      * split; [eapply conf_ok_suffix; [exact Hca|by trans h']|]. split; [|done]. simpl.
        intros d' x' [[<- _]|[_ Hx]]%lookup_insert_Some; [set_solver|]. apply Hl in Hx. set_solver.
      * right. exists d, q'. done.
Qed.

Lemma dispatcher_open_spec self rt name wr out e (c : conf St) :
  disp_ok c -> sends_accepted e -> posix_ok e -> rl_ok rt (ds_rt (store c)) ->
  rl_leases rt (ds_rt (store c)) < UINT64_MAX ->
  wp (zettide_spdk_bdev_dispatcher_open self (Some rt) name wr out) e c (returns (fun r c' =>
    exists t, opened t (Some rt) c r c' /\ rl_ok rt (ds_rt (store c')) /\
      rl_leases rt (ds_rt (store c')) = rl_leases rt (ds_rt (store c)) + (if r.1 =? 0 then 1 else 0))).
Proof.
  destruct c as [s l h]. intros Hd Hsend Hpx Hrt Hmax. simpl in *.
  unfold zettide_spdk_bdev_dispatcher_open.
  wp_if as Hout. { wp_step. exists 0%nat. split; [|split; [done|simpl; lia]].
    split; [done|]. split; [done|]. left. auto. }
  wp_step. eapply wp_on_rt; [by apply rl_acquire_dispatcher_law|]. simpl.
  intros [rc o] [s1 l1 h1]; simpl. intros (Hok1 & -> & -> & Hrc).
  destruct Hrc as [(-> & [t ->] & Hl1)|(Hne & -> & Hl1)]; simpl.
  2:{ rewrite (proj2 (Z.eqb_neq rc 0) Hne). simpl. wp_step. exists 0%nat. simpl.
      rewrite (proj2 (Z.eqb_neq rc 0) Hne). split; [|split; [done|lia]].
      destruct Hd as (Hd1 & Hd2 & Hd3). split; [done|]. split; [done|]. left. auto. }
  wp_step. eapply wp_mono; [eapply open_on_owner_spec; [|done|done]|].
  { destruct Hd as (Hd1 & Hd2 & Hd3). done. }
  intros [r|f|] [s2 l2 h2]; simpl; [|done|done]. intros ((Hd' & Hfl & Hr) & Hs & _). simpl in *.
  wp_step. destruct Hr as [(Hr1 & Hr2 & Hr3)|(d & q & -> & Hr)].
  - rewrite (proj2 (Z.eqb_neq r.1 0) Hr1). simpl.
    eapply wp_on_rt; [apply rl_release_law; simpl; rewrite Hs; [done|]|].
    { pose proof (rl_leases_nonneg rt _ Hrt). lia. }
    simpl. intros _ [s3 l3 h3] (Hok3 & -> & -> & Hl3). simpl in *. wp_step. exists t. simpl.
    rewrite (proj2 (Z.eqb_neq r.1 0) Hr1). split; [|split; [done|rewrite Hs in Hl3; lia]].
    destruct Hd' as (Hd1 & Hd2 & Hd3). split; [done|]. split; [done|]. left. simpl.
    split; [done|]. split; [|done]. destruct Hr2 as [-> | ->]; auto.
  - simpl. wp_step. wp_step. exists t. simpl. rewrite Hs. split; [|split; [done|lia]].
    split; [done|]. split; [done|]. right. exists d, q. done.
Qed.

Lemma run_close self d x q e (c : conf St) :
  dispatchers (store c) !! d = Some x -> d_endpoint x = Some q -> port_ok (ds_port (store c)) ->
  q ∈ port_eps (ds_port (store c)) ->
  wp (run_operation self (set_sync command_init (new_command DISPATCHER_CLOSE d ArgNone))) e c
    (returns (fun cmd' c' => exists s',
      let rc := status (cm_sync cmd') in
      completed (cm_sync cmd') = true /\ port_ok s' /\
      port_inflight s' = port_inflight (ds_port (store c)) /\
      port_eps s' = (if rc =? 0 then port_eps (ds_port (store c)) ∖ {[q]} else port_eps (ds_port (store c))) /\
      c' = Conf (DispS (ds_rt (store c)) s'
             (if rc =? 0 then <[d:=Dispatcher (d_owner x) (d_runtime x) None]> (dispatchers (store c))
              else dispatchers (store c))) (live c) (hist c))).
Proof.
  intros Hd Hx Hok Hq. destruct c as [[rt pt ds] l h]. simpl in *. unfold run_operation. simpl.
  wp_step. eapply wp_get_disp; [done|]. wp_step. rewrite Hx.
  eapply wp_on_port; [by apply port_close_law|]. simpl.
  intros rc s' (Hok' & Hfl & Heps). wp_step. wp_if as Hz.
  - apply wp_put_disp. apply wp_complete; [done|]. simpl. exists s'. by rewrite Hz.
  - wp_step. apply wp_complete; [done|]. simpl. exists s'. by rewrite Hz.
Qed.

Lemma dispatcher_close_spec self d x q rt e (c : conf St) :
  disp_ok c -> sends_accepted e -> posix_ok e -> dispatchers (store c) !! d = Some x ->
  d_endpoint x = Some q -> q ∈ port_eps (ds_port (store c)) -> d_runtime x = Some rt ->
  rl_ok rt (ds_rt (store c)) -> 0 < rl_leases rt (ds_rt (store c)) ->
  wp (zettide_spdk_bdev_dispatcher_close self (Some d)) e c (returns (fun rc c' =>
    disp_ok c' /\ rl_ok rt (ds_rt (store c')) /\
    (rc = 0 /\ rl_leases rt (ds_rt (store c')) = rl_leases rt (ds_rt (store c)) - 1 /\
       dispatchers (store c') = delete d (dispatchers (store c)) /\ live c' = live c ∖ {[d]} /\
       port_eps (ds_port (store c')) = port_eps (ds_port (store c)) ∖ {[q]}
     \/ rc <> 0 /\ ds_rt (store c') = ds_rt (store c) /\ live c' = live c /\
       dispatchers (store c') = dispatchers (store c) /\
       port_eps (ds_port (store c')) = port_eps (ds_port (store c))))).
Proof.
  destruct c as [s l h]. intros (Hc & Hl & Hok) Hsend Hpx Hd Hx Hq Hrt Hrok Hpos. simpl in *.
  unfold zettide_spdk_bdev_dispatcher_close. wp_step. eapply dispatch_spec; [exact Hd|done| |]; simpl.
  { intros rc h' Hrc Hh. rewrite (proj2 (Z.eqb_neq rc 0) Hrc). wp_step.
    split; [split; [by eapply conf_ok_suffix|done]|]. split; [done|]. right. done. }
  intros h' Hh. eapply wait_completed; [done|by eapply run_close|]. simpl.
  intros cmd' c' h'' (s' & Hcomp & Hok' & Hfl & Heps & ->) Hh2. simpl in Hh2. split; [done|].
  assert (h `suffix_of` h'') as Hh3 by (by trans h'). wp_if as Hz.
  - breflect. wp_step. eapply wp_get_disp; [simpl; by simplify_map_eq|]. simpl. rewrite Hrt.
    wp_step. eapply wp_on_rt; [by apply rl_release_law|]. simpl.
    intros _ [s3 l3 h3] (Hok3 & -> & -> & Hl3). simpl in *. wp_step.
    apply wp_free_disp; [by eapply Hl|]. simpl. wp_step. rewrite delete_insert_eq.
    assert (conf_ok (Conf s l h'')) as Hc' by by eapply conf_ok_suffix.
    split; [|split; [done|left; by rewrite Hz]].
    split; [by apply (conf_ok_free s)|]. split; [|done]. simpl.
    intros d' x' [Hne Hx']%lookup_delete_Some. apply Hl in Hx'. set_solver.
  - wp_step. breflect. split; [split; [by eapply conf_ok_suffix|done]|]. split; [done|]. right. done.
Qed.

(** The operation and arguments of an I/O command, with offsets and lengths of
    type [uint64_t]. *)
Inductive io_command (d : ptr) : dispatcher_command -> Prop :=
  | IoRead b o n : is_u64 o -> is_u64 n -> io_command d (new_command DISPATCHER_READ d (ArgIo b o n))
  | IoWrite b o n : is_u64 o -> is_u64 n -> io_command d (new_command DISPATCHER_WRITE d (ArgIo b o n))
  | IoFlush o n : is_u64 o -> is_u64 n -> io_command d (new_command DISPATCHER_FLUSH d (ArgFlush o n)).

(** The end of a call: it returned and no callback for its command is owed, or it
    is blocked and one is. *)
Definition io_ends {A} (self : nat) (c : conf St) (o : outcome A) (c' : conf St) : Prop :=
  disp_ok c' /\ ds_rt (store c') = ds_rt (store c) /\ dispatchers (store c') = dispatchers (store c) /\
  live c' = live c /\ port_eps (ds_port (store c')) = port_eps (ds_port (store c)) /\
  match o with
  | Done _ => port_inflight (ds_port (store c')) = port_inflight (ds_port (store c))
  | Blocked => port_inflight (ds_port (store c')) = {[(self, 0%nat)]} ∪ port_inflight (ds_port (store c))
  | Fault _ => False
  end.

Lemma run_io self d x q cmd e (c : conf St) :
  io_command d cmd -> dispatchers (store c) !! d = Some x -> d_endpoint x = Some q ->
  port_ok (ds_port (store c)) -> q ∈ port_eps (ds_port (store c)) ->
  (self, 0%nat) ∉ port_inflight (ds_port (store c)) ->
  wp (run_operation self (set_sync command_init cmd)) e c (returns (fun cmd' c' => exists s',
    c' = Conf (DispS (ds_rt (store c)) s' (dispatchers (store c))) (live c) (hist c) /\
    port_ok s' /\ port_eps s' = port_eps (ds_port (store c)) /\
    port_inflight s' = (if completed (cm_sync cmd') then port_inflight (ds_port (store c))
                        else {[(self, 0%nat)]} ∪ port_inflight (ds_port (store c))))).
Proof.
  intros Hcmd Hd Hx Hok Hq Hself. destruct c as [[rt pt ds] l h]. simpl in *.
  assert (forall op b o n cmd', is_u64 o -> is_u64 n -> completed (cm_sync cmd') = false ->
    wp (submit_io self op (Some q) b o n cmd') e (Conf (DispS rt pt ds) l h) (returns (fun cmd' c' => exists s',
      c' = Conf (DispS rt s' ds) l h /\ port_ok s' /\ port_eps s' = port_eps pt /\
      port_inflight s' = (if completed (cm_sync cmd') then port_inflight pt
                          else {[(self, 0%nat)]} ∪ port_inflight pt)))) as Hsub.
  { intros op b o n cmd' Ho Hn Hc. unfold submit_io. wp_step.
    eapply wp_on_port; [by apply port_submit_law|]. simpl. intros rc s' (Hok' & Heps & Hfl).
    wp_if as Hz; breflect.
    - apply wp_complete; [done|]. exists s'. simpl. by rewrite (proj2 (Z.eqb_neq rc 0) Hz) in Hfl.
    - wp_step. exists s'. rewrite Hc. subst rc. done. }
  unfold run_operation. destruct Hcmd; simpl; (wp_step; eapply wp_get_disp; [exact Hd|]); rewrite Hx;
    by apply Hsub.
Qed.

Lemma dispatch_io_spec self d x q cmd e (c : conf St) :
  disp_ok c -> sends_accepted e -> posix_ok e -> io_command d cmd -> dispatchers (store c) !! d = Some x ->
  d_endpoint x = Some q -> q ∈ port_eps (ds_port (store c)) ->
  (self, 0%nat) ∉ port_inflight (ds_port (store c)) ->
  wp (dispatch_command self cmd) e c (io_ends self c).
Proof.
  destruct c as [s l h]. intros (Hc & Hl & Hok) Hsend Hpx Hcmd Hd Hx Hq Hself. simpl in *.
  eapply dispatch_spec; [by destruct Hcmd|done| |]; simpl.
  { intros rc h' Hrc Hh. split_and!; try done. split; [by eapply conf_ok_suffix|done]. }
  intros h' Hh. unfold wait_command, run_command. wp_step. wp_step. wp_step.
  eapply wp_mono; [by eapply run_io|]. intros [cmd'|f|] c'; simpl; [|done|done].
  intros (s' & -> & Hok' & Heps & Hfl). wp_step. simpl. wp_step.
  assert (conf_ok (Conf s l h')) as Hc' by by eapply conf_ok_suffix.
  destruct (completed (cm_sync cmd')) eqn:Hcomp; simpl.
  - wp_step. unfold wait_over. simpl. wp_step. apply wp_cleanup; [done|]. intros h'' Hh2. wp_step. simpl in *.
    split_and!; try done. split; [by eapply conf_ok_suffix|done].
  - wp_step. wp_step. eapply wp_on_port; [apply port_deliver_law; [done|simpl; rewrite Hfl; set_solver]|].
    simpl. intros st s'' (Hok'' & Heps'' & Hfl''). rewrite Hfl in Hfl''. rewrite Heps in Heps''.
    destruct st as [st|].
    + unfold io_complete. apply wp_complete; [done|]. unfold wait_over. simpl.
      wp_step. apply wp_cleanup; [done|]. intros h'' Hh2. wp_step. simpl in *.
      split_and!; try done; simpl; [split; [by eapply conf_ok_suffix|done]|rewrite Hfl''; set_solver].
    + unfold wp. simpl. split_and!; done.
Qed.

End Dispatcher.

(** ** Properties *)

Section Properties.
Context {R P : Type} `{RL : !RuntimeLease R} `{EP : !EndpointPort P}.

(** C19: Opening a dispatcher on a runtime is all or nothing, for every runtime and
    endpoint that keep their promises: on success the runtime has one more
    lease, and the new dispatcher holds a newly opened endpoint; on every error
    (no lease, no memory, a failing call, a failing open on the owner thread) the
    leases, the open endpoints, the dispatchers and the heap are as before. *)
Theorem dispatcher_open_all_or_nothing self rt name wr out e (c : conf (DispStore R P)) :
  disp_ok c -> sends_accepted e -> posix_ok e -> rl_ok rt (ds_rt (store c)) ->
  rl_leases rt (ds_rt (store c)) < UINT64_MAX ->
  exists r c', zettide_spdk_bdev_dispatcher_open self (Some rt) name wr out e c = (Done r, c') /\
    exists t, opened t (Some rt) c r c' /\
      rl_leases rt (ds_rt (store c')) = rl_leases rt (ds_rt (store c)) + (if r.1 =? 0 then 1 else 0).
Proof.
  intros Hd Hs Hpx Hr Hm.
  destruct (wp_returns_run _ _ _ _ (dispatcher_open_spec self rt name wr out e c Hd Hs Hpx Hr Hm))
    as (r & c' & E & t & Ho & _ & Hl). exists r, c'. split; [done|]. by exists t.
Qed.

(** C20: Closing a dispatcher gives its lease back exactly when the endpoint was
    closed: then the endpoint is closed, the dispatcher is freed and the runtime
    has one lease less; on an error all of them are as before, so that the close
    can be repeated. *)
Theorem dispatcher_close_returns_lease self d x q rt e (c : conf (DispStore R P)) :
  disp_ok c -> sends_accepted e -> posix_ok e -> dispatchers (store c) !! d = Some x ->
  d_endpoint x = Some q -> q ∈ port_eps (ds_port (store c)) -> d_runtime x = Some rt ->
  rl_ok rt (ds_rt (store c)) -> 0 < rl_leases rt (ds_rt (store c)) ->
  exists rc c', zettide_spdk_bdev_dispatcher_close self (Some d) e c = (Done rc, c') /\ disp_ok c' /\
    (rc = 0 /\ rl_leases rt (ds_rt (store c')) = rl_leases rt (ds_rt (store c)) - 1 /\
       dispatchers (store c') = delete d (dispatchers (store c)) /\ live c' = live c ∖ {[d]} /\
       port_eps (ds_port (store c')) = port_eps (ds_port (store c)) ∖ {[q]}
     \/ rc <> 0 /\ ds_rt (store c') = ds_rt (store c) /\ live c' = live c /\
       dispatchers (store c') = dispatchers (store c) /\
       port_eps (ds_port (store c')) = port_eps (ds_port (store c))).
Proof.
  intros Hd Hs Hpx Hx He Hq Hr Hok Hp.
  destruct (wp_returns_run _ _ _ _ (dispatcher_close_spec self d x q rt e c Hd Hs Hpx Hx He Hq Hr Hok Hp))
    as (rc & c' & E & Hd' & _ & H). by exists rc, c'.
Qed.


End Properties.
