(* ===== verification/ReadBatch.v ===== *)
(** * ReadBatch: services/data-node/spdk/bdev_dispatcher.c, asynchronous reads

    [zettide_spdk_bdev_dispatcher_submit_read_many] reads several ranges at once.
    The batch goes to the owner thread, which submits every item, directly into
    the destinations if all of them are capable of DMA and otherwise into one
    bounce buffer, and calls the client once when every item is completed.  SPDK
    may call a completion before the submission returns; [submitting] keeps the
    batch alive until then. *)

From S2P Require Import Prelude Effects Externals Endpoint Port Dispatcher.

(** ** Data *)

(** [struct zettide_spdk_bdev_dispatcher_read]. *)
Record read_range := ReadRange {
  rd_buffer : Z;
  rd_offset : Z;
  rd_length : Z;
}.

Record read_item := ReadItem {
  it_read : read_range;
  io_buffer : Z;
  bounce_offset : Z;
}.

Record read_batch := ReadBatch {
  bt_dispatcher : ptr;
  bt_item_count : Z;
  bt_remaining : Z;
  bt_submitting : bool;
  bt_direct : bool;
  bt_bounce_buffer : Z;
  bt_statuses : ptr;
  bt_callback : nat;
  bt_callback_context : nat;
  bt_items : list read_item;
}.

(** [sizeof(struct dispatcher_read_batch)] and [sizeof(struct dispatcher_read_item)]
    on LP64. *)
Definition sizeof_batch : Z := 64.
Definition sizeof_item : Z := 48.

(** The store: the endpoint, the dispatchers, the batches, the status arrays of the
    clients ([None]: not written by the batch yet), the memory, and the batches
    whose message the owner has still to run. *)
Record BatchStore (P : Type) := BatchS {
  bs_port : P;
  bs_dispatchers : gmap ptr dispatcher;
  bs_batches : gmap ptr read_batch;
  bs_statuses : gmap ptr (list (option Z));
  bs_mem : Z -> Z;
  bs_queued : gset ptr;
}.
Arguments BatchS {P} _ _ _ _ _ _.
Arguments bs_port {P} _.
Arguments bs_dispatchers {P} _.
Arguments bs_batches {P} _.
Arguments bs_statuses {P} _.
Arguments bs_mem {P} _.
Arguments bs_queued {P} _.

(** ** Field updates *)

Definition set_remaining (n : Z) (b : read_batch) : read_batch :=
  ReadBatch (bt_dispatcher b) (bt_item_count b) n (bt_submitting b) (bt_direct b)
    (bt_bounce_buffer b) (bt_statuses b) (bt_callback b) (bt_callback_context b) (bt_items b).

Definition set_submitting (x : bool) (b : read_batch) : read_batch :=
  ReadBatch (bt_dispatcher b) (bt_item_count b) (bt_remaining b) x (bt_direct b)
    (bt_bounce_buffer b) (bt_statuses b) (bt_callback b) (bt_callback_context b) (bt_items b).

Definition set_direct (x : bool) (b : read_batch) : read_batch :=
  ReadBatch (bt_dispatcher b) (bt_item_count b) (bt_remaining b) (bt_submitting b) x
    (bt_bounce_buffer b) (bt_statuses b) (bt_callback b) (bt_callback_context b) (bt_items b).

Definition set_bounce (a : Z) (b : read_batch) : read_batch :=
  ReadBatch (bt_dispatcher b) (bt_item_count b) (bt_remaining b) (bt_submitting b) (bt_direct b)
    a (bt_statuses b) (bt_callback b) (bt_callback_context b) (bt_items b).

Definition set_items (l : list read_item) (b : read_batch) : read_batch :=
  ReadBatch (bt_dispatcher b) (bt_item_count b) (bt_remaining b) (bt_submitting b) (bt_direct b)
    (bt_bounce_buffer b) (bt_statuses b) (bt_callback b) (bt_callback_context b) l.

(** ** The layout of the bounce buffer *)

(** The offsets of the items behind [bounce_size] bytes, and the size of the
    buffer; [None] is [-EOVERFLOW]. *)
Fixpoint bounce_layout (alignment bounce_size : Z) (lengths : list Z) : option (list Z * Z) :=
  match lengths with
  | [] => Some ([], bounce_size)
  | length :: lengths =>
      let remainder := bounce_size mod alignment in
      let padding := alignment - remainder in
      if (remainder !=? 0) && (bounce_size >? SIZE_MAX - padding) then None else
      let offset := if remainder !=? 0 then u64 (bounce_size + padding) else bounce_size in
      if offset >? SIZE_MAX - length then None else
      match bounce_layout alignment (u64 (offset + length)) lengths with
      | None => None
      | Some (offsets, size) => Some (offset :: offsets, size)
      end
  end.

(** [memcpy(dst, src, n)] *)
Definition memcpy (dst src n : Z) (m : Z -> Z) : Z -> Z :=
  fun a => if (dst <=? a) && (a <? dst + n) then m (src + (a - dst)) else m a.

(** The copies of [finish_read_batch]: items whose status is 0, in order. *)
Fixpoint copy_back (items : list read_item) (statuses : list (option Z)) (m : Z -> Z) : Z -> Z :=
  match items, statuses with
  | it :: items, st :: statuses =>
      copy_back items statuses
        (if bool_decide (st = Some 0)
         then memcpy (rd_buffer (it_read it)) (io_buffer it) (rd_length (it_read it)) m else m)
  | _, _ => m
  end.

Section Batch.
Context {P : Type} `{EP : !EndpointPort P}.
Abbreviation St := (BatchStore P).

(** ** Store access *)

Definition get_batch (b : ptr) : M St read_batch :=
  let! s := get in deref (bs_batches s !! b).

Definition put_batch (b : ptr) (x : read_batch) : M St unit :=
  modify (fun s => BatchS (bs_port s) (bs_dispatchers s) (<[b:=x]> (bs_batches s))
                     (bs_statuses s) (bs_mem s) (bs_queued s)).

Definition free_batch (b : ptr) : M St unit :=
  modify (fun s => BatchS (bs_port s) (bs_dispatchers s) (delete b (bs_batches s))
                     (bs_statuses s) (bs_mem s) (bs_queued s)) ;;;
  free (Some b).

Definition set_mem (f : (Z -> Z) -> Z -> Z) : M St unit :=
  modify (fun s => BatchS (bs_port s) (bs_dispatchers s) (bs_batches s)
                     (bs_statuses s) (f (bs_mem s)) (bs_queued s)).

Definition set_queued (f : gset ptr -> gset ptr) : M St unit :=
  modify (fun s => BatchS (bs_port s) (bs_dispatchers s) (bs_batches s)
                     (bs_statuses s) (bs_mem s) (f (bs_queued s))).

(** [statuses[i] = status] in the array at [a]. *)
Definition write_status (a : ptr) (i : nat) (st : Z) : M St unit :=
  let! s := get in
  let! l := deref (bs_statuses s !! a) in
  if (i <? length l)%nat then
    modify (fun s => BatchS (bs_port s) (bs_dispatchers s) (bs_batches s)
                       (<[a:=<[i:=Some st]> l]> (bs_statuses s)) (bs_mem s) (bs_queued s))
  else fail BadIndex.

Definition port {A} (m : PM P A) : M St A :=
  fun e c =>
    let '(o, s') := m e (bs_port (store c)) in
    (o, Conf (BatchS s' (bs_dispatchers (store c)) (bs_batches (store c))
                (bs_statuses (store c)) (bs_mem (store c)) (bs_queued (store c))) (live c) (hist c)).

(** ** Completion *)

(** The last argument of [BatchCallback] is the status array as the client finds
    it in its callback. *)
Definition finish_read_batch (b : ptr) : M St unit :=
  let! x := get_batch b in
  let! s := get in
  let! statuses := deref (bs_statuses s !! bt_statuses x) in
  (if negb (bt_direct x) && (bt_bounce_buffer x !=? 0) then
     set_mem (copy_back (bt_items x) statuses) ;;;
     zettide_spdk_dma_free (bt_bounce_buffer x)
   else ret tt) ;;;
  free_batch b ;;;
  call (BatchCallback b (bt_callback x) (bt_callback_context x) (bt_direct x) statuses).

(** The item is the [i]-th of batch [b]. *)
Definition read_batch_item_complete (b : ptr) (i : nat) (status : Z) : M St unit :=
  let! x := get_batch b in
  assert (bt_remaining x >? 0) ;;;
  write_status (bt_statuses x) i status ;;;
  let x := set_remaining (bt_remaining x - 1) x in
  put_batch b x ;;;
  if (bt_remaining x =? 0) && negb (bt_submitting x) then finish_read_batch b else ret tt.

(** ** Submission on the owner thread *)

(** The first loop of [prepare_read_batch]. *)
Fixpoint all_dma_capable (ep : option ptr) (items : list read_item) : M St bool :=
  match items with
  | [] => ret true
  | it :: items =>
      let! ok := port (port_dma_capable ep (rd_buffer (it_read it)) (rd_length (it_read it))) in
      if negb ok then ret false else all_dma_capable ep items
  end.

Definition place (address : Z) (it : read_item) (offset : Z) : read_item :=
  ReadItem (it_read it) (address + offset) offset.

Definition prepare_read_batch (b : ptr) : M St Z :=
  let! x := get_batch b in
  let! s := get in
  let! d := deref (bs_dispatchers s !! bt_dispatcher x) in
  let! direct := all_dma_capable (d_endpoint d) (bt_items x) in
  let x := set_direct direct x in
  put_batch b x ;;;
  if direct then
    put_batch b (set_items (map (fun it => ReadItem (it_read it) (rd_buffer (it_read it)) (bounce_offset it))
                              (bt_items x)) x) ;;;
    ret 0
  else
  let! geometry := port (port_geometry (d_endpoint d)) in
  match geometry with
  | None => ret (- ENODEV)
  | Some g =>
      if buffer_alignment g =? 0 then ret (- ENODEV) else
      match bounce_layout (buffer_alignment g) 0 (map (fun it => rd_length (it_read it)) (bt_items x)) with
      | None => ret (- EOVERFLOW)
      | Some (offsets, bounce_size) =>
          let! address := zettide_spdk_dma_malloc bounce_size (buffer_alignment g) in
          if address =? 0 then ret (- ENOMEM) else
          put_batch b (set_items (zip_with (place address) (bt_items x) offsets) (set_bounce address x)) ;;;
          ret 0
      end
  end.

(** [statuses[index] = status] for [todo] items from [index] on. *)
Fixpoint fill_statuses (a : ptr) (todo index : nat) (status : Z) : M St unit :=
  match todo with
  | O => ret tt
  | S todo => write_status a index status ;;; fill_statuses a todo (S index) status
  end.

(** Submit the items; SPDK may complete one before the submission returns. *)
Fixpoint submit_items (b : ptr) (ep : option ptr) (todo index : nat) : M St unit :=
  match todo with
  | O => ret tt
  | S todo =>
      let! x := get_batch b in
      match bt_items x !! index with
      | None => fail BadIndex
      | Some it =>
          let! status := port (port_submit REQUEST_READ ep (io_buffer it)
                                 (rd_offset (it_read it)) (rd_length (it_read it)) (b, index)) in
          (if status !=? 0 then read_batch_item_complete b index status
           else
             let! inline := call (InlineCompletion (b, index)) in
             if inline then
               let! st := port (port_deliver (b, index)) in
               match st with
               | Some st => read_batch_item_complete b index st
               | None => ret tt
               end
             else ret tt) ;;;
          submit_items b ep todo (S index)
      end
  end.

Definition run_read_batch (b : ptr) : M St unit :=
  let! status := prepare_read_batch b in
  if status !=? 0 then
    let! x := get_batch b in
    fill_statuses (bt_statuses x) (Z.to_nat (bt_item_count x)) 0 status ;;;
    put_batch b (set_submitting false (set_remaining 0 x)) ;;;
    finish_read_batch b
  else
  let! x := get_batch b in
  let! s := get in
  let! d := deref (bs_dispatchers s !! bt_dispatcher x) in
  submit_items b (d_endpoint d) (Z.to_nat (bt_item_count x)) 0 ;;;
  let! x := get_batch b in
  let x := set_submitting false x in
  put_batch b x ;;;
  if bt_remaining x =? 0 then finish_read_batch b else ret tt.

(** ** Submission by the client *)

(** The check of the ranges: the status of the first invalid one. *)
Fixpoint check_reads (reads : list read_range) : Z :=
  match reads with
  | [] => 0
  | r :: reads =>
      if (rd_buffer r =? 0) || (rd_length r =? 0) then - EINVAL else
      if rd_length r >? SIZE_MAX then - EOVERFLOW else check_reads reads
  end.

Definition zettide_spdk_bdev_dispatcher_submit_read_many (d : option ptr)
    (reads : option (list read_range)) (statuses : option ptr) (callback : option nat)
    (context : nat) : M St Z :=
  match d, reads, statuses, callback with
  | Some d, Some reads, Some statuses, Some callback =>
      let read_count := Z.of_nat (length reads) in
      if read_count =? 0 then ret (- EINVAL) else
      let! t := spdk_get_thread in
      if negb (is_null t) then ret (- EDEADLK) else
      if read_count >? (SIZE_MAX - sizeof_batch) / sizeof_item then ret (- EOVERFLOW) else
      let status := check_reads reads in
      if status !=? 0 then ret status else
      let! mb := calloc in
      match mb with
      | None => ret (- ENOMEM)
      | Some b =>
          put_batch b (ReadBatch d read_count read_count true false 0 statuses callback context
                         (map (fun r => ReadItem r 0 0) reads)) ;;;
          let! s := get in
          let! x := deref (bs_dispatchers s !! d) in
          let! status := call (SpdkThreadSendMsg (d_owner x) FnRunReadBatch b) in
          (if status !=? 0 then free_batch b else set_queued (union {[b]})) ;;;
          ret (status : Z)
      end
  | _, _, _, _ => ret (- EINVAL)
  end.

(** ** Invariant *)

(** What does not change while a batch is pending. *)
Record static_ok (ss : gmap ptr (list (option Z))) (dd : gmap ptr dispatcher) (eps : gset ptr)
    (x : read_batch) : Prop := {
  st_count : bt_item_count x = Z.of_nat (length (bt_items x));
  st_bound : bt_item_count x <= UINT64_MAX;
  st_array : exists l, ss !! bt_statuses x = Some l /\ length l = length (bt_items x);
  st_endpoint : exists d q, dd !! bt_dispatcher x = Some d /\ d_endpoint d = Some q /\ q ∈ eps;
  st_reads : Forall (fun it => 0 < rd_buffer (it_read it) <= UINTPTR_MAX /\ is_u64 (rd_offset (it_read it))
                               /\ is_u64 (rd_length (it_read it))) (bt_items x);
}.

(** Items of batch [b] in flight. *)
Definition flying (fl : gset cookie) (b : ptr) : Z :=
  Z.of_nat (size (filter (fun k => k.1 = b) fl)).

Definition filled (ss : gmap ptr (list (option Z))) (x : read_batch) (i : nat) : Prop :=
  exists l st, ss !! bt_statuses x = Some l /\ l !! i = Some (Some st).

(** The items below [index] are submitted, each in flight or completed; the others
    are still to be submitted. *)
Definition submitted_to (fl : gset cookie) (ss : gmap ptr (list (option Z))) (b : ptr)
    (x : read_batch) (index : nat) : Prop :=
  bt_remaining x = flying fl b + Z.of_nat (length (bt_items x) - index) /\
  (index <= length (bt_items x))%nat /\
  (forall i, (b, i) ∈ fl -> (i < index)%nat) /\
  (forall i, (i < index)%nat -> (b, i) ∈ fl \/ filled ss x i).

(** A batch no function is working on. *)
Definition phase_ok (qq : gset ptr) (fl : gset cookie) (ss : gmap ptr (list (option Z))) (b : ptr)
    (x : read_batch) : Prop :=
  if decide (b ∈ qq) then bt_submitting x = true /\ submitted_to fl ss b x 0
  else bt_submitting x = false /\ 0 < bt_remaining x /\ submitted_to fl ss b x (length (bt_items x)).

Definition is_batch_callback (b : ptr) (ev : event) : bool :=
  match ev with EvCall (BatchCallback b' _ _ _ _) _ => (b =? b')%nat | _ => false end.

Definition batch_callbacks (b : ptr) (h : list event) : Z := count_events (is_batch_callback b) h.

(** Every callback finds all statuses filled. *)
Definition callback_filled (ev : event) : Prop :=
  match ev with
  | EvCall (BatchCallback _ _ _ _ l) _ => Forall is_Some l
  | _ => True
  end.

(** [W]: the batches a function is working on. *)
Record batch_inv (W : gset ptr) (c : conf St) : Prop := {
  bi_conf : conf_ok c;
  bi_port : port_ok (bs_port (store c));
  bi_live : forall b x, bs_batches (store c) !! b = Some x -> b ∈ live c;
  bi_queued : bs_queued (store c) ⊆ dom (bs_batches (store c)) ∖ W;
  bi_static : forall b x, bs_batches (store c) !! b = Some x ->
              static_ok (bs_statuses (store c)) (bs_dispatchers (store c)) (port_eps (bs_port (store c))) x;
  bi_arrays : forall b b' x x', bs_batches (store c) !! b = Some x -> bs_batches (store c) !! b' = Some x' ->
              bt_statuses x = bt_statuses x' -> b = b';
  bi_flight : forall b i, (b, i) ∈ port_inflight (bs_port (store c)) -> is_Some (bs_batches (store c) !! b);
  bi_phase : forall b x, bs_batches (store c) !! b = Some x -> b ∉ W ->
             phase_ok (bs_queued (store c)) (port_inflight (bs_port (store c))) (bs_statuses (store c)) b x;
  bi_once : forall b, batch_callbacks b (hist c) <= 1;
  bi_zero : forall b, is_Some (bs_batches (store c) !! b) \/ (length (hist c) < b)%nat ->
            batch_callbacks b (hist c) = 0;
  bi_filled : Forall callback_filled (hist c);
}.

(** A batch leaves the store only when its callback is called. *)
Definition batch_evolves (c c' : conf St) : Prop :=
  hist c `suffix_of` hist c' /\
  forall b, is_Some (bs_batches (store c) !! b) ->
    is_Some (bs_batches (store c') !! b) \/ 1 <= batch_callbacks b (hist c').

(** ** The batches as a state machine *)

Inductive batch_label :=
  | BSubmit (d : option ptr) (reads : option (list read_range)) (statuses : option ptr)
      (callback : option nat) (context : nat)
  | BRun (b : ptr)
  | BDeliver (b : ptr) (i : nat).

(** The caller's array is not written yet when the batch is submitted. *)
Definition new_array (a : option ptr) (n : nat) : M St unit :=
  match a with
  | None => ret tt
  | Some a =>
      modify (fun s => BatchS (bs_port s) (bs_dispatchers s) (bs_batches s)
                (<[a:=replicate n None]> (bs_statuses s)) (bs_mem s) (bs_queued s))
  end.

Definition batch_exec (l : batch_label) : M St unit :=
  match l with
  | BSubmit d reads statuses callback context =>
      new_array statuses (length (default [] reads)) ;;;
      zettide_spdk_bdev_dispatcher_submit_read_many d reads statuses callback context ;;; ret tt
  | BRun b => set_queued (fun q => q ∖ {[b]}) ;;; run_read_batch b
  | BDeliver b i =>
      let! st := port (port_deliver (b, i)) in
      match st with
      | Some st => read_batch_item_complete b i st
      | None => ret tt
      end
  end.

(** The client passes an open dispatcher, addresses and sizes of their C types,
    and an array no pending batch uses; the owner runs queued messages; SPDK
    delivers what is in flight. *)
Definition batch_enabled (l : batch_label) (s : St) : Prop :=
  match l with
  | BSubmit d reads statuses _ _ =>
      (forall p, d = Some p -> exists x q, bs_dispatchers s !! p = Some x /\ d_endpoint x = Some q /\
         q ∈ port_eps (bs_port s)) /\
      (forall l, reads = Some l -> Forall (fun r => 0 <= rd_buffer r <= UINTPTR_MAX /\
         is_u64 (rd_offset r) /\ is_u64 (rd_length r)) l) /\
      (forall a, statuses = Some a -> forall b x, bs_batches s !! b = Some x -> bt_statuses x <> a)
  | BRun b => b ∈ bs_queued s
  | BDeliver b i => (b, i) ∈ port_inflight (bs_port s)
  end.

Inductive batch_step : conf St -> conf St -> Prop :=
  | BatchStep e l c c' :
      batch_enabled l (store c) -> batch_exec l e c = (Done tt, c') -> batch_step c c'.

(** An endpoint without requests in flight and a set of dispatchers on it. *)
Definition batch_start (c : conf St) : Prop :=
  conf_ok c /\ port_ok (bs_port (store c)) /\ port_inflight (bs_port (store c)) = ∅ /\
  bs_batches (store c) = ∅ /\ bs_queued (store c) = ∅ /\ hist c = [].

(** ** Rules *)

Lemma wp_get_batch b x e (c : conf St) Q :
  bs_batches (store c) !! b = Some x -> Q (Done x) c -> wp (get_batch b) e c Q.
Proof. intros Hb HQ. unfold get_batch. wp_steps. by eapply wp_deref. Qed.

Lemma wp_put_batch b x e (c : conf St) Q :
  (let s := store c in
   Q (Done tt) (Conf (BatchS (bs_port s) (bs_dispatchers s) (<[b:=x]> (bs_batches s))
                        (bs_statuses s) (bs_mem s) (bs_queued s)) (live c) (hist c))) ->
  wp (put_batch b x) e c Q.
Proof. done. Qed.

Lemma wp_free_batch b e (c : conf St) Q :
  b ∈ live c ->
  (let s := store c in
   Q (Done tt) (Conf (BatchS (bs_port s) (bs_dispatchers s) (delete b (bs_batches s))
                        (bs_statuses s) (bs_mem s) (bs_queued s)) (live c ∖ {[b]}) (EvFree b :: hist c))) ->
  wp (free_batch b) e c Q.
Proof. intros Hb HQ. unfold free_batch. wp_step. wp_step. by apply wp_free. Qed.

Lemma wp_write_status a i st l e (c : conf St) Q :
  bs_statuses (store c) !! a = Some l -> (i < length l)%nat ->
  (let s := store c in
   Q (Done tt) (Conf (BatchS (bs_port s) (bs_dispatchers s) (bs_batches s)
                        (<[a:=<[i:=Some st]> l]> (bs_statuses s)) (bs_mem s) (bs_queued s)) (live c) (hist c))) ->
  wp (write_status a i st) e c Q.
Proof.
  intros Ha Hi HQ. unfold write_status. wp_step. wp_step. wp_step. eapply wp_deref; [done|].
  rewrite (proj2 (Nat.ltb_lt _ _) Hi). by wp_step.
Qed.

Lemma wp_port {A} (m : PM P A) e (c : conf St) Q0 Q :
  port_returns m e (bs_port (store c)) Q0 ->
  (let s := store c in
   forall a s', Q0 a s' ->
     Q (Done a) (Conf (BatchS s' (bs_dispatchers s) (bs_batches s) (bs_statuses s) (bs_mem s)
                         (bs_queued s)) (live c) (hist c))) ->
  wp (port m) e c Q.
Proof. intros (a & s' & E & HQ0) HQ. unfold wp, port. rewrite E. simpl. by apply HQ. Qed.

(** ** Counting *)

Lemma flying_empty fl b : (forall i, (b, i) ∉ fl) -> flying fl b = 0.
Proof.
  intros Hno. unfold flying. assert (filter (fun k => k.1 = b) fl = ∅) as ->; [|done].
  apply set_eq. intros [b' i]. rewrite elem_of_filter. simpl. split; [|set_solver].
  intros [-> Hin]. by apply Hno in Hin.
Qed.

Lemma flying_zero fl b : flying fl b = 0 -> forall i, (b, i) ∉ fl.
Proof.
  unfold flying. intros Hz i Hin.
  assert (size (filter (fun k => k.1 = b) fl) = 0%nat) as Hs by lia.
  apply size_empty_inv in Hs. apply (not_elem_of_empty (C:=gset cookie) (b, i)), Hs.
  by apply elem_of_filter.
Qed.

Lemma flying_insert fl b i : (b, i) ∉ fl -> flying ({[(b, i)]} ∪ fl) b = flying fl b + 1.
Proof.
  intros Hni. unfold flying.
  assert (filter (fun k => k.1 = b) ({[(b, i)]} ∪ fl) = {[(b, i)]} ∪ filter (fun k => k.1 = b) fl) as ->.
  { apply set_eq. intros [b' i']. rewrite elem_of_union, !elem_of_filter, elem_of_union. set_solver. }
  rewrite size_union; [rewrite size_singleton; lia|]. set_solver.
Qed.

Lemma flying_delete fl b i : (b, i) ∈ fl -> flying (fl ∖ {[(b, i)]}) b = flying fl b - 1.
Proof.
  intros Hin. assert (fl = {[(b, i)]} ∪ fl ∖ {[(b, i)]}) as Hfl by (apply union_difference_L; set_solver).
  rewrite Hfl at 2. rewrite flying_insert by set_solver. lia.
Qed.

Lemma flying_other fl fl' b :
  (forall i, (b, i) ∈ fl <-> (b, i) ∈ fl') -> flying fl b = flying fl' b.
Proof.
  intros Heq. unfold flying. f_equal. f_equal. apply set_eq. intros [b' i].
  rewrite !elem_of_filter. simpl. naive_solver.
Qed.

Lemma flying_pos fl b : 0 < flying fl b -> exists i, (b, i) ∈ fl.
Proof.
  unfold flying. intros Hp. destruct (size_pos_elem_of (filter (fun k => k.1 = b) fl)) as [[b' i] Hi]; [lia|].
  apply elem_of_filter in Hi as [Hb Hi]. simpl in Hb. subst b'. by exists i.
Qed.

Lemma flying_nonneg fl b : 0 <= flying fl b.
Proof. unfold flying. lia. Qed.

(** ** What the updates do to the invariant *)

Definition quiet_batch (ev : event) : Prop :=
  (forall b, is_batch_callback b ev = false) /\ callback_filled ev.

Lemma binv_log W s l h ev :
  batch_inv W (Conf s l h) -> quiet_batch ev -> batch_inv W (Conf s l (ev :: h)).
Proof.
  intros [] [Hq Hf]. split; simpl in *; auto.
  - by apply (conf_ok_log (Conf s l h)).
  - intros b. specialize (bi_once0 b). unfold batch_callbacks in *. simpl. rewrite Hq. lia.
  - intros b Hb. unfold batch_callbacks in *. simpl. rewrite Hq. apply bi_zero0.
    destruct Hb; [by left|right; lia].
Qed.

Lemma binv_mem W pt dd bb ss mm mm' qq l h :
  batch_inv W (Conf (BatchS pt dd bb ss mm qq) l h) ->
  batch_inv W (Conf (BatchS pt dd bb ss mm' qq) l h).
Proof. intros []. split; auto. Qed.

(** The record of a batch in [W] may be updated. *)
Lemma binv_put W pt dd bb ss mm qq l h b x x' :
  batch_inv W (Conf (BatchS pt dd bb ss mm qq) l h) -> b ∈ W -> bb !! b = Some x ->
  static_ok ss dd (port_eps pt) x' -> bt_statuses x' = bt_statuses x ->
  batch_inv W (Conf (BatchS pt dd (<[b:=x']> bb) ss mm qq) l h).
Proof.
  intros [] HbW Hx Hst Ha. split; simpl in *; auto.
  - intros b' y [[<- _]|[_ Hy]]%lookup_insert_Some; eauto.
  - rewrite dom_insert_lookup_L by eauto. done.
  - intros b' y [[<- <-]|[_ Hy]]%lookup_insert_Some; eauto.
  - intros b1 b2 x1 x2 [[<- <-]|[? H1]]%lookup_insert_Some [[<- <-]|[? H2]]%lookup_insert_Some;
      rewrite ?Ha; eauto.
  - intros b' i Hin. apply lookup_insert_is_Some'. eauto.
  - intros b' y [[<- <-]|[_ Hy]]%lookup_insert_Some HW; [done|eauto].
  - intros b' [[y Hy]|Hb']; [|auto].
    apply lookup_insert_Some in Hy as [[<- _]|[_ Hy]]; eauto.
Qed.

Lemma static_status ss dd eps x a i st l :
  ss !! a = Some l -> static_ok ss dd eps x -> static_ok (<[a:=<[i:=Some st]> l]> ss) dd eps x.
Proof.
  intros Ha [? ? (l' & Hl' & Hlen) ? ?]. split; auto.
  destruct (decide (a = bt_statuses x)) as [->|].
  - simplify_eq. eexists. rewrite lookup_insert_eq. split; [done|]. by rewrite length_insert.
  - exists l'. by rewrite lookup_insert_ne.
Qed.

Lemma filled_status ss x a i j st l :
  ss !! a = Some l -> filled ss x j -> filled (<[a:=<[i:=Some st]> l]> ss) x j.
Proof.
  intros Ha (l' & st' & Hl' & Hj). destruct (decide (a = bt_statuses x)) as [->|].
  - rewrite Ha in Hl'. injection Hl' as <-. exists (<[i:=Some st]> l). rewrite lookup_insert_eq.
    destruct (decide (i = j)) as [->|].
    + exists st. split; [done|]. apply list_lookup_insert_eq. by eapply lookup_lt_Some.
    + exists st'. split; [done|]. by rewrite list_lookup_insert_ne.
  - exists l', st'. by rewrite lookup_insert_ne.
Qed.

Lemma submitted_status fl ss b x n a i st l :
  ss !! a = Some l -> submitted_to fl ss b x n -> submitted_to fl (<[a:=<[i:=Some st]> l]> ss) b x n.
Proof.
  intros Ha (H1 & H2 & H3 & H4). split_and!; auto. intros j Hj.
  destruct (H4 j Hj); eauto using filled_status.
Qed.

Lemma phase_status qq fl ss b x a i st l :
  ss !! a = Some l -> phase_ok qq fl ss b x -> phase_ok qq fl (<[a:=<[i:=Some st]> l]> ss) b x.
Proof. unfold phase_ok. intros Ha Hp. case_decide; naive_solver eauto using submitted_status. Qed.

(** A status may be written. *)
Lemma binv_status W pt dd bb ss mm qq l h a i st sts :
  batch_inv W (Conf (BatchS pt dd bb ss mm qq) l h) -> ss !! a = Some sts ->
  batch_inv W (Conf (BatchS pt dd bb (<[a:=<[i:=Some st]> sts]> ss) mm qq) l h).
Proof.
  intros [] Ha. split; simpl in *; eauto using static_status, phase_status.
Qed.

Lemma submitted_flight fl fl' ss b x n :
  (forall i, (b, i) ∈ fl' <-> (b, i) ∈ fl) -> submitted_to fl ss b x n -> submitted_to fl' ss b x n.
Proof.
  intros Heq (H1 & H2 & H3 & H4). split_and!; auto.
  - by rewrite (flying_other fl' fl b Heq).
  - intros i Hi. apply H3. by apply Heq.
  - intros i Hi. rewrite Heq. auto.
Qed.

Lemma phase_flight qq fl fl' ss b x :
  (forall i, (b, i) ∈ fl' <-> (b, i) ∈ fl) -> phase_ok qq fl ss b x -> phase_ok qq fl' ss b x.
Proof.
  unfold phase_ok. intros Heq Hp. case_decide; [destruct Hp as (? & ?)|destruct Hp as (? & ? & ?)];
    split_and!; eauto using submitted_flight.
Qed.

(** The endpoint may work on items of batches in [W]. *)
Lemma binv_port W pt pt' dd bb ss mm qq l h b :
  batch_inv W (Conf (BatchS pt dd bb ss mm qq) l h) -> b ∈ W -> is_Some (bb !! b) ->
  port_ok pt' -> port_eps pt' = port_eps pt ->
  (forall b' i, b' <> b -> (b', i) ∈ port_inflight pt' <-> (b', i) ∈ port_inflight pt) ->
  batch_inv W (Conf (BatchS pt' dd bb ss mm qq) l h).
Proof.
  intros [] HbW Hb Hok Heps Hfl. split; simpl in *; rewrite ?Heps; auto.
  - intros b' i Hin. destruct (decide (b' = b)) as [->|]; [done|]. apply Hfl in Hin; eauto.
  - intros b' y Hy HW. eapply phase_flight; [|by apply bi_phase0]. intros i. apply Hfl. set_solver.
Qed.

Lemma binv_enter pt dd bb ss mm qq l h b :
  batch_inv ∅ (Conf (BatchS pt dd bb ss mm qq) l h) ->
  batch_inv {[b]} (Conf (BatchS pt dd bb ss mm (qq ∖ {[b]})) l h).
Proof.
  intros []. split; simpl in *; auto.
  - set_solver.
  - intros b' x Hx Hne. specialize (bi_phase0 b' x Hx ltac:(set_solver)). unfold phase_ok in *.
    destruct (decide (b' ∈ qq)); [rewrite decide_True by set_solver|rewrite decide_False by set_solver]; done.
Qed.

Lemma binv_leave pt dd bb ss mm qq l h b :
  batch_inv {[b]} (Conf (BatchS pt dd bb ss mm qq) l h) ->
  (forall x, bb !! b = Some x -> phase_ok qq (port_inflight pt) ss b x) ->
  batch_inv ∅ (Conf (BatchS pt dd bb ss mm qq) l h).
Proof.
  intros [] Hp. split; simpl in *; auto.
  - set_solver.
  - intros b' x Hx _. destruct (decide (b' = b)) as [->|]; [auto|]. apply bi_phase0; set_solver.
Qed.

Lemma all_filled ss dd eps x l :
  static_ok ss dd eps x -> ss !! bt_statuses x = Some l ->
  (forall i, (i < length (bt_items x))%nat -> filled ss x i) -> Forall is_Some l.
Proof.
  intros [_ _ (l' & Hl' & Hlen) _ _] Hl Hall. simplify_eq. apply Forall_lookup. intros i st Hi.
  destruct (Hall i) as (l'' & st' & Hl'' & Hi'); [apply lookup_lt_Some in Hi; lia|]. simplify_eq. eauto.
Qed.

(** The batch leaves the store and the client is called. *)
Lemma binv_finish pt dd bb ss mm qq l h b x sts cb ctx dir (u : unit) :
  batch_inv {[b]} (Conf (BatchS pt dd bb ss mm qq) l h) -> bb !! b = Some x ->
  (forall i, (b, i) ∉ port_inflight pt) -> Forall is_Some sts ->
  batch_inv ∅ (Conf (BatchS pt dd (delete b bb) ss mm qq) (l ∖ {[b]})
    (EvCall (BatchCallback b cb ctx dir sts : call_sig) u :: EvFree b :: h)).
Proof.
  intros [] Hx Hno Hall. simpl in *. split; simpl.
  - eapply conf_ok_suffix; [by apply (conf_ok_free (BatchS pt dd bb ss mm qq) (BatchS pt dd bb ss mm qq) l h b)|].
    solve_suffix.
  - done.
  - intros b' y [Hne Hy]%lookup_delete_Some. apply bi_live0 in Hy. set_solver.
  - rewrite dom_delete_L. set_solver.
  - intros b' y [Hne Hy]%lookup_delete_Some. eauto.
  - intros b1 b2 x1 x2 [_ H1]%lookup_delete_Some [_ H2]%lookup_delete_Some. eauto.
  - intros b' i Hin. apply lookup_delete_is_Some. split; [|eauto]. intros ->. by apply Hno in Hin.
  - intros b' y [Hne Hy]%lookup_delete_Some _. apply bi_phase0; [done|set_solver].
  - intros b'. specialize (bi_once0 b'). unfold batch_callbacks in *. simpl.
    destruct (Nat.eqb_spec b' b) as [->|]; [|lia]. rewrite bi_zero0 by eauto. lia.
  - intros b' Hb'. unfold batch_callbacks in *. simpl. destruct (Nat.eqb_spec b' b) as [->|].
    + exfalso. destruct Hb' as [[y Hy]|Hlen]; [by rewrite lookup_delete_eq in Hy|].
      destruct bi_conf0 as [Hc _]. specialize (Hc b (bi_live0 _ _ Hx)). simpl in Hc. lia.
    + rewrite Z.add_0_l. apply bi_zero0. destruct Hb' as [[y Hy]|Hlen]; [left|right; lia].
      apply lookup_delete_Some in Hy as [_ Hy]. eauto.
  - by repeat constructor.
Qed.

Lemma finish_spec e (c : conf St) b x :
  batch_inv {[b]} c -> bs_batches (store c) !! b = Some x ->
  (forall i, (b, i) ∉ port_inflight (bs_port (store c))) ->
  (forall i, (i < length (bt_items x))%nat -> filled (bs_statuses (store c)) x i) ->
  wp (finish_read_batch b) e c (returns (fun _ c' =>
    batch_inv ∅ c' /\ hist c `suffix_of` hist c' /\
    bs_batches (store c') = delete b (bs_batches (store c)) /\ batch_callbacks b (hist c') = 1)).
Proof.
  destruct c as [[pt dd bb ss mm qq] l h]. intros Hi Hx Hno Hall. simpl in *.
  destruct (st_array _ _ _ _ (bi_static _ _ Hi _ _ Hx)) as (sts & Hsts & _). simpl in Hsts.
  pose proof (all_filled _ _ _ _ _ (bi_static _ _ Hi _ _ Hx) Hsts Hall) as Hfill.
  pose proof (bi_live _ _ Hi _ _ Hx) as Hlive. simpl in Hlive.
  pose proof (bi_zero _ _ Hi b (or_introl (mk_is_Some _ _ Hx))) as Hz. simpl in Hz.
  assert (forall mm' h', batch_inv {[b]} (Conf (BatchS pt dd bb ss mm' qq) l h') -> h `suffix_of` h' ->
    batch_callbacks b h' = 0 ->
    wp (free_batch b ;;; call (BatchCallback b (bt_callback x) (bt_callback_context x) (bt_direct x) sts)) e
      (Conf (BatchS pt dd bb ss mm' qq) l h') (returns (fun _ c' =>
        batch_inv ∅ c' /\ h `suffix_of` hist c' /\ bs_batches (store c') = delete b bb /\
        batch_callbacks b (hist c') = 1))) as Hend.
  { intros mm' h' Hi' Hh Hz'. wp_step. apply wp_free_batch; [done|]. simpl. wp_step. simpl.
    split; [by eapply binv_finish|]. split; [by do 2 apply suffix_cons_r|]. split; [done|].
    unfold batch_callbacks in *. simpl. rewrite Nat.eqb_refl. lia. }
  unfold finish_read_batch, zettide_spdk_dma_free. wp_step. eapply wp_get_batch; [done|]. wp_step. wp_step. wp_step.
  eapply wp_deref; [done|]. wp_step. wp_if as Hd.
  - wp_step. unfold set_mem. wp_step. wp_step. simpl. apply Hend.
    + apply binv_log; [|done]. by eapply binv_mem.
    + solve_suffix.
    + done.
  - wp_step. by apply Hend.
Qed.

Lemma static_remaining ss dd eps n x : static_ok ss dd eps x -> static_ok ss dd eps (set_remaining n x).
Proof. intros []. by split. Qed.

(** The part of [read_batch_item_complete] before the test. *)
Lemma record_status e pt dd bb ss mm qq l h b x i st (k : read_batch -> M St unit) Q :
  batch_inv {[b]} (Conf (BatchS pt dd bb ss mm qq) l h) -> bb !! b = Some x ->
  (i < length (bt_items x))%nat -> 0 < bt_remaining x ->
  (forall ss', let x' := set_remaining (bt_remaining x - 1) x in
     batch_inv {[b]} (Conf (BatchS pt dd (<[b:=x']> bb) ss' mm qq) l h) ->
     filled ss' x i -> (forall j, filled ss x j -> filled ss' x j) ->
     wp (k x') e (Conf (BatchS pt dd (<[b:=x']> bb) ss' mm qq) l h) Q) ->
  wp (let! x := get_batch b in
      assert (bt_remaining x >? 0) ;;;
      write_status (bt_statuses x) i st ;;;
      let x := set_remaining (bt_remaining x - 1) x in
      put_batch b x ;;; k x) e (Conf (BatchS pt dd bb ss mm qq) l h) Q.
Proof.
  intros Hi Hx Hlen Hpos Hk. pose proof (bi_static _ _ Hi _ _ Hx) as Hst. simpl in Hst.
  destruct (st_array _ _ _ _ Hst) as (sts & Hsts & Hl).
  wp_step. eapply wp_get_batch; [done|]. wp_step. apply wp_assert; [by apply Z.gtb_lt|].
  wp_step. eapply wp_write_status; [done|by rewrite Hl|]. simpl. wp_step. apply wp_put_batch. simpl.
  apply Hk.
  - eapply binv_put; [by apply binv_status|set_solver|done| |done].
    apply static_remaining. by apply static_status.
  - exists (<[i:=Some st]> sts), st. rewrite lookup_insert_eq. split; [done|].
    apply list_lookup_insert_eq. by rewrite Hl.
  - intros j Hj. by apply filled_status.
Qed.

Lemma item_complete_submitting e pt dd bb ss mm qq l h b x i st :
  batch_inv {[b]} (Conf (BatchS pt dd bb ss mm qq) l h) -> bb !! b = Some x ->
  (i < length (bt_items x))%nat -> 0 < bt_remaining x -> bt_submitting x = true ->
  wp (read_batch_item_complete b i st) e (Conf (BatchS pt dd bb ss mm qq) l h) (returns (fun _ c' =>
    batch_inv {[b]} c' /\ exists ss',
      c' = Conf (BatchS pt dd (<[b:=set_remaining (bt_remaining x - 1) x]> bb) ss' mm qq) l h /\
      filled ss' x i /\ (forall j, filled ss x j -> filled ss' x j))).
Proof.
  intros Hi Hx Hlen Hpos Hsub. unfold read_batch_item_complete.
  apply (record_status e pt dd bb ss mm qq l h b x i st
    (fun x => if (bt_remaining x =? 0) && negb (bt_submitting x) then finish_read_batch b else ret tt));
    try done.
  intros ss' x' Hi' Hf Hmono. subst x'. simpl. rewrite Hsub, andb_false_r. wp_step.
  split; [done|]. by exists ss'.
Qed.

Lemma item_complete_last e pt dd bb ss mm qq l h b x i st :
  batch_inv {[b]} (Conf (BatchS pt dd bb ss mm qq) l h) -> bb !! b = Some x -> b ∉ qq ->
  (i < length (bt_items x))%nat -> bt_submitting x = false ->
  bt_remaining x = flying (port_inflight pt) b + 1 -> (b, i) ∉ port_inflight pt ->
  (forall j, (b, j) ∈ port_inflight pt -> (j < length (bt_items x))%nat) ->
  (forall j, (j < length (bt_items x))%nat -> j <> i -> (b, j) ∈ port_inflight pt \/ filled ss x j) ->
  wp (read_batch_item_complete b i st) e (Conf (BatchS pt dd bb ss mm qq) l h) (returns (fun _ c' =>
    batch_inv ∅ c' /\ batch_evolves (Conf (BatchS pt dd bb ss mm qq) l h) c')).
Proof.
  intros Hi Hx Hq Hlen Hsub Hrem Hni Hfl Hall. unfold read_batch_item_complete.
  pose proof (flying_nonneg (port_inflight pt) b) as Hnn.
  apply (record_status e pt dd bb ss mm qq l h b x i st
    (fun x => if (bt_remaining x =? 0) && negb (bt_submitting x) then finish_read_batch b else ret tt));
    try done; [lia|].
  intros ss' x' Hi' Hf Hmono. subst x'. simpl. rewrite Hsub. simpl. rewrite andb_true_r.
  wp_if as Hz; breflect.
  - assert (forall j, (b, j) ∉ port_inflight pt) as Hno by (apply flying_zero; lia).
    eapply wp_mono.
    { eapply finish_spec; [exact Hi'|simpl; by simplify_map_eq|done|]. simpl. intros j Hj.
      destruct (decide (j = i)) as [->|Hne]; [done|]. destruct (Hall j Hj Hne) as [Hin|Hfj]; [|by apply Hmono].
      by apply Hno in Hin. }
    intros [u|f|] c'; simpl; [|done|done]. intros (Hi'' & Hh & Hb & Hcb). split; [done|]. split; [done|].
    intros b' Hb'. simpl in Hb'. rewrite Hb. destruct (decide (b' = b)) as [->|]; [right; lia|left].
    by simplify_map_eq.
  - wp_step. split.
    + eapply binv_leave; [exact Hi'|]. intros y Hy. simplify_map_eq. unfold phase_ok.
      rewrite decide_False by done. split; [done|]. split; [simpl; lia|].
      split_and!; simpl; [lia|done|done|]. intros j Hj.
      destruct (decide (j = i)) as [->|Hne]; [by right|]. destruct (Hall j Hj Hne); [by left|right; by apply Hmono].
    + split; [done|]. simpl. intros b' Hb'. left. by apply lookup_insert_is_Some'; right.
Qed.

(** What [prepare_read_batch] leaves alone. *)
Record same_batch (x x' : read_batch) : Prop := {
  sb_dispatcher : bt_dispatcher x' = bt_dispatcher x;
  sb_count : bt_item_count x' = bt_item_count x;
  sb_remaining : bt_remaining x' = bt_remaining x;
  sb_submitting : bt_submitting x' = bt_submitting x;
  sb_statuses : bt_statuses x' = bt_statuses x;
  sb_reads : map it_read (bt_items x') = map it_read (bt_items x);
}.

Lemma sb_length x x' : same_batch x x' -> length (bt_items x') = length (bt_items x).
Proof. intros [_ _ _ _ _ Hr]. by rewrite <- (length_map it_read), Hr, length_map. Qed.

Lemma static_same ss dd eps x x' : same_batch x x' -> static_ok ss dd eps x -> static_ok ss dd eps x'.
Proof.
  intros Hs [H1 H2 H3 H4 H5]. pose proof (sb_length _ _ Hs) as Hl. destruct Hs as [Hd Hc Hr Hsub Hst Hm].
  split; rewrite ?Hc, ?Hl, ?Hst, ?Hd; auto.
  apply Forall_map with (P := fun r => 0 < rd_buffer r <= UINTPTR_MAX /\ is_u64 (rd_offset r) /\ is_u64 (rd_length r)).
  rewrite Hm. by apply Forall_map.
Qed.

Lemma submitted_same fl ss b x x' n : same_batch x x' -> submitted_to fl ss b x n -> submitted_to fl ss b x' n.
Proof.
  intros Hs (H1 & H2 & H3 & H4). pose proof (sb_length _ _ Hs) as Hl. destruct Hs as [Hd Hc Hr Hsub Hst Hm].
  unfold submitted_to, filled. rewrite Hr, Hl, Hst. done.
Qed.

Lemma bounce_layout_length al n ls offs size :
  bounce_layout al n ls = Some (offs, size) -> length offs = length ls.
Proof.
  revert n offs size. induction ls as [|len ls IH]; intros n offs size; simpl; [by intros [= <- _]|].
  destruct (_ && _); [done|]. destruct (_ >? _); [done|].
  destruct (bounce_layout al _ ls) as [[offs' size']|] eqn:E; [|done]. intros [= <- <-]. simpl.
  by rewrite (IH _ _ _ E).
Qed.

Lemma place_reads a items offs :
  length offs = length items -> map it_read (zip_with (place a) items offs) = map it_read items.
Proof.
  revert offs. induction items as [|it items IH]; intros [|o offs]; simpl; try done.
  intros Hl. f_equal. apply IH. lia.
Qed.

Lemma all_dma_spec e q items : forall pt dd bb ss mm qq l h,
  port_ok pt -> q ∈ port_eps pt ->
  Forall (fun it => 0 < rd_buffer (it_read it) <= UINTPTR_MAX /\ is_u64 (rd_offset (it_read it))
                    /\ is_u64 (rd_length (it_read it))) items ->
  wp (all_dma_capable (Some q) items) e (Conf (BatchS pt dd bb ss mm qq) l h) (returns (fun _ c' =>
    exists pt', c' = Conf (BatchS pt' dd bb ss mm qq) l h /\ port_ok pt' /\
      port_inflight pt' = port_inflight pt /\ port_eps pt' = port_eps pt)).
Proof.
  induction items as [|it items IH]; intros pt dd bb ss mm qq l h Hok Hq Hall; simpl.
  { wp_step. by exists pt. }
  apply Forall_cons in Hall as [(Hb & _ & Hn) Hall]. wp_step.
  eapply wp_port; [by apply port_dma_law|]. simpl. intros ok pt' (Hok' & Hfl & Heps). wp_if as Hz.
  - wp_step. by exists pt'.
  - eapply wp_mono; [apply IH; [done|by rewrite Heps|done]|].
    intros [r|f|] c'; simpl; [|done|done]. intros (pt'' & -> & Hok'' & Hfl'' & Heps'').
    exists pt''. rewrite Hfl'', Heps''. done.
Qed.

Definition prepared (pt : P) (dd : gmap ptr dispatcher) (bb : gmap ptr read_batch)
    (ss : gmap ptr (list (option Z))) (mm : Z -> Z) (qq : gset ptr) (l : gset ptr) (h : list event)
    (b : ptr) (x : read_batch) (c' : conf St) : Prop :=
  exists pt' x' h', c' = Conf (BatchS pt' dd (<[b:=x']> bb) ss mm qq) l h' /\ batch_inv {[b]} c' /\
    h `suffix_of` h' /\ same_batch x x' /\
    port_inflight pt' = port_inflight pt /\ port_eps pt' = port_eps pt.

Lemma prepare_spec e pt dd bb ss mm qq l h b x :
  batch_inv {[b]} (Conf (BatchS pt dd bb ss mm qq) l h) -> bb !! b = Some x ->
  wp (prepare_read_batch b) e (Conf (BatchS pt dd bb ss mm qq) l h)
    (returns (fun _ c' => prepared pt dd bb ss mm qq l h b x c')).
Proof.
  intros Hi Hx. pose proof (bi_static _ _ Hi _ _ Hx) as Hst. simpl in Hst.
  destruct (st_endpoint _ _ _ _ Hst) as (d & q & Hd & Hep & Hq).
  assert (forall pt' x' h', port_ok pt' -> port_inflight pt' = port_inflight pt ->
    port_eps pt' = port_eps pt -> same_batch x x' ->
    h `suffix_of` h' -> batch_inv {[b]} (Conf (BatchS pt dd bb ss mm qq) l h') ->
    prepared pt dd bb ss mm qq l h b x (Conf (BatchS pt' dd (<[b:=x']> bb) ss mm qq) l h')) as Hgo.
  { intros pt' x' h' Hok' Hfl Heps Hs Hh Hi'. exists pt', x', h'. split; [done|]. split; [|done].
    eapply binv_put; [eapply (binv_port _ pt pt' _ _ _ _ _ _ _ b);
      [exact Hi'|set_solver|by eexists|done|done|]|set_solver|done| |].
    - intros b' i _. by rewrite Hfl.
    - rewrite Heps. by eapply static_same.
    - by destruct Hs. }
  unfold prepare_read_batch, zettide_spdk_dma_malloc. wp_step. eapply wp_get_batch; [done|]. wp_step. wp_step. wp_step. simpl.
  eapply wp_deref; [done|]. rewrite Hep. wp_step.
  eapply wp_mono; [apply all_dma_spec; [exact (bi_port _ _ Hi)|done|exact (st_reads _ _ _ _ Hst)]|].
  intros [direct|f|] c'; simpl; [|done|done]. intros (pt' & -> & Hok' & Hfl & Heps).
  wp_step. apply wp_put_batch. simpl. wp_if as Hdir.
  - wp_step. apply wp_put_batch. simpl. wp_step. rewrite insert_insert_eq. apply Hgo; try done.
    split; try done. simpl. by rewrite map_map.
  - wp_step. eapply wp_port; [apply port_geometry_law; [done|simpl; by rewrite Heps]|]. simpl.
    intros g s' [-> _]. destruct g as [g|]; [|wp_step; by apply Hgo].
    wp_if as Hal; [wp_step; by apply Hgo|].
    destruct (bounce_layout _ 0 _) as [[offs size]|] eqn:El; [|wp_step; by apply Hgo].
    wp_step. wp_step. wp_if as Ha.
    + wp_step. apply Hgo; try done; [solve_suffix|]. by apply binv_log.
    + wp_step. apply wp_put_batch. simpl. wp_step. rewrite insert_insert_eq. apply Hgo; try done.
      * split; try done. simpl. apply place_reads. apply bounce_layout_length in El.
        by rewrite length_map in El.
      * solve_suffix.
      * by apply binv_log.
Qed.

Lemma fill_spec e x st : forall todo index pt dd bb ss mm qq l h W sts,
  batch_inv W (Conf (BatchS pt dd bb ss mm qq) l h) -> ss !! bt_statuses x = Some sts ->
  (index + todo <= length sts)%nat ->
  wp (fill_statuses (bt_statuses x) todo index st) e (Conf (BatchS pt dd bb ss mm qq) l h)
    (returns (fun _ c' => exists ss', c' = Conf (BatchS pt dd bb ss' mm qq) l h /\ batch_inv W c' /\
       (forall j, filled ss x j -> filled ss' x j) /\
       (forall j, (index <= j < index + todo)%nat -> filled ss' x j))).
Proof.
  induction todo as [|todo IH]; intros index pt dd bb ss mm qq l h W sts Hi Hs Hl; simpl.
  { wp_step. exists ss. split; [done|]. split; [done|]. split; [done|]. intros j Hj. lia. }
  wp_step. eapply wp_write_status; [exact Hs|lia|]. simpl.
  eapply wp_mono.
  { eapply IH; [by apply binv_status|apply lookup_insert_eq|rewrite length_insert; lia]. }
  intros [u|f|] c'; simpl; [|done|done]. intros (ss' & -> & Hi' & Hmono & Hfill).
  exists ss'. split; [done|]. split; [done|]. split.
  - intros j Hj. apply Hmono. by apply filled_status.
  - intros j Hj. destruct (decide (j = index)) as [->|]; [|apply Hfill; lia].
    apply Hmono. exists (<[index:=Some st]> sts), st. rewrite lookup_insert_eq. split; [done|].
    apply list_lookup_insert_eq. lia.
Qed.

(** The state between two submissions of batch [b]. *)
Record submitting (b : ptr) (x0 : read_batch) (index : nat) (c0 c : conf St) : Prop := {
  sg_inv : batch_inv {[b]} c;
  sg_hist : hist c0 `suffix_of` hist c;
  sg_queued : bs_queued (store c) = bs_queued (store c0);
  sg_dispatchers : bs_dispatchers (store c) = bs_dispatchers (store c0);
  sg_eps : port_eps (bs_port (store c)) = port_eps (bs_port (store c0));
  sg_others : forall b', b' <> b -> bs_batches (store c) !! b' = bs_batches (store c0) !! b';
  sg_batch : exists x, bs_batches (store c) !! b = Some x /\ bt_submitting x = true /\
             bt_items x = bt_items x0 /\
             submitted_to (port_inflight (bs_port (store c))) (bs_statuses (store c)) b x index;
}.

(** The item at [index] is completed before the next one is submitted. *)
Lemma complete_item e b x0 c0 pt pt0 dd bb ss mm qq l h h' index x st :
  submitting b x0 index c0 (Conf (BatchS pt0 dd bb ss mm qq) l h) ->
  bb !! b = Some x -> bt_submitting x = true -> bt_items x = bt_items x0 ->
  submitted_to (port_inflight pt0) ss b x index -> (index < length (bt_items x0))%nat ->
  port_ok pt -> port_eps pt = port_eps pt0 -> port_inflight pt = port_inflight pt0 ->
  h `suffix_of` h' -> batch_inv {[b]} (Conf (BatchS pt0 dd bb ss mm qq) l h') ->
  wp (read_batch_item_complete b index st) e (Conf (BatchS pt dd bb ss mm qq) l h')
    (returns (fun _ c' => submitting b x0 (S index) c0 c')).
Proof.
  intros [] Hx Hsub Hits (Hrem & Hle & Hlt & Hall) Hidx Hok Heps Hfl Hh Hi'. simpl in *.
  pose proof (flying_nonneg (port_inflight pt0) b) as Hnn.
  eapply wp_mono; [eapply item_complete_submitting|].
  - eapply (binv_port _ pt0 pt); [exact Hi'|by apply elem_of_singleton|by eexists|done|done|].
    intros b' i _. by rewrite Hfl.
  - done.
  - by rewrite Hits.
  - rewrite Hits in Hrem. lia.
  - done.
  - intros [u|f|] c'; simpl; [|done|done]. intros (Hi'' & ss' & -> & Hf & Hmono).
    split; simpl; try done; [by trans h|by rewrite Heps| |].
    + intros b' Hne. rewrite lookup_insert_ne by done. auto.
    + exists (set_remaining (bt_remaining x - 1) x). rewrite lookup_insert_eq. split; [done|].
      split; [done|]. split; [done|]. rewrite Hfl.
      split_and!; simpl; rewrite ?Hits in *; [lia|lia| |].
      * intros i Hi. apply Hlt in Hi. lia.
      * intros i Hi. destruct (decide (i = index)) as [->|]; [by right|].
        destruct (Hall i) as [?|?]; [lia|by left|right; by apply Hmono].
Qed.

(** The item at [index] stays in flight. *)
Lemma leave_item b x0 c0 pt pt0 dd bb ss mm qq l h h' index x :
  submitting b x0 index c0 (Conf (BatchS pt0 dd bb ss mm qq) l h) ->
  bb !! b = Some x -> bt_submitting x = true -> bt_items x = bt_items x0 ->
  submitted_to (port_inflight pt0) ss b x index -> (index < length (bt_items x0))%nat ->
  port_ok pt -> port_eps pt = port_eps pt0 -> (b, index) ∉ port_inflight pt0 ->
  port_inflight pt = {[(b, index)]} ∪ port_inflight pt0 ->
  h `suffix_of` h' -> batch_inv {[b]} (Conf (BatchS pt0 dd bb ss mm qq) l h') ->
  submitting b x0 (S index) c0 (Conf (BatchS pt dd bb ss mm qq) l h').
Proof.
  intros [] Hx Hsub Hits (Hrem & Hle & Hlt & Hall) Hidx Hok Heps Hni Hfl Hh Hi'. simpl in *.
  split; simpl; try done; [|by trans h|by rewrite Heps|].
  - eapply (binv_port _ pt0 pt); [exact Hi'|by apply elem_of_singleton|by eexists|done|done|].
    intros b' i Hne. rewrite Hfl. set_solver.
  - exists x. split; [done|]. split; [done|]. split; [done|]. rewrite Hfl.
    split_and!; [rewrite flying_insert by done; rewrite Hits in *; lia|rewrite Hits in *; lia| |].
    + intros i [Hi|Hi]%elem_of_union; [apply elem_of_singleton in Hi; simplify_eq; lia|].
      apply Hlt in Hi. lia.
    + intros i Hi. destruct (decide (i = index)) as [->|]; [left; set_solver|].
      destruct (Hall i) as [?|?]; [lia|left; set_solver|by right].
Qed.

Lemma submit_items_spec e b x0 q c0 : forall todo index c,
  submitting b x0 index c0 c -> (index + todo = length (bt_items x0))%nat ->
  q ∈ port_eps (bs_port (store c0)) ->
  wp (submit_items b (Some q) todo index) e c (returns (fun _ c' =>
    submitting b x0 (length (bt_items x0)) c0 c')).
Proof.
  induction todo as [|todo IH]; intros index c Hsg Hn Hq; simpl.
  { wp_step. by rewrite <- Hn, Nat.add_0_r. }
  assert (forall c', submitting b x0 (S index) c0 c' -> wp (submit_items b (Some q) todo (S index)) e c'
    (returns (fun _ c' => submitting b x0 (length (bt_items x0)) c0 c'))) as Hrest.
  { intros c' Hc'. apply IH; [done|lia|done]. }
  destruct c as [[pt dd bb ss mm qq] l h]. destruct (sg_batch _ _ _ _ _ Hsg) as (x & Hx & Hsub & Hits & Hst).
  simpl in *. pose proof (sg_inv _ _ _ _ _ Hsg) as Hi. pose proof (sg_eps _ _ _ _ _ Hsg) as He. simpl in He.
  wp_step. eapply wp_get_batch; [done|]. rewrite Hits.
  destruct (lookup_lt_is_Some_2 (bt_items x0) index) as [it Hit]; [lia|]. rewrite Hit. wp_step.
  pose proof (st_reads _ _ _ _ (bi_static _ _ Hi _ _ Hx)) as Hreads. rewrite Hits in Hreads.
  destruct (Forall_lookup_1 _ _ _ _ Hreads Hit) as (_ & Ho & Hlen).
  assert ((b, index) ∉ port_inflight pt) as Hni.
  { intros Hin. destruct Hst as (_ & _ & Hlt & _). apply Hlt in Hin. lia. }
  eapply wp_port; [apply port_submit_law; simpl; [exact (bi_port _ _ Hi)|by rewrite He|done|done|done]|].
  simpl. intros rc pt1 (Hok1 & Heps1 & Hfl1). wp_step. wp_if as Hz; breflect.
  - rewrite (proj2 (Z.eqb_neq rc 0) Hz) in Hfl1.
    eapply wp_mono; [eapply complete_item; try done; lia|].
    intros [u|f|] c'; simpl; [|done|done]. apply Hrest.
  - rewrite Hz in Hfl1. simpl in Hfl1. wp_step. wp_step. wp_if as Hinl.
    + wp_step. eapply wp_port; [apply port_deliver_law; simpl; [done|rewrite Hfl1; set_solver]|].
      simpl. intros [st|] pt2 (Hok2 & Heps2 & Hfl2).
      * eapply wp_mono; [eapply (complete_item _ _ _ _ pt2 pt); try done|].
        -- lia.
        -- by rewrite Heps2.
        -- rewrite Hfl2, Hfl1. set_solver.
        -- by apply suffix_cons_r.
        -- by apply binv_log.
        -- intros [u|f|] c'; simpl; [|done|done]. apply Hrest.
      * wp_step. apply Hrest. eapply (leave_item _ _ _ pt2 pt); try done.
        -- lia.
        -- by rewrite Heps2.
        -- by rewrite Hfl2.
        -- by apply suffix_cons_r.
        -- by apply binv_log.
    + wp_step. apply Hrest. eapply (leave_item _ _ _ pt1 pt); try done; [lia|by apply suffix_cons_r|].
      by apply binv_log.
Qed.

Lemma static_submitting ss dd eps y x : static_ok ss dd eps x -> static_ok ss dd eps (set_submitting y x).
Proof. intros []. by split. Qed.

(** Nothing happened to the other batches, and batch [b] is still there or its
    client was called. *)
Definition only_batch (b : ptr) (c c' : conf St) : Prop :=
  hist c `suffix_of` hist c' /\
  (forall b', b' <> b -> bs_batches (store c') !! b' = bs_batches (store c) !! b') /\
  (is_Some (bs_batches (store c') !! b) \/ 1 <= batch_callbacks b (hist c')).

Lemma only_batch_evolves b c c' : only_batch b c c' -> batch_evolves c c'.
Proof.
  intros (Hh & Ho & Hb). split; [done|]. intros b' Hb'. destruct (decide (b' = b)) as [->|Hne]; [done|].
  left. by rewrite Ho.
Qed.

(** [finish_read_batch] as a step of batch [b]. *)
Lemma finish_only e pt dd bb ss mm qq l h b x :
  batch_inv {[b]} (Conf (BatchS pt dd (<[b:=x]> bb) ss mm qq) l h) ->
  (forall i, (b, i) ∉ port_inflight pt) ->
  (forall i, (i < length (bt_items x))%nat -> filled ss x i) ->
  wp (finish_read_batch b) e (Conf (BatchS pt dd (<[b:=x]> bb) ss mm qq) l h) (returns (fun _ c' =>
    batch_inv ∅ c' /\ only_batch b (Conf (BatchS pt dd bb ss mm qq) l h) c')).
Proof.
  intros Hi Hno Hall. eapply wp_mono; [eapply finish_spec; [exact Hi|apply lookup_insert_eq|done|done]|].
  intros [u|f|] c'; simpl; [|done|done]. intros (Hi' & Hh & Hb & Hcb). split; [done|].
  split; [done|]. split; [|right; lia]. intros b' Hne. rewrite Hb. by simplify_map_eq.
Qed.

(** [run_read_batch] when the batch could not be prepared. *)
Lemma run_failed e pt dd bb ss mm qq l h b x rc :
  batch_inv {[b]} (Conf (BatchS pt dd (<[b:=x]> bb) ss mm qq) l h) ->
  (forall i, (b, i) ∉ port_inflight pt) ->
  wp (let! x := get_batch b in
      fill_statuses (bt_statuses x) (Z.to_nat (bt_item_count x)) 0 rc ;;;
      put_batch b (set_submitting false (set_remaining 0 x)) ;;;
      finish_read_batch b) e (Conf (BatchS pt dd (<[b:=x]> bb) ss mm qq) l h) (returns (fun _ c' =>
    batch_inv ∅ c' /\ only_batch b (Conf (BatchS pt dd bb ss mm qq) l h) c')).
Proof.
  intros Hi Hno. pose proof (bi_static _ _ Hi b x (lookup_insert_eq _ _ _)) as Hstat. simpl in Hstat.
  destruct (st_array _ _ _ _ Hstat) as (sts & Hsts & Hl).
  wp_step. eapply wp_get_batch; [simpl; apply lookup_insert_eq|].
  rewrite (st_count _ _ _ _ Hstat), Nat2Z.id.
  wp_step. eapply wp_mono; [eapply fill_spec; [exact Hi|exact Hsts|lia]|].
  intros [u|f|] c'; simpl; [|done|done]. intros (ss' & -> & Hi' & _ & Hfill).
  wp_step. apply wp_put_batch. simpl. rewrite insert_insert_eq. eapply wp_mono.
  - apply (finish_only e pt dd bb ss' mm qq l h b (set_submitting false (set_remaining 0 x))).
    + rewrite <- (insert_insert_eq bb b _ x).
      eapply binv_put; [exact Hi'|set_solver|apply lookup_insert_eq| |done].
      apply static_submitting, static_remaining. exact (bi_static _ _ Hi' b x (lookup_insert_eq _ _ _)).
    + done.
    + simpl. intros i Hlt. apply Hfill. lia.
  - intros [u'|f|] c''; simpl; done.
Qed.

(** The end of [run_read_batch] when every item has been submitted. *)
Lemma run_submitted e b x0 c0 c :
  submitting b x0 (length (bt_items x0)) c0 c -> b ∉ bs_queued (store c0) ->
  wp (let! x := get_batch b in
      let x := set_submitting false x in
      put_batch b x ;;;
      if bt_remaining x =? 0 then finish_read_batch b else ret tt) e c (returns (fun _ c' =>
    batch_inv ∅ c' /\ only_batch b c0 c')).
Proof.
  intros [Hi Hh Hq _ _ Hoth (x & Hx & Hsub & Hits & Hrem & _ & Hlt & Hall)] Hnq.
  destruct c as [[pt dd bb ss mm qq] l h]. simpl in *. rewrite Hits, Nat.sub_diag in Hrem.
  wp_step. eapply wp_get_batch; [done|]. wp_step. apply wp_put_batch. simpl.
  assert (batch_inv {[b]} (Conf (BatchS pt dd (<[b:=set_submitting false x]> bb) ss mm qq) l h)) as Hi'.
  { eapply binv_put; [exact Hi|set_solver|done| |done]. apply static_submitting. exact (bi_static _ _ Hi b x Hx). }
  pose proof (flying_nonneg (port_inflight pt) b) as Hnn. wp_if as Hr; breflect.
  - assert (forall i, (b, i) ∉ port_inflight pt) as Hno by (apply flying_zero; lia).
    eapply wp_mono; [apply finish_only; [exact Hi'|done|]|].
    + simpl. rewrite Hits. intros i Hi2. destruct (Hall i Hi2) as [Hin|Hf]; [by apply Hno in Hin|exact Hf].
    + intros [u|f|] c'; simpl; [|done|done]. intros (Hi2 & Hh2 & Ho2 & Hb2). split; [done|].
      split; [by trans h|]. split; [|done]. intros b' Hne. by rewrite Ho2, Hoth.
  - wp_step. split.
    + eapply binv_leave; [exact Hi'|]. intros y Hy. rewrite lookup_insert_eq in Hy. injection Hy as <-.
      unfold phase_ok. rewrite decide_False by (by rewrite Hq). simpl. split; [done|]. split; [lia|].
      split_and!; simpl; rewrite ?Hits, ?Nat.sub_diag; [lia|lia|done|done].
    + split; [done|]. simpl. rewrite lookup_insert_eq. split; [|by left; eexists].
      intros b' Hne. rewrite lookup_insert_ne by done. auto.
Qed.

Lemma only_batch_put b x pt dd bb ss mm qq l h h' pt' ss' c' :
  only_batch b (Conf (BatchS pt' dd (<[b:=x]> bb) ss' mm qq) l h') c' -> h `suffix_of` h' ->
  only_batch b (Conf (BatchS pt dd bb ss mm qq) l h) c'.
Proof.
  intros (H1 & H2 & H3) Hh. simpl in *. split; [by trans h'|]. split; [|done].
  intros b' Hne. rewrite H2 by done. by rewrite lookup_insert_ne.
Qed.

Lemma run_spec e pt dd bb ss mm qq l h b x :
  batch_inv {[b]} (Conf (BatchS pt dd bb ss mm qq) l h) -> bb !! b = Some x -> b ∉ qq ->
  bt_submitting x = true -> submitted_to (port_inflight pt) ss b x 0 ->
  wp (run_read_batch b) e (Conf (BatchS pt dd bb ss mm qq) l h) (returns (fun _ c' =>
    batch_inv ∅ c' /\ only_batch b (Conf (BatchS pt dd bb ss mm qq) l h) c')).
Proof.
  intros Hi Hx Hq Hsub Hst. unfold run_read_batch. wp_step.
  eapply wp_mono; [by eapply prepare_spec|]. intros [rc|f|] c'; simpl; [|done|done].
  intros (pt' & x' & h' & -> & Hi' & Hh & Hs & Hfl & Heps).
  pose proof (submitted_same _ _ _ _ _ _ Hs Hst) as Hst'. pose proof (sb_submitting _ _ Hs) as Hsub'.
  rewrite Hsub in Hsub'. rewrite <- Hfl in Hst'. wp_if as Hz.
  - eapply wp_mono; [eapply run_failed; [exact Hi'|]|].
    + intros i Hin. destruct Hst' as (_ & _ & Hlt & _). apply Hlt in Hin. lia.
    + intros [u|f|] c'; simpl; [|done|done]. intros (Hi2 & Ho). split; [done|].
      destruct Ho as (H1 & H2 & H3). split; [simpl in *; by trans h'|done].
  - wp_step. eapply wp_get_batch; [simpl; apply lookup_insert_eq|].
    pose proof (bi_static _ _ Hi' b x' (lookup_insert_eq _ _ _)) as Hstat. simpl in Hstat.
    destruct (st_endpoint _ _ _ _ Hstat) as (d & q & Hd & Hep & Hqe).
    wp_step. wp_step. wp_step. eapply wp_deref; [exact Hd|]. rewrite Hep, (st_count _ _ _ _ Hstat), Nat2Z.id.
    wp_step. eapply wp_mono.
    { eapply (submit_items_spec e b x' q (Conf (BatchS pt' dd (<[b:=x']> bb) ss mm qq) l h')); [|done|exact Hqe].
      split; try done. simpl. exists x'. by rewrite lookup_insert_eq. }
    intros [u|f|] c'; simpl; [|done|done]. intros Hsg.
    eapply wp_mono; [eapply run_submitted; [exact Hsg|done]|].
    intros [u'|f|] c''; simpl; [|done|done]. intros (Hi2 & Ho). split; [done|]. by eapply only_batch_put.
Qed.

(** The caller's array may be anything no pending batch uses. *)
Lemma binv_array pt dd bb ss mm qq l h a n :
  batch_inv ∅ (Conf (BatchS pt dd bb ss mm qq) l h) ->
  (forall b x, bb !! b = Some x -> bt_statuses x <> a) ->
  batch_inv ∅ (Conf (BatchS pt dd bb (<[a:=replicate n None]> ss) mm qq) l h).
Proof.
  intros [] Ha. split; simpl in *; auto.
  - intros b x Hx. destruct (bi_static0 b x Hx) as [H1 H2 (l' & Hl' & Hlen) H4 H5]. split; auto.
    exists l'. rewrite lookup_insert_ne by (apply not_eq_sym; eauto). done.
  - intros b x Hx Hb. specialize (bi_phase0 b x Hx Hb). specialize (Ha b x Hx).
    assert (forall m, submitted_to (port_inflight pt) ss b x m ->
      submitted_to (port_inflight pt) (<[a:=replicate n None]> ss) b x m) as Hmono.
    { intros m (H1 & H2 & H3 & H4). split_and!; auto. intros i Hi. destruct (H4 i Hi) as [|(l' & st & Hl' & Hst)];
        [by left|right]. exists l', st. by rewrite lookup_insert_ne by done. }
    unfold phase_ok in *. case_decide; [destruct bi_phase0 as (? & ?)|destruct bi_phase0 as (? & ? & ?)]; auto.
Qed.

Lemma binv_new pt dd bb ss mm qq l h b x :
  batch_inv ∅ (Conf (BatchS pt dd bb ss mm qq) l h) -> b = S (length h) ->
  Z.of_nat (size l) < UINTPTR_MAX -> static_ok ss dd (port_eps pt) x ->
  (forall b' x', bb !! b' = Some x' -> bt_statuses x' <> bt_statuses x) ->
  batch_inv {[b]} (Conf (BatchS pt dd (<[b:=x]> bb) ss mm qq) ({[b]} ∪ l) (EvAlloc (Some b) :: h))
  /\ bb !! b = None /\ (forall i, (b, i) ∉ port_inflight pt).
Proof.
  intros [] Hb Hsz Hst Ha. simpl in *.
  assert (bb !! b = None) as Hbb. { subst b. by eapply (fresh_lookup bb (BatchS pt dd bb ss mm qq)). }
  assert (forall i, (b, i) ∉ port_inflight pt) as Hno.
  { intros i Hin. apply bi_flight0 in Hin as [y Hy]. by simplify_eq. }
  split; [|done]. split; simpl.
  - by apply (conf_ok_alloc (BatchS pt dd bb ss mm qq)).
  - done.
  - intros b' y [[<- _]|[_ Hy]]%lookup_insert_Some; [set_solver|]. apply bi_live0 in Hy. set_solver.
  - rewrite dom_insert_L. apply not_elem_of_dom in Hbb. set_solver.
  - intros b' y [[<- <-]|[_ Hy]]%lookup_insert_Some; eauto.
  - intros b1 b2 x1 x2 [[<- <-]|[? H1]]%lookup_insert_Some [[<- <-]|[? H2]]%lookup_insert_Some He; eauto;
      exfalso; eapply Ha; eauto.
  - intros b' i Hin. apply lookup_insert_is_Some'. right. eauto.
  - intros b' y [[<- _]|[_ Hy]]%lookup_insert_Some HW; [set_solver|]. apply bi_phase0; [done|set_solver].
  - intros b'. unfold batch_callbacks in *. simpl. specialize (bi_once0 b'). lia.
  - intros b' Hb'. unfold batch_callbacks in *. simpl. apply bi_zero0. destruct Hb' as [[y Hy]|Hlen]; [|right; lia].
    apply lookup_insert_Some in Hy as [[<- _]|[_ Hy]]; [right; lia|left; by eexists].
  - by constructor.
Qed.

(** The submission failed. *)
Lemma binv_drop pt dd bb ss mm qq l h b x :
  batch_inv {[b]} (Conf (BatchS pt dd (<[b:=x]> bb) ss mm qq) l h) -> bb !! b = None ->
  (forall i, (b, i) ∉ port_inflight pt) ->
  batch_inv ∅ (Conf (BatchS pt dd bb ss mm qq) (l ∖ {[b]}) (EvFree b :: h)).
Proof.
  intros [] Hb Hno. simpl in *. split; simpl; auto.
  - by apply (conf_ok_free (BatchS pt dd (<[b:=x]> bb) ss mm qq)).
  - intros b' y Hy. assert (b' <> b) by congruence.
    assert (b' ∈ l) by (eapply bi_live0; by rewrite lookup_insert_ne). set_solver.
  - rewrite dom_insert_L in bi_queued0. set_solver.
  - intros b' y Hy. eapply (bi_static0 b'). rewrite lookup_insert_ne by congruence. done.
  - intros b1 b2 x1 x2 H1 H2. apply (bi_arrays0 b1 b2); by rewrite lookup_insert_ne by congruence.
  - intros b' i Hin. destruct (bi_flight0 b' i Hin) as [y Hy].
    apply lookup_insert_Some in Hy as [[<- _]|[_ Hy]]; [by apply Hno in Hin|by eexists].
  - intros b' y Hy _. apply bi_phase0; [by rewrite lookup_insert_ne by congruence|set_solver].
  - intros b' Hb'. unfold batch_callbacks in *. simpl. apply bi_zero0.
    destruct Hb' as [[y Hy]|Hlen]; [left|right; lia]. rewrite lookup_insert_ne by congruence. by eexists.
  - by constructor.
Qed.

Lemma binv_queue pt dd bb ss mm qq l h b x :
  batch_inv {[b]} (Conf (BatchS pt dd bb ss mm qq) l h) -> bb !! b = Some x ->
  bt_submitting x = true -> submitted_to (port_inflight pt) ss b x 0 ->
  batch_inv ∅ (Conf (BatchS pt dd bb ss mm ({[b]} ∪ qq)) l h).
Proof.
  intros [] Hx Hsub Hst. simpl in *. split; simpl; auto.
  - apply elem_of_dom_2 in Hx. set_solver.
  - intros b' y Hy _. destruct (decide (b' = b)) as [->|Hne].
    + simplify_eq. unfold phase_ok. rewrite decide_True by set_solver. done.
    + specialize (bi_phase0 b' y Hy ltac:(set_solver)). unfold phase_ok in *.
      destruct (decide (b' ∈ qq)); [rewrite decide_True by set_solver|rewrite decide_False by set_solver]; done.
Qed.

Lemma check_reads_ok reads :
  check_reads reads = 0 -> Forall (fun r => rd_buffer r <> 0 /\ rd_length r <> 0) reads.
Proof.
  induction reads as [|r reads IH]; simpl; [constructor|].
  destruct (_ || _) eqn:E; [done|]. destruct (_ >? _); [done|]. intros Hr. breflect. constructor; auto.
Qed.

(** What the client's call leaves behind, after its array was registered. *)
Lemma submit_many_spec e pt dd bb ss mm qq l h d reads statuses cb ctx :
  batch_inv ∅ (Conf (BatchS pt dd bb ss mm qq) l h) ->
  batch_enabled (BSubmit d reads statuses cb ctx) (BatchS pt dd bb ss mm qq) ->
  (forall a, statuses = Some a -> ss !! a = Some (replicate (length (default [] reads)) None)) ->
  wp (zettide_spdk_bdev_dispatcher_submit_read_many d reads statuses cb ctx) e
    (Conf (BatchS pt dd bb ss mm qq) l h) (returns (fun rc c' =>
      batch_inv ∅ c' /\ h `suffix_of` hist c' /\
      (rc <> 0 /\ store c' = BatchS pt dd bb ss mm qq /\ live c' = l \/
       rc = 0 /\ exists b x, bb !! b = None /\ bs_batches (store c') = <[b:=x]> bb /\
         live c' = {[b]} ∪ l /\ bs_queued (store c') = {[b]} ∪ qq /\
         Some (map it_read (bt_items x)) = reads))).
Proof.
  intros Hi (Hd & Hr & Ha) Hss. simpl in *. unfold zettide_spdk_bdev_dispatcher_submit_read_many.
  assert (forall rc h', rc <> 0 -> h `suffix_of` h' -> batch_inv ∅ (Conf (BatchS pt dd bb ss mm qq) l h') ->
    returns (fun rc c' => batch_inv ∅ c' /\ h `suffix_of` hist c' /\
      (rc <> 0 /\ store c' = BatchS pt dd bb ss mm qq /\ live c' = l \/
       rc = 0 /\ exists b x, bb !! b = None /\ bs_batches (store c') = <[b:=x]> bb /\
         live c' = {[b]} ∪ l /\ bs_queued (store c') = {[b]} ∪ qq /\
         Some (map it_read (bt_items x)) = reads))
      (Done rc) (Conf (BatchS pt dd bb ss mm qq) l h')) as Hno.
  { intros rc h' Hrc Hh Hi'. simpl. split; [done|]. split; [done|]. by left. }
  destruct d as [d|]; [|by apply Hno]. destruct reads as [reads|]; [|by apply Hno].
  destruct statuses as [a|]; [|by apply Hno]. destruct cb as [cb|]; [|by apply Hno].
  wp_if as Hlen; [by apply Hno|]. wp_step. wp_step. wp_if as Ht; [by apply Hno|].
  wp_if as Hmax; [by apply Hno|]. wp_if as Hck; [wp_step; breflect; by apply Hno|].
  wp_step. apply wp_calloc; [wp_step; apply Hno; [done|solve_suffix|by apply binv_log]|].
  intros b Hsz. simpl in Hsz. destruct (Hd d eq_refl) as (y & q & Hy & Hep & Hq).
  specialize (Hr reads eq_refl). specialize (Hss a eq_refl). simpl in Hss. breflect.
  set (x := ReadBatch d (Z.of_nat (length reads)) (Z.of_nat (length reads)) true false 0 a cb ctx
              (map (fun r => ReadItem r 0 0) reads)).
  assert (static_ok ss dd (port_eps pt) x) as Hst.
  { split; simpl; rewrite ?length_map; [done| | |by exists y, q|].
    - assert ((SIZE_MAX - sizeof_batch) / sizeof_item <= UINT64_MAX) by (vm_compute; discriminate). lia.
    - exists (replicate (length reads) None). by rewrite length_replicate.
    - apply Forall_map. apply check_reads_ok in Hck. rewrite Forall_lookup in Hck, Hr. apply Forall_lookup.
      intros i r Hir. destruct (Hck i r Hir) as [? ?]. destruct (Hr i r Hir) as (? & ? & ?). simpl.
      split_and!; try done; lia. }
  destruct (binv_new pt dd bb ss mm qq l h b x Hi eq_refl Hsz Hst (Ha a eq_refl)) as (Hi1 & Hbb & Hfl).
  wp_step. apply wp_put_batch. simpl. wp_step. wp_step. wp_step. eapply wp_deref; [done|].
  wp_step. wp_step. wp_step. fold x. wp_if as Hz; breflect.
  - apply wp_free_batch; [simpl; set_solver|]. simpl. wp_step. rewrite delete_insert_id by done.
    assert (b ∉ l) as Hbl by exact (fresh_not_live _ (bi_conf _ _ Hi)).
    replace (({[b]} ∪ l) ∖ {[b]}) with l by set_solver. apply Hno; [done|solve_suffix|].
    replace l with (({[b]} ∪ l) ∖ {[b]}) at 1 by set_solver.
    eapply binv_drop; [apply binv_log; [exact Hi1|done]|done|done].
  - unfold set_queued. wp_step. wp_step. simpl. split; [|split; [solve_suffix|right; split; [done|]]].
    + eapply binv_queue; [apply binv_log; [exact Hi1|done]|apply lookup_insert_eq|done|].
      split_and!; simpl; rewrite ?length_map; [rewrite flying_empty by done; lia|lia| |].
      * intros i Hin. by apply Hfl in Hin.
      * intros i Hlt. lia.
    + exists b, x. split_and!; try done. simpl. rewrite map_map. simpl. by rewrite map_id.
Qed.

(** The callback of an item. *)
Lemma deliver_spec e pt dd bb ss mm qq lv h b i :
  batch_inv ∅ (Conf (BatchS pt dd bb ss mm qq) lv h) -> (b, i) ∈ port_inflight pt ->
  wp (batch_exec (BDeliver b i)) e (Conf (BatchS pt dd bb ss mm qq) lv h) (returns (fun _ c' =>
    batch_inv ∅ c' /\ batch_evolves (Conf (BatchS pt dd bb ss mm qq) lv h) c')).
Proof.
  intros Hi Hen. unfold batch_exec. wp_step. eapply wp_port; [apply port_deliver_law; [exact (bi_port _ _ Hi)|done]|]. simpl.
  intros st pt' (Hok & Heps & Hfl). destruct (bi_flight _ _ Hi _ _ Hen) as [x Hx]. simpl in Hx.
  pose proof (bi_phase _ _ Hi b x Hx ltac:(set_solver)) as Hp. simpl in Hp. unfold phase_ok in Hp.
  case_decide as Hq. { destruct Hp as (_ & _ & _ & Hlt & _). apply Hlt in Hen. lia. }
  destruct Hp as (Hsub & Hpos & Hrem & _ & Hlt & Hall). rewrite Nat.sub_diag in Hrem.
  destruct st as [st|].
  + eapply wp_mono.
    { apply (item_complete_last e pt' dd bb ss mm qq lv h b x i st); try done.
      - eapply (binv_port _ pt pt'); [|by apply elem_of_singleton|by eexists|done|done|].
        + replace qq with (qq ∖ {[b]}) by set_solver. by apply binv_enter.
        + intros b' j Hne. rewrite Hfl. set_solver.
      - by apply Hlt.
      - rewrite Hfl, flying_delete by done. lia.
      - rewrite Hfl. set_solver.
      - intros j. rewrite Hfl. intros Hj. apply Hlt. set_solver.
      - intros j Hj Hne. destruct (Hall j Hj) as [Hin|]; [left; rewrite Hfl; set_solver|by right]. }
    intros [u|f|] c'; simpl; [|done|done]. intros [Hi' [Hh Hb]]. split; [done|]. split; done.
  + wp_step. split; [|split; [done|by left]]. 
    apply (binv_leave pt' dd bb ss mm qq lv h b).
    * eapply (binv_port _ pt pt'); [|by apply elem_of_singleton|by eexists|done|done|].
      -- replace qq with (qq ∖ {[b]}) by set_solver. by apply binv_enter.
      -- intros b' j Hne. by rewrite Hfl.
    * intros y Hy. simplify_eq. unfold phase_ok. rewrite decide_False by done. rewrite Hfl.
      split_and!; try done. split_and!; [lia|done|done|done].
Qed.

Lemma new_array_spec e pt dd bb ss mm qq lv h statuses n :
  batch_inv ∅ (Conf (BatchS pt dd bb ss mm qq) lv h) ->
  (forall a, statuses = Some a -> forall b x, bb !! b = Some x -> bt_statuses x <> a) ->
  wp (new_array statuses n) e (Conf (BatchS pt dd bb ss mm qq) lv h) (returns (fun _ c' =>
    exists ss', c' = Conf (BatchS pt dd bb ss' mm qq) lv h /\ batch_inv ∅ c' /\
      forall a, statuses = Some a -> ss' !! a = Some (replicate n None))).
Proof.
  intros Hi Ha. destruct statuses as [a|]; unfold new_array; wp_step; [|by exists ss].
  eexists. split; [done|]. split; [apply binv_array; [done|by apply Ha]|].
  intros a' [= <-]. apply lookup_insert_eq.
Qed.

Lemma batch_exec_spec e l c :
  batch_inv ∅ c -> batch_enabled l (store c) ->
  wp (batch_exec l) e c (returns (fun _ c' => batch_inv ∅ c' /\ batch_evolves c c')).
Proof.
  destruct c as [[pt dd bb ss mm qq] lv h]. intros Hi Hen.
  destruct l as [d reads statuses cb ctx|b|b i]; simpl in *.
  - wp_step. eapply wp_mono; [apply new_array_spec; [done|by destruct Hen as (_ & _ & Ha)]|].
    intros [u|f|] c'; simpl; [|done|done]. intros (ss' & -> & Hi' & Hss). wp_step.
    eapply wp_mono; [apply submit_many_spec; [done|done|done]|].
    intros [rc|f|] c'; simpl; [|done|done]. intros (Hi2 & Hh & Hr). wp_step. split; [done|].
    split; [done|]. simpl. intros b Hb. left.
    destruct Hr as [(_ & -> & _)|(_ & b' & x & Hb' & -> & _)]; [done|]. apply lookup_insert_is_Some'. by right.
  - wp_step. unfold set_queued. wp_step. simpl.
    pose proof (bi_queued _ _ Hi) as Hqs. simpl in Hqs.
    assert (is_Some (bb !! b)) as [x Hx] by (apply elem_of_dom; set_solver).
    pose proof (bi_phase _ _ Hi b x Hx ltac:(set_solver)) as Hp. simpl in Hp. unfold phase_ok in Hp.
    rewrite decide_True in Hp by done. destruct Hp as [Hsub Hst].
    eapply wp_mono; [eapply run_spec; [by apply binv_enter|exact Hx|set_solver|done|done]|].
    intros [u|f|] c'; simpl; [|done|done]. intros [Hi' Ho]. split; [done|].
    by apply (only_batch_evolves b) in Ho.
  - by apply deliver_spec.
Qed.

End Batch.

(** ** The layout, against unbounded arithmetic *)

Definition round_up (al n : Z) : Z := if n mod al =? 0 then n else n + (al - n mod al).

(** The layout without the bounds of [size_t]. *)
Fixpoint ideal_layout (al n : Z) (lengths : list Z) : list Z * Z :=
  match lengths with
  | [] => ([], n)
  | len :: lengths =>
      let r := ideal_layout al (round_up al n + len) lengths in
      (round_up al n :: r.1, r.2)
  end.

Lemma round_up_spec al n : 0 < al -> n <= round_up al n /\ round_up al n mod al = 0.
Proof.
  intros Hal. unfold round_up. pose proof (Z.mod_pos_bound n al Hal) as Hb.
  destruct (Z.eqb_spec (n mod al) 0) as [Hz|Hz]; [lia|]. split; [lia|].
  replace (n + (al - n mod al)) with ((n / al + 1) * al).
  - apply Z_mod_mult.
  - pose proof (Z.div_mod n al ltac:(lia)). lia.
Qed.

Lemma ideal_layout_grows al ls : 0 < al -> Forall (fun x => 0 <= x) ls -> forall n, n <= (ideal_layout al n ls).2.
Proof.
  intros Hal. induction 1 as [|len ls Hlen _ IH]; intros n; simpl; [lia|].
  destruct (round_up_spec al n Hal) as [Hr _]. specialize (IH (round_up al n + len)). lia.
Qed.

Lemma bounce_layout_ideal al ls :
  0 < al <= SIZE_MAX -> Forall (fun x => 0 <= x <= SIZE_MAX) ls -> forall n, 0 <= n <= SIZE_MAX ->
  bounce_layout al n ls =
    if (ideal_layout al n ls).2 <=? SIZE_MAX then Some (ideal_layout al n ls) else None.
Proof.
  intros Hal. induction 1 as [|len ls Hlen Hls IH]; intros n Hn; cbn [bounce_layout ideal_layout].
  { simpl. by rewrite (proj2 (Z.leb_le n SIZE_MAX)) by lia. }
  assert (Forall (fun x => 0 <= x) ls) as Hpos by (eapply Forall_impl; [exact Hls|]; simpl; lia).
  pose proof (ideal_layout_grows al ls ltac:(lia) Hpos (round_up al n + len)) as Hgrow. cbv zeta.
  cbn [fst snd]. pose proof (Z.mod_pos_bound n al ltac:(lia)) as Hm.
  assert (SIZE_MAX = UINT64_MAX) as HSM by done.
  unfold round_up in *. destruct (Z.eqb_spec (n mod al) 0) as [Hz|Hz]; cbn [negb andb].
  - destruct (Z.gtb_spec n (SIZE_MAX - len)) as [Ho|Ho].
    { by rewrite (proj2 (Z.leb_gt _ SIZE_MAX)) by lia. }
    rewrite u64_small by (unfold is_u64; lia). rewrite IH by lia.
    destruct (ideal_layout al (n + len) ls) as [offs size]. cbn [fst snd]. by destruct (size <=? SIZE_MAX).
  - destruct (Z.gtb_spec n (SIZE_MAX - (al - n mod al))) as [Ho|Ho].
    { by rewrite (proj2 (Z.leb_gt _ SIZE_MAX)) by lia. }
    rewrite u64_small by (unfold is_u64; lia).
    destruct (Z.gtb_spec (n + (al - n mod al)) (SIZE_MAX - len)) as [Ho'|Ho'].
    { by rewrite (proj2 (Z.leb_gt _ SIZE_MAX)) by lia. }
    rewrite u64_small by (unfold is_u64; lia). rewrite IH by lia.
    destruct (ideal_layout al (n + (al - n mod al) + len) ls) as [offs size]. cbn [fst snd].
    by destruct (size <=? SIZE_MAX).
Qed.

Lemma ideal_layout_disjoint al ls : 0 < al -> Forall (fun x => 0 <= x) ls -> forall n i len off,
  ls !! i = Some len -> (ideal_layout al n ls).1 !! i = Some off ->
  n <= off /\ off mod al = 0 /\ off + len <= (ideal_layout al n ls).2 /\
  (forall j off', (i < j)%nat -> (ideal_layout al n ls).1 !! j = Some off' -> off + len <= off').
Proof.
  intros Hal Hpos. induction Hpos as [|len0 ls Hlen Hls IH]; intros n i len off; simpl; [done|].
  destruct (round_up_spec al n Hal) as [Hr Ha].
  pose proof (ideal_layout_grows al ls Hal Hls (round_up al n + len0)) as Hgrow.
  destruct i as [|i]; simpl.
  - intros [= <-] [= <-]. split; [done|]. split; [done|]. split; [done|].
    intros [|j] off' Hj; [lia|]. simpl. intros Hoff'.
    assert (exists len', ls !! j = Some len') as [len' Hlen'].
    { apply lookup_lt_is_Some_2. apply lookup_lt_Some in Hoff'.
      assert (forall m l, length (ideal_layout al m l).1 = length l) as Hl.
      { intros m l. revert m. induction l as [|? l IHl]; intros m; simpl; [done|]. by rewrite IHl. }
      by rewrite Hl in Hoff'. }
    by destruct (IH _ j len' off' Hlen' Hoff').
  - intros Hi Ho. destruct (IH _ i len off Hi Ho) as (H1 & H2 & H3 & H4).
    split_and!; try done; [lia|]. intros [|j] off' Hj; [lia|]. simpl. intros Hoff'. apply (H4 j); [lia|done].
Qed.

Lemma bounce_layout_pieces al lengths offsets size i len off :
  0 < al <= SIZE_MAX -> Forall (fun x => 0 <= x <= SIZE_MAX) lengths ->
  bounce_layout al 0 lengths = Some (offsets, size) ->
  lengths !! i = Some len -> offsets !! i = Some off ->
  off mod al = 0 /\ 0 <= off /\ off + len <= size <= SIZE_MAX /\
  (forall j off', (i < j)%nat -> offsets !! j = Some off' -> off + len <= off').
Proof.
  intros Hal Hl Hb Hi Ho. rewrite bounce_layout_ideal in Hb by (unfold SIZE_MAX in *; (done || lia)).
  destruct (Z.leb_spec (ideal_layout al 0 lengths).2 SIZE_MAX) as [Hs|]; [|done].
  destruct (ideal_layout al 0 lengths) as [offs sz] eqn:E. injection Hb as -> ->.
  assert (Forall (fun x => 0 <= x) lengths) as Hpos by (eapply Forall_impl; [exact Hl|]; simpl; lia).
  destruct (ideal_layout_disjoint al lengths ltac:(lia) Hpos 0 i len off Hi) as (H1 & H2 & H3 & H4).
  { by rewrite E. }
  rewrite E in *. done.
Qed.

(** ** Copying back *)

(** The [n] bytes at [a] and the [n'] bytes at [a'] do not overlap. *)
Definition apart_bytes (a n a' n' : Z) : Prop := a + n <= a' \/ a' + n' <= a.

Definition dest (it : read_item) : Z * Z := (rd_buffer (it_read it), rd_length (it_read it)).

Lemma memcpy_in dst src n m a : dst <= a < dst + n -> memcpy dst src n m a = m (src + (a - dst)).
Proof. intros Ha. unfold memcpy. by rewrite (proj2 (Z.leb_le _ _)), (proj2 (Z.ltb_lt _ _)) by lia. Qed.

Lemma memcpy_out dst src n m a : a < dst \/ dst + n <= a -> memcpy dst src n m a = m a.
Proof.
  intros Ha. unfold memcpy. destruct (Z.leb_spec dst a); [|done].
  rewrite (proj2 (Z.ltb_ge _ _)) by lia. done.
Qed.

(** Bytes outside the destinations of the items that were read keep their value. *)
Lemma copy_back_out items : forall sts m a,
  (forall i it, items !! i = Some it -> sts !! i = Some (Some 0) ->
     a < (dest it).1 \/ (dest it).1 + (dest it).2 <= a) ->
  copy_back items sts m a = m a.
Proof.
  induction items as [|it items IH]; intros [|st sts] m a Hout; simpl; try done.
  rewrite IH by (intros i it' Hi Hs; exact (Hout (S i) it' Hi Hs)).
  case_bool_decide as Hst; [|done]. apply memcpy_out. apply (Hout 0%nat it eq_refl). simpl. by rewrite Hst.
Qed.

Lemma copy_back_in items : forall sts m i it k,
  (forall i j it it', items !! i = Some it -> items !! j = Some it' -> i <> j ->
     apart_bytes (dest it).1 (dest it).2 (dest it').1 (dest it').2) ->
  (forall i j it it', items !! i = Some it -> items !! j = Some it' ->
     apart_bytes (io_buffer it) (dest it).2 (dest it').1 (dest it').2) ->
  items !! i = Some it -> sts !! i = Some (Some 0) -> 0 <= k < (dest it).2 ->
  copy_back items sts m ((dest it).1 + k) = m (io_buffer it + k).
Proof.
  induction items as [|it0 items IH]; intros sts m i it k Hdd Hsd Hi Hst Hk; [done|].
  destruct sts as [|st sts]; [done|]. destruct i as [|i]; simpl in *.
  - injection Hi as ->. injection Hst as ->. rewrite bool_decide_true by done.
    rewrite copy_back_out.
    + unfold dest in *. simpl in *. rewrite memcpy_in by lia. f_equal. lia.
    + intros j it' Hj _. pose proof (Hdd 0%nat (S j) it it' eq_refl Hj ltac:(done)) as Hap.
      unfold apart_bytes, dest in *. simpl in *. lia.
  - rewrite (IH sts _ i it k) by first
      [done|intros i' j' it1 it2 H1 H2 Hne; apply (Hdd (S i') (S j')); auto
      |intros i' j' it1 it2 H1 H2; exact (Hsd (S i') (S j') it1 it2 H1 H2)].
    case_bool_decide as Hs0; [|done]. apply memcpy_out.
    pose proof (Hsd (S i) 0%nat it it0 Hi eq_refl) as Hap. unfold apart_bytes, dest in *. simpl in *. lia.
Qed.

(** ** Properties *)

Section Properties.
Context {P : Type} `{EP : !EndpointPort P}.
Implicit Types (c : conf (BatchStore P)).

Lemma batch_start_inv c : batch_start c -> batch_inv ∅ c.
Proof.
  intros (Hc & Hok & Hfl & Hb & Hq & Hh). split; rewrite ?Hb, ?Hq, ?Hfl, ?Hh; try done;
    try set_solver; intros; simplify_map_eq.
Qed.

Lemma batch_steps_inv c c' : batch_inv ∅ c -> rtc batch_step c c' -> batch_inv ∅ c' /\ batch_evolves c c'.
Proof.
  intros Hi Hs. induction Hs as [c|c1 c2 c3 Hs _ IH]; [split; [done|]; split; [done|by left]|].
  destruct Hs as [e l c1 c2 Hen Hex].
  destruct (wp_run _ _ _ _ _ _ (batch_exec_spec e l c1 Hi Hen) Hex) as [Hi2 [Hh2 Hb2]].
  destruct (IH Hi2) as [Hi3 [Hh3 Hb3]]. split; [done|]. split; [by trans (hist c2)|].
  intros b Hb. destruct (Hb2 b Hb) as [H|H]; [by apply Hb3|right].
  destruct Hh3 as [k ->]. unfold batch_callbacks in *. rewrite count_events_app.
  pose proof (count_events_nonneg (is_batch_callback b) k). lia.
Qed.

(** C2: Memory safety of the read batches under every interleaving: for every
    endpoint that keeps its promises, after any sequence of submissions, messages
    run by the owner and completions, inline ones included, every further step
    returns: no batch is used after it was freed, no assertion fails and no
    status is written outside the caller's array. *)
Theorem read_batch_never_faults c0 c e l :
  batch_start c0 -> rtc batch_step c0 c -> batch_enabled l (store c) ->
  exists c', batch_exec l e c = (Done tt, c') /\ batch_step c c'.
Proof.
  intros H0 Hr Hen. destruct (batch_steps_inv _ _ (batch_start_inv _ H0) Hr) as [Hi _].
  destruct (wp_returns_run _ _ _ _ (batch_exec_spec e l c Hi Hen)) as ([] & c' & Hex & _).
  exists c'. split; [done|]. by econstructor.
Qed.

(** C6: The callback of an accepted batch is called exactly once: in every later
    state the batch is pending and the client was not called, and then the owner
    has still to run it or an item is in flight, or the batch is gone and the
    client was called once. *)
Theorem read_batch_callback_exactly_once c0 c c' b :
  batch_start c0 -> rtc batch_step c0 c -> is_Some (bs_batches (store c) !! b) -> rtc batch_step c c' ->
  (is_Some (bs_batches (store c') !! b) /\ batch_callbacks b (hist c') = 0 /\
     (b ∈ bs_queued (store c') \/ exists i, (b, i) ∈ port_inflight (bs_port (store c'))))
  \/ (bs_batches (store c') !! b = None /\ batch_callbacks b (hist c') = 1).
Proof.
  intros H0 Hr Hb Hr'. destruct (batch_steps_inv _ _ (batch_start_inv _ H0) Hr) as [Hi _].
  destruct (batch_steps_inv _ _ Hi Hr') as [Hi' [_ He]].
  destruct (bs_batches (store c') !! b) as [x|] eqn:Hx.
  - left. split; [by eexists|]. split; [apply (bi_zero _ _ Hi'); by left; eexists|].
    pose proof (bi_phase _ _ Hi' b x Hx ltac:(set_solver)) as Hp. unfold phase_ok in Hp.
    case_decide as Hq; [by left|right]. destruct Hp as (_ & Hpos & Hrem & _).
    rewrite Nat.sub_diag in Hrem. apply flying_pos. lia.
  - right. split; [done|]. destruct (He b Hb) as [[y Hy]|H1]; [by rewrite Hx in Hy|].
    pose proof (bi_once _ _ Hi' b). lia.
Qed.

(** C32: Whenever the client of a batch is called, every entry of its status array
    has been written by the batch. *)
Theorem read_batch_statuses_filled c0 c b cb ctx direct statuses (u : unit) :
  batch_start c0 -> rtc batch_step c0 c ->
  EvCall (BatchCallback b cb ctx direct statuses : call_sig) u ∈ hist c -> Forall is_Some statuses.
Proof.
  intros H0 Hr Hin. destruct (batch_steps_inv _ _ (batch_start_inv _ H0) Hr) as [Hi _].
  exact (proj1 (Forall_forall _ _) (bi_filled _ _ Hi) _ Hin).
Qed.

End Properties.

(** C31: The layout of the bounce buffer is computed with [size_t] exactly as with
    unbounded integers, and [-EOVERFLOW] is returned exactly when the ideal size
    exceeds [SIZE_MAX]. *)
Theorem bounce_layout_exact al lengths :
  0 < al <= SIZE_MAX -> Forall (fun x => 0 <= x <= SIZE_MAX) lengths ->
  bounce_layout al 0 lengths =
    if (ideal_layout al 0 lengths).2 <=? SIZE_MAX then Some (ideal_layout al 0 lengths) else None.
Proof. intros Hal Hl. apply bounce_layout_ideal; [done|done|]. split; [lia|]. vm_compute. discriminate. Qed.

(** The pieces of the bounce buffer are aligned, do not overlap, and lie inside
    the buffer. *)
Theorem bounce_layout_disjoint al lengths offsets size i len off :
  0 < al <= SIZE_MAX -> Forall (fun x => 0 <= x <= SIZE_MAX) lengths ->
  bounce_layout al 0 lengths = Some (offsets, size) ->
  lengths !! i = Some len -> offsets !! i = Some off ->
  off mod al = 0 /\ 0 <= off /\ off + len <= size <= SIZE_MAX /\
  (forall j off', (i < j)%nat -> offsets !! j = Some off' -> off + len <= off').
Proof. apply bounce_layout_pieces. Qed.

(** C30: The copies at the end of a bounced batch: every destination whose read
    succeeded receives the bytes of its piece of the bounce buffer, although the
    pieces share one buffer, and every byte outside those destinations keeps its
    value, in particular the destinations of failed reads.  The destinations are
    disjoint from each other and from the buffer. *)
Theorem bounce_copies_each_item al address items offsets size sts m :
  0 < al <= SIZE_MAX -> Forall (fun it => 0 <= (dest it).2 <= SIZE_MAX) items ->
  bounce_layout al 0 (map (fun it => (dest it).2) items) = Some (offsets, size) ->
  (forall i j it it', items !! i = Some it -> items !! j = Some it' -> i <> j ->
     apart_bytes (dest it).1 (dest it).2 (dest it').1 (dest it').2) ->
  (forall i it, items !! i = Some it -> apart_bytes address size (dest it).1 (dest it).2) ->
  let m' := copy_back (zip_with (place address) items offsets) sts m in
  (forall i it off k, items !! i = Some it -> offsets !! i = Some off -> sts !! i = Some (Some 0) ->
     0 <= k < (dest it).2 -> m' ((dest it).1 + k) = m (address + off + k)) /\
  (forall a, (forall i it, items !! i = Some it -> sts !! i = Some (Some 0) ->
                a < (dest it).1 \/ (dest it).1 + (dest it).2 <= a) -> m' a = m a).
Proof.
  intros Hal Hlen Hb Hdd Hsd m'.
  assert (Forall (fun x => 0 <= x <= SIZE_MAX) (map (fun it => (dest it).2) items)) as Hl by by apply Forall_map.
  assert (forall i it, zip_with (place address) items offsets !! i = Some it -> exists it0 off,
    items !! i = Some it0 /\ offsets !! i = Some off /\ it = place address it0 off) as Hz.
  { intros i it. rewrite lookup_zip_with_Some. naive_solver. }
  assert (forall i it off, items !! i = Some it -> offsets !! i = Some off ->
    0 <= off /\ off + (dest it).2 <= size) as Hin.
  { intros i it off Hi Ho.
    destruct (bounce_layout_pieces al (map (fun it => (dest it).2) items) offsets size i (dest it).2 off Hal Hl Hb)
      as (_ & H1 & H2 & _); [by rewrite list_lookup_fmap, Hi|done|lia]. }
  split.
  - intros i it off k Hi Ho Hs Hk. unfold m'.
    apply (copy_back_in (zip_with (place address) items offsets) sts m i (place address it off) k); try done.
    + intros i1 i2 it1 it2 (a1 & o1 & H1 & _ & ->)%Hz (a2 & o2 & H2 & _ & ->)%Hz Hne. exact (Hdd i1 i2 a1 a2 H1 H2 Hne).
    + intros i1 i2 it1 it2 (a1 & o1 & H1 & Ho1 & ->)%Hz (a2 & o2 & H2 & Ho2 & ->)%Hz.
      specialize (Hsd i2 a2 H2). destruct (Hin i1 a1 o1 H1 Ho1) as [? ?].
      unfold apart_bytes, place, dest in *. simpl in *. lia.
    + rewrite lookup_zip_with_Some. eauto.
  - intros a Ha. apply copy_back_out. intros i it (it0 & off & Hi & _ & ->)%Hz Hs. by apply (Ha i it0).
Qed.

(** ** The layout at concrete inputs *)

Lemma bounce_layout_exact_witness : bounce_layout 512 0 [100; 600; 1] = Some ([0; 512; 1536], 1537).
Proof.
  rewrite (bounce_layout_exact 512 [100; 600; 1]); [reflexivity|unfold SIZE_MAX, UINT64_MAX; lia|].
  unfold SIZE_MAX, UINT64_MAX. repeat constructor; lia.
Defined.

Lemma bounce_layout_disjoint_witness :
  512 mod 512 = 0 /\ 0 <= 512 /\ 512 + 600 <= 1537 <= SIZE_MAX /\
  (forall j off', (1 < j)%nat -> [0; 512; 1536] !! j = Some off' -> 512 + 600 <= off').
Proof.
  apply (bounce_layout_disjoint 512 [100; 600; 1] [0; 512; 1536] 1537 1 600 512);
    [unfold SIZE_MAX, UINT64_MAX; lia| |reflexivity..].
  unfold SIZE_MAX, UINT64_MAX. repeat constructor; lia.
Defined.

(** Two destinations at 4096 and 8192, a bounce buffer at 65536; the second read has
    failed. *)
Lemma bounce_copies_each_item_witness :
  let items := [ReadItem (ReadRange 4096 0 100) 0 0; ReadItem (ReadRange 8192 512 600) 0 0] in
  copy_back (zip_with (place 65536) items [0; 512]) [Some 0; Some (- EIO)] id 4099 = 65539 /\
  copy_back (zip_with (place 65536) items [0; 512]) [Some 0; Some (- EIO)] id 8192 = 8192.
Proof.
  set (items := [ReadItem (ReadRange 4096 0 100) 0 0; ReadItem (ReadRange 8192 512 600) 0 0]).
  destruct (bounce_copies_each_item 512 65536 items [0; 512] 1112 [Some 0; Some (- EIO)] id) as [Hin Hout].
  - unfold SIZE_MAX, UINT64_MAX. lia.
  - unfold SIZE_MAX, UINT64_MAX. repeat constructor; simpl; lia.
  - reflexivity.
  - intros [|[|i]] [|[|j]] it it'; simpl; try discriminate; intros [= <-] [= <-] Hne;
      unfold apart_bytes; simpl; try lia; done.
  - intros [|[|i]] it; simpl; try discriminate; intros [= <-]; unfold apart_bytes; simpl; lia.
  - split.
    + refine (Hin 0%nat _ 0 3 eq_refl eq_refl eq_refl _). simpl. lia.
    + apply Hout. intros [|[|i]] it; simpl; [intros [= <-] _; simpl; lia|intros _ Hs; discriminate Hs|discriminate].
Defined.
