(* ===== verification/ProviderIo.v ===== *)
(** * ProviderIo: services/data-node/spdk/bdev_provider.c, the I/O path

    A provider is an SPDK block device whose requests a backend serves.  Requests
    arrive on SPDK threads; the backend completes them from any thread, in
    batches; each request must be completed on the thread it was submitted on,
    exactly once.  [zettide_spdk_bdev_provider_complete_batch] groups a batch by
    thread in linked lists that live in the requests themselves.  SPDK owns a
    request again as soon as it is completed: the model removes it then, so that
    a later access is a fault. *)

From S2P Require Import Prelude Effects Externals.

(** ** Data *)

(** [struct iovec]: base address and length. *)
Abbreviation iovec := (Z * Z)%type.

Record io_provider := IoProvider {
  pv_blocklen : Z;
  pv_read_buffers_unchanged : bool;
}.

(** The parts of [struct spdk_bdev_io] the code reads. *)
Record bdev_io := BdevIo {
  bio_provider : ptr;
  bio_type : bdev_io_type;
  bio_iovs : list iovec;
  bio_offset_blocks : Z;
  bio_num_blocks : Z;
  bio_thread : thread;
}.

(** [struct provider_io], which lives in the [driver_ctx] of its request and has
    the address of the request here.  [owns_buffer] is [pio_buffer = BufHeap _]. *)
Record provider_io := ProviderIo {
  pio_submit_thread : thread;
  pio_next_complete : option ptr;
  pio_next_complete_group : option ptr;
  pio_buffer : io_buffer_ref;
  pio_length : Z;
  pio_status : Z;
  pio_owns_buffer : bool;
  pio_operation : provider_operation;
}.

(** A message that will run [complete_provider_io_batch] on a thread; the list is
    ghost state, the requests linked from the head. *)
Record batch_msg := BatchMsg {
  bm_thread : thread;
  bm_head : ptr;
  bm_ios : list ptr;
}.

(** Devices, requests SPDK has submitted, their driver contexts, the contents of
    heap blocks and the memory of the frontends; who is to act next on a request:
    SPDK with a buffer, the backend, or a message. *)
Record ProvStore := ProvS {
  ps_providers : gmap ptr io_provider;
  ps_bios : gmap ptr bdev_io;
  ps_ios : gmap ptr provider_io;
  ps_blocks : gmap ptr (list Z);
  ps_mem : Z -> Z;
  ps_getbuf : gset ptr;
  ps_backend : gset ptr;
  ps_msgs : list batch_msg;
}.

(** ** Copying between a buffer and a list of vectors *)

(** [n] bytes at [a]. *)
Definition read_bytes (m : Z -> Z) (a n : Z) : list Z :=
  map (fun i => m (a + Z.of_nat i)) (seq 0 (Z.to_nat n)).

(** The bytes [l] stored at [a]. *)
Definition write_bytes (a : Z) (l : list Z) (m : Z -> Z) : Z -> Z :=
  fun b => if (a <=? b) && (b <? a + Z.of_nat (length l))
           then nth (Z.to_nat (b - a)) l 0 else m b.

(** The loop of [copy_from_iovs]: the bytes copied behind [copied] ones. *)
Fixpoint gather (m : Z -> Z) (length copied : Z) (iovs : list iovec) : list Z :=
  match iovs with
  | [] => []
  | (base, len) :: iovs =>
      if copied <? length then
        let amount := if len >? length - copied then length - copied else len in
        read_bytes m base amount ++ gather m length (copied + amount) iovs
      else []
  end.

(** The contents of the destination and the result of [copy_from_iovs]. *)
Definition copy_from_iovs (length : Z) (iovs : list iovec) (m : Z -> Z) : list Z * bool :=
  let bytes := gather m length 0 iovs in
  (bytes, Z.of_nat (List.length bytes) =? length).

(** The loop of [copy_to_iovs]: memory and the number of bytes copied. *)
Fixpoint scatter (source : list Z) (length copied : Z) (iovs : list iovec) (m : Z -> Z)
    : (Z -> Z) * Z :=
  match iovs with
  | [] => (m, copied)
  | (base, len) :: iovs =>
      if copied <? length then
        let amount := if len >? length - copied then length - copied else len in
        scatter source length (copied + amount) iovs
          (write_bytes base (take (Z.to_nat amount) (drop (Z.to_nat copied) source)) m)
      else (m, copied)
  end.

Definition copy_to_iovs (iovs : list iovec) (source : list Z) (length : Z) (m : Z -> Z)
    : (Z -> Z) * bool :=
  let '(m', copied) := scatter source length 0 iovs m in (m', copied =? length).

Definition single_iov_buffer (bio : bdev_io) (length : Z) : option Z :=
  match bio_iovs bio with
  | [(base, len)] => if len <? length then None else if base =? 0 then None else Some base
  | _ => None
  end.

(** ** Store access *)

Definition get_bio (b : ptr) : M ProvStore bdev_io :=
  let! s := get in deref (ps_bios s !! b).
Definition get_io (b : ptr) : M ProvStore provider_io :=
  let! s := get in deref (ps_ios s !! b).
Definition get_prov (p : ptr) : M ProvStore io_provider :=
  let! s := get in deref (ps_providers s !! p).

Definition put_io (b : ptr) (x : provider_io) : M ProvStore unit :=
  modify (fun s => ProvS (ps_providers s) (ps_bios s) (<[b:=x]> (ps_ios s)) (ps_blocks s)
                     (ps_mem s) (ps_getbuf s) (ps_backend s) (ps_msgs s)).
Definition put_block (p : ptr) (l : list Z) : M ProvStore unit :=
  modify (fun s => ProvS (ps_providers s) (ps_bios s) (ps_ios s) (<[p:=l]> (ps_blocks s))
                     (ps_mem s) (ps_getbuf s) (ps_backend s) (ps_msgs s)).
Definition put_mem (m : Z -> Z) : M ProvStore unit :=
  modify (fun s => ProvS (ps_providers s) (ps_bios s) (ps_ios s) (ps_blocks s)
                     m (ps_getbuf s) (ps_backend s) (ps_msgs s)).
Definition set_getbuf (f : gset ptr -> gset ptr) : M ProvStore unit :=
  modify (fun s => ProvS (ps_providers s) (ps_bios s) (ps_ios s) (ps_blocks s)
                     (ps_mem s) (f (ps_getbuf s)) (ps_backend s) (ps_msgs s)).
Definition set_backend (f : gset ptr -> gset ptr) : M ProvStore unit :=
  modify (fun s => ProvS (ps_providers s) (ps_bios s) (ps_ios s) (ps_blocks s)
                     (ps_mem s) (ps_getbuf s) (f (ps_backend s)) (ps_msgs s)).
Definition set_msgs (f : list batch_msg -> list batch_msg) : M ProvStore unit :=
  modify (fun s => ProvS (ps_providers s) (ps_bios s) (ps_ios s) (ps_blocks s)
                     (ps_mem s) (ps_getbuf s) (ps_backend s) (f (ps_msgs s))).

(** [malloc(n)] with the given contents, and [free]. *)
Definition malloc_block (l : list Z) : M ProvStore (option ptr) :=
  let! mp := calloc in
  match mp with
  | None => ret None
  | Some p => put_block p l ;;; ret (Some p)
  end.
Definition free_block (r : io_buffer_ref) : M ProvStore unit :=
  match r with
  | BufHeap p =>
      modify (fun s => ProvS (ps_providers s) (ps_bios s) (ps_ios s) (delete p (ps_blocks s))
                         (ps_mem s) (ps_getbuf s) (ps_backend s) (ps_msgs s)) ;;;
      free (Some p)
  | _ => ret tt
  end.

(** [spdk_bdev_io_complete]: the request and its driver context belong to SPDK. *)
Definition io_completed (b : ptr) (st : bdev_io_status) : M ProvStore unit :=
  call (SpdkBdevIoComplete b st) ;;;
  modify (fun s => ProvS (ps_providers s) (delete b (ps_bios s)) (delete b (ps_ios s)) (ps_blocks s)
                     (ps_mem s) (ps_getbuf s) (ps_backend s) (ps_msgs s)).

(** ** Completion *)

Definition complete_provider_io (b : ptr) : M ProvStore unit :=
  let! io := get_io b in
  let! bio := get_bio b in
  let! provider := get_prov (bio_provider bio) in
  let! t := spdk_get_thread in
  assert (bool_decide (t = Some (pio_submit_thread io))) ;;;
  let! copied :=
    (if (pio_status io =? 0) && pio_owns_buffer io
        && bool_decide (pio_operation io = ZETTIDE_SPDK_BDEV_PROVIDER_READ)
        && negb (pv_read_buffers_unchanged provider) then
       match pio_buffer io with
       | BufHeap p =>
           let! s := get in
           let! bytes := deref (ps_blocks s !! p) in
           let '(m, ok) := copy_to_iovs (bio_iovs bio) bytes (pio_length io) (ps_mem s) in
           put_mem m ;;; ret ok
       | _ => fail BadPointer
       end
     else ret true) in
  (if pio_owns_buffer io then free_block (pio_buffer io) else ret tt) ;;;
  io_completed b (if (pio_status io =? 0) && copied then SPDK_BDEV_IO_STATUS_SUCCESS
                  else SPDK_BDEV_IO_STATUS_FAILED).

(** The [while (io != NULL)] loop; a list without cycles has at most as many nodes
    as there are requests. *)
Fixpoint complete_chain (fuel : nat) (io : option ptr) : M ProvStore unit :=
  match io with
  | None => ret tt
  | Some b =>
      match fuel with
      | O => fail Diverged
      | S fuel =>
          let! x := get_io b in
          complete_provider_io b ;;;
          complete_chain fuel (pio_next_complete x)
      end
  end.

Definition complete_provider_io_batch (io : option ptr) : M ProvStore unit :=
  let! s := get in complete_chain (size (ps_ios s)) io.

Definition set_links (n g : option ptr) (x : provider_io) : provider_io :=
  ProviderIo (pio_submit_thread x) n g (pio_buffer x) (pio_length x) (pio_status x)
    (pio_owns_buffer x) (pio_operation x).

Definition set_status (st : Z) (x : provider_io) : provider_io :=
  ProviderIo (pio_submit_thread x) (pio_next_complete x) (pio_next_complete_group x)
    (pio_buffer x) (pio_length x) st (pio_owns_buffer x) (pio_operation x).

(** The inner [for] loop: the head of the group of thread [t], if there is one. *)
Fixpoint find_group (fuel : nat) (head : option ptr) (t : thread) : M ProvStore (option ptr) :=
  match head with
  | None => ret None
  | Some h =>
      match fuel with
      | O => fail Diverged
      | S fuel =>
          let! x := get_io h in
          if (pio_submit_thread x =? t)%nat then ret (Some h)
          else find_group fuel (pio_next_complete_group x) t
      end
  end.

(** One turn of the first loop: put the request [b] into a group. *)
Definition add_completion (groups : option ptr) (b : ptr) (st : Z) : M ProvStore (option ptr) :=
  let! io := get_io b in
  let io := set_links None None (set_status st io) in
  put_io b io ;;;
  let! s := get in
  let! head := find_group (size (ps_ios s)) groups (pio_submit_thread io) in
  match head with
  | Some h =>
      let! x := get_io h in
      put_io b (set_links (pio_next_complete x) None io) ;;;
      let! x := get_io h in
      put_io h (set_links (Some b) (pio_next_complete_group x) x) ;;;
      ret groups
  | None =>
      put_io b (set_links None groups io) ;;;
      ret (Some b)
  end.

Fixpoint group_completions (groups : option ptr) (completions : list (ptr * Z))
    : M ProvStore (option ptr) :=
  match completions with
  | [] => ret groups
  | (b, st) :: rest =>
      let! groups := add_completion groups b st in
      group_completions groups rest
  end.

(** The requests linked from [io], as far as [fuel] goes: the ghost list of a
    message. *)
Fixpoint linked (fuel : nat) (ios : gmap ptr provider_io) (io : option ptr) : list ptr :=
  match fuel, io with
  | S fuel, Some b =>
      b :: match ios !! b with Some x => linked fuel ios (pio_next_complete x) | None => [] end
  | _, _ => []
  end.

(** The second loop: complete the groups, or send them to their threads. *)
Fixpoint complete_groups (fuel : nat) (groups : option ptr) : M ProvStore unit :=
  match groups with
  | None => ret tt
  | Some h =>
      match fuel with
      | O => fail Diverged
      | S fuel =>
          let! x := get_io h in
          let! t := spdk_get_thread in
          (if bool_decide (t = Some (pio_submit_thread x)) then
             complete_provider_io_batch (Some h)
           else
             let! rc := call (SpdkThreadSendMsg (pio_submit_thread x) FnCompleteProviderIoBatch h) in
             assert (rc =? 0) ;;;
             let! s := get in
             set_msgs (cons (BatchMsg (pio_submit_thread x) h (linked (size (ps_ios s)) (ps_ios s) (Some h))))) ;;;
          complete_groups fuel (pio_next_complete_group x)
      end
  end.

(** The contexts of the completions are requests the backend owns; with the call
    they are no longer its own. *)
Definition zettide_spdk_bdev_provider_complete_batch (completions : list (ptr * Z))
    : M ProvStore unit :=
  set_backend (fun q => q ∖ list_to_set (map fst completions)) ;;;
  let! groups := group_completions None completions in
  let! s := get in
  complete_groups (size (ps_ios s)) groups.

Definition provider_backend_complete (b : ptr) (st : Z) : M ProvStore unit :=
  zettide_spdk_bdev_provider_complete_batch [(b, st)].

(** ** Submission *)

Definition cdiv (a b : Z) : M ProvStore Z :=
  if b =? 0 then fail DivByZero else ret (a / b).

Definition is_rw (op : provider_operation) : bool :=
  match op with
  | ZETTIDE_SPDK_BDEV_PROVIDER_READ | ZETTIDE_SPDK_BDEV_PROVIDER_WRITE => true
  | _ => false
  end.

(** Offset and length in bytes, [None] when they do not fit 64 bits. *)
Definition io_range (op : provider_operation) (bio : bdev_io) (blocklen : Z)
    : M ProvStore (option (Z * Z)) :=
  match op with
  | ZETTIDE_SPDK_BDEV_PROVIDER_RESET => ret (Some (0, 0))
  | _ =>
      let! limit := cdiv UINT64_MAX blocklen in
      if (bio_num_blocks bio >? limit) || (bio_offset_blocks bio >? limit) then ret None
      else ret (Some (u64 (bio_offset_blocks bio * blocklen), u64 (bio_num_blocks bio * blocklen)))
  end.

(** The buffer of a read or write; [None] is a failed allocation.  The contents of
    a new block are not defined, [junk] stands for them. *)
Definition io_buffer_for (op : provider_operation) (bio : bdev_io) (length : Z) (junk : list Z)
    : M ProvStore (option (io_buffer_ref * bool)) :=
  if is_rw op then
    match single_iov_buffer bio length with
    | Some a => ret (Some (BufFrontend a, false))
    | None =>
        let! mp := malloc_block junk in
        match mp with
        | None => ret None
        | Some p => ret (Some (BufHeap p, true))
        end
    end
  else ret (Some (BufNull, false)).

(** The contents of a write that does not fit one vector; [false] when the vectors
    are too short. *)
Definition fill_write (op : provider_operation) (bio : bdev_io) (length : Z) (r : io_buffer_ref)
    : M ProvStore bool :=
  match op, r with
  | ZETTIDE_SPDK_BDEV_PROVIDER_WRITE, BufHeap p =>
      let! s := get in
      let '(bytes, ok) := copy_from_iovs length (bio_iovs bio) (ps_mem s) in
      put_block p bytes ;;; ret ok
  | _, _ => ret true
  end.

(** The rest of [submit_provider_io] once the buffer is there. *)
Definition submit_with_buffer (b : ptr) (bio : bdev_io) (op : provider_operation) (offset length : Z)
    (r : io_buffer_ref) (owns : bool) : M ProvStore unit :=
  put_io b (ProviderIo (bio_thread bio) None None r length 0 owns op) ;;;
  let! ok := fill_write op bio length r in
  if negb ok then
    free_block r ;;; io_completed b SPDK_BDEV_IO_STATUS_FAILED
  else
  set_backend (union {[b]}) ;;;
  let! status := call (BackendSubmit op offset r length b) in
  if status !=? 0 then provider_backend_complete b status else ret tt.

Definition submit_provider_io (b : ptr) (op : provider_operation) (junk : list Z) : M ProvStore unit :=
  let! bio := get_bio b in
  let! provider := get_prov (bio_provider bio) in
  let! range := io_range op bio (pv_blocklen provider) in
  match range with
  | None => io_completed b SPDK_BDEV_IO_STATUS_FAILED
  | Some (offset, length) =>
      if length >? SIZE_MAX then io_completed b SPDK_BDEV_IO_STATUS_FAILED else
      let io := ProviderIo (bio_thread bio) None None BufNull length 0 false op in
      put_io b io ;;;
      let! buffer := io_buffer_for op bio length junk in
      match buffer with
      | None => io_completed b SPDK_BDEV_IO_STATUS_NOMEM
      | Some (r, owns) => submit_with_buffer b bio op offset length r owns
      end
  end.

Definition provider_read_get_buf (b : ptr) (success : bool) (junk : list Z) : M ProvStore unit :=
  if negb success then io_completed b SPDK_BDEV_IO_STATUS_NOMEM
  else submit_provider_io b ZETTIDE_SPDK_BDEV_PROVIDER_READ junk.

Definition provider_submit_request (b : ptr) (junk : list Z) : M ProvStore unit :=
  let! bio := get_bio b in
  match bio_type bio with
  | SPDK_BDEV_IO_TYPE_READ =>
      let! provider := get_prov (bio_provider bio) in
      call (SpdkBdevIoGetBuf b (u64 (bio_num_blocks bio * pv_blocklen provider))) ;;;
      set_getbuf (union {[b]})
  | SPDK_BDEV_IO_TYPE_WRITE => submit_provider_io b ZETTIDE_SPDK_BDEV_PROVIDER_WRITE junk
  | SPDK_BDEV_IO_TYPE_FLUSH => submit_provider_io b ZETTIDE_SPDK_BDEV_PROVIDER_FLUSH junk
  | SPDK_BDEV_IO_TYPE_RESET => submit_provider_io b ZETTIDE_SPDK_BDEV_PROVIDER_RESET junk
  | SPDK_BDEV_IO_TYPE_OTHER => io_completed b SPDK_BDEV_IO_STATUS_FAILED
  end.

Definition provider_io_type_supported (type : bdev_io_type) : bool :=
  match type with
  | SPDK_BDEV_IO_TYPE_READ | SPDK_BDEV_IO_TYPE_WRITE | SPDK_BDEV_IO_TYPE_FLUSH
  | SPDK_BDEV_IO_TYPE_RESET => true
  | SPDK_BDEV_IO_TYPE_OTHER => false
  end.

(** ** Linked lists in the requests *)

(** [l] is linked from [p] by [next_complete]. *)
Fixpoint chain (ios : gmap ptr provider_io) (p : option ptr) (l : list ptr) : Prop :=
  match l with
  | [] => p = None
  | b :: l => p = Some b /\ exists x, ios !! b = Some x /\ chain ios (pio_next_complete x) l
  end.

(** The groups are linked from [g] by [next_complete_group], each by
    [next_complete]. *)
Fixpoint groups_rep (ios : gmap ptr provider_io) (g : option ptr) (gs : list (list ptr)) : Prop :=
  match gs with
  | [] => g = None
  | [] :: _ => False
  | (h :: rest) :: gs =>
      g = Some h /\ exists x, ios !! h = Some x /\ chain ios (pio_next_complete x) rest /\
        groups_rep ios (pio_next_complete_group x) gs
  end.

(** What the loop of [complete_batch] does to the groups, without pointers. *)
Fixpoint insert_group (thr : ptr -> thread) (b : ptr) (gs : list (list ptr))
    : option (list (list ptr)) :=
  match gs with
  | [] => None
  | (h :: rest) :: gs =>
      if (thr h =? thr b)%nat then Some ((h :: b :: rest) :: gs)
      else option_map (cons (h :: rest)) (insert_group thr b gs)
  | [] :: gs => None
  end.

Definition add_group (thr : ptr -> thread) (gs : list (list ptr)) (b : ptr) : list (list ptr) :=
  match insert_group thr b gs with Some gs' => gs' | None => [b] :: gs end.

Definition group_by_thread (thr : ptr -> thread) (bs : list ptr) : list (list ptr) :=
  foldl (add_group thr) [] bs.

Definition thread_of (ios : gmap ptr provider_io) (b : ptr) : thread :=
  match ios !! b with Some x => pio_submit_thread x | None => 0%nat end.

(** Only links and statuses of requests in [B] differ. *)
Definition relinked (B : gset ptr) (ios ios' : gmap ptr provider_io) : Prop :=
  forall b, match ios !! b, ios' !! b with
  | Some x, Some x' =>
      pio_submit_thread x' = pio_submit_thread x /\ pio_buffer x' = pio_buffer x /\
      pio_length x' = pio_length x /\ pio_owns_buffer x' = pio_owns_buffer x /\
      pio_operation x' = pio_operation x /\ (b ∉ B -> x' = x)
  | None, None => True
  | _, _ => False
  end.

Lemma relinked_refl B ios : relinked B ios ios.
Proof. intros b. by destruct (ios !! b). Qed.

Lemma relinked_trans B B' ios1 ios2 ios3 :
  relinked B ios1 ios2 -> relinked B' ios2 ios3 -> relinked (B ∪ B') ios1 ios3.
Proof.
  intros H1 H2 b. specialize (H1 b). specialize (H2 b).
  destruct (ios1 !! b), (ios2 !! b), (ios3 !! b); try done.
  destruct H1 as (? & ? & ? & ? & ? & H1), H2 as (? & ? & ? & ? & ? & H2). split_and!; try congruence.
  intros Hb. rewrite H2, H1 by set_solver. done.
Qed.

Lemma relinked_mono B B' ios ios' : B ⊆ B' -> relinked B ios ios' -> relinked B' ios ios'.
Proof.
  intros HB H b. specialize (H b). destruct (ios !! b), (ios' !! b); try done.
  destruct H as (? & ? & ? & ? & ? & H). split_and!; auto.
Qed.

Lemma relinked_dom B ios ios' : relinked B ios ios' -> dom ios' = dom ios.
Proof.
  intros H. apply set_eq. intros b. rewrite !elem_of_dom. specialize (H b).
  destruct (ios !! b), (ios' !! b); try done; split; intros; eauto.
Qed.

Lemma relinked_thread B ios ios' b : relinked B ios ios' -> thread_of ios' b = thread_of ios b.
Proof.
  intros H. unfold thread_of. specialize (H b). destruct (ios !! b), (ios' !! b); try done. by destruct H.
Qed.

Lemma relinked_put B ios b x x' :
  ios !! b = Some x -> b ∈ B ->
  pio_submit_thread x' = pio_submit_thread x -> pio_buffer x' = pio_buffer x ->
  pio_length x' = pio_length x -> pio_owns_buffer x' = pio_owns_buffer x ->
  pio_operation x' = pio_operation x -> relinked B ios (<[b:=x']> ios).
Proof.
  intros Hb HB. intros. intros b'. destruct (decide (b' = b)) as [->|].
  - rewrite lookup_insert_eq, Hb. split_and!; auto. done.
  - rewrite lookup_insert_ne by done. by destruct (ios !! b').
Qed.

(** A list depends on the links of its own requests only. *)
Lemma chain_frame ios ios' p l :
  chain ios p l ->
  (forall b x, b ∈ l -> ios !! b = Some x -> exists x', ios' !! b = Some x' /\ pio_next_complete x' = pio_next_complete x) ->
  chain ios' p l.
Proof.
  revert p. induction l as [|b l IH]; intros p; simpl; [done|].
  intros (-> & x & Hx & Hl) Hf. split; [done|]. destruct (Hf b x ltac:(by left) Hx) as (x' & Hx' & Hn).
  exists x'. split; [done|]. rewrite Hn. apply IH; [done|]. intros b' y Hb'. apply Hf. by right.
Qed.

Lemma groups_frame ios ios' g gs :
  groups_rep ios g gs ->
  (forall b x, b ∈ concat gs -> ios !! b = Some x -> exists x', ios' !! b = Some x' /\
     pio_next_complete x' = pio_next_complete x /\ pio_next_complete_group x' = pio_next_complete_group x) ->
  groups_rep ios' g gs.
Proof.
  revert g. induction gs as [|[|h rest] gs IH]; intros g; simpl; [done|done|].
  intros (-> & x & Hx & Hc & Hg) Hf. split; [done|].
  destruct (Hf h x ltac:(set_solver) Hx) as (x' & Hx' & Hn & Hng). exists x'. split; [done|].
  rewrite Hn, Hng. split.
  - eapply chain_frame; [exact Hc|]. intros b y Hb Hy. destruct (Hf b y) as (y' & ? & ? & ?); [set_solver|done|eauto].
  - apply IH; [done|]. intros b y Hb Hy. apply Hf; [|done]. set_solver.
Qed.

Lemma chain_dom ios p l b : chain ios p l -> b ∈ l -> is_Some (ios !! b).
Proof.
  revert p. induction l as [|b' l IH]; intros p; simpl; [set_solver|].
  intros (-> & x & Hx & Hl) [->|Hb]%elem_of_cons; eauto.
Qed.

Lemma chain_insert ios p l b x : b ∉ l -> chain ios p l -> chain (<[b:=x]> ios) p l.
Proof.
  intros Hb Hc. eapply chain_frame; [exact Hc|]. intros b' y Hb' Hy. exists y.
  rewrite lookup_insert_ne; [done|]. intros ->. done.
Qed.

Lemma groups_insert ios g gs b x : b ∉ concat gs -> groups_rep ios g gs -> groups_rep (<[b:=x]> ios) g gs.
Proof.
  intros Hb Hc. eapply groups_frame; [exact Hc|]. intros b' y Hb' Hy. exists y.
  rewrite lookup_insert_ne; [done|]. intros ->. done.
Qed.

Lemma groups_dom ios g gs b : groups_rep ios g gs -> b ∈ concat gs -> is_Some (ios !! b).
Proof.
  revert g. induction gs as [|[|h rest] gs IH]; intros g; simpl; [set_solver|done|].
  intros (-> & x & Hx & Hc & Hg) [->|[Hb|Hb]%elem_of_app]%elem_of_cons; eauto using chain_dom.
Qed.

Lemma linked_chain ios p l fuel : chain ios p l -> (length l <= fuel)%nat -> linked fuel ios p = l.
Proof.
  revert p fuel. induction l as [|b l IH]; intros p fuel; simpl; [by intros ->; destruct fuel|].
  intros (-> & x & Hx & Hl) Hf. destruct fuel as [|fuel]; [lia|]. simpl. rewrite Hx. f_equal. apply IH; [done|lia].
Qed.

(** The head of the group of thread [t]. *)
Fixpoint find_head (thr : ptr -> thread) (t : thread) (gs : list (list ptr)) : option ptr :=
  match gs with
  | (h :: _) :: gs => if (thr h =? t)%nat then Some h else find_head thr t gs
  | _ => None
  end.

Lemma find_group_spec e t : forall gs fuel g (c : conf ProvStore),
  groups_rep (ps_ios (store c)) g gs -> (length gs <= fuel)%nat ->
  wp (find_group fuel g t) e c (returns (fun o c' =>
    c' = c /\ o = find_head (thread_of (ps_ios (store c))) t gs)).
Proof.
  induction gs as [|[|h rest] gs IH]; intros fuel g c; simpl; [|done|].
  - intros -> _. destruct fuel; by apply wp_ret.
  - intros (-> & x & Hx & Hc & Hg) Hf. destruct fuel as [|fuel]; [lia|]. cbn [find_group].
    wp_step. unfold get_io. wp_step. wp_step. eapply wp_deref; [done|].
    unfold thread_of at 1. rewrite Hx. wp_if as Ht; [by wp_step|]. apply IH; [done|lia].
Qed.

Lemma find_head_in thr t gs h : find_head thr t gs = Some h -> h ∈ concat gs.
Proof.
  induction gs as [|[|h' rest] gs IH]; simpl; [done|done|].
  destruct (thr h' =? t)%nat; [intros [= <-]; by left|]. intros Hh. right. apply elem_of_app. auto.
Qed.

Lemma find_head_none thr b gs : find_head thr (thr b) gs = None -> insert_group thr b gs = None.
Proof.
  induction gs as [|[|h rest] gs IH]; simpl; [done|done|]. destruct (thr h =? thr b)%nat; [done|].
  intros Hn. by rewrite IH.
Qed.

(** Linking [b] behind the head [h] of its group. *)
Lemma link_behind_head ios b y h x : forall gs g,
  let thr := thread_of ios in
  let ios' := <[h:=set_links (Some b) (pio_next_complete_group x) x]>
                (<[b:=set_links (pio_next_complete x) None y]> ios) in
  groups_rep ios g gs -> NoDup (b :: concat gs) -> ios !! h = Some x ->
  find_head thr (thr b) gs = Some h ->
  exists gs', insert_group thr b gs = Some gs' /\ groups_rep ios' g gs'.
Proof.
  induction gs as [|[|h0 rest] gs IH]; intros g thr ios'; simpl; [done|done|].
  intros (-> & x0 & Hx0 & Hc & Hg) Hnd Hh. apply NoDup_cons in Hnd as [Hb Hnd].
  apply NoDup_cons in Hnd as [Hh0 Hnd]. apply NoDup_app in Hnd as (Hnr & Hdis & Hng).
  assert (b <> h0 /\ b ∉ rest /\ b ∉ concat gs) as (Hb0 & Hbr & Hbg) by set_solver.
  destruct (Nat.eqb_spec (thr h0) (thr b)) as [Ht|Ht].
  - intros [= ->]. rewrite Hh in Hx0. injection Hx0 as <-. eexists. split; [done|]. simpl. split; [done|].
    exists (set_links (Some b) (pio_next_complete_group x) x). unfold ios'. rewrite lookup_insert_eq.
    split; [done|]. simpl. split.
    + split; [done|]. exists (set_links (pio_next_complete x) None y).
      rewrite lookup_insert_ne, lookup_insert_eq by done. split; [done|]. simpl.
      apply chain_insert; [set_solver|]. by apply chain_insert.
    + apply groups_insert; [set_solver|]. by apply groups_insert.
  - intros Hf. destruct (IH (pio_next_complete_group x0) Hg ltac:(by apply NoDup_cons) Hh Hf) as (gs' & Hi & Hg').
    fold thr in Hi. rewrite Hi. simpl. eexists. split; [done|]. simpl. split; [done|].
    pose proof (find_head_in _ _ _ _ Hf) as Hin. exists x0.
    assert (h <> h0) by (intros ->; apply Hh0, elem_of_app; auto). assert (h ∉ rest) by (intros Hr; exact (Hdis h Hr Hin)).
    unfold ios'. rewrite !lookup_insert_ne by done. split; [done|]. split; [|done].
    apply chain_insert; [done|]. by apply chain_insert.
Qed.

(** Only driver contexts change. *)
Definition with_ios (s : ProvStore) (ios : gmap ptr provider_io) : ProvStore :=
  ProvS (ps_providers s) (ps_bios s) ios (ps_blocks s) (ps_mem s) (ps_getbuf s) (ps_backend s) (ps_msgs s).

Lemma wp_get_io b x e (c : conf ProvStore) Q :
  ps_ios (store c) !! b = Some x -> Q (Done x) c -> wp (get_io b) e c Q.
Proof. intros Hb HQ. unfold get_io. wp_steps. by eapply wp_deref. Qed.

Lemma wp_put_io b x e (c : conf ProvStore) Q :
  Q (Done tt) (Conf (with_ios (store c) (<[b:=x]> (ps_ios (store c)))) (live c) (hist c)) ->
  wp (put_io b x) e c Q.
Proof. done. Qed.

Lemma groups_length ios g gs :
  groups_rep ios g gs -> NoDup (concat gs) -> (length gs <= size ios)%nat.
Proof.
  intros Hg Hnd.
  assert (length gs <= length (concat gs))%nat as H1.
  { clear Hnd. revert g Hg. induction gs as [|[|h rest] gs IH]; intros g; simpl; [done|done|].
    intros (_ & x & _ & _ & Hg). apply IH in Hg. rewrite length_app. lia. }
  assert (length (concat gs) <= size ios)%nat as H2; [|lia].
  rewrite <- size_dom, <- (size_list_to_set (C:=gset ptr) _ Hnd). apply subseteq_size. intros b.
  rewrite elem_of_list_to_set, elem_of_dom. by eapply groups_dom.
Qed.

Lemma add_completion_spec e s l h g gs b st y :
  groups_rep (ps_ios s) g gs -> NoDup (b :: concat gs) -> ps_ios s !! b = Some y ->
  wp (add_completion g b st) e (Conf s l h) (returns (fun g' c' => exists ios',
    c' = Conf (with_ios s ios') l h /\ relinked ({[b]} ∪ list_to_set (concat gs)) (ps_ios s) ios' /\
    groups_rep ios' g' (add_group (thread_of (ps_ios s)) gs b))).
Proof.
  intros Hg Hnd Hy. apply NoDup_cons in Hnd as Hnd'. destruct Hnd' as [Hb Hnc].
  unfold add_completion. wp_step. eapply wp_get_io; [done|]. wp_step. apply wp_put_io. simpl.
  set (y' := set_links None None (set_status st y)). set (ios1 := <[b:=y']> (ps_ios s)).
  assert (groups_rep ios1 g gs) as Hg1 by by apply groups_insert.
  assert (relinked {[b]} (ps_ios s) ios1) as Hr1 by (eapply relinked_put; [done|set_solver|done..]).
  wp_step. wp_step. wp_step.
  eapply wp_mono; [apply (find_group_spec _ _ gs); [exact Hg1|by eapply groups_length]|].
  intros [o|f|] c'; simpl; [|done|done]. intros [-> ->].
  assert (pio_submit_thread y = thread_of ios1 b) as ->.
  { unfold thread_of, ios1. by rewrite lookup_insert_eq. }
  assert (forall x, thread_of ios1 x = thread_of (ps_ios s) x) as Hthr by (intros x; by eapply relinked_thread).
  assert (forall t, find_head (thread_of ios1) t gs = find_head (thread_of (ps_ios s)) t gs) as Hfh.
  { intros t. clear - Hthr. induction gs as [|[|h' rest] gs IH]; simpl; [done|done|]. by rewrite Hthr, IH. }
  destruct (find_head (thread_of ios1) (thread_of ios1 b) gs) as [hd|] eqn:Ef.
  - pose proof (find_head_in _ _ _ _ Ef) as Hin.
    destruct (groups_dom _ _ _ _ Hg1 Hin) as [x Hx]. assert (hd <> b) as Hne by (intros ->; done).
    wp_step. eapply wp_get_io; [done|]. wp_step. apply wp_put_io. simpl.
    wp_step. eapply wp_get_io; [simpl; by rewrite lookup_insert_ne|]. wp_step. apply wp_put_io. simpl. wp_step.
    destruct (link_behind_head ios1 b y' hd x gs g Hg1 Hnd Hx Ef) as (gs' & Hi & Hg').
    eexists. split; [done|]. split.
    + eapply (relinked_mono ({[b]} ∪ ({[b]} ∪ {[hd]}))); [set_solver|].
      eapply relinked_trans; [exact Hr1|].
      apply (relinked_trans {[b]} {[hd]} _ (<[b:=set_links (pio_next_complete x) None y']> ios1)).
      * eapply (relinked_put _ ios1 b y'); [unfold ios1; by rewrite lookup_insert_eq|set_solver|done..].
      * eapply relinked_put; [by rewrite lookup_insert_ne|set_solver|done..].
    + unfold add_group. assert (insert_group (thread_of (ps_ios s)) b gs = Some gs') as ->; [|exact Hg'].
      rewrite <- Hi. clear - Hthr. induction gs as [|[|h' rest] gs IH]; simpl; [done|done|]. by rewrite !Hthr, IH.
  - wp_step. apply wp_put_io. simpl. wp_step. eexists. split; [done|]. split.
    + eapply (relinked_mono ({[b]} ∪ {[b]})); [set_solver|].
      eapply relinked_trans; [exact Hr1|].
      eapply (relinked_put _ ios1 b y'); [unfold ios1; by rewrite lookup_insert_eq|set_solver|done..].
    + unfold add_group. rewrite (find_head_none (thread_of (ps_ios s)) b gs).
      2:{ rewrite <- Hfh, <- (Hthr b). done. }
      simpl. split; [done|]. exists (set_links None g y'). rewrite lookup_insert_eq. split; [done|].
      split; [done|]. simpl. by apply groups_insert.
Qed.

(** ** Grouping *)

Lemma insert_group_perm thr b gs gs' :
  insert_group thr b gs = Some gs' -> Permutation (concat gs') (b :: concat gs).
Proof.
  revert gs'. induction gs as [|[|h rest] gs IH]; intros gs'; simpl; [done|done|].
  destruct (thr h =? thr b)%nat; [intros [= <-]; simpl; apply perm_swap|].
  destruct (insert_group thr b gs) as [gs''|]; [|done]. intros [= <-]. simpl.
  rewrite (IH _ eq_refl), <- Permutation_middle. apply perm_swap.
Qed.

Lemma add_group_perm thr gs b : Permutation (concat (add_group thr gs b)) (b :: concat gs).
Proof.
  unfold add_group. destruct (insert_group thr b gs) as [gs'|] eqn:E; [by eapply insert_group_perm|done].
Qed.

Lemma foldl_groups_perm thr bs gs :
  Permutation (concat (foldl (add_group thr) gs bs)) (rev bs ++ concat gs).
Proof.
  revert gs. induction bs as [|b bs IH]; intros gs; simpl; [done|].
  rewrite IH, add_group_perm, <- app_assoc. done.
Qed.

(** Groups are not empty, and a group has the requests of one thread. *)
Definition group_ok (thr : ptr -> thread) (grp : list ptr) : Prop :=
  exists h rest, grp = h :: rest /\ Forall (fun b => thr b = thr h) rest.

Lemma add_group_ok thr gs b : Forall (group_ok thr) gs -> Forall (group_ok thr) (add_group thr gs b).
Proof.
  intros Hgs. unfold add_group. destruct (insert_group thr b gs) as [gs'|] eqn:E.
  - revert gs' E. induction Hgs as [|grp gs (h & rest & -> & Hr) Hgs IH]; intros gs'; simpl; [done|].
    destruct (Nat.eqb_spec (thr h) (thr b)) as [Ht|].
    + intros [= <-]. constructor; [|done]. exists h, (b :: rest). split; [done|]. constructor; [done|done].
    + destruct (insert_group thr b gs) as [gs''|]; [|done]. intros [= <-]. constructor; [|by apply IH].
      by exists h, rest.
  - constructor; [|done]. exists b, []. by split.
Qed.

Lemma foldl_groups_ok thr bs gs :
  Forall (group_ok thr) gs -> Forall (group_ok thr) (foldl (add_group thr) gs bs).
Proof. revert gs. induction bs as [|b bs IH]; intros gs; simpl; auto using add_group_ok. Qed.

(** No two groups have the same thread. *)
Definition group_threads (thr : ptr -> thread) (gs : list (list ptr)) : list thread :=
  omap (fun grp => thr <$> head grp) gs.

Lemma insert_group_threads thr b gs gs' :
  insert_group thr b gs = Some gs' -> group_threads thr gs' = group_threads thr gs.
Proof.
  revert gs'. induction gs as [|[|h rest] gs IH]; intros gs'; simpl; [done|done|].
  destruct (thr h =? thr b)%nat; [by intros [= <-]|].
  destruct (insert_group thr b gs) as [gs''|]; [|done]. intros [= <-]. simpl. f_equal. by apply IH.
Qed.

Lemma insert_group_none thr b gs :
  Forall (group_ok thr) gs -> insert_group thr b gs = None -> thr b ∉ group_threads thr gs.
Proof.
  induction 1 as [|grp gs (h & rest & -> & _) _ IH]; simpl; [set_solver|].
  destruct (Nat.eqb_spec (thr h) (thr b)) as [|Hne]; [done|].
  destruct (insert_group thr b gs); [done|]. intros _. rewrite not_elem_of_cons. auto.
Qed.

Lemma foldl_groups_threads thr bs gs :
  Forall (group_ok thr) gs -> NoDup (group_threads thr gs) ->
  NoDup (group_threads thr (foldl (add_group thr) gs bs)).
Proof.
  revert gs. induction bs as [|b bs IH]; intros gs Hok Hnd; simpl; [done|].
  apply IH; [by apply add_group_ok|]. unfold add_group.
  destruct (insert_group thr b gs) as [gs'|] eqn:E; [by erewrite insert_group_threads|].
  simpl. apply NoDup_cons. split; [by apply insert_group_none|done].
Qed.

(** The first loop of [complete_batch] computes the groups in the heap. *)
Lemma group_completions_spec e l h : forall comps s g gs,
  groups_rep (ps_ios s) g gs -> NoDup (map fst comps ++ concat gs) ->
  (forall b, b ∈ map fst comps -> is_Some (ps_ios s !! b)) ->
  wp (group_completions g comps) e (Conf s l h) (returns (fun g' c' => exists ios',
    c' = Conf (with_ios s ios') l h /\
    relinked (list_to_set (map fst comps ++ concat gs)) (ps_ios s) ios' /\
    groups_rep ios' g' (foldl (add_group (thread_of (ps_ios s))) gs (map fst comps)))).
Proof.
  induction comps as [|[b st] comps IH]; intros s g gs Hg Hnd Hdom; simpl.
  { wp_step. exists (ps_ios s). split; [by destruct s|]. split; [apply relinked_refl|done]. }
  simpl in Hnd. apply NoDup_cons in Hnd as [Hb Hnd]. pose proof Hnd as (Hn1 & Hn2 & Hn3)%NoDup_app.
  destruct (Hdom b ltac:(by left)) as [y Hy]. wp_step.
  eapply wp_mono; [eapply add_completion_spec; [exact Hg| |exact Hy]|].
  { apply NoDup_cons. split; [|done]. intros Hin. apply Hb, elem_of_app. by right. }
  intros [g'|f|] c'; simpl; [|done|done]. intros (ios1 & -> & Hr1 & Hg1).
  eapply wp_mono.
  - apply (IH (with_ios s ios1) g' (add_group (thread_of (ps_ios s)) gs b)).
    + exact Hg1.
    + rewrite add_group_perm. rewrite <- Permutation_middle. by apply NoDup_cons.
    + intros b' Hb'. simpl. apply elem_of_dom. rewrite (relinked_dom _ _ _ Hr1). apply elem_of_dom.
      apply Hdom. by right.
  - intros [g''|f|] c''; simpl; [|done|done]. intros (ios2 & -> & Hr2 & Hg2). exists ios2.
    split; [done|]. split.
    + eapply relinked_mono; [|by eapply relinked_trans].
      intros x. rewrite elem_of_union, !elem_of_list_to_set, add_group_perm. set_solver.
    + assert (forall gs0, foldl (add_group (thread_of ios1)) gs0 (map fst comps) =
        foldl (add_group (thread_of (ps_ios s))) gs0 (map fst comps)) as Heq; [|by rewrite <- Heq].
      assert (forall x, thread_of ios1 x = thread_of (ps_ios s) x) as Hthr by (intros x; by eapply relinked_thread).
      assert (forall gs0 x, add_group (thread_of ios1) gs0 x = add_group (thread_of (ps_ios s)) gs0 x) as Hag.
      { intros gs0 x. unfold add_group. assert (insert_group (thread_of ios1) x gs0 =
          insert_group (thread_of (ps_ios s)) x gs0) as ->; [|done].
        induction gs0 as [|[|h' rest] gs0 IHg]; simpl; [done|done|]. by rewrite !Hthr, IHg. }
      clear - Hag. induction (map fst comps) as [|x bs IHb]; intros gs0; simpl; [done|]. by rewrite Hag, IHb.
Qed.

(** ** Invariant *)

Definition in_msgs (ms : list batch_msg) : list ptr := concat (map bm_ios ms).

Lemma elem_of_in_msgs b ms : b ∈ in_msgs ms <-> exists m, m ∈ ms /\ b ∈ bm_ios m.
Proof.
  induction ms as [|m ms IH]; unfold in_msgs in *; simpl.
  - split; [set_solver|]. intros (m & Hm & _). set_solver.
  - rewrite elem_of_app, IH. split.
    + intros [Hb|(m' & Hm & Hb)]; [exists m|exists m']; split; try done; [by left|by right].
    + intros (m' & [->|Hm]%elem_of_cons & Hb); [by left|right; eauto].
Qed.

(** The requests of a message are linked from its head and belong to its thread. *)
Definition msg_ok (ios : gmap ptr provider_io) (m : batch_msg) : Prop :=
  chain ios (Some (bm_head m)) (bm_ios m) /\
  Forall (fun b => thread_of ios b = bm_thread m) (bm_ios m).

(** The messages depend on the links and threads of their own requests only. *)
Lemma msgs_frame ios ios' ms :
  Forall (msg_ok ios) ms ->
  (forall b x, b ∈ in_msgs ms -> ios !! b = Some x -> exists x', ios' !! b = Some x' /\
     pio_next_complete x' = pio_next_complete x /\ pio_submit_thread x' = pio_submit_thread x) ->
  Forall (msg_ok ios') ms.
Proof.
  intros Hms Hf. rewrite Forall_forall in Hms. apply Forall_forall. intros m Hm.
  destruct (Hms m Hm) as [Hc Ht]. assert (forall b, b ∈ bm_ios m -> b ∈ in_msgs ms) as Hin.
  { intros b Hb. apply elem_of_in_msgs. eauto. }
  split.
  - eapply chain_frame; [exact Hc|]. intros b x Hb Hx. destruct (Hf b x (Hin b Hb) Hx) as (x' & ? & ? & _). eauto.
  - rewrite Forall_forall in Ht. apply Forall_forall. intros b Hb. rewrite <- (Ht b Hb). unfold thread_of.
    destruct (chain_dom _ _ _ _ Hc Hb) as [x Hx]. destruct (Hf b x (Hin b Hb) Hx) as (x' & Hx' & _ & Heq).
    by rewrite Hx, Hx'.
Qed.

Lemma msgs_delete ios ms b :
  Forall (msg_ok ios) ms -> b ∉ in_msgs ms -> Forall (msg_ok (delete b ios)) ms.
Proof.
  intros Hms Hb. eapply msgs_frame; [exact Hms|]. intros b' x Hb' Hx. exists x.
  rewrite lookup_delete_ne; [done|]. intros ->. done.
Qed.

Lemma msgs_insert ios ms b x :
  Forall (msg_ok ios) ms -> b ∉ in_msgs ms -> Forall (msg_ok (<[b:=x]> ios)) ms.
Proof.
  intros Hms Hb. eapply msgs_frame; [exact Hms|]. intros b' y Hb' Hy. exists y.
  rewrite lookup_insert_ne; [done|]. intros ->. done.
Qed.

(** A driver context belongs to its request, and its flag says whether its buffer is
    a block of the heap. *)
Definition io_ok (bios : gmap ptr bdev_io) (blocks : gmap ptr (list Z)) (b : ptr) (x : provider_io) : Prop :=
  (exists bio, bios !! b = Some bio /\ pio_submit_thread x = bio_thread bio) /\
  if pio_owns_buffer x then exists p, pio_buffer x = BufHeap p /\ is_Some (blocks !! p)
  else forall p, pio_buffer x <> BufHeap p.

Definition is_completion (b : ptr) (ev : event) : bool :=
  match ev with EvCall (SpdkBdevIoComplete b' _) _ => (b =? b')%nat | _ => false end.

(** How often request [b] was completed. *)
Definition completions (b : ptr) (h : list event) : Z := count_events (is_completion b) h.

(** [W]: the requests a function is working on.  Every other request is owned by
    SPDK (which fetches a buffer), by the backend or by a message, and by one of
    them only. *)
Record prov_inv (W : gset ptr) (c : conf ProvStore) : Prop := {
  pi_conf : conf_ok c;
  pi_blocks : forall p l, ps_blocks (store c) !! p = Some l -> p ∈ live c;
  pi_ios : forall b x, ps_ios (store c) !! b = Some x -> io_ok (ps_bios (store c)) (ps_blocks (store c)) b x;
  pi_distinct : forall b b' x x' p, ps_ios (store c) !! b = Some x -> ps_ios (store c) !! b' = Some x' ->
    pio_buffer x = BufHeap p -> pio_buffer x' = BufHeap p -> b = b';
  pi_prov : forall b bio, ps_bios (store c) !! b = Some bio -> exists pv,
    ps_providers (store c) !! bio_provider bio = Some pv /\ 0 < pv_blocklen pv;
  pi_owner : forall b, b ∈ dom (ps_bios (store c)) <->
    b ∈ W \/ b ∈ ps_getbuf (store c) \/ b ∈ ps_backend (store c) \/ b ∈ in_msgs (ps_msgs (store c));
  pi_work : W ## ps_getbuf (store c) ∪ ps_backend (store c) ∪ list_to_set (in_msgs (ps_msgs (store c)));
  pi_getbuf : ps_getbuf (store c) ## ps_backend (store c) ∪ list_to_set (in_msgs (ps_msgs (store c)));
  pi_backend : ps_backend (store c) ## list_to_set (in_msgs (ps_msgs (store c)));
  pi_msgs : Forall (msg_ok (ps_ios (store c))) (ps_msgs (store c));
  pi_nodup : NoDup (in_msgs (ps_msgs (store c)));
  pi_run : ps_backend (store c) ⊆ dom (ps_ios (store c));
  pi_once : forall b, completions b (hist c) <= 1;
  pi_zero : forall b, b ∈ dom (ps_bios (store c)) -> completions b (hist c) = 0;
}.

(** A request disappears only when it is completed. *)
Definition prov_evolves (c c' : conf ProvStore) : Prop :=
  hist c `suffix_of` hist c' /\
  forall b, b ∈ dom (ps_bios (store c)) -> b ∈ dom (ps_bios (store c')) \/ 1 <= completions b (hist c').

Lemma completions_mono b h h' : h `suffix_of` h' -> completions b h <= completions b h'.
Proof.
  intros [k ->]. unfold completions. rewrite count_events_app.
  pose proof (count_events_nonneg (is_completion b) k). lia.
Qed.

Lemma prov_evolves_trans c1 c2 c3 : prov_evolves c1 c2 -> prov_evolves c2 c3 -> prov_evolves c1 c3.
Proof.
  intros [H1 R1] [H2 R2]. split; [by trans (hist c2)|]. intros b Hb.
  destruct (R1 b Hb) as [Hin|Hcb]; [by apply R2|]. right. pose proof (completions_mono b _ _ H2). lia.
Qed.

Lemma prov_evolves_refl c : prov_evolves c c.
Proof. split; auto. Qed.

Definition quiet_prov (ev : event) : Prop := forall b, is_completion b ev = false.

Lemma pinv_log W s l h ev : prov_inv W (Conf s l h) -> quiet_prov ev -> prov_inv W (Conf s l (ev :: h)).
Proof.
  intros [] Hq. split; simpl in *; try assumption; auto.
  - by apply (conf_ok_log (Conf s l h)).
  - intros b. specialize (pi_once0 b). unfold completions in *. simpl. rewrite Hq. lia.
  - intros b Hb. specialize (pi_zero0 b Hb). unfold completions in *. simpl. rewrite Hq. lia.
Qed.

(** Requests in [W] may be linked in any way. *)
Lemma pinv_relinked W B s l h ios' :
  prov_inv W (Conf s l h) -> B ⊆ W -> relinked B (ps_ios s) ios' -> prov_inv W (Conf (with_ios s ios') l h).
Proof.
  intros [] HB Hr. simpl in *.
  assert (forall b x', ios' !! b = Some x' -> exists x, ps_ios s !! b = Some x /\
    pio_submit_thread x' = pio_submit_thread x /\ pio_buffer x' = pio_buffer x /\
    pio_owns_buffer x' = pio_owns_buffer x /\ (b ∉ B -> x' = x)) as Hback.
  { intros b x' Hx'. specialize (Hr b). rewrite Hx' in Hr. destruct (ps_ios s !! b) as [x|]; [|done].
    exists x. naive_solver. }
  split; simpl in *; try assumption; auto.
  - intros b x' Hx'. destruct (Hback b x' Hx') as (x & Hx & Ht & Hb & Ho & _).
    destruct (pi_ios0 b x Hx) as [(bio & Hbio & Hth) Hbuf]. unfold io_ok. rewrite Ht, Hb, Ho. eauto.
  - intros b b' x x' p (y & Hy & _ & Hb & _)%Hback (y' & Hy' & _ & Hb' & _)%Hback. rewrite Hb, Hb'. eauto.
  - eapply msgs_frame; [exact pi_msgs0|]. intros b x Hb Hx. specialize (Hr b). rewrite Hx in Hr.
    destruct (ios' !! b) as [x'|]; [|done]. exists x'. split; [done|].
    destruct Hr as (Ht & _ & _ & _ & _ & Heq). rewrite Heq by set_solver. done.
  - by rewrite (relinked_dom _ _ _ Hr).
Qed.

(** Requests move from the backend to the working set. *)
Lemma pinv_take_backend W pv bs xs bl mm gb bk ms l h B :
  prov_inv W (Conf (ProvS pv bs xs bl mm gb bk ms) l h) -> B ⊆ bk ->
  prov_inv (W ∪ B) (Conf (ProvS pv bs xs bl mm gb (bk ∖ B) ms) l h).
Proof.
  intros [] HB. simpl in *. split; simpl in *; try assumption.
  - intros b. rewrite pi_owner0, elem_of_union, elem_of_difference.
    destruct (decide (b ∈ B)) as [Hb|Hb]; [pose proof (HB b Hb)|]; tauto.
  - set_solver.
  - set_solver.
  - set_solver.
  - set_solver.
Qed.

(** ** Completing requests *)

Lemma wp_get_bio b x e (c : conf ProvStore) Q :
  ps_bios (store c) !! b = Some x -> Q (Done x) c -> wp (get_bio b) e c Q.
Proof. intros Hb HQ. unfold get_bio. wp_steps. by eapply wp_deref. Qed.

Lemma wp_get_prov b x e (c : conf ProvStore) Q :
  ps_providers (store c) !! b = Some x -> Q (Done x) c -> wp (get_prov b) e c Q.
Proof. intros Hb HQ. unfold get_prov. wp_steps. by eapply wp_deref. Qed.

(** A request of the working set is completed; its block, if it had one, is
    already gone. *)
Lemma pinv_complete W pv bs xs bl mm gb bk ms l h b st (u : unit) :
  prov_inv W (Conf (ProvS pv bs xs bl mm gb bk ms) l h) -> b ∈ W ->
  prov_inv (W ∖ {[b]}) (Conf (ProvS pv (delete b bs) (delete b xs) bl mm gb bk ms) l
    (EvCall (SpdkBdevIoComplete b st : call_sig) u :: h)).
Proof.
  intros [] HbW. simpl in *.
  assert (b ∈ dom bs) as Hbs by (apply pi_owner0; by left).
  assert (b ∉ in_msgs ms /\ b ∉ gb /\ b ∉ bk) as (Hnm & Hngb & Hnbk) by set_solver.
  split; simpl in *; try assumption.
  - by apply (conf_ok_log (Conf (ProvS pv bs xs bl mm gb bk ms) l h)).
  - intros b' x [Hne Hx]%lookup_delete_Some. destruct (pi_ios0 b' x Hx) as [(bio & Hbio & Ht) Hbuf].
    split; [|done]. exists bio. by rewrite lookup_delete_ne.
  - intros b1 b2 x1 x2 p [_ H1]%lookup_delete_Some [_ H2]%lookup_delete_Some. eauto.
  - intros b' bio [_ Hbio]%lookup_delete_Some. eauto.
  - intros b'. rewrite dom_delete_L, elem_of_difference, pi_owner0. destruct (decide (b' = b)) as [->|]; set_solver.
  - set_solver.
  - by apply msgs_delete.
  - rewrite dom_delete_L. set_solver.
  - intros b'. specialize (pi_once0 b'). unfold completions in *. simpl.
    destruct (Nat.eqb_spec b' b) as [->|]; [|lia]. rewrite pi_zero0 by done. lia.
  - intros b'. rewrite dom_delete_L, elem_of_difference, elem_of_singleton. intros [Hb' Hne].
    specialize (pi_zero0 b' Hb'). unfold completions in *. simpl.
    rewrite (proj2 (Nat.eqb_neq b' b)) by done. lia.
Qed.

(** The block of a request that is about to be completed may be freed: the request
    no longer counts. *)
Lemma pinv_free_block W pv bs xs bl mm gb bk ms l h b x p :
  prov_inv W (Conf (ProvS pv bs xs bl mm gb bk ms) l h) -> b ∈ W -> xs !! b = Some x ->
  pio_buffer x = BufHeap p ->
  prov_inv W (Conf (ProvS pv bs (delete b xs) (delete p bl) mm gb bk ms) (l ∖ {[p]}) (EvFree p :: h)).
Proof.
  intros [] HbW Hx Hp. simpl in *.
  assert (b ∉ in_msgs ms /\ b ∉ bk) as (Hnm & Hnbk) by set_solver.
  split; simpl in *; try assumption.
  - by apply (conf_ok_free (ProvS pv bs xs bl mm gb bk ms)).
  - intros q lq [Hne Hq]%lookup_delete_Some. apply pi_blocks0 in Hq. set_solver.
  - intros b' y [Hne Hy]%lookup_delete_Some. destruct (pi_ios0 b' y Hy) as [Hbio Hbuf]. split; [done|].
    destruct (pio_owns_buffer y); [|done]. destruct Hbuf as (q & Hq & Hs). exists q. split; [done|].
    rewrite lookup_delete_ne; [done|]. intros ->. apply Hne. by eapply pi_distinct0.
  - intros b1 b2 x1 x2 q [_ H1]%lookup_delete_Some [_ H2]%lookup_delete_Some. eauto.
  - by apply msgs_delete.
  - rewrite dom_delete_L. set_solver.
Qed.

(** The requests in [B] were completed; nothing else changed hands. *)
Record completed_all (B : gset ptr) (c c' : conf ProvStore) : Prop := {
  ca_bios : dom (ps_bios (store c')) = dom (ps_bios (store c)) ∖ B;
  ca_ios : forall b, b ∉ B -> ps_ios (store c') !! b = ps_ios (store c) !! b;
  ca_getbuf : ps_getbuf (store c') = ps_getbuf (store c);
  ca_backend : ps_backend (store c') = ps_backend (store c);
  ca_msgs : ps_msgs (store c') = ps_msgs (store c);
  ca_hist : hist c `suffix_of` hist c';
  ca_done : forall b, b ∈ B -> 1 <= completions b (hist c');
}.

Lemma wp_free_block p e (c : conf ProvStore) Q :
  p ∈ live c ->
  (let s := store c in
   Q (Done tt) (Conf (ProvS (ps_providers s) (ps_bios s) (ps_ios s) (delete p (ps_blocks s))
                        (ps_mem s) (ps_getbuf s) (ps_backend s) (ps_msgs s)) (live c ∖ {[p]})
                  (EvFree p :: hist c))) ->
  wp (free_block (BufHeap p)) e c Q.
Proof. intros Hp HQ. unfold free_block. wp_step. wp_step. by apply wp_free. Qed.

Lemma wp_io_completed b st e (c : conf ProvStore) Q :
  (let s := store c in
   Q (Done tt) (Conf (ProvS (ps_providers s) (delete b (ps_bios s)) (delete b (ps_ios s)) (ps_blocks s)
                        (ps_mem s) (ps_getbuf s) (ps_backend s) (ps_msgs s)) (live c)
                  (EvCall (SpdkBdevIoComplete b st : call_sig) tt :: hist c))) ->
  wp (io_completed b st) e c Q.
Proof. intros HQ. unfold io_completed. wp_step. wp_step. destruct r. by wp_step. Qed.

Lemma completed_one b st (u : unit) pv bs xs bl bl' mm mm' gb bk ms l l' h h' :
  h `suffix_of` h' ->
  completed_all {[b]} (Conf (ProvS pv bs xs bl mm gb bk ms) l h)
    (Conf (ProvS pv (delete b bs) (delete b xs) bl' mm' gb bk ms) l'
      (EvCall (SpdkBdevIoComplete b st : call_sig) u :: h')).
Proof.
  intros Hh. split; simpl; try done.
  - by rewrite dom_delete_L.
  - intros b' Hb'. rewrite lookup_delete_ne; [done|]. set_solver.
  - by apply suffix_cons_r.
  - intros b' ->%elem_of_singleton. unfold completions. simpl. rewrite Nat.eqb_refl.
    pose proof (count_events_nonneg (is_completion b) h'). lia.
Qed.

Lemma pinv_mem W pv bs xs bl mm mm' gb bk ms l h :
  prov_inv W (Conf (ProvS pv bs xs bl mm gb bk ms) l h) ->
  prov_inv W (Conf (ProvS pv bs xs bl mm' gb bk ms) l h).
Proof. intros []. split; assumption. Qed.

Lemma complete_provider_io_spec e (c : conf ProvStore) W b x :
  prov_inv W c -> b ∈ W -> ps_ios (store c) !! b = Some x -> cur_thread e = Some (pio_submit_thread x) ->
  wp (complete_provider_io b) e c (returns (fun _ c' =>
    prov_inv (W ∖ {[b]}) c' /\ completed_all {[b]} c c')).
Proof.
  destruct c as [[pv bs xs bl mm gb bk ms] l h]. intros Hi HbW Hx Ht. simpl in *.
  destruct (pi_ios _ _ Hi b x Hx) as [(bio & Hbio & Hth) Hbuf]. simpl in Hbio, Hbuf.
  destruct (pi_prov _ _ Hi b bio Hbio) as (pr & Hpr & _). simpl in Hpr.
  assert (forall mm' st, wp ((if pio_owns_buffer x then free_block (pio_buffer x) else ret tt) ;;; io_completed b st) e
    (Conf (ProvS pv bs xs bl mm' gb bk ms) l h) (returns (fun _ c' =>
      prov_inv (W ∖ {[b]}) c' /\ completed_all {[b]} (Conf (ProvS pv bs xs bl mm gb bk ms) l h) c'))) as Hend.
  { intros mm' st. pose proof (pinv_mem _ _ _ _ _ _ mm' _ _ _ _ _ Hi) as Hi'.
    destruct (pio_owns_buffer x).
    - destruct Hbuf as (p & Hp & [lp Hlp]). rewrite Hp. wp_step.
      apply wp_free_block; [exact (pi_blocks _ _ Hi p lp Hlp)|]. simpl. apply wp_io_completed. simpl.
      split; [|apply completed_one; by apply suffix_cons_r].
      pose proof (pinv_complete _ _ _ _ _ _ _ _ _ _ _ b st tt (pinv_free_block _ _ _ _ _ _ _ _ _ _ _ _ _ _ Hi' HbW Hx Hp) HbW) as Hf.
      by rewrite delete_delete_eq in Hf.
    - wp_step. wp_step. apply wp_io_completed. simpl. split; [by apply pinv_complete|by apply completed_one]. }
  unfold complete_provider_io. wp_step. eapply wp_get_io; [done|]. wp_step. eapply wp_get_bio; [done|].
  wp_step. eapply wp_get_prov; [done|]. wp_step. wp_step. wp_step.
  apply wp_assert; [simpl; rewrite Ht; by apply bool_decide_eq_true|]. wp_step. wp_if as Hcopy.
  - breflect. rewrite H2 in Hbuf. destruct Hbuf as (p & Hp & [lp Hlp]). rewrite Hp.
    wp_step. wp_step. wp_step. eapply wp_deref; [done|]. simpl.
    destruct (copy_to_iovs (bio_iovs bio) lp (pio_length x) mm) as [mm' ok]. wp_step. unfold put_mem. wp_step.
    wp_step. rewrite H2. simpl. specialize (Hend mm'). rewrite H2, Hp in Hend. apply Hend.
  - wp_step. apply Hend.
Qed.

Lemma completed_all_trans B B' c1 c2 c3 :
  completed_all B c1 c2 -> completed_all B' c2 c3 -> completed_all (B ∪ B') c1 c3.
Proof.
  intros [A1 A2 A3 A4 A5 A6 A7] [C1 C2 C3 C4 C5 C6 C7]. split; try congruence.
  - rewrite C1, A1. set_solver.
  - intros b Hb. rewrite C2, A2 by set_solver. done.
  - by trans (hist c2).
  - intros b [Hb|Hb]%elem_of_union; [|by apply C7].
    pose proof (completions_mono b _ _ C6). specialize (A7 b Hb). lia.
Qed.

Lemma completed_all_evolves B c c' : completed_all B c c' -> prov_evolves c c'.
Proof.
  intros [A1 A2 A3 A4 A5 A6 A7]. split; [done|]. intros b Hb. rewrite A1.
  destruct (decide (b ∈ B)) as [HB|HB]; [right; auto|left; set_solver].
Qed.

Lemma complete_chain_spec e t : forall lst fuel p W (c : conf ProvStore),
  prov_inv W c -> chain (ps_ios (store c)) p lst -> NoDup lst -> list_to_set lst ⊆ W ->
  Forall (fun b => thread_of (ps_ios (store c)) b = t) lst -> cur_thread e = Some t ->
  (length lst <= fuel)%nat ->
  wp (complete_chain fuel p) e c (returns (fun _ c' =>
    prov_inv (W ∖ list_to_set lst) c' /\ completed_all (list_to_set lst) c c')).
Proof.
  induction lst as [|b lst IH]; intros fuel p W c Hi Hc Hnd Hsub Hthr Ht Hf; simpl in Hc.
  - subst p. destruct fuel; apply wp_ret; simpl; rewrite difference_empty_L; split; try done;
      by split; try done; try (by rewrite difference_empty_L).
  - destruct Hc as (-> & x & Hx & Hc). destruct fuel as [|fuel]; [simpl in Hf; lia|]. cbn [complete_chain].
    apply NoDup_cons in Hnd as [Hb Hnd]. apply Forall_cons in Hthr as [Htb Hthr].
    unfold thread_of in Htb. rewrite Hx in Htb. simpl in Hsub.
    wp_step. eapply wp_get_io; [done|]. wp_step.
    eapply wp_mono; [eapply complete_provider_io_spec; [exact Hi|set_solver|exact Hx|congruence]|].
    intros [u|f|] c'; simpl; [|done|done]. intros [Hi' Ha].
    assert (forall b', b' ∈ lst -> ps_ios (store c') !! b' = ps_ios (store c) !! b') as Hsame.
    { intros b' Hb'. apply (ca_ios _ _ _ Ha). set_solver. }
    eapply wp_mono; [apply (IH fuel _ (W ∖ {[b]}) c' Hi')|].
    + eapply chain_frame; [exact Hc|]. intros b' y Hb' Hy. exists y. by rewrite Hsame.
    + done.
    + intros b' Hb'. assert (b' ∈ lst) by set_solver. assert (b' <> b) by (intros ->; done). set_solver.
    + apply Forall_forall. intros b' Hb'. unfold thread_of. rewrite Hsame by done.
      exact (proj1 (Forall_forall _ _) Hthr b' Hb').
    + done.
    + simpl in Hf. lia.
    + intros [u'|f|] c''; simpl; [|done|done]. intros [Hi'' Ha'].
      replace (W ∖ ({[b]} ∪ list_to_set lst)) with (W ∖ {[b]} ∖ list_to_set lst) by set_solver.
      split; [done|]. by eapply completed_all_trans.
Qed.

(** A chain has no more nodes than there are requests. *)
Lemma chain_length ios p lst : chain ios p lst -> NoDup lst -> (length lst <= size ios)%nat.
Proof.
  intros Hc Hnd. rewrite <- size_dom, <- (size_list_to_set (C:=gset ptr) _ Hnd). apply subseteq_size.
  intros b. rewrite elem_of_list_to_set, elem_of_dom. by eapply chain_dom.
Qed.

(** A group of the working set becomes a message. *)
Lemma pinv_send W pv bs xs bl mm gb bk ms l h t hd lst :
  prov_inv W (Conf (ProvS pv bs xs bl mm gb bk ms) l h) -> chain xs (Some hd) lst -> NoDup lst ->
  list_to_set lst ⊆ W -> Forall (fun b => thread_of xs b = t) lst ->
  prov_inv (W ∖ list_to_set lst) (Conf (ProvS pv bs xs bl mm gb bk (BatchMsg t hd lst :: ms)) l h).
Proof.
  intros [] Hc Hnd Hsub Ht. simpl in *.
  assert (in_msgs (BatchMsg t hd lst :: ms) = lst ++ in_msgs ms) as Hm by done.
  split; simpl; try assumption; rewrite ?Hm.
  - intros b. rewrite pi_owner0, elem_of_difference, elem_of_list_to_set, elem_of_app.
    destruct (decide (b ∈ lst)) as [Hb|Hb]; [|tauto].
    assert (b ∈ W) by (apply Hsub; by apply elem_of_list_to_set). tauto.
  - rewrite list_to_set_app_L. set_solver.
  - rewrite list_to_set_app_L. set_solver.
  - rewrite list_to_set_app_L. set_solver.
  - by constructor.
  - apply NoDup_app. split; [done|]. split; [|done]. intros b Hb Hb'. set_solver.
Qed.

Lemma batch_chain_spec e t lst hd W (c : conf ProvStore) :
  prov_inv W c -> chain (ps_ios (store c)) (Some hd) lst -> NoDup lst -> list_to_set lst ⊆ W ->
  Forall (fun b => thread_of (ps_ios (store c)) b = t) lst -> cur_thread e = Some t ->
  wp (complete_provider_io_batch (Some hd)) e c (returns (fun _ c' =>
    prov_inv (W ∖ list_to_set lst) c' /\ completed_all (list_to_set lst) c c')).
Proof.
  intros. unfold complete_provider_io_batch. wp_step. wp_step.
  eapply complete_chain_spec; try done. by eapply chain_length.
Qed.

(** One turn of the second loop of [complete_batch]. *)
Lemma complete_group_spec e (c : conf ProvStore) W h rest x :
  prov_inv W c -> ps_ios (store c) !! h = Some x -> chain (ps_ios (store c)) (Some h) (h :: rest) ->
  NoDup (h :: rest) -> list_to_set (h :: rest) ⊆ W ->
  Forall (fun b => thread_of (ps_ios (store c)) b = pio_submit_thread x) (h :: rest) ->
  (forall h t fn y, oracle e h (SpdkThreadSendMsg t fn y) = 0) ->
  wp (let! t := spdk_get_thread in
      if bool_decide (t = Some (pio_submit_thread x)) then complete_provider_io_batch (Some h)
      else
        let! rc := call (SpdkThreadSendMsg (pio_submit_thread x) FnCompleteProviderIoBatch h) in
        assert (rc =? 0) ;;;
        let! s := get in
        set_msgs (cons (BatchMsg (pio_submit_thread x) h (linked (size (ps_ios s)) (ps_ios s) (Some h))))) e c
    (returns (fun _ c' => prov_inv (W ∖ list_to_set (h :: rest)) c' /\ prov_evolves c c' /\
       forall b, b ∉ h :: rest -> ps_ios (store c') !! b = ps_ios (store c) !! b)).
Proof.
  intros Hi Hx Hc Hnd Hsub Hthr Hsend. wp_step. wp_step. wp_if as Ht; breflect.
  - eapply wp_mono; [eapply batch_chain_spec; [exact Hi|exact Hc|done|done|exact Hthr|done]|].
    intros [u|f|] c'; simpl; [|done|done]. intros [Hi' Ha]. split; [done|].
    split; [by eapply completed_all_evolves|]. intros b Hb. apply (ca_ios _ _ _ Ha). set_solver.
  - destruct c as [[pv bs xs bl mm gb bk ms] l hh]. simpl in *.
    wp_step. wp_known Hsend. wp_step. apply wp_assert; [done|]. wp_step. wp_step.
    unfold set_msgs. wp_step. simpl. rewrite (linked_chain xs (Some h) (h :: rest) (size xs) Hc).
    2:{ by eapply chain_length. }
    split; [|split; [|done]].
    + apply (pinv_send W pv bs xs bl mm gb bk ms l _ (pio_submit_thread x) h (h :: rest)); try done.
      by apply pinv_log.
    + split; [by apply suffix_cons_r|]. simpl. auto.
Qed.

Lemma complete_groups_spec e : forall gs fuel g W (c : conf ProvStore),
  prov_inv W c -> groups_rep (ps_ios (store c)) g gs -> NoDup (concat gs) -> list_to_set (concat gs) ⊆ W ->
  Forall (group_ok (thread_of (ps_ios (store c)))) gs -> (length gs <= fuel)%nat ->
  (forall h t fn y, oracle e h (SpdkThreadSendMsg t fn y) = 0) ->
  wp (complete_groups fuel g) e c (returns (fun _ c' =>
    prov_inv (W ∖ list_to_set (concat gs)) c' /\ prov_evolves c c')).
Proof.
  induction gs as [|grp gs IH]; intros fuel g W c Hi Hg Hnd Hsub Hok Hf Hsend.
  { simpl in Hg. subst g. simpl. destruct fuel; apply wp_ret; simpl; rewrite difference_empty_L;
      split; try done; apply prov_evolves_refl. }
  apply Forall_cons in Hok as [(h & rest & -> & Hthr) Hok]. cbn [groups_rep] in Hg.
  destruct Hg as (-> & x & Hx & Hc & Hg). destruct fuel as [|fuel]; [simpl in Hf; lia|].
  cbn [concat] in *. apply NoDup_app in Hnd as (Hn1 & Hn2 & Hn3). rewrite list_to_set_app_L in *.
  cbn [complete_groups]. wp_step. eapply wp_get_io; [done|].
  assert (thread_of (ps_ios (store c)) h = pio_submit_thread x) as Hth by (unfold thread_of; by rewrite Hx).
  assert (forall c', prov_inv (W ∖ list_to_set (h :: rest)) c' /\ prov_evolves c c' /\
      (forall b, b ∉ h :: rest -> ps_ios (store c') !! b = ps_ios (store c) !! b) ->
    wp (complete_groups fuel (pio_next_complete_group x)) e c' (returns (fun _ c' =>
      prov_inv (W ∖ (list_to_set (h :: rest) ∪ list_to_set (concat gs))) c' /\ prov_evolves c c'))) as Hrest.
  { intros c' (Hi' & He & Hsame).
    assert (forall b, b ∈ concat gs -> ps_ios (store c') !! b = ps_ios (store c) !! b) as Hsame'.
    { intros b Hb. apply Hsame. intros Hb'. exact (Hn2 b Hb' Hb). }
    eapply wp_mono; [apply (IH fuel _ (W ∖ list_to_set (h :: rest)) c' Hi')|].
    - eapply groups_frame; [exact Hg|]. intros b y Hb Hy. exists y. by rewrite Hsame'.
    - done.
    - intros b Hb. apply elem_of_difference. split; [set_solver|].
      rewrite elem_of_list_to_set in Hb |- *. intros Hb'. exact (Hn2 b Hb' Hb).
    - apply Forall_forall. intros grp Hgrp. destruct (proj1 (Forall_forall _ _) Hok grp Hgrp) as (h' & r' & -> & Hr').
      assert (forall b, b ∈ h' :: r' -> b ∈ concat gs) as Hin.
      { intros b Hb. apply list_elem_of_In, in_concat. exists (h' :: r').
        split; by apply list_elem_of_In. }
      exists h', r'. split; [done|]. apply Forall_forall. intros b Hb.
      unfold thread_of. rewrite !Hsame' by (apply Hin; set_solver).
      exact (proj1 (Forall_forall _ _) Hr' b Hb).
    - simpl in Hf. lia.
    - done.
    - intros [u|f|] c''; simpl; [|done|done]. intros [Hi'' He'].
      split; [|by eapply prov_evolves_trans].
      replace (W ∖ ({[h]} ∪ list_to_set rest ∪ list_to_set (concat gs)))
        with (W ∖ ({[h]} ∪ list_to_set rest) ∖ list_to_set (concat gs)) by set_solver. exact Hi''. }
  pose proof (complete_group_spec e c W h rest x Hi Hx) as Hgrp.
  specialize (Hgrp ltac:(simpl; eauto) Hn1 ltac:(set_solver)).
  specialize (Hgrp ltac:(constructor; [done|]; eapply Forall_impl; [exact Hthr|]; simpl; congruence) Hsend).
  wp_step. wp_step. wp_step.
  eapply wp_mono; [exact Hgrp|]. intros [[]|f|] c'; simpl; [|done|done]. apply Hrest.
Qed.

Lemma complete_batch_spec e W (c : conf ProvStore) comps :
  prov_inv W c -> NoDup (map fst comps) -> list_to_set (map fst comps) ⊆ ps_backend (store c) ->
  (forall h t fn y, oracle e h (SpdkThreadSendMsg t fn y) = 0) ->
  wp (zettide_spdk_bdev_provider_complete_batch comps) e c (returns (fun _ c' =>
    prov_inv W c' /\ prov_evolves c c')).
Proof.
  destruct c as [[pv bs xs bl mm gb bk ms] l h]. intros Hi Hnd Hsub Hsend. simpl in *.
  unfold zettide_spdk_bdev_provider_complete_batch. wp_step. unfold set_backend. wp_step. simpl.
  pose proof (pinv_take_backend _ _ _ _ _ _ _ _ _ _ _ _ Hi Hsub) as Hi1.
  set (B := list_to_set (map fst comps) : gset ptr) in *.
  assert (W ## B) as HWB. { pose proof (pi_work _ _ Hi). simpl in *. set_solver. }
  wp_step. eapply wp_mono.
  { apply (group_completions_spec e l h comps (ProvS pv bs xs bl mm gb (bk ∖ B) ms) None []); [done| |].
    - simpl. by rewrite app_nil_r.
    - intros b Hb. simpl. apply elem_of_dom. apply (pi_run _ _ Hi). simpl. apply Hsub. unfold B.
      by apply elem_of_list_to_set. }
  intros [g|f|] c'; simpl; [|done|done]. rewrite app_nil_r. intros (ios' & -> & Hr & Hg).
  assert (list_to_set (concat (foldl (add_group (thread_of xs)) [] (map fst comps))) = B) as HB.
  { apply set_eq. intros b. rewrite elem_of_list_to_set, foldl_groups_perm. simpl.
    rewrite app_nil_r, <- Permutation_rev. unfold B. by rewrite elem_of_list_to_set. }
  assert (NoDup (concat (foldl (add_group (thread_of xs)) [] (map fst comps)))) as Hnd'.
  { rewrite foldl_groups_perm. simpl. by rewrite app_nil_r, <- Permutation_rev. }
  pose proof (pinv_relinked _ B _ _ _ _ Hi1 ltac:(set_solver) Hr) as Hi2.
  wp_step. wp_step. simpl. eapply wp_mono.
  { eapply complete_groups_spec; [exact Hi2|exact Hg|done|rewrite HB; set_solver| |by eapply groups_length|done].
    simpl. pose proof (foldl_groups_ok (thread_of xs) (map fst comps) [] ltac:(constructor)) as Hok.
    eapply Forall_impl; [exact Hok|]. intros grp (hd & rest & -> & Hrest). exists hd, rest. split; [done|].
    eapply Forall_impl; [exact Hrest|]. simpl. intros b Hb. by rewrite !(relinked_thread _ _ _ _ Hr). }
  intros [u|f|] c'; simpl; [|done|done]. rewrite HB. intros [Hi3 He].
  replace ((W ∪ B) ∖ B) with W in Hi3 by set_solver. split; [done|].
  destruct He as [Hh Hb]. split; [done|]. simpl in *. done.
Qed.

(** ** Submitting *)

Lemma pinv_put_io W pv bs xs bl mm gb bk ms l h b x :
  prov_inv W (Conf (ProvS pv bs xs bl mm gb bk ms) l h) -> b ∈ W -> io_ok bs bl b x ->
  (forall b' y p, b' <> b -> xs !! b' = Some y -> pio_buffer x = BufHeap p -> pio_buffer y <> BufHeap p) ->
  prov_inv W (Conf (ProvS pv bs (<[b:=x]> xs) bl mm gb bk ms) l h).
Proof.
  intros [] HbW Hx Hnew. simpl in *. assert (b ∉ in_msgs ms) as Hnm by set_solver.
  split; simpl; try assumption.
  - intros b' y [[<- <-]|[_ Hy]]%lookup_insert_Some; eauto.
  - intros b1 b2 x1 x2 p [[<- <-]|[? H1]]%lookup_insert_Some [[<- <-]|[? H2]]%lookup_insert_Some Hb1 Hb2;
      [done| | |eauto].
    + exfalso. eapply (Hnew b2); eauto.
    + exfalso. eapply (Hnew b1); eauto.
  - by apply msgs_insert.
  - rewrite dom_insert_L. set_solver.
Qed.

Lemma pinv_new_block W pv bs xs bl mm gb bk ms l h p lst :
  prov_inv W (Conf (ProvS pv bs xs bl mm gb bk ms) l h) -> p = S (length h) ->
  Z.of_nat (size l) < UINTPTR_MAX ->
  prov_inv W (Conf (ProvS pv bs xs (<[p:=lst]> bl) mm gb bk ms) ({[p]} ∪ l) (EvAlloc (Some p) :: h)) /\
  (forall b y, xs !! b = Some y -> pio_buffer y <> BufHeap p).
Proof.
  intros Hi Hp Hsz. assert (bl !! p = None) as Hbl.
  { subst p. eapply (fresh_lookup bl (ProvS pv bs xs bl mm gb bk ms)); [exact (pi_conf _ _ Hi)|].
    exact (pi_blocks _ _ Hi). }
  destruct Hi. simpl in *. split.
  - split; simpl; try assumption.
    + by apply (conf_ok_alloc (ProvS pv bs xs bl mm gb bk ms)).
    + intros q lq [[<- _]|[_ Hq]]%lookup_insert_Some; [set_solver|]. apply pi_blocks0 in Hq. set_solver.
    + intros b x Hx. destruct (pi_ios0 b x Hx) as [Hbio Hbuf]. split; [done|].
      destruct (pio_owns_buffer x); [|done]. destruct Hbuf as (q & Hq & Hs). exists q. split; [done|].
      apply lookup_insert_is_Some'. by right.
  - intros b y Hy Hb. destruct (pi_ios0 b y Hy) as [_ Hbuf]. destruct (pio_owns_buffer y).
    + destruct Hbuf as (q & Hq & [lq Hlq]). congruence.
    + by eapply Hbuf.
Qed.

Lemma pinv_block W pv bs xs bl mm gb bk ms l h p lst :
  prov_inv W (Conf (ProvS pv bs xs bl mm gb bk ms) l h) -> is_Some (bl !! p) ->
  prov_inv W (Conf (ProvS pv bs xs (<[p:=lst]> bl) mm gb bk ms) l h).
Proof.
  intros [] [l0 Hp]. simpl in *. split; simpl; try assumption.
  - intros q lq [[<- _]|[_ Hq]]%lookup_insert_Some; eauto.
  - intros b x Hx. destruct (pi_ios0 b x Hx) as [Hbio Hbuf]. split; [done|].
    destruct (pio_owns_buffer x); [|done]. destruct Hbuf as (q & Hq & Hs). exists q. split; [done|].
    apply lookup_insert_is_Some'. by right.
Qed.

Lemma pinv_give_backend W pv bs xs bl mm gb bk ms l h b :
  prov_inv W (Conf (ProvS pv bs xs bl mm gb bk ms) l h) -> b ∈ W -> b ∈ dom xs ->
  prov_inv (W ∖ {[b]}) (Conf (ProvS pv bs xs bl mm gb ({[b]} ∪ bk) ms) l h).
Proof.
  intros [] HbW Hx. simpl in *. split; simpl; try assumption.
  - intros b'. rewrite pi_owner0, elem_of_difference, elem_of_union, elem_of_singleton.
    destruct (decide (b' = b)) as [->|]; tauto.
  - set_solver.
  - set_solver.
  - set_solver.
  - set_solver.
Qed.

(** The driver context of a request whose buffer is not a block. *)
Lemma pinv_plain_io W pv bs xs bl mm gb bk ms l h b bio r len st op :
  prov_inv W (Conf (ProvS pv bs xs bl mm gb bk ms) l h) -> b ∈ W -> bs !! b = Some bio ->
  (forall p, r <> BufHeap p) ->
  prov_inv W (Conf (ProvS pv bs (<[b:=ProviderIo (bio_thread bio) None None r len st false op]> xs)
    bl mm gb bk ms) l h).
Proof.
  intros Hi HbW Hb Hr. apply pinv_put_io; [done|done|split; [by exists bio|done]|].
  simpl. intros b' y p _ _ He. by apply Hr in He.
Qed.

(** ** The device as a state machine *)

Inductive prov_label :=
  | PRequest (b : ptr) (bio : bdev_io) (junk : list Z)
  | PGetBuf (b : ptr) (success : bool) (junk : list Z)
  | PTransfer (b : ptr) (bytes : list Z)
  | PBackend (t : option thread) (completions : list (ptr * Z))
  | PDeliver (m : batch_msg).

Definition prov_exec (lb : prov_label) : M ProvStore unit :=
  match lb with
  | PRequest b bio junk =>
      modify (fun s => ProvS (ps_providers s) (<[b:=bio]> (ps_bios s)) (ps_ios s) (ps_blocks s)
                         (ps_mem s) (ps_getbuf s) (ps_backend s) (ps_msgs s)) ;;;
      run_on (Some (bio_thread bio)) (provider_submit_request b junk)
  | PGetBuf b success junk =>
      let! bio := get_bio b in
      set_getbuf (fun q => q ∖ {[b]}) ;;;
      run_on (Some (bio_thread bio)) (provider_read_get_buf b success junk)
  | PTransfer b bytes =>
      let! io := get_io b in
      match pio_buffer io with
      | BufHeap p => put_block p bytes
      | BufFrontend a => let! s := get in put_mem (write_bytes a bytes (ps_mem s))
      | BufNull => ret tt
      end
  | PBackend t comps => run_on t (zettide_spdk_bdev_provider_complete_batch comps)
  | PDeliver m =>
      set_msgs (fun ms => filter (fun m' => bm_head m' <> bm_head m) ms) ;;;
      run_on (Some (bm_thread m)) (complete_provider_io_batch (Some (bm_head m)))
  end.

(** SPDK submits new requests to existing devices (a request it reuses counts as a
    new one) and calls back for buffers; the backend stores bytes in the buffers
    of the reads it owns and completes requests it owns, once each, on any thread;
    SPDK threads run the messages sent to them. *)
Definition prov_enabled (lb : prov_label) (c : conf ProvStore) : Prop :=
  match lb with
  | PRequest b bio _ =>
      b ∉ dom (ps_bios (store c)) /\ completions b (hist c) = 0 /\
      is_u64 (bio_offset_blocks bio) /\ is_u64 (bio_num_blocks bio) /\
      exists pv, ps_providers (store c) !! bio_provider bio = Some pv /\ 0 < pv_blocklen pv
  | PGetBuf b _ _ => b ∈ ps_getbuf (store c)
  | PTransfer b bytes =>
      b ∈ ps_backend (store c) /\ exists io, ps_ios (store c) !! b = Some io /\
        pio_operation io = ZETTIDE_SPDK_BDEV_PROVIDER_READ /\
        Z.of_nat (length bytes) = pio_length io
  | PBackend _ comps =>
      NoDup (map fst comps) /\ list_to_set (map fst comps) ⊆ ps_backend (store c)
  | PDeliver m => m ∈ ps_msgs (store c)
  end.

Inductive prov_step : conf ProvStore -> conf ProvStore -> Prop :=
  | ProvStep e lb c c' :
      (forall h t fn y, oracle e h (SpdkThreadSendMsg t fn y) = 0) ->
      prov_enabled lb c -> prov_exec lb e c = (Done tt, c') -> prov_step c c'.

(** Devices without requests. *)
Definition prov_start (c : conf ProvStore) : Prop :=
  conf_ok c /\ ps_bios (store c) = ∅ /\ ps_ios (store c) = ∅ /\ ps_blocks (store c) = ∅ /\
  ps_getbuf (store c) = ∅ /\ ps_backend (store c) = ∅ /\ ps_msgs (store c) = [] /\ hist c = [].

Lemma cdiv_pos {A} a d e (c : conf ProvStore) (k : Z -> M ProvStore A) Q :
  0 < d -> wp (k (a / d)) e c Q -> wp (bind (cdiv a d) k) e c Q.
Proof.
  intros Hd HQ. unfold cdiv. wp_step. rewrite (proj2 (Z.eqb_neq d 0)) by lia. by wp_step.
Qed.

Lemma io_range_spec op bio bl e (c : conf ProvStore) :
  0 < bl -> wp (io_range op bio bl) e c (returns (fun _ c' => c' = c)).
Proof.
  intros Hbl. unfold io_range. destruct op; try by wp_step.
  all: apply cdiv_pos; [done|]; wp_if as Hr; by wp_step.
Qed.

Lemma evolves_same (s s' : ProvStore) l l' h h' :
  h `suffix_of` h' -> dom (ps_bios s') = dom (ps_bios s) -> prov_evolves (Conf s l h) (Conf s' l' h').
Proof. intros Hh Hd. split; [done|]. simpl. rewrite Hd. auto. Qed.

(** An early exit of a submission. *)
Lemma reject_spec e b st pv bs xs bl mm gb bk ms l h :
  prov_inv {[b]} (Conf (ProvS pv bs xs bl mm gb bk ms) l h) ->
  wp (io_completed b st) e (Conf (ProvS pv bs xs bl mm gb bk ms) l h) (returns (fun _ c' =>
    prov_inv ∅ c' /\ prov_evolves (Conf (ProvS pv bs xs bl mm gb bk ms) l h) c')).
Proof.
  intros Hi. apply wp_io_completed. simpl. split.
  - pose proof (pinv_complete _ _ _ _ _ _ _ _ _ _ _ b st tt Hi ltac:(set_solver)) as Hi'.
    by replace ({[b]} ∖ {[b]}) with (∅ : gset ptr) in Hi' by set_solver.
  - eapply completed_all_evolves. by apply completed_one.
Qed.

(** The request goes to the backend. *)
Lemma to_backend_spec e b op off r len pv bs xs bl mm gb bk ms l h :
  prov_inv {[b]} (Conf (ProvS pv bs xs bl mm gb bk ms) l h) -> b ∈ dom xs ->
  (forall h t fn y, oracle e h (SpdkThreadSendMsg t fn y) = 0) ->
  wp (set_backend (union {[b]}) ;;;
      let! status := call (BackendSubmit op off r len b) in
      if status !=? 0 then provider_backend_complete b status else ret tt) e
    (Conf (ProvS pv bs xs bl mm gb bk ms) l h) (returns (fun _ c' =>
      prov_inv ∅ c' /\ prov_evolves (Conf (ProvS pv bs xs bl mm gb bk ms) l h) c')).
Proof.
  intros Hi Hx Hsend.
  pose proof (pinv_give_backend _ _ _ _ _ _ _ _ _ _ _ b Hi ltac:(set_solver) Hx) as Hi'.
  replace ({[b]} ∖ {[b]}) with (∅ : gset ptr) in Hi' by set_solver.
  wp_step. unfold set_backend. wp_step. simpl. wp_step. wp_step. wp_if as Hst.
  - eapply wp_mono; [apply (complete_batch_spec e ∅ _ [(b, r0)])|].
    + apply pinv_log; [exact Hi'|done].
    + simpl. apply NoDup_cons. split; [set_solver|constructor].
    + simpl. set_solver.
    + done.
    + intros [u|f|] c'; simpl; [|done|done]. intros [Hi2 [Hh He]]. split; [done|]. simpl in *.
      split; [simpl; etrans; [|exact Hh]; solve_suffix|done].
  - wp_step. split; [by apply pinv_log|]. apply evolves_same; [solve_suffix|done].
Qed.

(** [fill_write] stores bytes in the block of the request only. *)
Lemma fill_write_spec e op bio len r pv bs xs bl mm gb bk ms l h :
  wp (fill_write op bio len r) e (Conf (ProvS pv bs xs bl mm gb bk ms) l h) (returns (fun ok c' =>
    (exists p lst, r = BufHeap p /\ c' = Conf (ProvS pv bs xs (<[p:=lst]> bl) mm gb bk ms) l h) \/
    ok = true /\ c' = Conf (ProvS pv bs xs bl mm gb bk ms) l h)).
Proof.
  unfold fill_write. destruct op; try (wp_step; by right). destruct r as [|a|p]; try (wp_step; by right).
  wp_step. wp_step. simpl. destruct (copy_from_iovs len (bio_iovs bio) mm) as [lst ok].
  wp_step. unfold put_block. wp_step. wp_step. simpl. left. eauto.
Qed.

(** A request whose buffer is memory of the frontend, or that has none. *)
Lemma submit_plain_spec e b op off len r pv bs xs bl mm gb bk ms l h bio x0 :
  prov_inv {[b]} (Conf (ProvS pv bs xs bl mm gb bk ms) l h) -> bs !! b = Some bio ->
  (forall p, r <> BufHeap p) ->
  (forall h t fn y, oracle e h (SpdkThreadSendMsg t fn y) = 0) ->
  wp (submit_with_buffer b bio op off len r false) e
    (Conf (ProvS pv bs (<[b:=x0]> xs) bl mm gb bk ms) l h) (returns (fun _ c' =>
      prov_inv ∅ c' /\ prov_evolves (Conf (ProvS pv bs xs bl mm gb bk ms) l h) c')).
Proof.
  intros Hi Hb Hr Hsend. unfold submit_with_buffer. wp_step. apply wp_put_io. unfold with_ios. simpl.
  rewrite insert_insert_eq.
  pose proof (pinv_plain_io _ _ _ _ _ _ _ _ _ _ _ b bio r len 0 op Hi ltac:(set_solver) Hb Hr) as Hi2.
  wp_step. eapply wp_mono; [apply fill_write_spec|]. intros [ok|f|] c'; simpl; [|done|done].
  intros [(p & lst & -> & _)|[-> ->]]; [by specialize (Hr p)|]. simpl.
  eapply wp_mono; [apply to_backend_spec; [exact Hi2|rewrite dom_insert_L; set_solver|done]|].
  intros [u|f|] c'; simpl; [|done|done]. intros [Hi3 [Hh He]]. split; [done|]. split; done.
Qed.

(** The vectors of a write were too short: block and request go. *)
Lemma drop_block_spec e b p x pv bs xs bl mm gb bk ms l h :
  prov_inv {[b]} (Conf (ProvS pv bs (<[b:=x]> xs) bl mm gb bk ms) l h) ->
  pio_buffer x = BufHeap p -> p ∈ l ->
  wp (free_block (BufHeap p) ;;; io_completed b SPDK_BDEV_IO_STATUS_FAILED) e
    (Conf (ProvS pv bs (<[b:=x]> xs) bl mm gb bk ms) l h) (returns (fun _ c' =>
      prov_inv ∅ c' /\ prov_evolves (Conf (ProvS pv bs (<[b:=x]> xs) bl mm gb bk ms) l h) c')).
Proof.
  intros Hi Hx Hp. assert (b ∈ ({[b]} : gset ptr)) as Hbb by set_solver.
  wp_step. apply wp_free_block; [done|]. simpl.
  pose proof (pinv_free_block _ _ _ _ _ _ _ _ _ _ _ b _ p Hi Hbb ltac:(apply lookup_insert_eq) Hx) as Hi4.
  apply wp_io_completed. simpl. split.
  - pose proof (pinv_complete _ _ _ _ _ _ _ _ _ _ _ b SPDK_BDEV_IO_STATUS_FAILED tt Hi4 Hbb) as Hi5.
    replace ({[b]} ∖ {[b]}) with (∅ : gset ptr) in Hi5 by set_solver. by rewrite delete_delete_eq in Hi5.
  - eapply completed_all_evolves. apply completed_one. solve_suffix.
Qed.

(** A request with a block of its own. *)
Lemma submit_block_spec e b op off len p junk pv bs xs bl mm gb bk ms l h h0 bio x0 :
  prov_inv {[b]} (Conf (ProvS pv bs xs (<[p:=junk]> bl) mm gb bk ms) l h) -> bs !! b = Some bio ->
  p ∈ l -> (forall b' y, xs !! b' = Some y -> pio_buffer y <> BufHeap p) ->
  (forall h t fn y, oracle e h (SpdkThreadSendMsg t fn y) = 0) -> h0 `suffix_of` h ->
  wp (submit_with_buffer b bio op off len (BufHeap p) true) e
    (Conf (ProvS pv bs (<[b:=x0]> xs) (<[p:=junk]> bl) mm gb bk ms) l h) (returns (fun _ c' =>
      prov_inv ∅ c' /\ prov_evolves (Conf (ProvS pv bs xs bl mm gb bk ms) l h0) c')).
Proof.
  intros Hi Hb Hp Hnew Hsend Hh0. unfold submit_with_buffer. wp_step. apply wp_put_io. unfold with_ios. simpl.
  rewrite insert_insert_eq. set (x := ProviderIo (bio_thread bio) None None (BufHeap p) len 0 true op).
  assert (forall lst, prov_inv {[b]} (Conf (ProvS pv bs (<[b:=x]> xs) (<[p:=lst]> bl) mm gb bk ms) l h)) as Hput.
  { intros lst. apply pinv_put_io; [|set_solver| |].
    - rewrite <- (insert_insert_eq bl p lst junk). apply pinv_block; [exact Hi|]. rewrite lookup_insert_eq. by eexists.
    - split; [by exists bio|]. simpl. exists p. rewrite lookup_insert_eq. split; [done|by eexists].
    - simpl. intros b' y q _ Hy [= <-]. eauto. }
  assert (forall ok lst,
    wp (if negb ok then free_block (BufHeap p) ;;; io_completed b SPDK_BDEV_IO_STATUS_FAILED
        else set_backend (union {[b]}) ;;;
             let! status := call (BackendSubmit op off (BufHeap p) len b) in
             if status !=? 0 then provider_backend_complete b status else ret tt) e
      (Conf (ProvS pv bs (<[b:=x]> xs) (<[p:=lst]> bl) mm gb bk ms) l h)
      (returns (fun _ c' => prov_inv ∅ c' /\ prov_evolves (Conf (ProvS pv bs xs bl mm gb bk ms) l h0) c'))) as Hgo.
  { intros ok lst. destruct ok; simpl.
    - eapply wp_mono; [apply to_backend_spec; [apply Hput|rewrite dom_insert_L; set_solver|done]|].
      intros [u|f|] c''; simpl; [|done|done]. intros [Hi4 [Hh He]]. split; [done|]. split; [|done].
      simpl in *. by trans h.
    - eapply wp_mono; [by apply drop_block_spec|]. intros [u|f|] c''; simpl; [|done|done].
      intros [Hi4 [Hh He]]. split; [done|]. split; [|done]. simpl in *. by trans h. }
  wp_step. eapply wp_mono; [apply fill_write_spec|]. intros [ok|f|] c'; simpl; [|done|done].
  intros [(p' & lst & [= <-] & ->)|[-> ->]]; rewrite ?insert_insert_eq; [apply Hgo|exact (Hgo true junk)].
Qed.

Lemma submit_provider_io_spec e b op junk pv bs xs bl mm gb bk ms l h bio :
  prov_inv {[b]} (Conf (ProvS pv bs xs bl mm gb bk ms) l h) -> bs !! b = Some bio ->
  (forall h t fn y, oracle e h (SpdkThreadSendMsg t fn y) = 0) ->
  wp (submit_provider_io b op junk) e (Conf (ProvS pv bs xs bl mm gb bk ms) l h) (returns (fun _ c' =>
    prov_inv ∅ c' /\ prov_evolves (Conf (ProvS pv bs xs bl mm gb bk ms) l h) c')).
Proof.
  intros Hi Hb Hsend. destruct (pi_prov _ _ Hi b bio Hb) as (pr & Hpr & Hbl). simpl in Hpr.
  unfold submit_provider_io. wp_step. eapply wp_get_bio; [done|]. wp_step. eapply wp_get_prov; [done|].
  wp_step. eapply wp_mono; [by apply io_range_spec|].
  intros [[[off len]|]|f|] c'; simpl; try done; intros ->; [|by apply reject_spec].
  wp_if as Hmax; [by apply reject_spec|]. wp_step. apply wp_put_io. unfold with_ios. simpl.
  unfold io_buffer_for. wp_step. destruct (is_rw op); [|wp_step; by apply submit_plain_spec].
  destruct (single_iov_buffer bio len) as [a|]; [wp_step; by apply submit_plain_spec|].
  wp_step. unfold malloc_block. wp_step. apply wp_calloc.
  { wp_step. wp_step. eapply wp_mono; [apply reject_spec; apply pinv_log; [|done]|].
    - apply (pinv_plain_io _ _ _ _ _ _ _ _ _ _ _ b bio BufNull len 0 op Hi ltac:(set_solver) Hb). done.
    - intros [u|f|] c'; simpl; [|done|done]. intros [Hi3 [Hh He]]. split; [done|]. split; [|done].
      simpl in *. etrans; [|exact Hh]. solve_suffix. }
  intros p Hsz. simpl in Hsz. wp_step. unfold put_block. wp_step. wp_step. simpl. wp_step.
  destruct (pinv_new_block _ _ _ _ _ _ _ _ _ _ _ p junk Hi eq_refl Hsz) as [Hi2 Hnew].
  eapply wp_mono; [eapply (submit_block_spec) with (h0 := h); [exact Hi2|done|set_solver|exact Hnew|done|]|].
  - solve_suffix.
  - intros [u|f|] c'; simpl; [|done|done]. intros [Hi3 [Hh He]]. split; [done|]. split; done.
Qed.

(** A message is delivered: its requests move to the working set. *)
Lemma in_msgs_take ios ms m :
  Forall (msg_ok ios) ms -> NoDup (in_msgs ms) -> m ∈ ms ->
  in_msgs ms ≡ₚ bm_ios m ++ in_msgs (filter (fun m' => bm_head m' <> bm_head m) ms).
Proof.
  assert (forall m, msg_ok ios m -> bm_head m ∈ bm_ios m) as Hhd.
  { intros [t hd [|b l]] [Hc _]; simpl in *; [done|]. destruct Hc as [[= ->] _]. by left. }
  assert (forall h ms, Forall (msg_ok ios) ms -> h ∉ in_msgs ms ->
    filter (fun m' => bm_head m' <> h) ms = ms) as Hkeep.
  { intros h l. induction 1 as [|m1 l Hm1 Hl IH]; intros Hh; [done|].
    unfold in_msgs in Hh. simpl in Hh. apply not_elem_of_app in Hh as [Hh1 Hh2].
    rewrite filter_cons_True by (intros <-; by apply Hh1, Hhd). by rewrite IH. }
  induction ms as [|m0 ms IH]; intros Hok Hnd Hm; [set_solver|].
  apply Forall_cons in Hok as [Hm0 Hok]. unfold in_msgs in Hnd. simpl in Hnd.
  apply NoDup_app in Hnd as (Hn1 & Hn2 & Hn3).
  apply elem_of_cons in Hm as [->|Hm].
  - rewrite filter_cons_False by (intros Hne; by apply Hne).
    rewrite Hkeep; [done|done|]. intros Hin. exact (Hn2 _ (Hhd _ Hm0) Hin).
  - assert (bm_head m0 <> bm_head m) as Hne.
    { intros Heq. apply (Hn2 (bm_head m0) (Hhd _ Hm0)). rewrite Heq. apply elem_of_in_msgs. exists m.
      split; [done|]. apply Hhd. exact (proj1 (Forall_forall _ _) Hok m Hm). }
    rewrite filter_cons_True by done. unfold in_msgs at 1 2. simpl. fold (in_msgs ms).
    rewrite (IH Hok Hn3 Hm). fold (in_msgs (filter (fun m' => bm_head m' <> bm_head m) ms)).
    rewrite !app_assoc. by rewrite (Permutation_app_comm (bm_ios m0)).
Qed.

Lemma pinv_take_msg pv bs xs bl mm gb bk ms l h m :
  prov_inv ∅ (Conf (ProvS pv bs xs bl mm gb bk ms) l h) -> m ∈ ms ->
  prov_inv (list_to_set (bm_ios m))
    (Conf (ProvS pv bs xs bl mm gb bk (filter (fun m' => bm_head m' <> bm_head m) ms)) l h)
  /\ NoDup (bm_ios m).
Proof.
  intros Hi Hm. pose proof (in_msgs_take _ _ _ (pi_msgs _ _ Hi) (pi_nodup _ _ Hi) Hm) as Hp.
  simpl in Hp. destruct Hi. simpl in *.
  assert (NoDup (bm_ios m ++ in_msgs (filter (fun m' => bm_head m' <> bm_head m) ms))) as Hnd by by rewrite <- Hp.
  apply NoDup_app in Hnd as (Hn1 & Hn2 & Hn3).
  assert (list_to_set (in_msgs ms) = list_to_set (bm_ios m) ∪
    list_to_set (in_msgs (filter (fun m' => bm_head m' <> bm_head m) ms)) :> gset ptr) as Hs.
  { apply set_eq. intros b. rewrite elem_of_union, !elem_of_list_to_set, Hp. by rewrite elem_of_app. }
  rewrite Hs in *. split; [|done]. split; simpl; try assumption.
  - intros b. rewrite pi_owner0, Hp, elem_of_app, elem_of_list_to_set. set_solver.
  - apply disjoint_union_r. split; [set_solver|]. intros b Hb Hb'. rewrite elem_of_list_to_set in *. exact (Hn2 b Hb Hb').
  - set_solver.
  - set_solver.
  - rewrite Forall_forall in *. intros m' [_ Hm']%list_elem_of_filter. auto.
Qed.

Lemma deliver_batch_spec e c m :
  prov_inv ∅ c -> m ∈ ps_msgs (store c) ->
  wp (prov_exec (PDeliver m)) e c (returns (fun _ c' => prov_inv ∅ c' /\ prov_evolves c c')).
Proof.
  destruct c as [[pv bs xs bl mm gb bk ms] l h]. intros Hi Hm. simpl in *.
  destruct (pinv_take_msg _ _ _ _ _ _ _ _ _ _ _ Hi Hm) as [Hi1 Hnd].
  destruct (proj1 (Forall_forall _ _) (pi_msgs _ _ Hi) m Hm) as [Hc Ht]. simpl in Hc, Ht.
  wp_step. unfold set_msgs. wp_step. simpl. wp_step.
  eapply wp_mono; [eapply batch_chain_spec; [exact Hi1|exact Hc|done|done|exact Ht|done]|].
  intros [u|f|] c'; simpl; [|done|done]. intros [Hi2 Ha]. rewrite difference_diag_L in Hi2. split; [done|].
  apply completed_all_evolves in Ha as [Hh He]. split; done.
Qed.

(** A new request is in the hands of [provider_submit_request]. *)
Lemma pinv_request pv bs xs bl mm gb bk ms l h b bio pr :
  prov_inv ∅ (Conf (ProvS pv bs xs bl mm gb bk ms) l h) -> b ∉ dom bs -> completions b h = 0 ->
  pv !! bio_provider bio = Some pr -> 0 < pv_blocklen pr ->
  prov_inv {[b]} (Conf (ProvS pv (<[b:=bio]> bs) xs bl mm gb bk ms) l h).
Proof.
  intros [] Hb Hz Hpr Hbl. simpl in *. split; simpl; try assumption.
  - intros b' x Hx. destruct (pi_ios0 b' x Hx) as [(bio' & Hbio' & Ht) Hbuf]. split; [|done].
    exists bio'. rewrite lookup_insert_ne; [done|]. intros ->. apply Hb. apply elem_of_dom. by eexists.
  - intros b' bio' [[<- <-]|[_ Hb']]%lookup_insert_Some; eauto.
  - intros b'. rewrite dom_insert_L, elem_of_union, pi_owner0. set_solver.
  - assert (b ∉ gb /\ b ∉ bk /\ b ∉ in_msgs ms) as (? & ? & ?).
    { split_and!; intros Hin; apply Hb, pi_owner0; auto. }
    set_solver.
  - intros b'. rewrite dom_insert_L. intros [->%elem_of_singleton|Hb']%elem_of_union; auto.
Qed.

(** SPDK will call back with a buffer. *)
Lemma pinv_give_getbuf pv bs xs bl mm gb bk ms l h b :
  prov_inv {[b]} (Conf (ProvS pv bs xs bl mm gb bk ms) l h) ->
  prov_inv ∅ (Conf (ProvS pv bs xs bl mm ({[b]} ∪ gb) bk ms) l h).
Proof.
  intros []. simpl in *. split; simpl; try assumption; [|set_solver|set_solver].
  intros b'. rewrite pi_owner0. set_solver.
Qed.

Lemma pinv_take_getbuf pv bs xs bl mm gb bk ms l h b :
  prov_inv ∅ (Conf (ProvS pv bs xs bl mm gb bk ms) l h) -> b ∈ gb ->
  prov_inv {[b]} (Conf (ProvS pv bs xs bl mm (gb ∖ {[b]}) bk ms) l h).
Proof.
  intros [] Hb. simpl in *. split; simpl; try assumption; [|set_solver|set_solver].
  intros b'. rewrite pi_owner0. destruct (decide (b' = b)) as [->|]; set_solver.
Qed.

Lemma evolves_from (s s' : ProvStore) l h c' :
  dom (ps_bios s) ⊆ dom (ps_bios s') -> prov_evolves (Conf s' l h) c' -> prov_evolves (Conf s l h) c'.
Proof. intros Hd [Hh He]. split; [done|]. simpl in *. auto. Qed.

Lemma request_spec e c b bio junk :
  (forall h t fn y, oracle e h (SpdkThreadSendMsg t fn y) = 0) ->
  prov_inv ∅ c -> prov_enabled (PRequest b bio junk) c ->
  wp (prov_exec (PRequest b bio junk)) e c (returns (fun _ c' => prov_inv ∅ c' /\ prov_evolves c c')).
Proof.
  destruct c as [[pv bs xs bl mm gb bk ms] l h].
  intros Hsend Hi (Hb & Hz & _ & _ & pr & Hpr & Hbl). simpl in *.
  pose proof (pinv_request _ _ _ _ _ _ _ _ _ _ _ _ _ Hi Hb Hz Hpr Hbl) as Hi1.
  wp_step. wp_step. simpl. wp_step. unfold provider_submit_request. wp_step.
  eapply wp_get_bio; [apply lookup_insert_eq|].
  assert (dom bs ⊆ dom (<[b:=bio]> bs)) as Hdom by (rewrite dom_insert_L; set_solver).
  assert (forall op, wp (submit_provider_io b op junk) (Env (Some (bio_thread bio)) (oracle e) (alloc_ok e))
    (Conf (ProvS pv (<[b:=bio]> bs) xs bl mm gb bk ms) l h) (returns (fun _ c' =>
      prov_inv ∅ c' /\ prov_evolves (Conf (ProvS pv bs xs bl mm gb bk ms) l h) c'))) as Hsub.
  { intros op. eapply wp_mono; [eapply submit_provider_io_spec; [exact Hi1|apply lookup_insert_eq|done]|].
    intros [u|f|] c'; simpl; [|done|done]. intros [Hi2 He]. split; [done|]. eapply evolves_from; [|exact He]. done. }
  destruct (bio_type bio); try apply Hsub.
  - wp_step. eapply wp_get_prov; [done|]. wp_step. wp_step. unfold set_getbuf. wp_step. simpl. split.
    + apply pinv_give_getbuf. by apply pinv_log.
    + split; [simpl; solve_suffix|]. simpl. auto.
  - eapply wp_mono; [by apply reject_spec|]. intros [u|f|] c'; simpl; [|done|done]. intros [Hi2 He].
    split; [done|]. eapply evolves_from; [|exact He]. done.
Qed.

Lemma getbuf_spec e c b success junk :
  (forall h t fn y, oracle e h (SpdkThreadSendMsg t fn y) = 0) ->
  prov_inv ∅ c -> b ∈ ps_getbuf (store c) ->
  wp (prov_exec (PGetBuf b success junk)) e c (returns (fun _ c' => prov_inv ∅ c' /\ prov_evolves c c')).
Proof.
  destruct c as [[pv bs xs bl mm gb bk ms] l h]. intros Hsend Hi Hb. simpl in *.
  assert (b ∈ dom bs) as [bio Hbio]%elem_of_dom by (apply (pi_owner _ _ Hi); simpl; auto).
  pose proof (pinv_take_getbuf _ _ _ _ _ _ _ _ _ _ _ Hi Hb) as Hi1.
  wp_step. eapply wp_get_bio; [done|]. wp_step. unfold set_getbuf. wp_step. simpl. wp_step.
  unfold provider_read_get_buf. destruct success; simpl.
  - eapply wp_mono; [eapply submit_provider_io_spec; [exact Hi1|exact Hbio|done]|].
    intros [u|f|] c'; simpl; [|done|done]. intros [Hi2 He]. split; [done|]. eapply evolves_from; [|exact He]. done.
  - eapply wp_mono; [by apply reject_spec|]. intros [u|f|] c'; simpl; [|done|done]. intros [Hi2 He].
    split; [done|]. eapply evolves_from; [|exact He]. done.
Qed.

Lemma transfer_spec e c b bytes :
  prov_inv ∅ c -> prov_enabled (PTransfer b bytes) c ->
  wp (prov_exec (PTransfer b bytes)) e c (returns (fun _ c' => prov_inv ∅ c' /\ prov_evolves c c')).
Proof.
  destruct c as [[pv bs xs bl mm gb bk ms] l h]. intros Hi (Hb & io & Hio & _ & _). simpl in *.
  wp_step. eapply wp_get_io; [done|].
  destruct (pi_ios _ _ Hi b io Hio) as [_ Hbuf]. simpl in Hbuf.
  destruct (pio_buffer io) as [|a|p]; unfold put_mem, put_block; repeat wp_step; simpl.
  - split; [done|]. apply prov_evolves_refl.
  - split; [by eapply pinv_mem|]. by apply evolves_same.
  - split; [|by apply evolves_same]. apply pinv_block; [done|].
    destruct (pio_owns_buffer io); [by destruct Hbuf as (q & [= <-] & Hq)|]. by specialize (Hbuf p).
Qed.

Lemma prov_exec_spec e lb c :
  (forall h t fn y, oracle e h (SpdkThreadSendMsg t fn y) = 0) ->
  prov_inv ∅ c -> prov_enabled lb c ->
  wp (prov_exec lb) e c (returns (fun _ c' => prov_inv ∅ c' /\ prov_evolves c c')).
Proof.
  intros Hsend Hi Hen. destruct lb as [b bio junk|b success junk|b bytes|t comps|m].
  - by apply request_spec.
  - by apply getbuf_spec.
  - by apply transfer_spec.
  - destruct Hen as [Hnd Hsub]. simpl. wp_step. by apply complete_batch_spec.
  - by apply deliver_batch_spec.
Qed.

Lemma prov_start_inv c : prov_start c -> prov_inv ∅ c.
Proof.
  intros (Hc & Hbs & Hxs & Hbl & Hgb & Hbk & Hms & Hh).
  split; rewrite ?Hbs, ?Hxs, ?Hbl, ?Hgb, ?Hbk, ?Hms, ?Hh; try done; try set_solver;
    intros; simplify_map_eq; constructor.
Qed.

Lemma prov_steps_inv c c' : prov_inv ∅ c -> rtc prov_step c c' -> prov_inv ∅ c' /\ prov_evolves c c'.
Proof.
  intros Hi Hs. induction Hs as [c|c1 c2 c3 Hs _ IH]; [split; [done|apply prov_evolves_refl]|].
  destruct Hs as [e lb c1 c2 Hsend Hen Hex].
  destruct (wp_run _ _ _ _ _ _ (prov_exec_spec e lb c1 Hsend Hi Hen) Hex) as [Hi2 He2].
  destruct (IH Hi2) as [Hi3 He3]. split; [done|]. by eapply prov_evolves_trans.
Qed.

(** ** Copying, against the bytes of the vectors *)

(** The bytes of the vectors, one after the other, and their number. *)
Definition iov_bytes (m : Z -> Z) (iovs : list iovec) : list Z :=
  concat (map (fun v => read_bytes m v.1 v.2) iovs).
Definition iovs_size (iovs : list iovec) : Z := foldr (fun v n => v.2 + n) 0 iovs.

Definition in_iov (v : iovec) (a : Z) : Prop := v.1 <= a < v.1 + v.2.

(** Lengths are not negative and the vectors do not overlap. *)
Fixpoint iovs_ok (iovs : list iovec) : Prop :=
  match iovs with
  | [] => True
  | v :: iovs => 0 <= v.2 /\ iovs_ok iovs /\ Forall (fun w => forall a, in_iov v a -> ~ in_iov w a) iovs
  end.

Lemma read_bytes_length m a n : length (read_bytes m a n) = Z.to_nat n.
Proof. unfold read_bytes. by rewrite length_map, length_seq. Qed.

Lemma read_bytes_lookup m a n i :
  read_bytes m a n !! i = if decide (i < Z.to_nat n)%nat then Some (m (a + Z.of_nat i)) else None.
Proof.
  unfold read_bytes. rewrite list_lookup_fmap. case_decide as Hi.
  - rewrite lookup_seq_lt by done. done.
  - by rewrite lookup_seq_ge by lia.
Qed.

Lemma read_bytes_take m a n k : 0 <= k <= n -> take (Z.to_nat k) (read_bytes m a n) = read_bytes m a k.
Proof.
  intros Hk. apply list_eq. intros i. destruct (decide (i < Z.to_nat k)%nat) as [Hi|Hi].
  - rewrite lookup_take_lt by done. rewrite !read_bytes_lookup. by rewrite !decide_True by lia.
  - rewrite lookup_take_ge by lia. by rewrite read_bytes_lookup, decide_False by lia.
Qed.

Lemma read_bytes_ext m m' a n :
  (forall b, in_iov (a, n) b -> m b = m' b) -> read_bytes m a n = read_bytes m' a n.
Proof.
  intros Hm. apply list_eq. intros i. rewrite !read_bytes_lookup. case_decide as Hi; [|done].
  rewrite Hm; [done|]. unfold in_iov. simpl. lia.
Qed.

Lemma iov_bytes_ext m m' iovs :
  (forall v a, v ∈ iovs -> in_iov v a -> m a = m' a) -> iov_bytes m iovs = iov_bytes m' iovs.
Proof.
  intros Hm. unfold iov_bytes. f_equal. apply map_ext_in. intros [base len] Hv%list_elem_of_In.
  apply read_bytes_ext. intros b. by apply Hm.
Qed.

Lemma iovs_size_nonneg iovs : iovs_ok iovs -> 0 <= iovs_size iovs.
Proof. induction iovs as [|v iovs IH]; simpl; [done|]. intros (? & ? & _). specialize (IH ltac:(done)). lia. Qed.

Lemma iov_bytes_length m iovs : iovs_ok iovs -> Z.of_nat (length (iov_bytes m iovs)) = iovs_size iovs.
Proof.
  induction iovs as [|[a n] iovs IH]; [done|]. intros (Hn & Hok & _). simpl in Hn.
  unfold iov_bytes in *. simpl. rewrite length_app, read_bytes_length, Nat2Z.inj_add, IH by done. lia.
Qed.

Lemma write_bytes_out a l m b : ~ in_iov (a, Z.of_nat (length l)) b -> write_bytes a l m b = m b.
Proof.
  unfold in_iov, write_bytes. simpl. intros Hb.
  destruct (Z.leb_spec a b); [|done]. by rewrite (proj2 (Z.ltb_ge _ _)) by lia.
Qed.

(** Reading back bytes that were stored at the start of a vector. *)
Lemma read_write_bytes m a n l :
  Z.of_nat (length l) <= n ->
  read_bytes (write_bytes a l m) a n = l ++ drop (length l) (read_bytes m a n).
Proof.
  intros Hl. apply list_eq. intros i. destruct (decide (i < length l)%nat) as [Hi|Hi].
  - rewrite read_bytes_lookup, decide_True, lookup_app_l by lia. unfold write_bytes.
    rewrite (proj2 (Z.leb_le _ _)), (proj2 (Z.ltb_lt _ _)) by lia. simpl.
    replace (Z.to_nat (a + Z.of_nat i - a)) with i by lia.
    destruct (lookup_lt_is_Some_2 l i Hi) as [x Hx]. rewrite Hx. f_equal.
    by apply nth_lookup_Some.
  - rewrite lookup_app_r, lookup_drop by lia. replace (length l + (i - length l))%nat with i by lia.
    rewrite !read_bytes_lookup. case_decide; [|done]. rewrite write_bytes_out; [done|].
    unfold in_iov. simpl. lia.
Qed.

Lemma gather_spec m len iovs : iovs_ok iovs -> forall copied, 0 <= copied <= len ->
  gather m len copied iovs = take (Z.to_nat (len - copied)) (iov_bytes m iovs).
Proof.
  induction iovs as [|[a n] iovs IH]; intros Hok copied Hc.
  { unfold iov_bytes. simpl. by rewrite take_nil. }
  destruct Hok as (Hn & Hok & _). simpl in Hn. cbn [gather]. unfold iov_bytes. cbn [map concat]. cbn [fst snd].
  fold (iov_bytes m iovs). rewrite take_app, read_bytes_length.
  destruct (Z.ltb_spec copied len) as [Hlt|Hge].
  2:{ replace (Z.to_nat (len - copied)) with 0%nat by lia. by rewrite !take_0. }
  cbv zeta. destruct (Z.gtb_spec n (len - copied)) as [Hgt|Hle].
  - rewrite IH by (done || lia). rewrite read_bytes_take by lia.
    replace (Z.to_nat (len - (copied + (len - copied)))) with 0%nat by lia.
    by replace (Z.to_nat (len - copied) - Z.to_nat n)%nat with 0%nat by lia.
  - rewrite IH by (done || lia). rewrite (take_ge (read_bytes m a n)) by (rewrite read_bytes_length; lia).
    do 2 f_equal. lia.
Qed.

(** A vector [R] and the later ones [F], overwritten by [rest]. *)
Lemma splice_step (rest R F : list Z) a t :
  a = (length R `min` length rest)%nat ->
  (take a rest ++ drop (length (take a rest)) R) ++ take t (drop a rest) ++ drop (length (drop a rest)) F =
  take (length R + t) rest ++ drop (length rest) (R ++ F).
Proof.
  intros Ha. rewrite length_take, length_drop, drop_app.
  destruct (decide (length R <= length rest)%nat) as [Hle|Hgt].
  - replace a with (length R) by lia. replace (length R `min` length rest)%nat with (length R) by lia.
    rewrite (drop_ge R (length R)), (drop_ge R (length rest)) by lia. simpl. rewrite app_nil_r, app_assoc.
    by rewrite take_take_drop.
  - replace a with (length rest) by lia. rewrite Nat.min_id, Nat.sub_diag, (drop_ge rest), take_nil by lia. simpl.
    rewrite (take_ge rest), (take_ge rest) by lia. replace (length rest - length R)%nat with 0%nat by lia.
    by rewrite !drop_0, app_assoc.
Qed.

Lemma scatter_spec source len iovs : iovs_ok iovs -> len <= Z.of_nat (length source) -> forall copied m,
  0 <= copied <= len ->
  let r := scatter source len copied iovs m in
  let rest := take (Z.to_nat (len - copied)) (drop (Z.to_nat copied) source) in
  iov_bytes r.1 iovs = take (Z.to_nat (iovs_size iovs)) rest ++ drop (length rest) (iov_bytes m iovs)
  /\ r.2 = Z.min len (copied + iovs_size iovs)
  /\ forall a, Forall (fun v => ~ in_iov v a) iovs -> r.1 a = m a.
Proof.
  intros Hok Hlen. induction iovs as [|[b n] iovs IH]; intros copied m Hc; cbv zeta.
  { unfold iov_bytes. simpl. rewrite drop_nil. split; [done|]. split; [lia|done]. }
  destruct Hok as (Hn & Hok & Hap). simpl in Hn. cbn [scatter iovs_size foldr fst snd].
  pose proof (iovs_size_nonneg iovs Hok) as Hs. fold (iovs_size iovs).
  destruct (Z.ltb_spec copied len) as [Hlt|Hge].
  2:{ replace (Z.to_nat (len - copied)) with 0%nat by lia. rewrite take_0, take_nil. simpl.
      split; [done|]. split; [lia|done]. }
  cbv zeta. set (amount := if n >? len - copied then len - copied else n).
  assert (0 <= amount <= n /\ amount <= len - copied /\ (amount = n \/ amount = len - copied)) as (Ha & Ha' & Hor).
  { unfold amount. destruct (Z.gtb_spec n (len - copied)); lia. }
  set (piece := take (Z.to_nat amount) (drop (Z.to_nat copied) source)).
  assert (length piece = Z.to_nat amount) as Hpl. { unfold piece. rewrite length_take, length_drop. lia. }
  specialize (IH Hok (copied + amount) (write_bytes b piece m) ltac:(lia)). cbv zeta in IH.
  destruct IH as (IHb & IHc & IHo).
  set (r := scatter source len (copied + amount) iovs (write_bytes b piece m)) in *.
  assert (iov_bytes (write_bytes b piece m) iovs = iov_bytes m iovs) as Hsame.
  { apply iov_bytes_ext. intros v a Hv Hin. apply write_bytes_out. rewrite Hpl. intros Hin'.
    eapply (proj1 (Forall_forall _ _) Hap v Hv a); [|exact Hin]. unfold in_iov in *. simpl in *. lia. }
  rewrite Hsame in IHb. split; [|split].
  - unfold iov_bytes in *. cbn [map concat fst snd]. rewrite IHb.
    rewrite (read_bytes_ext r.1 (write_bytes b piece m)).
    2:{ intros a Hin. apply IHo. eapply Forall_impl; [exact Hap|]. simpl. auto. }
    rewrite read_write_bytes by lia. set (R := read_bytes m b n). set (F := concat (map _ iovs)).
    assert (length R = Z.to_nat n) as HR by apply read_bytes_length.
    set (rest := take (Z.to_nat (len - copied)) (drop (Z.to_nat copied) source)).
    assert (length rest = Z.to_nat (len - copied)) as Hrl. { unfold rest. rewrite length_take, length_drop. lia. }
    assert (take (Z.to_nat (len - (copied + amount))) (drop (Z.to_nat (copied + amount)) source)
      = drop (Z.to_nat amount) rest) as ->.
    { unfold rest. rewrite skipn_firstn_comm, drop_drop. f_equal; [lia|]. f_equal. lia. }
    assert (piece = take (Z.to_nat amount) rest) as ->.
    { unfold piece, rest. rewrite take_take. f_equal. lia. }
    rewrite (splice_step rest R F (Z.to_nat amount) (Z.to_nat (iovs_size iovs))) by lia.
    do 2 f_equal. lia.
  - rewrite IHc. lia.
  - intros a Hout. apply Forall_cons in Hout as [Ha0 Hout]. rewrite IHo by done. apply write_bytes_out.
    rewrite Hpl. unfold in_iov in *. simpl in *. lia.
Qed.

(** [copy_to_iovs] behind [copy_from_iovs]. *)
Lemma copy_from_iovs_eq m len iovs :
  iovs_ok iovs -> 0 <= len ->
  copy_from_iovs len iovs m = (take (Z.to_nat len) (iov_bytes m iovs), len <=? iovs_size iovs).
Proof.
  intros Hok Hlen. unfold copy_from_iovs. rewrite gather_spec by (done || lia). rewrite Z.sub_0_r. f_equal.
  rewrite length_take. pose proof (iov_bytes_length m iovs Hok) as Hl.
  destruct (Z.leb_spec len (iovs_size iovs)); [apply Z.eqb_eq|apply Z.eqb_neq]; lia.
Qed.

Lemma copy_to_iovs_spec iovs source len m :
  iovs_ok iovs -> 0 <= len <= Z.of_nat (length source) ->
  let r := copy_to_iovs iovs source len m in
  r.2 = (len <=? iovs_size iovs) /\
  (len <= iovs_size iovs -> take (Z.to_nat len) (iov_bytes r.1 iovs) = take (Z.to_nat len) source) /\
  (forall a, Forall (fun v => ~ in_iov v a) iovs -> r.1 a = m a).
Proof.
  intros Hok Hlen. destruct (scatter_spec source len iovs Hok ltac:(lia) 0 m ltac:(lia)) as (Hb & Hc & Ho).
  unfold copy_to_iovs. destruct (scatter source len 0 iovs m) as [m' copied]. simpl in *.
  rewrite Z.sub_0_r in Hb. split_and!; [|intros Hle|done].
  - rewrite Hc. destruct (Z.leb_spec len (iovs_size iovs)); [apply Z.eqb_eq|apply Z.eqb_neq]; lia.
  - rewrite Hb, drop_0. rewrite take_take. replace (Z.to_nat (iovs_size iovs) `min` Z.to_nat len)%nat with (Z.to_nat len) by lia.
    rewrite take_app_le by (rewrite length_take; lia). rewrite take_take. f_equal. lia.
Qed.

(** ** Properties *)


(** C7: Every request is completed exactly once: in every later state either it is
    pending, was not completed and exactly SPDK (for a buffer), the backend or a
    message on its way to the submitting thread is to act on it, or it is gone and
    was completed once. *)
Theorem provider_completes_exactly_once c0 c c' b :
  prov_start c0 -> rtc prov_step c0 c -> is_Some (ps_bios (store c) !! b) -> rtc prov_step c c' ->
  (is_Some (ps_bios (store c') !! b) /\ completions b (hist c') = 0 /\
     (b ∈ ps_getbuf (store c') \/ b ∈ ps_backend (store c') \/
      exists m, m ∈ ps_msgs (store c') /\ b ∈ bm_ios m /\ thread_of (ps_ios (store c')) b = bm_thread m))
  \/ (ps_bios (store c') !! b = None /\ completions b (hist c') = 1).
Proof.
  intros H0 Hr Hb Hr'. destruct (prov_steps_inv _ _ (prov_start_inv _ H0) Hr) as [Hi _].
  destruct (prov_steps_inv _ _ Hi Hr') as [Hi' [_ He]].
  destruct (ps_bios (store c') !! b) as [x|] eqn:Hx.
  - left. assert (b ∈ dom (ps_bios (store c'))) as Hin by (apply elem_of_dom; by eexists).
    split; [by eexists|]. split; [by apply (pi_zero _ _ Hi')|].
    apply (pi_owner _ _ Hi') in Hin as [Hin|[Hin|[Hin|Hin]]]; [set_solver|auto|auto|].
    apply elem_of_in_msgs in Hin as (m & Hm & Hbm). right. right. exists m. split_and!; try done.
    destruct (proj1 (Forall_forall _ _) (pi_msgs _ _ Hi') m Hm) as [_ Ht].
    exact (proj1 (Forall_forall _ _) Ht b Hbm).
  - right. split; [done|]. destruct (He b ltac:(by apply elem_of_dom)) as [Hin|H1].
    + apply elem_of_dom in Hin as [y Hy]. by rewrite Hx in Hy.
    + pose proof (pi_once _ _ Hi' b). lia.
Qed.

(** C28: The linked lists [complete_batch] builds in the requests are the groups of a
    batch by thread: each completion is in exactly one group, a group has the
    completions of one thread, and no two groups have the same thread, so that at
    most one message is sent to a thread. *)
Theorem complete_batch_groups_by_thread e (c : conf ProvStore) comps :
  NoDup (map fst comps) -> (forall b, b ∈ map fst comps -> is_Some (ps_ios (store c) !! b)) ->
  exists g c' gs, group_completions None comps e c = (Done g, c') /\
    groups_rep (ps_ios (store c')) g gs /\ concat gs ≡ₚ map fst comps /\
    Forall (group_ok (thread_of (ps_ios (store c')))) gs /\
    NoDup (group_threads (thread_of (ps_ios (store c'))) gs).
Proof.
  destruct c as [s l h]. intros Hnd Hdom. simpl in Hdom.
  destruct (wp_returns_run _ _ _ _ (group_completions_spec e l h comps s None [] eq_refl
    ltac:(simpl; by rewrite app_nil_r) Hdom)) as (g & c' & Hex & ios' & -> & Hr & Hg).
  set (gs := foldl (add_group (thread_of (ps_ios s))) [] (map fst comps)) in *.
  assert (forall b, thread_of ios' b = thread_of (ps_ios s) b) as Hthr by (intros b; by eapply relinked_thread).
  exists g, (Conf (with_ios s ios') l h), gs. simpl. split_and!; [done|done| | |].
  - unfold gs. rewrite foldl_groups_perm. simpl. by rewrite app_nil_r, <- Permutation_rev.
  - eapply Forall_impl; [apply foldl_groups_ok; constructor|]. intros grp (hd & rest & -> & Hrest).
    exists hd, rest. split; [done|]. eapply Forall_impl; [exact Hrest|]. simpl. intros b. by rewrite !Hthr.
  - assert (group_threads (thread_of ios') gs = group_threads (thread_of (ps_ios s)) gs) as ->.
    { unfold group_threads. apply list_omap_ext. clear -Hthr. induction gs as [|[|hd rest] gs IH]; constructor; try done.
      simpl. by rewrite Hthr. }
    apply foldl_groups_threads; constructor.
Qed.

(** C27: Copying a buffer to vectors and back: [copy_to_iovs] succeeds exactly when
    the vectors have room, then [copy_from_iovs] of the result gives the bytes of
    the buffer, and memory outside the vectors is never changed. *)
Theorem iovs_round_trip iovs source len m :
  iovs_ok iovs -> 0 <= len <= Z.of_nat (length source) ->
  let '(m', ok) := copy_to_iovs iovs source len m in
  ok = (len <=? iovs_size iovs) /\
  (ok = true -> copy_from_iovs len iovs m' = (take (Z.to_nat len) source, true)) /\
  (forall a, Forall (fun v => ~ in_iov v a) iovs -> m' a = m a).
Proof.
  intros Hok Hlen. destruct (copy_to_iovs_spec iovs source len m Hok Hlen) as (Hr & Hb & Ho).
  destruct (copy_to_iovs iovs source len m) as [m' ok]. simpl in *. split_and!; [done| |done].
  intros ->. symmetry in Hr. rewrite copy_from_iovs_eq by (done || lia). rewrite Hr. apply Z.leb_le in Hr.
  by rewrite Hb.
Qed.


(** The byte range of a request is computed in 64 bits without wrapping: it is
    the exact product with the block length, and a request whose offset or length
    does not fit is refused. *)
Theorem provider_range_exact op bio blocklen e (c : conf ProvStore) :
  0 < blocklen -> is_u64 (bio_offset_blocks bio) -> is_u64 (bio_num_blocks bio) ->
  op <> ZETTIDE_SPDK_BDEV_PROVIDER_RESET ->
  io_range op bio blocklen e c =
    (Done (if (bio_num_blocks bio * blocklen <=? UINT64_MAX) && (bio_offset_blocks bio * blocklen <=? UINT64_MAX)
           then Some (bio_offset_blocks bio * blocklen, bio_num_blocks bio * blocklen) else None), c).
Proof.
  intros Hbl Ho Hn Hop. assert (forall x, 0 <= x -> (x >? UINT64_MAX / blocklen) = negb (x * blocklen <=? UINT64_MAX)) as Hx.
  { intros x Hx. pose proof (Z.mul_div_le UINT64_MAX blocklen Hbl).
    pose proof (Z.mul_succ_div_gt UINT64_MAX blocklen Hbl).
    destruct (Z.gtb_spec x (UINT64_MAX / blocklen)), (Z.leb_spec (x * blocklen) UINT64_MAX); try done; nia. }
  unfold is_u64 in *. destruct op; [| | |done]; unfold io_range, cdiv, bind.
  all: rewrite (proj2 (Z.eqb_neq blocklen 0)) by lia; unfold ret; rewrite !Hx by lia.
  all: destruct (Z.leb_spec (bio_num_blocks bio * blocklen) UINT64_MAX), (Z.leb_spec (bio_offset_blocks bio * blocklen) UINT64_MAX);
    simpl; try done; rewrite !u64_small by (unfold is_u64; nia); done.
Qed.

(** ** Witnesses *)

(** A device with blocks of 4 bytes; frontend memory holds the address of each
    byte. *)
Definition sample_prov : conf ProvStore :=
  Conf (ProvS {[7%nat := IoProvider 4 false]} ∅ ∅ ∅ (fun a => a) ∅ ∅ []) ∅ [].

(** A read of one block into two vectors. *)
Definition sample_bio : bdev_io := BdevIo 7 SPDK_BDEV_IO_TYPE_READ [(100, 3); (200, 2)] 1 1 3%nat.

Definition after_label (lb : prov_label) (c : conf ProvStore) : conf ProvStore :=
  (prov_exec lb (sample_env (Some 1%nat)) c).2.

(** The request is with the backend, which has stored the data. *)
Definition sample_requested : conf ProvStore := after_label (PRequest 1 sample_bio []) sample_prov.
Definition sample_backend : conf ProvStore := after_label (PGetBuf 1 true [0; 0; 0; 0]) sample_requested.
Definition sample_filled : conf ProvStore := after_label (PTransfer 1 [11; 12; 13; 14]) sample_backend.

Lemma sample_prov_start : prov_start sample_prov.
Proof. repeat split; try done. Qed.

Lemma sample_requested_reachable : rtc prov_step sample_prov sample_requested.
Proof.
  apply rtc_once. apply (ProvStep (sample_env (Some 1%nat)) (PRequest 1 sample_bio [])); [done| |vm_compute; reflexivity].
  split_and!; try done. exists (IoProvider 4 false). done.
Qed.

Lemma sample_filled_reachable : rtc prov_step sample_requested sample_filled.
Proof.
  apply (rtc_l _ _ sample_backend).
  - apply (ProvStep (sample_env (Some 1%nat)) (PGetBuf 1 true [0; 0; 0; 0])); [done| |vm_compute; reflexivity].
    vm_compute; reflexivity.
  - apply rtc_once. apply (ProvStep (sample_env (Some 1%nat)) (PTransfer 1 [11; 12; 13; 14])); [done| |vm_compute; reflexivity].
    split; [vm_compute; reflexivity|]. eexists. split; [vm_compute; reflexivity|]. done.
Qed.

(** The backend hands the request back. *)
Definition sample_completing : conf ProvStore :=
  let s := store sample_filled in
  Conf (ProvS (ps_providers s) (ps_bios s) (ps_ios s) (ps_blocks s) (ps_mem s) (ps_getbuf s)
          (ps_backend s ∖ {[1%nat]}) (ps_msgs s)) (live sample_filled) (hist sample_filled).

Lemma sample_completing_inv : prov_inv {[1%nat]} sample_completing.
Proof.
  assert (rtc prov_step sample_prov sample_filled) as Hr
    by (etrans; [exact sample_requested_reachable|exact sample_filled_reachable]).
  destruct (prov_steps_inv _ _ (prov_start_inv _ sample_prov_start) Hr) as [Hi _].
  unfold sample_completing. destruct sample_filled as [[pv bs xs bl mm gb bk ms] l h] eqn:E.
  assert (bk = {[1%nat]}) as -> by (apply (f_equal (fun c => ps_backend (store c))) in E; by vm_compute in E).
  simpl. replace ({[1%nat]} : gset ptr) with (∅ ∪ {[1%nat]} : gset ptr) at 1 by set_solver.
  by apply pinv_take_backend.
Qed.


Lemma provider_completes_exactly_once_witness :
  completions 1%nat (hist sample_filled) = 0.
Proof.
  destruct (provider_completes_exactly_once _ _ _ 1%nat sample_prov_start sample_requested_reachable
    ltac:(vm_compute; by eexists) sample_filled_reachable) as [(_ & H & _)|[H _]]; [exact H|].
  vm_compute in H. discriminate H.
Defined.

Lemma complete_batch_groups_by_thread_witness :
  exists g c' gs, group_completions None [(1%nat, 5)] (sample_env None) sample_filled = (Done g, c') /\
    groups_rep (ps_ios (store c')) g gs /\ concat gs ≡ₚ [1%nat] /\
    Forall (group_ok (thread_of (ps_ios (store c')))) gs /\
    NoDup (group_threads (thread_of (ps_ios (store c'))) gs).
Proof.
  apply (complete_batch_groups_by_thread (sample_env None) sample_filled [(1%nat, 5)]).
  - simpl. apply NoDup_singleton.
  - simpl. intros b ->%list_elem_of_singleton. vm_compute. by eexists.
Defined.

Lemma sample_iovs_ok : iovs_ok [(100, 3); (200, 2)].
Proof.
  simpl. repeat split; try done; try constructor; try constructor.
  unfold in_iov. simpl. lia.
Qed.

Lemma iovs_round_trip_witness :
  let '(m', ok) := copy_to_iovs [(100, 3); (200, 2)] [11; 12; 13; 14] 4 (fun a => a) in
  ok = true /\ copy_from_iovs 4 [(100, 3); (200, 2)] m' = ([11; 12; 13; 14], true).
Proof.
  pose proof (iovs_round_trip [(100, 3); (200, 2)] [11; 12; 13; 14] 4 (fun a => a) sample_iovs_ok
    ltac:(simpl; lia)) as H.
  destruct (copy_to_iovs _ _ _ _) as [m' ok]. destruct H as (Hok & Hback & _).
  vm_compute in Hok. split; [exact Hok|exact (Hback Hok)].
Defined.


Lemma provider_range_exact_witness :
  io_range ZETTIDE_SPDK_BDEV_PROVIDER_READ sample_bio 4 (sample_env None) sample_prov
    = (Done (Some (4, 4)), sample_prov).
Proof.
  exact (provider_range_exact ZETTIDE_SPDK_BDEV_PROVIDER_READ sample_bio 4 (sample_env None) sample_prov
    ltac:(lia) ltac:(by vm_compute) ltac:(by vm_compute) ltac:(done)).
Defined.
