(* ===== verification/Provider.v ===== *)
(** * Provider: services/data-node/spdk/bdev_provider.c, the life of a device

    Creating a provider registers an SPDK block device on the owner thread of a
    runtime and takes a lease; deleting it takes a second lease for the time of the
    deletion, asks SPDK to unregister the device and gives both leases back when
    SPDK has done so.  [delete] returns at once and reports through a callback;
    [delete_wait] keeps the request on its stack and polls.  The requests of the
    device are in ProviderIo.v. *)

From S2P Require Import Prelude Effects Externals Handshake Blocking Lease.

(** ** Data *)

Record provider_opts := ProviderOpts {
  po_opts_size : Z;
  po_name : option string;
  po_block_size : Z;
  po_block_count : Z;
  po_write_unit_blocks : Z;
  po_max_io_blocks : Z;
  po_backend_context : nat;
  po_submit : option nat;
  po_read_buffers_unchanged : bool;
}.

(** [sizeof(struct zettide_spdk_bdev_provider_opts)] on LP64. *)
Definition PROVIDER_OPTS_SIZE : Z := 64.

(** [struct zettide_spdk_bdev_provider] with the fields of its [struct spdk_bdev]
    the code sets. *)
Record provider := Provider {
  pr_name : ptr * string;
  pr_write_cache : Z;
  pr_blocklen : Z;
  pr_phys_blocklen : Z;
  pr_blockcnt : Z;
  pr_write_unit_size : Z;
  pr_max_rw_size : Z;
  pr_runtime : ptr;
  pr_backend_context : nat;
  pr_submit : option nat;
  pr_read_buffers_unchanged : bool;
}.

(** [PROVIDER_OTHER] stands for the values of the C enum without a name. *)
Inductive provider_command_operation :=
  | PROVIDER_CREATE
  | PROVIDER_OTHER.

Record provider_command := ProviderCommand {
  pc_sync : command;
  pc_operation : provider_command_operation;
  pc_owner : thread;
  pc_runtime : ptr;
  pc_opts : provider_opts;
  pc_provider : option ptr;
}.

(** A deletion is reported to a function of the client, or to the waiter on the
    stack of [delete_wait]. *)
Inductive delete_callback :=
  | UserCallback (callback context : nat)
  | WaitCallback (waiter : nat).

Record provider_delete := ProviderDelete {
  pd_provider : ptr;
  pd_runtime : ptr;
  pd_complete : option delete_callback;
  pd_free_request : bool;
}.

(** Where a deletion is: its message is queued, SPDK unregisters the device, SPDK
    has destructed it. *)
Inductive delete_phase :=
  | DQueued
  | DUnregistering
  | DDestructed.

(** A request on the heap, or on the stack of a [delete_wait]. *)
Inductive request_ref :=
  | OnHeap (p : ptr)
  | OnStack (frame : nat).

#[export] Instance delete_phase_eq : EqDecision delete_phase.
Proof. solve_decision. Defined.
#[export] Instance request_ref_eq : EqDecision request_ref.
Proof. solve_decision. Defined.
#[export] Instance request_ref_countable : Countable request_ref.
Proof.
  apply (inj_countable' (fun r => match r with OnHeap p => inl p | OnStack f => inr f end)
    (fun x => match x with inl p => OnHeap p | inr f => OnStack f end)).
  by intros [].
Defined.

(** [ps_waiters]: the [struct provider_delete_waiter] of each waiting call; [Some]
    when [completed] is set. *)
Record PrStore (R : Type) := PrS {
  prs_rt : R;
  prs_providers : gmap ptr provider;
  prs_deletes : gmap request_ref (provider_delete * delete_phase);
  prs_waiters : gmap nat (option Z);
}.
Arguments PrS {R} _ _ _ _.
Arguments prs_rt {R} _.
Arguments prs_providers {R} _.
Arguments prs_deletes {R} _.
Arguments prs_waiters {R} _.

(** ** Options *)

(** The first test of [create]: each field on its own. *)
Definition opts_fields_ok (o : provider_opts) : bool :=
  (po_opts_size o =? PROVIDER_OPTS_SIZE) && negb (is_null (po_name o)) && negb (is_null (po_submit o))
  && negb ((po_block_size o <? 512)
           || negb (Z.land (po_block_size o) (u32 (po_block_size o - 1)) =? 0)
           || (po_block_count o =? 0) || (po_write_unit_blocks o =? 0) || (po_max_io_blocks o =? 0)).

(** The second test: sizes in bytes. *)
Definition opts_sizes_ok (o : provider_opts) : bool :=
  let maximum_blocks := SIZE_MAX / po_block_size o in
  negb ((po_block_count o >? UINT64_MAX / po_block_size o)
        || (po_max_io_blocks o >? maximum_blocks)
        || (po_write_unit_blocks o >? po_block_count o)).

Definition zettide_spdk_bdev_provider_opts_init (opts : bool) (opts_size : Z) : opts_init_result provider_opts :=
  if negb opts || (opts_size =? 0) then OptsUntouched
  else if opts_size >=? PROVIDER_OPTS_SIZE then
    OptsInitialised (ProviderOpts opts_size None 4096 0 1 256 0 None false)
  else OptsCleared opts_size.

Section Provider.
Context {R : Type} `{RL : !RuntimeLease R}.
Abbreviation St := (PrStore R).

(** ** Store access *)

Definition get_provider (p : ptr) : M St provider :=
  let! s := get in deref (prs_providers s !! p).
Definition put_provider (p : ptr) (x : provider) : M St unit :=
  modify (fun s => PrS (prs_rt s) (<[p:=x]> (prs_providers s)) (prs_deletes s) (prs_waiters s)).
Definition drop_provider (p : ptr) : M St unit :=
  modify (fun s => PrS (prs_rt s) (delete p (prs_providers s)) (prs_deletes s) (prs_waiters s)) ;;;
  free (Some p).
Definition get_delete (r : request_ref) : M St (provider_delete * delete_phase) :=
  let! s := get in deref (prs_deletes s !! r).
Definition put_delete (r : request_ref) (x : provider_delete * delete_phase) : M St unit :=
  modify (fun s => PrS (prs_rt s) (prs_providers s) (<[r:=x]> (prs_deletes s)) (prs_waiters s)).
Definition drop_delete (r : request_ref) : M St unit :=
  modify (fun s => PrS (prs_rt s) (prs_providers s) (delete r (prs_deletes s)) (prs_waiters s)).
Definition set_waiters (f : gmap nat (option Z) -> gmap nat (option Z)) : M St unit :=
  modify (fun s => PrS (prs_rt s) (prs_providers s) (prs_deletes s) (f (prs_waiters s))).

Definition on_runtime {A} (m : M R A) : M St A :=
  zoom prs_rt (fun r s => PrS r (prs_providers s) (prs_deletes s) (prs_waiters s)) m.

(** ** Creation *)

Definition create_provider (opts : provider_opts) (name : string) (runtime : ptr)
    : M St (Z * option ptr) :=
  let! mp := calloc in
  match mp with
  | None => ret (- ENOMEM, None)
  | Some p =>
      let! mn := calloc in
      match mn with
      | None => free (Some p) ;;; ret (- ENOMEM, None)
      | Some n =>
          put_provider p (Provider (n, name) 1 (po_block_size opts) (po_block_size opts)
            (po_block_count opts) (po_write_unit_blocks opts) (po_max_io_blocks opts) runtime
            (po_backend_context opts) (po_submit opts) (po_read_buffers_unchanged opts)) ;;;
          let! status := call (SpdkBdevRegister p) in
          if status !=? 0 then
            free (Some n) ;;; drop_provider p ;;; ret (status : Z, None)
          else ret (0, Some p)
      end
  end.

Definition set_pc_sync (x : command) (out : option ptr) (cmd : provider_command) : provider_command :=
  ProviderCommand x (pc_operation cmd) (pc_owner cmd) (pc_runtime cmd) (pc_opts cmd) out.

Definition complete_provider_command (cmd : provider_command) (st : Z) : M St provider_command :=
  match complete_command (pc_sync cmd) st with
  | None => fail AssertFailed
  | Some (x, _) => ret (set_pc_sync x (pc_provider cmd) cmd)
  end.

(** [opts->name] is dereferenced by [strdup]. *)
Definition run_provider_command (cmd : provider_command) : M St provider_command :=
  let! cmd :=
    match pc_operation cmd with
    | PROVIDER_CREATE =>
        let! name := deref (po_name (pc_opts cmd)) in
        let! r := create_provider (pc_opts cmd) name (pc_runtime cmd) in
        complete_provider_command
          (set_pc_sync (pc_sync cmd) (match r.2 with Some p => Some p | None => pc_provider cmd end) cmd) r.1
    | PROVIDER_OTHER => complete_provider_command cmd (- EINVAL)
    end in
  ret (set_pc_sync (owner_done (pc_sync cmd)).1 (pc_provider cmd) cmd).

(** The command is on the stack at [self]; where the code waits the owner runs it. *)
Definition dispatch_provider_command (self : nat) (cmd : provider_command)
    : M St (Z * provider_command) :=
  let! rc := command_setup in
  if rc !=? 0 then ret (rc, cmd) else
  let cmd := set_pc_sync command_init (pc_provider cmd) cmd in
  let! rc := call (SpdkThreadSendMsg (pc_owner cmd) FnRunProviderCommand self) in
  if rc !=? 0 then fail Aborted else
  let! cmd := run_on (Some (pc_owner cmd)) (run_provider_command cmd) in
  if wait_over (pc_sync cmd) then
    command_cleanup ;;; ret (status (pc_sync cmd), cmd)
  else blocked.

(** The status and the value stored in [*provider_out], if it was written. *)
Definition zettide_spdk_bdev_provider_create (self : nat) (runtime : option ptr)
    (opts : option provider_opts) (provider_out : bool) : M St (Z * option (option ptr)) :=
  match runtime, opts with
  | Some rt, Some o =>
      if negb (provider_out && opts_fields_ok o) then ret (- EINVAL, None) else
      if negb (opts_sizes_ok o) then ret (- EINVAL, None) else
      let! a := on_runtime (rl_acquire rt) in
      if a.1 !=? 0 then ret (a.1, Some None) else
      let! owner := deref a.2 in
      let! r := dispatch_provider_command self
        (ProviderCommand (Command false false 0) PROVIDER_CREATE owner rt o None) in
      if r.1 !=? 0 then on_runtime (rl_release rt) ;;; ret (r.1, Some None)
      else ret (0, Some (pc_provider r.2))
  | _, _ => ret (- EINVAL, None)
  end.

(** The destructor SPDK calls when the last user has closed the device. *)
Definition provider_destruct (p : ptr) : M St Z :=
  let! x := get_provider p in
  free (Some (pr_name x).1) ;;; drop_provider p ;;; ret 0.

(** ** Deletion *)

Definition ref_address (r : request_ref) : nat :=
  match r with OnHeap p => p | OnStack f => f end.

(** The [do ... while] loop; [fuel] bounds the number of retries. *)
Fixpoint send_delete (fuel : nat) (owner : thread) (r : request_ref) (retry : bool) : M St Z :=
  let! status := call (SpdkThreadSendMsg owner FnProviderStartDelete (ref_address r)) in
  if (status =? - ENOMEM) && retry then
    call SchedYield ;;;
    match fuel with
    | O => blocked
    | S fuel => send_delete fuel owner r retry
    end
  else ret (status : Z).

Definition submit_provider_delete (fuel : nat) (r : request_ref) (retry : bool) : M St Z :=
  let! x := get_delete r in
  let! a := on_runtime (rl_acquire (pd_runtime x.1)) in
  if a.1 !=? 0 then ret a.1 else
  let! owner := deref a.2 in
  let! status := send_delete fuel owner r retry in
  if status !=? 0 then on_runtime (rl_release (pd_runtime x.1)) ;;; ret status
  else ret status.

Definition zettide_spdk_bdev_provider_delete (provider : option ptr)
    (complete : option (nat * nat)) : M St Z :=
  let! t := spdk_get_thread in
  match provider with
  | None => ret (- EINVAL)
  | Some p =>
      if negb (is_null t) then ret (- EDEADLK) else
      let! mr := calloc in
      match mr with
      | None => ret (- ENOMEM)
      | Some q =>
          let! x := get_provider p in
          put_delete (OnHeap q)
            (ProviderDelete p (pr_runtime x) (option_map (fun '(f, a) => UserCallback f a) complete) true,
             DQueued) ;;;
          let! status := submit_provider_delete 0 (OnHeap q) false in
          (if status !=? 0 then drop_delete (OnHeap q) ;;; free (Some q) else ret tt) ;;;
          ret status
      end
  end.

Definition provider_delete_wait_complete (waiter : nat) (status : Z) : M St unit :=
  set_waiters <[waiter:=Some status]>.

(** [delete_wait] up to its loop: the status it returns at once, or [None] when it
    waits.  Request and waiter are in the stack frame [self]. *)
Definition delete_wait_begin (fuel : nat) (self : nat) (provider : option ptr) : M St (option Z) :=
  let! t := spdk_get_thread in
  match provider with
  | None => ret (Some (- EINVAL))
  | Some p =>
      if negb (is_null t) then ret (Some (- EDEADLK)) else
      let! rc := call (PthreadSetcancelstate true) in
      assert (rc =? 0) ;;;
      let! x := get_provider p in
      set_waiters <[self:=None]> ;;;
      put_delete (OnStack self) (ProviderDelete p (pr_runtime x) (Some (WaitCallback self)) false, DQueued) ;;;
      let! status := submit_provider_delete fuel (OnStack self) true in
      if status =? 0 then ret None
      else
        drop_delete (OnStack self) ;;; set_waiters (delete self) ;;;
        let! rc := call (PthreadSetcancelstate false) in
        assert (rc =? 0) ;;; ret (Some status)
  end.

(** The loop of [delete_wait] and its return. *)
Definition delete_wait_end (self : nat) : M St Z :=
  let! s := get in
  let! w := deref (prs_waiters s !! self) in
  match w with
  | None => blocked
  | Some status =>
      set_waiters (delete self) ;;;
      let! rc := call (PthreadSetcancelstate false) in
      assert (rc =? 0) ;;; ret status
  end.

Definition provider_start_delete (r : request_ref) : M St unit :=
  let! x := get_delete r in
  call (SpdkBdevUnregister (pd_provider x.1) (ref_address r)) ;;;
  put_delete r (x.1, DUnregistering).

(** The callback of [spdk_bdev_unregister].  With the call of [complete] a waiting
    [delete_wait] may return, and its stack frame with the request is gone. *)
Definition provider_delete_done (r : request_ref) (status : Z) : M St unit :=
  let! x := get_delete r in
  let runtime := pd_runtime x.1 in
  let free_request := pd_free_request x.1 in
  on_runtime (rl_release runtime) ;;;
  on_runtime (rl_release runtime) ;;;
  let! x := get_delete r in
  match pd_complete x.1 with
  | None => ret tt
  | Some (UserCallback f a) => call (DeleteCallback f a status) ;;; ret tt
  | Some (WaitCallback w) => drop_delete r ;;; provider_delete_wait_complete w status
  end ;;;
  if free_request then
    match r with
    | OnHeap q => get_delete r ;;; drop_delete r ;;; free (Some q)
    | OnStack _ => fail BadPointer
    end
  else ret tt.

(** ** Specifications of the operations *)

Lemma wp_get_provider p x e (c : conf St) Q :
  prs_providers (store c) !! p = Some x -> Q (Done x) c -> wp (get_provider p) e c Q.
Proof. intros Hp HQ. unfold get_provider. wp_steps. by eapply wp_deref. Qed.

Lemma wp_get_delete r x e (c : conf St) Q :
  prs_deletes (store c) !! r = Some x -> Q (Done x) c -> wp (get_delete r) e c Q.
Proof. intros Hp HQ. unfold get_delete. wp_steps. by eapply wp_deref. Qed.

Lemma wp_on_runtime {A} (m : M R A) e (c : conf St) Q0 Q :
  wp m e (Conf (prs_rt (store c)) (live c) (hist c)) (returns Q0) ->
  (forall a c', Q0 a c' -> Q (Done a) (Conf (PrS (store c') (prs_providers (store c)) (prs_deletes (store c))
                                         (prs_waiters (store c))) (live c') (hist c'))) ->
  wp (on_runtime m) e c Q.
Proof.
  intros Hm HQ. unfold on_runtime. wp_step. eapply wp_mono; [exact Hm|].
  intros [a|f|] c'; simpl; [|done|done]. apply HQ.
Qed.

(** The device [create] makes of its options. *)
Definition provider_of (o : provider_opts) (n : ptr) (name : string) (rt : ptr) : provider :=
  Provider (n, name) 1 (po_block_size o) (po_block_size o) (po_block_count o) (po_write_unit_blocks o)
    (po_max_io_blocks o) rt (po_backend_context o) (po_submit o) (po_read_buffers_unchanged o).

(** What creation leaves behind: nothing, or a device with a new name. *)
Definition created (o : provider_opts) (rt : ptr) (rc : Z) (out : option ptr) (c c' : conf St) : Prop :=
  conf_ok c' /\ hist c `suffix_of` hist c' /\
  prs_deletes (store c') = prs_deletes (store c) /\ prs_waiters (store c') = prs_waiters (store c) /\
  (rc <> 0 /\ out = None /\ prs_providers (store c') = prs_providers (store c) /\ live c' = live c
   \/ exists p n name, rc = 0 /\ out = Some p /\ po_name o = Some name /\ p ∉ live c /\ n ∉ live c /\ p <> n /\
      live c' = {[p; n]} ∪ live c /\
      prs_providers (store c') = <[p:=provider_of o n name rt]> (prs_providers (store c))).

Lemma two_fresh (l : gset ptr) p n :
  p ∉ l -> n ∉ {[p]} ∪ l ->
  n ∈ {[n]} ∪ ({[p]} ∪ l) /\ p ∈ ({[n]} ∪ ({[p]} ∪ l)) ∖ {[n]} /\
  ({[n]} ∪ ({[p]} ∪ l)) ∖ {[n]} ∖ {[p]} = l /\ p <> n /\ n ∉ l /\
  {[n]} ∪ ({[p]} ∪ l) = {[p; n]} ∪ l.
Proof. intros Hp Hn. split_and!; set_solver. Qed.

Lemma create_provider_spec o name rt e (c : conf St) :
  conf_ok c -> po_name o = Some name -> (forall p x, prs_providers (store c) !! p = Some x -> p ∈ live c) ->
  wp (create_provider o name rt) e c (returns (fun r c' =>
    created o rt r.1 r.2 c c' /\ prs_rt (store c') = prs_rt (store c))).
Proof.
  destruct c as [[r ps ds ws] l h]. intros Hc Hname Hl. simpl in Hl. unfold create_provider.
  assert (forall rc h', rc <> 0 -> h `suffix_of` h' ->
    created o rt rc None (Conf (PrS r ps ds ws) l h) (Conf (PrS r ps ds ws) l h')) as Hno.
  { intros rc h' Hrc Hh. split_and!; try done; [by eapply conf_ok_suffix|]. by left. }
  wp_step. apply wp_calloc; [wp_step; split; [|done]; apply Hno; [done|solve_suffix]|].
  intros p Hsz. simpl in Hsz. wp_step.
  pose proof (fresh_not_live _ Hc) as Hp. change (p ∉ l) in Hp.
  pose proof (conf_ok_alloc (PrS r ps ds ws) (PrS r ps ds ws) l h p Hc eq_refl Hsz) as Hc1.
  assert (({[p]} ∪ l) ∖ {[p]} = l) as Hback by set_solver.
  apply wp_calloc.
  { wp_step. apply wp_free; [simpl; set_solver|]. wp_step. simpl. rewrite Hback.
    split; [|done]. apply Hno; [done|solve_suffix]. }
  intros n Hsz2. simpl in Hsz2. pose proof (fresh_not_live _ Hc1) as Hn. change (n ∉ {[p]} ∪ l) in Hn.
  pose proof (conf_ok_alloc _ (PrS r ps ds ws) _ _ n Hc1 eq_refl Hsz2) as Hc2.
  destruct (two_fresh l p n Hp Hn) as (Hin & Hip & Hout & Hpn & Hnl & Hall).
  wp_step. unfold put_provider. wp_step. simpl. wp_step. wp_step. wp_if as Hst; breflect.
  - wp_step. apply wp_free; [exact Hin|]. wp_step. unfold drop_provider. wp_step. wp_step. simpl.
    apply wp_free; [exact Hip|]. wp_step. simpl.
    assert (ps !! p = None) as Hps by (apply eq_None_not_Some; intros [x Hx]; by apply Hl in Hx).
    rewrite (delete_insert_id _ _ _ Hps).
    rewrite Hout. split; [|done]. apply Hno; [done|solve_suffix].
  - wp_step. split; [|done]. split; [|split; [simpl; solve_suffix|]].
    + simpl. eapply conf_ok_suffix; [exact Hc2|]. solve_suffix.
    + split; [done|]. split; [done|]. right. exists p, n, name. simpl. split_and!; try done.
Qed.

(** SPDK accepts the messages that carry commands; otherwise the code aborts. *)
Definition commands_accepted (e : env) : Prop :=
  forall h t x, oracle e h (SpdkThreadSendMsg t FnRunProviderCommand x) = 0.

Lemma dispatch_create_spec self o rt owner e (c : conf St) :
  conf_ok c -> is_Some (po_name o) -> (forall p x, prs_providers (store c) !! p = Some x -> p ∈ live c) ->
  commands_accepted e -> posix_ok e ->
  wp (dispatch_provider_command self (ProviderCommand (Command false false 0) PROVIDER_CREATE owner rt o None)) e c
    (returns (fun r c' => created o rt r.1 (if r.1 =? 0 then pc_provider r.2 else None) c c' /\
      prs_rt (store c') = prs_rt (store c))).
Proof.
  intros Hc [name Hname] Hl Hsend Hpx. unfold dispatch_provider_command. wp_step. apply wp_setup.
  { intros rc h Hrc Hh. simpl. rewrite (proj2 (Z.eqb_neq rc 0)) by done. simpl. wp_step. simpl.
    rewrite (proj2 (Z.eqb_neq rc 0)) by done. split; [|done]. destruct c as [s l h0].
    split_and!; try done; [by eapply conf_ok_suffix|]. by left. }
  intros h _ Hh. simpl. wp_step. wp_known Hsend. simpl. wp_step. wp_step.
  unfold run_provider_command. wp_step. simpl. wp_step. eapply wp_deref; [done|]. wp_step.
  set (c1 := Conf (store c) (live c) _).
  assert (hist c `suffix_of` hist c1) as Hh1 by (simpl; by apply suffix_cons_r).
  eapply wp_mono; [apply (create_provider_spec o name rt _ c1); [|done|done]|].
  { destruct c as [s l h0]. by eapply conf_ok_suffix. }
  intros [r|f|] c'; simpl; [|done|done]. intros [(Hc' & Hh' & Hd & Hw & Hr) Hrt].
  unfold complete_provider_command, complete_command. simpl. wp_step. wp_step. simpl.
  unfold wait_over. simpl. wp_step. apply wp_cleanup; [done|]. intros h2 Hh2. wp_step. simpl.
  split; [|done]. split_and!; simpl; try done.
  - destruct c' as [s' l' h']. by eapply conf_ok_suffix.
  - trans (hist c'); [|done]. by trans (hist c1).
  - destruct Hr as [(H1 & H2 & H3 & H4)|(p & n & nm & H1 & H2 & Hr)].
    + left. rewrite (proj2 (Z.eqb_neq r.1 0)) by done. done.
    + right. exists p, n, nm. rewrite H1, H2. done.
Qed.

(** [create] takes a lease exactly when it makes a device. *)
Lemma provider_create_spec self o rt out e (c : conf St) :
  conf_ok c -> (forall p x, prs_providers (store c) !! p = Some x -> p ∈ live c) ->
  commands_accepted e -> posix_ok e -> rl_ok rt (prs_rt (store c)) -> rl_leases rt (prs_rt (store c)) < UINT64_MAX ->
  wp (zettide_spdk_bdev_provider_create self (Some rt) (Some o) out) e c (returns (fun r c' =>
    created o rt r.1 (if r.1 =? 0 then mjoin r.2 else None) c c' /\ (r.1 <> 0 -> mjoin r.2 = None) /\
    rl_ok rt (prs_rt (store c')) /\
    rl_leases rt (prs_rt (store c')) = rl_leases rt (prs_rt (store c)) + (if r.1 =? 0 then 1 else 0) /\
    (r.1 = 0 -> opts_fields_ok o = true /\ opts_sizes_ok o = true))).
Proof.
  destruct c as [[r ps ds ws] l h]. intros Hc Hl Hsend Hpx Hrt Hmax. simpl in Hl, Hrt, Hmax.
  assert (forall rc out' r', rc <> 0 -> mjoin out' = None ->
    rl_ok rt r' -> rl_leases rt r' = rl_leases rt r -> forall h', h `suffix_of` h' ->
    created o rt rc (if rc =? 0 then mjoin out' else None) (Conf (PrS r ps ds ws) l h) (Conf (PrS r' ps ds ws) l h') /\
    (rc <> 0 -> mjoin out' = None) /\ rl_ok rt r' /\
    rl_leases rt r' = rl_leases rt r + (if rc =? 0 then 1 else 0) /\
    (rc = 0 -> opts_fields_ok o = true /\ opts_sizes_ok o = true)) as Hno.
  { intros rc out' r' Hrc Ho Hok Hle h' Hh. rewrite (proj2 (Z.eqb_neq rc 0)) by done.
    split_and!; try done; [|lia]. split_and!; try done; [by eapply conf_ok_suffix|]. by left. }
  unfold zettide_spdk_bdev_provider_create.
  wp_if as Hf; [wp_step; by apply (Hno _ None)|]. wp_if as Hz; [wp_step; by apply (Hno _ None)|].
  apply negb_false_iff in Hf, Hz. apply andb_true_iff in Hf as [_ Hf].
  wp_step. eapply wp_on_runtime; [by apply rl_acquire_law|]. simpl.
  intros [rc ow] [r1 l1 h1]; simpl. intros (Hok1 & -> & -> & [(-> & [owner ->] & Hle)|(Hrc & -> & Hle)]); simpl.
  2:{ rewrite (proj2 (Z.eqb_neq rc 0)) by done. simpl. wp_step. by apply (Hno rc (Some None)). }
  wp_step. wp_step. wp_step.
  eapply wp_mono; [apply dispatch_create_spec; try done|].
  { unfold opts_fields_ok in Hf. destruct (po_name o); [by eexists|]. simpl in Hf. by rewrite andb_false_r in Hf. }
  intros [[rc cmd]|f|] [[r2 ps2 ds2 ws2] l2 h2]; simpl; [|done|done].
  intros [(Hc2 & Hh2 & Hd2 & Hw2 & Hr) Hrt2]. simpl in *. subst r2 ds2 ws2. wp_if as Hst; breflect.
  - destruct Hr as [(_ & _ & -> & ->)|(p & n & nm & -> & _)]; [|done]. wp_step.
    pose proof (rl_leases_nonneg rt r Hrt).
    eapply wp_on_runtime; [apply rl_release_law; simpl; [done|lia]|]. simpl.
    intros _ [r3 l3 h3] (Hok3 & -> & -> & Hle3). simpl in *. wp_step. apply (Hno rc (Some None)); try done. simpl. lia.
  - wp_step. subst rc. simpl in *. destruct Hr as [(? & _)|Hr]; [done|].
    split_and!; try done. split_and!; try done. by right.
Qed.

(** ** The deletion of a device *)

(** A submission takes a lease and queues the message, or changes nothing. *)
(** The refused attempts to send the message of a deletion. *)
Definition is_refusal (ev : event) : bool :=
  match ev with EvCall (SpdkThreadSendMsg _ FnProviderStartDelete _) rc => rc =? - ENOMEM | _ => false end.
Definition refusals (h : list event) : Z := count_events is_refusal h.

Lemma send_delete_spec fuel owner r retry e (c : conf St) :
  wp (send_delete fuel owner r retry) e c (fun o c' =>
    store c' = store c /\ live c' = live c /\ hist c `suffix_of` hist c' /\
    match o with
    | Done _ => True
    | Blocked => retry = true /\ refusals (hist c') = refusals (hist c) + Z.of_nat fuel + 1
    | Fault _ => False
    end).
Proof.
  unfold refusals. revert c. induction fuel as [|fuel IH]; intros [s l h]; cbn [send_delete]; do 2 wp_step; wp_if as Hst.
  - wp_step. wp_step. apply andb_true_iff in Hst as [Hst ->]. unfold wp. simpl. rewrite Hst.
    split_and!; try done; [solve_suffix|lia].
  - wp_step. simpl. split_and!; try done. solve_suffix.
  - wp_step. wp_step. apply andb_true_iff in Hst as [Hst ->]. eapply wp_mono; [apply IH|]. simpl.
    intros o c' (H1 & H2 & H3 & H4). split_and!; try done; [etrans; [|exact H3]; solve_suffix|].
    destruct o; [done|done|]. rewrite Hst in H4. split; [done|]. lia.
  - wp_step. simpl. split_and!; try done. solve_suffix.
Qed.

Lemma submit_delete_spec fuel r retry x rt e (c : conf St) :
  prs_deletes (store c) !! r = Some x -> pd_runtime x.1 = rt -> rl_ok rt (prs_rt (store c)) ->
  rl_leases rt (prs_rt (store c)) < UINT64_MAX ->
  wp (submit_provider_delete fuel r retry) e c (fun o c' =>
    prs_providers (store c') = prs_providers (store c) /\ prs_deletes (store c') = prs_deletes (store c) /\
    prs_waiters (store c') = prs_waiters (store c) /\ live c' = live c /\ hist c `suffix_of` hist c' /\
    rl_ok rt (prs_rt (store c')) /\
    match o with
    | Done st => rl_leases rt (prs_rt (store c')) = rl_leases rt (prs_rt (store c)) + (if st =? 0 then 1 else 0)
    | Blocked => retry = true /\ refusals (hist c') = refusals (hist c) + Z.of_nat fuel + 1
    | Fault _ => False
    end).
Proof.
  destruct c as [[r0 ps ds ws] l h]. intros Hx Hrt Hok Hmax. simpl in *. unfold submit_provider_delete.
  wp_step. eapply wp_get_delete; [done|]. rewrite Hrt. wp_step.
  eapply wp_on_runtime; [by apply rl_acquire_law|]. simpl.
  intros [rc ow] [r1 l1 h1]; simpl. intros (Hok1 & -> & -> & [(-> & [owner ->] & Hle)|(Hrc & -> & Hle)]); simpl.
  2:{ rewrite (proj2 (Z.eqb_neq rc 0)) by done. simpl. wp_step. simpl.
      rewrite (proj2 (Z.eqb_neq rc 0)) by done. split_and!; try done. lia. }
  wp_step. wp_step. wp_step. eapply wp_mono; [apply send_delete_spec|].
  intros [st|f|] [s2 l2 h2]; simpl; intros (-> & -> & Hh & Hr); [|done|].
  - wp_if as Hst; breflect.
    + wp_step. pose proof (rl_leases_nonneg rt r0 Hok).
      eapply wp_on_runtime; [apply rl_release_law; simpl; [done|lia]|]. simpl.
      intros _ [r3 l3 h3] (Hok3 & -> & -> & Hle3). simpl in *. wp_step. simpl.
      rewrite (proj2 (Z.eqb_neq st 0)) by done. split_and!; try done. lia.
    + wp_step. simpl. subst st. simpl. split_and!; try done.
  - destruct Hr as [-> Hr]. split_and!; done.
Qed.

(** Deletions of devices SPDK has destructed, which still hold both leases. *)
Definition is_destructed (x : provider_delete * delete_phase) : bool := bool_decide (x.2 = DDestructed).

Definition destructed (ds : gmap request_ref (provider_delete * delete_phase))
    : gmap request_ref (provider_delete * delete_phase) := filter (fun kv => is_destructed kv.2 = true) ds.

(** The leases of the deletions: one each, and that of the device once it is gone. *)
Definition weight (ds : gmap request_ref (provider_delete * delete_phase)) : Z :=
  Z.of_nat (size ds) + Z.of_nat (size (destructed ds)).

(** The leases the module holds: one for each device, and those of the deletions. *)
Definition held (s : St) : Z := Z.of_nat (size (prs_providers s)) + weight (prs_deletes s).

Definition share (x : provider_delete * delete_phase) : Z := if is_destructed x then 2 else 1.

Lemma weight_delete ds r x : ds !! r = Some x -> weight ds = weight (delete r ds) + share x.
Proof.
  intros Hx. unfold weight, share, destructed. rewrite map_size_delete, Hx, map_filter_delete, map_size_delete, map_lookup_filter, Hx.
  assert (size ds <> 0%nat) as H0 by (apply (map_size_ne_0_lookup_2 ds r); by rewrite Hx).
  simpl. destruct (is_destructed x) eqn:Hd; simpl.
  - assert (size (filter (fun kv => is_destructed kv.2 = true) ds) <> 0%nat).
    { apply (map_size_ne_0_lookup_2 _ r). rewrite map_lookup_filter, Hx. simpl. by rewrite Hd. }
    simplify_option_eq. simpl. lia.
  - simplify_option_eq. simpl. lia.
Qed.

Lemma weight_insert ds r x : weight (<[r:=x]> ds) = weight (delete r ds) + share x.
Proof. rewrite (weight_delete (<[r:=x]> ds) r x) by apply lookup_insert_eq. by rewrite delete_insert_eq. Qed.

Lemma weight_nonneg ds : 0 <= weight ds.
Proof. unfold weight. lia. Qed.

Lemma held_positive s : prs_providers s <> ∅ \/ prs_deletes s <> ∅ -> 0 < held s.
Proof. unfold held, weight. rewrite <- !map_size_empty_iff. lia. Qed.

(** A request on the heap is freed by [provider_delete_done]; one on a stack
    belongs to a call that waits. *)
Definition request_ok (rt : ptr) (c : conf St) (r : request_ref) (x : provider_delete) : Prop :=
  pd_runtime x = rt /\
  match r with
  | OnHeap q => q ∈ live c /\ pd_free_request x = true /\ forall w, pd_complete x <> Some (WaitCallback w)
  | OnStack f => pd_free_request x = false /\ pd_complete x = Some (WaitCallback f) /\
                 prs_waiters (store c) !! f = Some None
  end.

(** [base]: the leases of other clients of the runtime. *)
Record life_inv (rt : ptr) (base : Z) (c : conf St) : Prop := {
  li_conf : conf_ok c;
  li_rt : rl_ok rt (prs_rt (store c));
  li_base : 0 <= base;
  li_leases : rl_leases rt (prs_rt (store c)) = base + held (store c);
  li_prov : forall p x, prs_providers (store c) !! p = Some x ->
    pr_runtime x = rt /\ p ∈ live c /\ (pr_name x).1 ∈ live c;
  li_name : forall p p' x x', prs_providers (store c) !! p = Some x -> prs_providers (store c) !! p' = Some x' ->
    (pr_name x).1 <> p' /\ ((pr_name x).1 = (pr_name x').1 -> p = p');
  li_req : forall r x ph, prs_deletes (store c) !! r = Some (x, ph) -> request_ok rt c r x;
  li_heap : forall q y, prs_deletes (store c) !! OnHeap q = Some y ->
    prs_providers (store c) !! q = None /\
    forall p x, prs_providers (store c) !! p = Some x -> (pr_name x).1 <> q;
  li_alive : forall r x ph, prs_deletes (store c) !! r = Some (x, ph) -> ph <> DDestructed ->
    is_Some (prs_providers (store c) !! pd_provider x);
  li_once : forall r r' x x' ph ph', prs_deletes (store c) !! r = Some (x, ph) ->
    prs_deletes (store c) !! r' = Some (x', ph') -> ph <> DDestructed -> ph' <> DDestructed ->
    pd_provider x = pd_provider x' -> r = r';
}.

Lemma life_log rt base r r' ps ds ws l h h' :
  life_inv rt base (Conf (PrS r ps ds ws) l h) -> h `suffix_of` h' ->
  rl_ok rt r' -> rl_leases rt r' = rl_leases rt r -> life_inv rt base (Conf (PrS r' ps ds ws) l h').
Proof.
  intros [] Hh Hok Hle. simpl in *. split; simpl; try assumption; [by eapply conf_ok_suffix|].
  by rewrite Hle.
Qed.

Lemma life_create rt base r r' ps ds ws l h h' p n x :
  life_inv rt base (Conf (PrS r ps ds ws) l h) ->
  conf_ok (Conf (PrS r' (<[p:=x]> ps) ds ws) ({[p; n]} ∪ l) h') ->
  rl_ok rt r' -> rl_leases rt r' = rl_leases rt r + 1 ->
  p ∉ l -> n ∉ l -> p <> n -> (pr_name x).1 = n -> pr_runtime x = rt ->
  life_inv rt base (Conf (PrS r' (<[p:=x]> ps) ds ws) ({[p; n]} ∪ l) h').
Proof.
  intros [] Hc Hok Hle Hp Hn Hpn Hnm Hrt. simpl in *.
  assert (ps !! p = None) as Hps. { apply eq_None_not_Some. intros [y Hy]. by apply li_prov0 in Hy as (_ & Hy & _). }
  split; simpl; try assumption.
  - rewrite Hle, li_leases0. unfold held. simpl. rewrite map_size_insert_None by done. lia.
  - intros p' y [[<- <-]|[_ Hy]]%lookup_insert_Some; [split; [done|]; rewrite Hnm; split; set_solver|].
    destruct (li_prov0 p' y Hy) as (? & ? & ?). split; [done|]. split; set_solver.
  - intros p1 p2 x1 x2 [[<- <-]|[Hne1 H1]]%lookup_insert_Some [[<- <-]|[Hne2 H2]]%lookup_insert_Some; rewrite ?Hnm.
    + by split.
    + destruct (li_prov0 p2 x2 H2) as (_ & ? & ?). split; [intros ->; done|]. intros Heq. congruence.
    + destruct (li_prov0 p1 x1 H1) as (_ & ? & ?). split; [intros Heq|intros Heq]; congruence.
    + eauto.
  - intros q y ph Hy. destruct (li_req0 q y ph Hy) as [? Hq]. split; [done|].
    destruct q; [|done]. destruct Hq as (? & ?). split; [simpl in *; set_solver|done].
  - intros q y Hy. destruct (li_heap0 q y Hy) as [Hq1 Hq2]. destruct y as [y ph].
    destruct (li_req0 _ _ _ Hy) as (_ & Hq & _). simpl in Hq. split.
    + rewrite lookup_insert_ne; [done|]. intros ->. done.
    + intros p' x' [[<- <-]|[_ Hx']]%lookup_insert_Some; [rewrite Hnm; intros ->; done|eauto].
  - intros q y ph Hy Hph. destruct (li_alive0 q y ph Hy Hph) as [x' Hx']. apply lookup_insert_is_Some'. right. by eexists.
Qed.

Lemma life_request rt base r r' ps ds ws ws' l l' h h' q x :
  life_inv rt base (Conf (PrS r ps ds ws) l h) ->
  conf_ok (Conf (PrS r' ps (<[q:=(x, DQueued)]> ds) ws') l' h') -> ds !! q = None ->
  rl_ok rt r' -> rl_leases rt r' = rl_leases rt r + 1 -> l ⊆ l' ->
  is_Some (ps !! pd_provider x) ->
  (forall q' y ph, ds !! q' = Some (y, ph) -> ph <> DDestructed -> pd_provider y <> pd_provider x) ->
  (forall f, ws !! f = Some None -> ws' !! f = Some None) ->
  request_ok rt (Conf (PrS r' ps (<[q:=(x, DQueued)]> ds) ws') l' h') q x ->
  (forall p, q = OnHeap p -> p ∉ l) ->
  life_inv rt base (Conf (PrS r' ps (<[q:=(x, DQueued)]> ds) ws') l' h').
Proof.
  intros [] Hc Hq Hok Hle Hl Hp Hown Hws Hreq Hfresh. simpl in *. split; simpl; try assumption.
  - rewrite Hle, li_leases0. unfold held. simpl. rewrite weight_insert, delete_id by done. unfold share. simpl. lia.
  - intros p' y Hy. destruct (li_prov0 p' y Hy) as (? & ? & ?). split_and!; auto.
  - intros q' y ph [[<- [= <- <-]]|[_ Hy]]%lookup_insert_Some; [done|].
    destruct (li_req0 q' y ph Hy) as [? Hq']. split; [done|]. destruct q'; simpl in *; [|naive_solver].
    destruct Hq' as (? & ?). split; [auto|done].
  - intros q' y [[-> <-]|[_ Hy]]%lookup_insert_Some; [|eauto]. specialize (Hfresh q' eq_refl). split.
    + apply eq_None_not_Some. intros [z Hz]. apply li_prov0 in Hz as (_ & ? & _). done.
    + intros p' z Hz <-. apply li_prov0 in Hz as (_ & _ & ?). done.
  - intros q' y ph [[<- [= <- <-]]|[_ Hy]]%lookup_insert_Some Hph; eauto.
  - intros q1 q2 y1 y2 ph1 ph2 [[<- [= <- <-]]|[? H1]]%lookup_insert_Some [[<- [= <- <-]]|[? H2]]%lookup_insert_Some P1 P2 Heq;
      [done| | |eauto]; exfalso; [eapply (Hown q2)|eapply (Hown q1)]; eauto.
Qed.

(** SPDK has begun to unregister the device. *)
Lemma life_start rt base r ps ds ws l h q x :
  life_inv rt base (Conf (PrS r ps ds ws) l h) -> ds !! q = Some (x, DQueued) ->
  life_inv rt base (Conf (PrS r ps (<[q:=(x, DUnregistering)]> ds) ws) l h).
Proof.
  intros [] Hq. simpl in *. split; simpl; try assumption.
  - rewrite li_leases0. unfold held. simpl. rewrite weight_insert, (weight_delete ds q _ Hq). done.
  - intros q' y ph [[<- [= <- <-]]|[_ Hy]]%lookup_insert_Some; [exact (li_req0 _ _ _ Hq)|exact (li_req0 _ _ _ Hy)].
  - intros q' y [[-> <-]|[_ Hy]]%lookup_insert_Some; eauto.
  - intros q' y ph [[<- [= <- <-]]|[_ Hy]]%lookup_insert_Some Hph; eauto.
  - intros q1 q2 y1 y2 ph1 ph2 [[<- [= <- <-]]|[? H1]]%lookup_insert_Some [[<- [= <- <-]]|[? H2]]%lookup_insert_Some P1 P2 Heq.
    + done.
    + by eapply (li_once0 _ _ _ _ _ _ Hq H2).
    + by eapply (li_once0 _ _ _ _ _ _ H1 Hq).
    + eauto.
Qed.

(** SPDK has destructed the device. *)
Lemma life_destruct rt base r ps ds ws l h h' q x ph p y :
  life_inv rt base (Conf (PrS r ps ds ws) l h) -> ds !! q = Some (x, ph) -> ph <> DDestructed ->
  pd_provider x = p -> ps !! p = Some y ->
  conf_ok (Conf (PrS r (delete p ps) (<[q:=(x, DDestructed)]> ds) ws) (l ∖ {[(pr_name y).1]} ∖ {[p]}) h') ->
  life_inv rt base (Conf (PrS r (delete p ps) (<[q:=(x, DDestructed)]> ds) ws) (l ∖ {[(pr_name y).1]} ∖ {[p]}) h').
Proof.
  intros [] Hq Hph Hp Hy Hc. simpl in *. split; simpl; try assumption.
  - rewrite li_leases0. unfold held. simpl. rewrite weight_insert, (weight_delete ds q _ Hq), map_size_delete, Hy.
    assert (size ps <> 0%nat) by (apply (map_size_ne_0_lookup_2 ps p); by rewrite Hy).
    unfold share, is_destructed. simpl. rewrite bool_decide_false by done. lia.
  - intros p' z [Hne Hz]%lookup_delete_Some. destruct (li_prov0 p' z Hz) as (? & ? & ?).
    destruct (li_name0 p p' y z Hy Hz) as [? ?], (li_name0 p' p z y Hz Hy) as [? Hinj].
    split; [done|]. split; [set_solver|]. assert ((pr_name z).1 <> (pr_name y).1) by (intros Heq; by apply Hinj in Heq).
    set_solver.
  - intros p1 p2 x1 x2 [_ H1]%lookup_delete_Some [_ H2]%lookup_delete_Some. eauto.
  - assert (forall q' z ph', ds !! q' = Some (z, ph') ->
      request_ok rt (Conf (PrS r (delete p ps) (<[q:=(x, DDestructed)]> ds) ws) (l ∖ {[(pr_name y).1]} ∖ {[p]}) h') q' z) as Hok.
    { intros q' z ph' Hz. destruct (li_req0 q' z ph' Hz) as [? Hr]. split; [done|].
      destruct q' as [a|]; [|done]. destruct Hr as (? & ? & ?). split; [|done]. simpl in *.
      destruct (li_heap0 a _ Hz) as [Ha1 Ha2]. specialize (Ha2 p y Hy).
      assert (a <> p) by (intros ->; by rewrite Hy in Ha1). set_solver. }
    intros q' z ph' [[<- [= <- <-]]|[_ Hz]]%lookup_insert_Some; eauto.
  - intros q' z [[-> <-]|[_ Hz]]%lookup_insert_Some.
    + destruct (li_heap0 _ _ Hq) as [H1 H2]. split; [by rewrite lookup_delete_None; right|].
      intros p' z' [_ Hz']%lookup_delete_Some. eauto.
    + destruct (li_heap0 _ _ Hz) as [H1 H2]. split; [by rewrite lookup_delete_None; right|].
      intros p' z' [_ Hz']%lookup_delete_Some. eauto.
  - intros q' z ph' [[<- [= <- <-]]|[Hne Hz]]%lookup_insert_Some Hph'; [done|].
    rewrite lookup_delete_ne; [eauto|]. intros Heq. apply Hne. eapply (li_once0 q q'); eauto. congruence.
  - intros q1 q2 y1 y2 ph1 ph2 [[<- [= <- <-]]|[? H1]]%lookup_insert_Some [[<- [= <- <-]]|[? H2]]%lookup_insert_Some P1 P2 Heq;
      [done|done|done|eauto].
Qed.

(** The deletion is reported and both leases are back. *)
Lemma life_done rt base r r' ps ds ws ws' l l' h h' q x :
  life_inv rt base (Conf (PrS r ps ds ws) l h) -> ds !! q = Some (x, DDestructed) ->
  conf_ok (Conf (PrS r' ps (delete q ds) ws') l' h') -> rl_ok rt r' -> rl_leases rt r' = rl_leases rt r - 2 ->
  (forall f, OnStack f <> q -> ws !! f = Some None -> ws' !! f = Some None) ->
  (forall a, a ∈ l -> OnHeap a <> q -> a ∈ l') ->
  life_inv rt base (Conf (PrS r' ps (delete q ds) ws') l' h').
Proof.
  intros [] Hq Hc Hok Hle Hws Hl. simpl in *. split; simpl; try assumption.
  - rewrite Hle, li_leases0. unfold held. simpl. rewrite (weight_delete ds q _ Hq). unfold share. simpl. lia.
  - intros p y Hy. destruct (li_prov0 p y Hy) as (? & ? & ?). split; [done|].
    split; (apply Hl; [done|]); intros <-; destruct (li_heap0 _ _ Hq) as [H1' H2']; [congruence|by eapply H2'].
  - intros q' y ph [Hne Hy]%lookup_delete_Some. destruct (li_req0 q' y ph Hy) as [? Hr]. split; [done|].
    destruct q' as [a|f]; simpl in *; [|naive_solver]. destruct Hr as (? & ?). split; [|done]. by apply Hl.
  - intros q' y [_ Hy]%lookup_delete_Some. eauto.
  - intros q' y ph [_ Hy]%lookup_delete_Some. eauto.
  - intros q1 q2 y1 y2 ph1 ph2 [_ H1]%lookup_delete_Some [_ H2]%lookup_delete_Some. eauto.
Qed.

(** A waiting call returns. *)
Lemma life_return rt base r ps ds ws l h h' f st :
  life_inv rt base (Conf (PrS r ps ds ws) l h) -> ws !! f = Some (Some st) -> h `suffix_of` h' ->
  life_inv rt base (Conf (PrS r ps ds (delete f ws)) l h').
Proof.
  intros [] Hf Hh. simpl in *. split; simpl; try assumption; [by eapply conf_ok_suffix|].
  intros q y ph Hy. destruct (li_req0 q y ph Hy) as [? Hr]. split; [done|].
  destruct q as [a|g]; simpl in *; [done|]. destruct Hr as (? & ? & Hg). split_and!; try done.
  rewrite lookup_delete_ne; [done|]. intros ->. congruence.
Qed.

(** ** The life of devices as a state machine *)

Inductive life_label :=
  | LCreate (self : nat) (opts : provider_opts) (out : bool)
  | LDelete (p : ptr) (complete : option (nat * nat))
  | LWait (fuel self : nat) (p : ptr)
  | LStart (r : request_ref)
  | LDestruct (r : request_ref)
  | LDone (r : request_ref) (status : Z)
  | LReturn (self : nat).

Definition life_exec (rt : ptr) (lb : life_label) : M St unit :=
  match lb with
  | LCreate self opts out => zettide_spdk_bdev_provider_create self (Some rt) (Some opts) out ;;; ret tt
  | LDelete p complete => zettide_spdk_bdev_provider_delete (Some p) complete ;;; ret tt
  | LWait fuel self p => delete_wait_begin fuel self (Some p) ;;; ret tt
  | LStart r => provider_start_delete r
  | LDestruct r =>
      let! x := get_delete r in
      provider_destruct (pd_provider x.1) ;;; put_delete r (x.1, DDestructed)
  | LDone r status => provider_delete_done r status
  | LReturn self => delete_wait_end self ;;; ret tt
  end.

(** No deletion of [p] is under way: a deletion takes the device from its owner. *)
Definition owned (p : ptr) (s : St) : Prop :=
  is_Some (prs_providers s !! p) /\
  forall r x ph, prs_deletes s !! r = Some (x, ph) -> ph <> DDestructed -> pd_provider x <> p.

(** Clients delete devices they own, from frames of their own; SPDK runs the queued
    message, destructs the device when its last user is gone, and calls back; a
    waiting call sees its flag.  The counter of leases has room for one more. *)
Definition life_enabled (rt : ptr) (lb : life_label) (s : St) : Prop :=
  match lb with
  | LCreate _ _ _ => rl_leases rt (prs_rt s) < UINT64_MAX
  | LDelete p _ => owned p s /\ rl_leases rt (prs_rt s) < UINT64_MAX
  | LWait _ self p => owned p s /\ prs_waiters s !! self = None /\ rl_leases rt (prs_rt s) < UINT64_MAX
  | LStart r => exists x, prs_deletes s !! r = Some (x, DQueued)
  | LDestruct r => exists x, prs_deletes s !! r = Some (x, DUnregistering)
  | LDone r _ => exists x, prs_deletes s !! r = Some (x, DDestructed)
  | LReturn self => exists st, prs_waiters s !! self = Some (Some st)
  end.

(** The outside as documented: commands are accepted and POSIX calls that cannot
    fail do not; messages that start a deletion may be refused. *)
Definition life_env (e : env) : Prop :=
  commands_accepted e /\ posix_ok e /\ forall h, oracle e h (PthreadSetcancelstate true) = 0.

Inductive life_step (rt : ptr) : conf St -> conf St -> Prop :=
  | LifeStep e lb c c' :
      life_env e -> life_enabled rt lb (store c) -> life_exec rt lb e c = (Done tt, c') -> life_step rt c c'.

(** The call returns, or it blocks in a state of [W]. *)
Definition life_post (rt : ptr) (base : Z) (W : conf St -> Prop) (o : outcome unit) (c : conf St) : Prop :=
  match o with
  | Done _ => life_inv rt base c
  | Blocked => W c
  | Fault _ => False
  end.

Abbreviation no_wait := (fun _ : conf St => False).

(** Only [delete_wait] still runs after its retries, when all were refused. *)
Definition retrying (lb : life_label) (c c' : conf St) : Prop :=
  match lb with
  | LWait fuel _ _ => refusals (hist c') = refusals (hist c) + Z.of_nat fuel + 1
  | _ => False
  end.

Lemma create_step_spec rt base self o out e c :
  life_env e -> life_inv rt base c -> rl_leases rt (prs_rt (store c)) < UINT64_MAX ->
  wp (life_exec rt (LCreate self o out)) e c (life_post rt base no_wait).
Proof.
  destruct c as [[r ps ds ws] l h]. intros (He1 & He2 & _) Hi Hmax. simpl in Hmax. cbn [life_exec]. wp_step.
  eapply wp_mono; [apply provider_create_spec; try done|].
  - exact (li_conf _ _ _ Hi).
  - intros p x Hx. by destruct (li_prov _ _ _ Hi p x Hx) as (_ & ? & _).
  - exact (li_rt _ _ _ Hi).
  - intros [rr|f|] [[r2 ps2 ds2 ws2] l2 h2]; simpl; [|done|done].
    intros ((Hc & Hh & Hd & Hw & Hr) & _ & Hok & Hle & _). simpl in *. subst ds2 ws2. wp_step. simpl.
    destruct Hr as [(Hrc & _ & -> & ->)|(p & n & name & Hrc & _ & _ & Hp & Hn & Hpn & -> & ->)].
    + rewrite (proj2 (Z.eqb_neq _ 0) Hrc) in Hle. eapply life_log; [exact Hi|done|done|lia].
    + rewrite Hrc in Hle. simpl in Hle. by eapply life_create.
Qed.

Lemma delete_step_spec rt base p complete e c :
  life_inv rt base c -> life_enabled rt (LDelete p complete) (store c) ->
  wp (life_exec rt (LDelete p complete)) e c (life_post rt base no_wait).
Proof.
  destruct c as [[r ps ds ws] l h]. intros Hi [[[x Hx] Hown] Hmax]. simpl in *. wp_step.
  unfold zettide_spdk_bdev_provider_delete. wp_step. wp_step. wp_if as Ht; [wp_step; wp_step; done|].
  wp_step. apply wp_calloc.
  { wp_step. wp_step. eapply life_log; [exact Hi|solve_suffix|exact (li_rt _ _ _ Hi)|done]. }
  intros q Hsz. simpl in Hsz. pose proof (fresh_not_live _ (li_conf _ _ _ Hi)) as Hq. change (q ∉ l) in Hq.
  pose proof (conf_ok_alloc _ (PrS r ps ds ws) l h q (li_conf _ _ _ Hi) eq_refl Hsz) as Hc.
  assert (ds !! OnHeap q = None) as Hds.
  { apply eq_None_not_Some. intros [[y ph] Hy]. by destruct (li_req _ _ _ Hi _ _ _ Hy) as (_ & ? & _). }
  destruct (li_prov _ _ _ Hi p x Hx) as (Hprt & _ & _).
  wp_step. eapply wp_get_provider; [done|]. wp_step. unfold put_delete. wp_step. simpl. wp_step.
  eapply wp_mono; [eapply submit_delete_spec; [apply lookup_insert_eq|exact Hprt|exact (li_rt _ _ _ Hi)|done]|].
  intros [st|f|] [[r2 ps2 ds2 ws2] l2 h2]; simpl; [|naive_solver|naive_solver].
  intros (-> & -> & -> & -> & Hh & Hok & Hle). assert (h `suffix_of` h2) as Hh2 by (etrans; [|exact Hh]; solve_suffix).
  wp_step. wp_if as Hst; breflect.
  - wp_step. unfold drop_delete. wp_step. simpl. apply wp_free; [simpl; set_solver|]. wp_step. wp_step. simpl.
    rewrite (delete_insert_id _ _ _ Hds). assert (({[q]} ∪ l) ∖ {[q]} = l) as -> by set_solver.
    rewrite (proj2 (Z.eqb_neq st 0) Hst) in Hle. eapply life_log; [exact Hi|by apply suffix_cons_r|done|lia].
  - wp_step. wp_step. wp_step. subst st. simpl in *.
    eapply life_request; try done; [by eapply conf_ok_suffix|set_solver| |].
    + split; [done|]. simpl. split_and!; [set_solver|done|]. destruct complete as [[]|]; done.
    + by intros a [= <-].
Qed.

Lemma wait_step_spec rt base fuel self p e c :
  life_env e -> life_inv rt base c -> life_enabled rt (LWait fuel self p) (store c) ->
  wp (life_exec rt (LWait fuel self p)) e c (life_post rt base (retrying (LWait fuel self p) c)).
Proof.
  destruct c as [[r ps ds ws] l h]. intros (_ & He2 & He3) Hi ([[x Hx] Hown] & Hself & Hmax). simpl in *. wp_step.
  unfold delete_wait_begin. wp_step. wp_step. wp_if as Ht; [wp_step; wp_step; done|].
  wp_step. wp_known He3. wp_step. apply wp_assert; [done|].
  assert (ds !! OnStack self = None) as Hds.
  { apply eq_None_not_Some. intros [[y ph] Hy]. destruct (li_req _ _ _ Hi _ _ _ Hy) as (_ & _ & _ & ?).
    simpl in *. congruence. }
  destruct (li_prov _ _ _ Hi p x Hx) as (Hprt & _ & _).
  wp_step. eapply wp_get_provider; [done|]. wp_step. unfold set_waiters. wp_step. simpl.
  wp_step. unfold put_delete. wp_step. simpl. wp_step.
  eapply wp_mono; [eapply submit_delete_spec; [apply lookup_insert_eq|exact Hprt|exact (li_rt _ _ _ Hi)|done]|].
  intros [st|f|] [[r2 ps2 ds2 ws2] l2 h2]; simpl; [|naive_solver|naive_solver].
  intros (-> & -> & -> & -> & Hh & Hok & Hle). assert (h `suffix_of` h2) as Hh2 by (etrans; [|exact Hh]; solve_suffix).
  wp_if as Hst; breflect.
  - wp_step. wp_step. subst st. simpl in *.
    eapply life_request; try done; [eapply conf_ok_suffix; [exact (li_conf _ _ _ Hi)|done]| |].
    + intros f Hf. rewrite lookup_insert_ne; [done|]. intros ->. congruence.
    + split; [done|]. simpl. split_and!; [done|done|]. apply lookup_insert_eq.
  - wp_step. unfold drop_delete. wp_step. simpl. wp_step. unfold set_waiters. wp_step. simpl.
    wp_step. wp_known (restore_ok _ He2). wp_step. apply wp_assert; [done|]. wp_step. wp_step. simpl.
    rewrite (delete_insert_id _ _ _ Hds), (delete_insert_id _ _ _ Hself).
    eapply life_log; [exact Hi|by apply suffix_cons_r|done|lia].
Qed.

Lemma destruct_step_spec rt base r e c :
  life_inv rt base c -> life_enabled rt (LDestruct r) (store c) ->
  wp (life_exec rt (LDestruct r)) e c (life_post rt base no_wait).
Proof.
  destruct c as [[r0 ps ds ws] l h]. intros Hi [x Hx]. simpl in *.
  destruct (li_alive _ _ _ Hi _ _ _ Hx ltac:(done)) as [y Hy]. simpl in Hy.
  destruct (li_prov _ _ _ Hi _ _ Hy) as (_ & Hp & Hn). simpl in Hp, Hn.
  destruct (li_name _ _ _ Hi _ _ _ _ Hy Hy) as [Hne _].
  wp_step. eapply wp_get_delete; [done|]. wp_step. unfold provider_destruct. simpl.
  wp_step. eapply wp_get_provider; [done|]. wp_step. apply wp_free; [done|]. simpl.
  wp_step. unfold drop_provider. wp_step. wp_step. simpl. apply wp_free; [simpl; set_solver|]. simpl. wp_step.
  unfold put_delete. wp_step. simpl. eapply life_destruct; try done.
  eapply (conf_ok_free (PrS r0 ps ds ws)). eapply (conf_ok_free (PrS r0 ps ds ws)). exact (li_conf _ _ _ Hi).
Qed.

(** The two releases of [provider_delete_done]. *)
Lemma release_twice rt (m : M St unit) e r ps ds ws l h Q :
  rl_ok rt r -> 2 <= rl_leases rt r ->
  (forall r', rl_ok rt r' -> rl_leases rt r' = rl_leases rt r - 2 ->
     wp m e (Conf (PrS r' ps ds ws) l h) Q) ->
  wp (on_runtime (rl_release rt) ;;; on_runtime (rl_release rt) ;;; m) e (Conf (PrS r ps ds ws) l h) Q.
Proof.
  intros Hok Hle HQ. wp_step. eapply wp_on_runtime; [apply rl_release_law; simpl; [done|lia]|]. simpl.
  intros _ [r1 l1 h1] (Hok1 & -> & -> & Hle1). simpl in *.
  wp_step. eapply wp_on_runtime; [apply rl_release_law; simpl; [done|lia]|]. simpl.
  intros _ [r2 l2 h2] (Hok2 & -> & -> & Hle2). simpl in *. apply HQ; [done|lia].
Qed.

Lemma done_step_spec rt base r st e c :
  life_inv rt base c -> life_enabled rt (LDone r st) (store c) ->
  wp (life_exec rt (LDone r st)) e c (life_post rt base no_wait).
Proof.
  destruct c as [[r0 ps ds ws] l h]. intros Hi [x Hx]. simpl in *. unfold provider_delete_done.
  destruct (li_req _ _ _ Hi _ _ _ Hx) as [Hrt Hreq]. pose proof (li_leases _ _ _ Hi) as Hle.
  pose proof (li_base _ _ _ Hi). unfold held in Hle. simpl in Hle. rewrite (weight_delete ds r _ Hx) in Hle.
  unfold share in Hle. simpl in Hle. pose proof (weight_nonneg (delete r ds)).
  wp_step. eapply wp_get_delete; [done|]. simpl. rewrite Hrt.
  apply release_twice; [exact (li_rt _ _ _ Hi)|lia|]. intros r' Hok' Hle'.
  wp_step. eapply wp_get_delete; [done|]. simpl.
  assert (forall ws' l' h', h `suffix_of` h' -> conf_ok (Conf (PrS r' ps (delete r ds) ws') l' h') ->
    (forall f, OnStack f <> r -> ws !! f = Some None -> ws' !! f = Some None) ->
    (forall a, a ∈ l -> OnHeap a <> r -> a ∈ l') ->
    life_inv rt base (Conf (PrS r' ps (delete r ds) ws') l' h')) as Hend.
  { intros ws' l' h' Hh Hc Hw Hl. by eapply life_done. }
  destruct r as [q|f]; simpl in Hreq.
  - destruct Hreq as (Hq & -> & Hnw).
    assert (forall h', h `suffix_of` h' -> wp (get_delete (OnHeap q) ;;; drop_delete (OnHeap q) ;;; free (Some q)) e
      (Conf (PrS r' ps ds ws) l h') (life_post rt base no_wait)) as Hfree.
    { intros h' Hh. wp_step. eapply wp_get_delete; [done|]. wp_step. unfold drop_delete. wp_step. simpl.
      apply wp_free; [done|]. simpl. apply Hend; [by apply suffix_cons_r| |done|set_solver].
      apply (conf_ok_free (PrS r' ps ds ws)). eapply conf_ok_suffix; [exact (li_conf _ _ _ Hi)|done]. }
    wp_step. destruct (pd_complete x) as [[cb a|w]|].
    + wp_step. wp_step. wp_step. apply Hfree. solve_suffix.
    + by destruct (Hnw w).
    + wp_step. by apply Hfree.
  - destruct Hreq as (-> & -> & Hf). wp_step. wp_step. unfold drop_delete. wp_step. simpl.
    unfold provider_delete_wait_complete, set_waiters. wp_step. simpl. wp_step. apply Hend; try done.
    + eapply conf_ok_suffix; [exact (li_conf _ _ _ Hi)|done].
    + intros g Hg Hgn. rewrite lookup_insert_ne; [done|]. congruence.
Qed.

Lemma life_exec_spec rt base lb e c :
  life_env e -> life_inv rt base c -> life_enabled rt lb (store c) ->
  wp (life_exec rt lb) e c (life_post rt base (retrying lb c)).
Proof.
  intros He Hi Hen. destruct lb as [self o out|p cb|fuel self p|r|r|r st|self].
  - by apply create_step_spec.
  - by apply delete_step_spec.
  - by apply wait_step_spec.
  - destruct c as [[r0 ps ds ws] l h], Hen as [x Hx]. simpl in *. unfold provider_start_delete.
    wp_step. eapply wp_get_delete; [done|]. wp_step. wp_step. unfold put_delete. wp_step. simpl.
    apply life_start; [|done]. eapply life_log; [exact Hi|solve_suffix|exact (li_rt _ _ _ Hi)|done].
  - by apply destruct_step_spec.
  - by apply done_step_spec.
  - destruct c as [[r0 ps ds ws] l h], Hen as [st Hst], He as (_ & He & _). simpl in *. unfold delete_wait_end.
    wp_step. wp_step. wp_step. wp_step. eapply wp_deref; [done|]. unfold set_waiters. wp_step. wp_step. simpl.
    wp_step. wp_known (restore_ok _ He). wp_step. apply wp_assert; [done|]. wp_step. wp_step. simpl.
    eapply life_return; [exact Hi|done|]. solve_suffix.
Qed.

Lemma life_steps_inv rt base c c' : life_inv rt base c -> rtc (life_step rt) c c' -> life_inv rt base c'.
Proof.
  intros Hi Hs. induction Hs as [c|c1 c2 c3 Hs _ IH]; [done|]. apply IH. destruct Hs as [e lb c1 c2 He Hen Hex].
  by apply (wp_run _ _ _ _ _ _ (life_exec_spec rt base lb e c1 He Hi Hen) Hex).
Qed.

(** A runtime that works and no devices. *)
Definition life_start_conf (rt : ptr) (c : conf St) : Prop :=
  conf_ok c /\ rl_ok rt (prs_rt (store c)) /\ prs_providers (store c) = ∅ /\ prs_deletes (store c) = ∅.

Lemma life_start_inv rt c : life_start_conf rt c -> life_inv rt (rl_leases rt (prs_rt (store c))) c.
Proof.
  intros (Hc & Hok & Hp & Hd). split; try assumption; rewrite ?Hp, ?Hd; try (intros; simplify_map_eq; done).
  - by apply rl_leases_nonneg.
  - unfold held, weight, destructed. rewrite Hp, Hd, map_filter_empty. rewrite !map_size_empty. lia.
Qed.

End Provider.

(** ** Properties *)

(** A block size with one bit set is a power of two. *)
Lemma land_pred_zero b : 0 < b -> Z.land b (b - 1) = 0 <-> b = 2 ^ Z.log2 b.
Proof.
  intros Hb. destruct (Z.log2_spec b Hb) as [Hlo Hhi]. pose proof (Z.log2_nonneg b) as Hk.
  set (k := Z.log2 b) in *. rewrite Z.pow_succ_r in Hhi by done. split.
  - intros Hand. destruct (Z.eq_dec b (2 ^ k)) as [Heq|Hne]; [exact Heq|].
    assert (forall x, 2 ^ k <= x < 2 * 2 ^ k -> Z.testbit x k = true) as Hbit.
    { intros x Hx. rewrite <- (Z.log2_unique x k Hk); [apply Z.bit_log2; lia|]. rewrite Z.pow_succ_r by done. lia. }
    assert (Z.testbit (Z.land b (b - 1)) k = true) as Ht by (rewrite Z.land_spec, !Hbit by lia; done).
    rewrite Hand, Z.bits_0 in Ht. done.
  - intros Heq. replace (b - 1) with (Z.ones k) by (rewrite Z.ones_equiv; lia).
    rewrite Z.land_ones by done. rewrite Heq. apply Z_mod_same_full.
Qed.

(** C38: [create] accepts exactly the geometries SPDK can serve: the block size is a
    power of two between 512 and 2^31, counts are positive, the device and the
    largest request have a size in bytes that fits 64 bits, and the write unit is
    not larger than the device. *)
Theorem provider_opts_valid_exactly o :
  0 <= po_block_size o < 2 ^ 32 -> is_u64 (po_block_count o) ->
  0 <= po_write_unit_blocks o < 2 ^ 32 -> 0 <= po_max_io_blocks o < 2 ^ 32 ->
  opts_fields_ok o && opts_sizes_ok o = true <->
  po_opts_size o = PROVIDER_OPTS_SIZE /\ is_Some (po_name o) /\ is_Some (po_submit o) /\
  (exists k, 9 <= k <= 31 /\ po_block_size o = 2 ^ k) /\
  0 < po_block_count o /\ po_block_count o * po_block_size o <= UINT64_MAX /\
  0 < po_max_io_blocks o /\ po_max_io_blocks o * po_block_size o <= SIZE_MAX /\
  0 < po_write_unit_blocks o <= po_block_count o.
Proof.
  intros Hbs Hbc Hwu Hmx. destruct (Z.ltb_spec (po_block_size o) 512) as [Hlt|Hge].
  { split; [unfold opts_fields_ok; rewrite (proj2 (Z.ltb_lt _ _) Hlt); simpl; by rewrite andb_false_r|].
    intros (_ & _ & _ & (k & Hk & Heq) & _). pose proof (Z.pow_le_mono_r 2 9 k ltac:(lia) ltac:(lia)) as Hp.
    change (2 ^ 9) with 512 in Hp. lia. }
  set (b := po_block_size o) in *.
  assert (forall x M, 0 <= M -> (x >? M / b) = negb (x * b <=? M)) as Hdiv.
  { intros x M HM. pose proof (Z.mul_div_le M b ltac:(lia)). pose proof (Z.mul_succ_div_gt M b ltac:(lia)).
    destruct (Z.gtb_spec x (M / b)), (Z.leb_spec (x * b) M); try done; nia. }
  assert (Z.land b (u32 (b - 1)) = 0 <-> exists k, 9 <= k <= 31 /\ b = 2 ^ k) as Hpow.
  { unfold u32. rewrite Z.mod_small by lia. rewrite land_pred_zero by lia. split.
    - intros Heq. exists (Z.log2 b). split; [|done]. split.
      + apply Z.log2_le_pow2; [lia|]. change (2 ^ 9) with 512. lia.
      + pose proof (proj1 (Z.log2_lt_pow2 b 32 ltac:(lia)) ltac:(lia)). lia.
    - intros (k & Hk & Heq). rewrite Heq at 2. rewrite Z.log2_pow2 by lia. done. }
  unfold opts_fields_ok, opts_sizes_ok. fold b. rewrite !Hdiv by done. rewrite (proj2 (Z.ltb_ge b 512) Hge).
  unfold is_u64 in *. rewrite <- Hpow. destruct (po_name o), (po_submit o); simpl;
    rewrite ?andb_false_r, ?andb_true_r; simpl; try (split; [done|naive_solver (eauto using is_Some_None)]).
  all: try (split; [done|]; intros (_ & [? ?] & [? ?] & _); done).
  rewrite !negb_orb, !negb_involutive, !andb_true_iff, !negb_true_iff, !Z.eqb_eq, !Z.eqb_neq, !Z.leb_le, !Z.gtb_ltb, !Z.ltb_ge.
  clear Hdiv Hpow. split; intros H; decompose [and] H; split_and!; try assumption; try lia; by eexists.
Qed.

Section Properties.
Context {R : Type} `{RL : !RuntimeLease R}.
Implicit Types (c : conf (PrStore R)).

(** C4: Safety of the life of devices, for every runtime that keeps its promises:
    after any sequence of creations, deletions of either kind, messages,
    destructions, callbacks and returns, every further step returns without a
    fault (no device, name or request is freed twice or used after it was freed,
    no lease is given back that is not held).  Only [delete_wait] may still be
    retrying, and then SPDK has refused its message once more than it was retried. *)
Theorem provider_life_never_faults rt c0 c e lb :
  life_start_conf rt c0 -> rtc (life_step rt) c0 c -> life_env e -> life_enabled rt lb (store c) ->
  (exists c', life_exec rt lb e c = (Done tt, c') /\ life_step rt c c') \/
  (exists fuel self p c', lb = LWait fuel self p /\ life_exec rt lb e c = (Blocked, c') /\
     refusals (hist c') = refusals (hist c) + Z.of_nat fuel + 1).
Proof.
  intros H0 Hr He Hen. pose proof (life_steps_inv _ _ _ _ (life_start_inv _ _ H0) Hr) as Hi.
  pose proof (life_exec_spec _ _ lb e c He Hi Hen) as Hx. unfold wp in Hx.
  destruct (life_exec rt lb e c) as [[[]|f|] c'] eqn:Hex; simpl in Hx; [|done|].
  - left. exists c'. split; [done|]. by econstructor.
  - right. destruct lb; try done. eauto 10.
Qed.

(** C8: Leases are conserved: at any time the runtime has the leases it had before,
    one for each device, one for each deletion under way and one for each
    destructed device that was not yet reported; when all devices are gone and
    reported, every lease is back. *)
Theorem provider_leases_balance rt c0 c :
  life_start_conf rt c0 -> rtc (life_step rt) c0 c ->
  rl_leases rt (prs_rt (store c)) = rl_leases rt (prs_rt (store c0)) +
    Z.of_nat (size (prs_providers (store c))) + weight (prs_deletes (store c)) /\
  (prs_providers (store c) = ∅ -> prs_deletes (store c) = ∅ ->
     rl_leases rt (prs_rt (store c)) = rl_leases rt (prs_rt (store c0))).
Proof.
  intros H0 Hr. pose proof (life_steps_inv _ _ _ _ (life_start_inv _ _ H0) Hr) as Hi.
  pose proof (li_leases _ _ _ Hi) as Hle. unfold held in Hle. split; [lia|].
  intros Hp Hd. rewrite Hp, Hd in Hle. change (weight ∅) with 0 in Hle. rewrite map_size_empty in Hle. lia.
Qed.


(** C26: [delete_wait] returns only when its deletion is over: the request in its
    stack frame is then no longer referenced by SPDK or by the module. *)
Theorem delete_wait_returns_when_over rt c0 c c' e self st :
  life_start_conf rt c0 -> rtc (life_step rt) c0 c -> delete_wait_end self e c = (Done st, c') ->
  prs_deletes (store c) !! OnStack self = None /\
  (forall r x ph, prs_deletes (store c) !! r = Some (x, ph) -> pd_complete x <> Some (WaitCallback self)).
Proof.
  intros H0 Hr Hex. pose proof (life_steps_inv _ _ _ _ (life_start_inv _ _ H0) Hr) as Hi.
  assert (prs_waiters (store c) !! self <> Some None) as Hw.
  { intros Hw. unfold delete_wait_end, bind, get, deref, blocked in Hex. rewrite Hw in Hex. discriminate Hex. }
  split.
  - apply eq_None_not_Some. intros [[x ph] Hx]. by destruct (li_req _ _ _ Hi _ _ _ Hx) as (_ & _ & _ & ?).
  - intros r x ph Hx Hcb. destruct (li_req _ _ _ Hi _ _ _ Hx) as [_ Hq]. destruct r as [q|f].
    + destruct Hq as (_ & _ & Hq). by apply (Hq self).
    + destruct Hq as (_ & Hq & Hf). rewrite Hq in Hcb. by injection Hcb as ->.
Qed.


End Properties.

(** ** Options at concrete inputs *)

Definition sample_provider_opts : provider_opts :=
  ProviderOpts PROVIDER_OPTS_SIZE (Some "disk0"%string) 4096 1024 1 64 3 (Some 4%nat) false.

Lemma provider_opts_valid_exactly_witness :
  opts_fields_ok sample_provider_opts && opts_sizes_ok sample_provider_opts = true.
Proof.
  apply (provider_opts_valid_exactly sample_provider_opts); unfold is_u64, UINT64_MAX, SIZE_MAX; simpl; try lia.
  split; [done|]. split; [by eexists|]. split; [by eexists|]. split; [by exists 12|]. unfold UINT64_MAX. lia.
Defined.
