(* ===== verification/NvmfExport.v ===== *)
(** * NvmfExport: services/data-node/spdk/nvmf_tcp_export.c

    An export makes a block device reachable over NVMe/TCP: a subsystem with one
    namespace is created in a target of SPDK, hosts are allowed, the target listens
    and the subsystem is started.  Each step is a call on the owner thread, some
    with a callback; when one fails the earlier ones are undone in reverse, and a
    step of the undoing that fails aborts the process.  Closing stops the subsystem
    and releases what the flags of the export say is held; it can be repeated after
    an error.  Callbacks are delivered where the code waits for them, and a call is
    blocked as long as SPDK has not called back. *)

From S2P Require Import Prelude Effects Externals Blocking Lease.

(** ** Data *)

(** [NVMF_TRANSPORT_OTHER]: a value of the C enum without a name. *)
Inductive nvmf_transport :=
  | ZETTIDE_SPDK_NVMF_TRANSPORT_TCP
  | NVMF_TRANSPORT_OTHER (value : Z).

Record export_opts := ExportOpts {
  xo_opts_size : Z;
  xo_target_name : option string;
  xo_nqn : option string;
  xo_bdev_name : option string;
  xo_serial_number : option string;
  xo_model_number : option string;
  xo_host_nqn : option string;
  xo_traddr : option string;
  xo_trsvcid : option string;
  xo_nsid : Z;
  xo_allow_any_host : bool;
  xo_transport : nvmf_transport;
}.

Definition ZETTIDE_SPDK_NVMF_BDEV_NAME_MAX : Z := 255.
Definition ZETTIDE_SPDK_NVMF_NSID_MAX : Z := 65535.

(** Offset of the last field of the options on LP64, and with the field. *)
Definition ZETTIDE_SPDK_NVMF_BASE_OPTS_SIZE : Z := 80.
Definition ZETTIDE_SPDK_NVMF_TRANSPORT_OPTS_SIZE : Z := ZETTIDE_SPDK_NVMF_BASE_OPTS_SIZE + 4.

(** A string of the heap. *)
Abbreviation hstring := (ptr * string)%type.

Record export := Export {
  ex_runtime : ptr;
  ex_owner : thread;
  ex_target : option handle;
  ex_subsystem : option handle;
  ex_traddr : string;
  ex_trsvcid : string;
  ex_target_name : option hstring;
  ex_nqn : option hstring;
  ex_bdev_name : option hstring;
  ex_serial_number : option hstring;
  ex_model_number : option hstring;
  ex_host_nqn : option hstring;
  ex_nsid : Z;
  ex_allow_any_host : bool;
  ex_target_listener_started : bool;
  ex_subsystem_listener_added : bool;
  ex_subsystem_stopped : bool;
}.

(** [struct export_command]; there is no [owner_active], [complete_command] is the
    owner's last access. *)
Record export_command := ExportCommand {
  xc_completed : bool;
  xc_status : Z;
  xc_create_status : Z;
}.

Record XpStore (R : Type) := XpS {
  xp_rt : R;
  xp_exports : gmap ptr export;
}.
Arguments XpS {R} _ _.
Arguments xp_rt {R} _.
Arguments xp_exports {R} _.

(** ** Options *)

Definition valid_string (value : option string) (max_length : Z) (optional : bool) : bool :=
  match value with
  | None => optional
  | Some s =>
      let length := strnlen s (max_length + 1) in
      negb (length =? 0) && (length <=? max_length)
  end.

(** The value of the enum with its [k] low bytes cleared. *)
Definition clear_low_bytes (k : Z) (t : nvmf_transport) : nvmf_transport :=
  match t with
  | ZETTIDE_SPDK_NVMF_TRANSPORT_TCP => ZETTIDE_SPDK_NVMF_TRANSPORT_TCP
  | NVMF_TRANSPORT_OTHER v =>
      let v := Z.shiftl (Z.shiftr (u32 v) (8 * k)) (8 * k) in
      if v =? 0 then ZETTIDE_SPDK_NVMF_TRANSPORT_TCP else NVMF_TRANSPORT_OTHER v
  end.

(** [transport] is the field as it was: [opts_size] may leave it out. *)
Definition zettide_spdk_nvmf_tcp_export_opts_init (opts : bool) (opts_size : Z) (transport : nvmf_transport)
    : opts_init_result export_opts :=
  if negb opts || (opts_size =? 0) then OptsUntouched
  else if opts_size >=? ZETTIDE_SPDK_NVMF_BASE_OPTS_SIZE then
    OptsInitialised (ExportOpts opts_size None None None None None None None None 1 false
      (clear_low_bytes (Z.min 4 (opts_size - ZETTIDE_SPDK_NVMF_BASE_OPTS_SIZE)) transport))
  else OptsCleared opts_size.

Definition get_transport (o : export_opts) : nvmf_transport :=
  if xo_opts_size o <? ZETTIDE_SPDK_NVMF_TRANSPORT_OPTS_SIZE then ZETTIDE_SPDK_NVMF_TRANSPORT_TCP
  else xo_transport o.

(** The status: 0 or [-EINVAL]. *)
Definition validate_opts `{SpdkLimits} (runtime : option ptr) (opts : option export_opts) (export_out : bool) : Z :=
  match opts with
  | None => - EINVAL
  | Some o =>
      if (xo_opts_size o <? ZETTIDE_SPDK_NVMF_BASE_OPTS_SIZE)
         || (xo_opts_size o >? ZETTIDE_SPDK_NVMF_BASE_OPTS_SIZE)
            && (xo_opts_size o <? ZETTIDE_SPDK_NVMF_TRANSPORT_OPTS_SIZE)
      then - EINVAL
      else if is_null runtime || negb export_out
           || negb (valid_string (xo_target_name o) (NVMF_TGT_NAME_MAX_LENGTH - 1) true)
           || negb (valid_string (xo_nqn o) SPDK_NVMF_NQN_MAX_LEN false)
           || negb (valid_string (xo_bdev_name o) ZETTIDE_SPDK_NVMF_BDEV_NAME_MAX false)
           || negb (valid_string (xo_serial_number o) SPDK_NVME_CTRLR_SN_LEN true)
           || negb (valid_string (xo_model_number o) SPDK_NVME_CTRLR_MN_LEN true)
           || negb (valid_string (xo_host_nqn o) SPDK_NVMF_NQN_MAX_LEN (xo_allow_any_host o))
           || negb (valid_string (xo_traddr o) SPDK_NVMF_TRADDR_MAX_LEN false)
           || negb (valid_string (xo_trsvcid o) SPDK_NVMF_TRSVCID_MAX_LEN false)
           || (xo_nsid o =? 0) || (xo_nsid o >? ZETTIDE_SPDK_NVMF_NSID_MAX)
           || match get_transport o with ZETTIDE_SPDK_NVMF_TRANSPORT_TCP => false | _ => true end
           || xo_allow_any_host o && negb (is_null (xo_host_nqn o))
      then - EINVAL
      else 0
  end.

(** ** Updates of single fields *)

Definition set_target (t : option handle) (x : export) : export :=
  Export (ex_runtime x) (ex_owner x) t (ex_subsystem x) (ex_traddr x) (ex_trsvcid x) (ex_target_name x)
    (ex_nqn x) (ex_bdev_name x) (ex_serial_number x) (ex_model_number x) (ex_host_nqn x) (ex_nsid x)
    (ex_allow_any_host x) (ex_target_listener_started x) (ex_subsystem_listener_added x) (ex_subsystem_stopped x).
Definition set_subsystem (s : option handle) (x : export) : export :=
  Export (ex_runtime x) (ex_owner x) (ex_target x) s (ex_traddr x) (ex_trsvcid x) (ex_target_name x)
    (ex_nqn x) (ex_bdev_name x) (ex_serial_number x) (ex_model_number x) (ex_host_nqn x) (ex_nsid x)
    (ex_allow_any_host x) (ex_target_listener_started x) (ex_subsystem_listener_added x) (ex_subsystem_stopped x).
Definition set_flags (started added stopped : bool) (x : export) : export :=
  Export (ex_runtime x) (ex_owner x) (ex_target x) (ex_subsystem x) (ex_traddr x) (ex_trsvcid x) (ex_target_name x)
    (ex_nqn x) (ex_bdev_name x) (ex_serial_number x) (ex_model_number x) (ex_host_nqn x) (ex_nsid x)
    (ex_allow_any_host x) started added stopped.
Definition set_started (b : bool) (x : export) : export :=
  set_flags b (ex_subsystem_listener_added x) (ex_subsystem_stopped x) x.
Definition set_added (b : bool) (x : export) : export :=
  set_flags (ex_target_listener_started x) b (ex_subsystem_stopped x) x.
Definition set_stopped (b : bool) (x : export) : export :=
  set_flags (ex_target_listener_started x) (ex_subsystem_listener_added x) b x.

Section Exports.
Context {R : Type} `{RL : !RuntimeLease R} `{LM : !SpdkLimits}.
Abbreviation St := (XpStore R).

(** ** Store access *)

Definition get_export (p : ptr) : M St export :=
  let! s := get in deref (xp_exports s !! p).
Definition put_export (p : ptr) (x : export) : M St unit :=
  modify (fun s => XpS (xp_rt s) (<[p:=x]> (xp_exports s))).
Definition update_export (p : ptr) (f : export -> export) : M St unit :=
  let! x := get_export p in put_export p (f x).
Definition on_rt_xp {A} (m : M R A) : M St A :=
  zoom xp_rt (fun r s => XpS r (xp_exports s)) m.

(** [free] of several pointers, in order. *)
Fixpoint free_all (l : list (option ptr)) : M St unit :=
  match l with
  | [] => ret tt
  | p :: l => free p ;;; free_all l
  end.

Definition free_export (p : ptr) : M St unit :=
  let! x := get_export p in
  free_all [option_map fst (ex_host_nqn x); option_map fst (ex_model_number x);
            option_map fst (ex_serial_number x); option_map fst (ex_bdev_name x);
            option_map fst (ex_nqn x); option_map fst (ex_target_name x)] ;;;
  modify (fun s => XpS (xp_rt s) (delete p (xp_exports s))) ;;;
  free (Some p).

(** [rc == 0 || rc == -ENOENT] *)
Definition gone (rc : Z) : bool := (rc =? 0) || (rc =? - ENOENT).

Definition complete_xc (cmd : export_command) (st : Z) : M St export_command :=
  ret (ExportCommand true st (xc_create_status cmd)).

Definition with_create_status (st : Z) (cmd : export_command) : export_command :=
  ExportCommand (xc_completed cmd) (xc_status cmd) st.

(** ** Creation on the owner thread *)

Definition create_destroyed (p : ptr) (cmd : export_command) : M St export_command :=
  update_export p (set_subsystem None) ;;; complete_xc cmd (xc_create_status cmd).

(** The block that removes the listener of the subsystem; [Some rc] is an error other
    than [-ENOENT]. *)
Definition remove_listener (p : ptr) : M St (option Z) :=
  let! x := get_export p in
  if ex_subsystem_listener_added x then
    let! sub := deref (ex_subsystem x) in
    let! rc := call (SpdkNvmfSubsystemRemoveListener sub) in
    if negb (gone rc) then ret (Some (rc : Z))
    else update_export p (set_added false) ;;; ret None
  else ret None.

(** The block that stops the listener of the target. *)
Definition stop_listener (p : ptr) : M St (option Z) :=
  let! x := get_export p in
  if ex_target_listener_started x then
    let! t := deref (ex_target x) in
    let! rc := call (SpdkNvmfTgtStopListen t) in
    if negb (gone rc) then ret (Some (rc : Z))
    else update_export p (set_started false) ;;; ret None
  else ret None.

Definition finish_create_rollback (p : ptr) (cmd : export_command) : M St export_command :=
  let! err := remove_listener p in
  if negb (is_null err) then fail Aborted else
  let! err := stop_listener p in
  if negb (is_null err) then fail Aborted else
  let! x := get_export p in
  let! sub := deref (ex_subsystem x) in
  let! rc := call (SpdkNvmfSubsystemDestroy sub) in
  if rc =? 0 then
    update_export p (set_subsystem None) ;;; complete_xc cmd (xc_create_status cmd)
  else if rc !=? - EINPROGRESS then fail Aborted
  else
    let! o := call (NvmfDestroyed sub) in
    match o with None => blocked | Some _ => create_destroyed p cmd end.

Definition create_rollback_stopped (p : ptr) (cmd : export_command) (status : Z) : M St export_command :=
  if status !=? 0 then fail Aborted else finish_create_rollback p cmd.

Definition rollback_create (p : ptr) (cmd : export_command) : M St export_command :=
  let! x := get_export p in
  let! sub := deref (ex_subsystem x) in
  let! rc := call (SpdkNvmfSubsystemStop sub) in
  if rc !=? 0 then fail Aborted else
  let! o := call (NvmfStopped sub) in
  match o with None => blocked | Some status => create_rollback_stopped p cmd status end.

Definition create_started (p : ptr) (cmd : export_command) (status : Z) : M St export_command :=
  if status =? 0 then complete_xc cmd 0
  else rollback_create p (with_create_status status cmd).

Definition create_listener_added (p : ptr) (cmd : export_command) (status : Z) : M St export_command :=
  if status !=? 0 then rollback_create p (with_create_status status cmd) else
  update_export p (set_added true) ;;;
  let! x := get_export p in
  let! sub := deref (ex_subsystem x) in
  let! rc := call (SpdkNvmfSubsystemStart sub) in
  if rc !=? 0 then rollback_create p (with_create_status rc cmd) else
  let! o := call (NvmfStarted sub) in
  match o with None => blocked | Some status => create_started p cmd status end.

(** [run_create] once the subsystem exists. *)
Definition create_in_subsystem (p : ptr) (target sub : handle) (cmd : export_command) : M St export_command :=
  let! x := get_export p in
  let! bdev := deref (ex_bdev_name x) in
  let! nsid := call (SpdkNvmfSubsystemAddNs sub bdev.2 (ex_nsid x)) in
  if nsid !=? ex_nsid x then rollback_create p (with_create_status (- ENODEV) cmd) else
  let! rc := (if ex_allow_any_host x then call (SpdkNvmfSubsystemSetAllowAnyHost sub)
              else call (SpdkNvmfSubsystemAddHost sub (option_map snd (ex_host_nqn x)))) in
  if rc !=? 0 then rollback_create p (with_create_status rc cmd) else
  let! rc := call (SpdkNvmfTgtListen target (ex_traddr x) (ex_trsvcid x)) in
  if rc !=? 0 then rollback_create p (with_create_status rc cmd) else
  update_export p (set_started true) ;;;
  call (SpdkNvmfSubsystemAddListener sub) ;;;
  let! o := call (NvmfListenerAdded sub) in
  match o with None => blocked | Some status => create_listener_added p cmd status end.

Definition run_create (p : ptr) (cmd : export_command) : M St export_command :=
  let! x := get_export p in
  let! target := call (SpdkNvmfGetTgt (option_map snd (ex_target_name x))) in
  update_export p (set_target target) ;;;
  match target with
  | None => complete_xc cmd (- ENODEV)
  | Some target =>
      let! nqn := deref (ex_nqn x) in
      let! found := call (SpdkNvmfTgtFindSubsystem target nqn.2) in
      if found : bool then complete_xc cmd (- EEXIST) else
      let! sub := call (SpdkNvmfSubsystemCreate target nqn.2 (ex_nsid x)
                          (option_map snd (ex_serial_number x)) (option_map snd (ex_model_number x))) in
      update_export p (set_subsystem sub) ;;;
      match sub with
      | None => complete_xc cmd (- EINVAL)
      | Some sub => create_in_subsystem p target sub cmd
      end
  end.

(** ** Closing on the owner thread *)

Definition close_destroyed (p : ptr) (cmd : export_command) : M St export_command :=
  update_export p (set_subsystem None) ;;; complete_xc cmd 0.

Definition continue_close (p : ptr) (cmd : export_command) : M St export_command :=
  let! err := remove_listener p in
  match err with
  | Some rc => complete_xc cmd rc
  | None =>
      let! err := stop_listener p in
      match err with
      | Some rc => complete_xc cmd rc
      | None =>
          let! x := get_export p in
          match ex_subsystem x with
          | None => complete_xc cmd 0
          | Some sub =>
              let! rc := call (SpdkNvmfSubsystemDestroy sub) in
              if rc =? 0 then
                update_export p (set_subsystem None) ;;; complete_xc cmd 0
              else if rc !=? - EINPROGRESS then complete_xc cmd rc
              else
                let! o := call (NvmfDestroyed sub) in
                match o with None => blocked | Some _ => close_destroyed p cmd end
          end
      end
  end.

Definition close_stopped (p : ptr) (cmd : export_command) (status : Z) : M St export_command :=
  if status !=? 0 then complete_xc cmd status else
  update_export p (set_stopped true) ;;; continue_close p cmd.

Definition run_close (p : ptr) (cmd : export_command) : M St export_command :=
  let! x := get_export p in
  match ex_subsystem x with
  | None => continue_close p cmd
  | Some sub =>
      if ex_subsystem_stopped x then continue_close p cmd else
      let! rc := call (SpdkNvmfSubsystemStop sub) in
      if rc !=? 0 then complete_xc cmd rc else
      let! o := call (NvmfStopped sub) in
      match o with None => blocked | Some status => close_stopped p cmd status end
  end.

(** ** Operations *)

Inductive export_fn :=
  | RunCreate
  | RunClose.

Definition run_export_fn (f : export_fn) (p : ptr) (cmd : export_command) : M St export_command :=
  match f with RunCreate => run_create p cmd | RunClose => run_close p cmd end.

Definition export_msg (f : export_fn) : msg_fn :=
  match f with RunCreate => FnRunCreate | RunClose => FnRunClose end.

(** The command is on the stack at [self]. *)
Definition dispatch_export_command (self : nat) (p : ptr) (f : export_fn) : M St Z :=
  let! rc := command_setup in
  if rc !=? 0 then ret rc else
  let! x := get_export p in
  let! rc := call (SpdkThreadSendMsg (ex_owner x) (export_msg f) self) in
  if rc !=? 0 then command_cleanup ;;; ret (rc : Z) else
  let! cmd := run_on (Some (ex_owner x)) (run_export_fn f p (ExportCommand false 0 0)) in
  if xc_completed cmd then command_cleanup ;;; ret (xc_status cmd) else blocked.

(** [s == NULL ? NULL : strdup(s)] for each string, in order. *)
Fixpoint dup_strings (l : list (option string)) : M St (list (option hstring)) :=
  match l with
  | [] => ret []
  | None :: l => let! r := dup_strings l in ret (None :: r)
  | Some s :: l =>
      let! mp := calloc in
      let! r := dup_strings l in
      ret (option_map (fun p => (p, s)) mp :: r)
  end.

(** A string that was to be copied and is not there. *)
Definition dup_failed (l : list (option string)) (r : list (option hstring)) : bool :=
  existsb (fun '(s, d) => negb (is_null s) && is_null d) (zip l r).

Definition nth_string (r : list (option hstring)) (i : nat) : option hstring := nth i r None.

Definition create_export (self : nat) (runtime : option ptr) (opts : option export_opts) (export_out : bool)
    : M St (Z * option (option ptr)) :=
  let status := validate_opts runtime opts export_out in
  if status !=? 0 then ret (status, None) else
  match runtime, opts with
  | Some rt, Some o =>
      let! t := spdk_get_thread in
      if negb (is_null t) then ret (- EDEADLK, Some None) else
      let! lease := on_rt_xp (rl_acquire rt) in
      if lease.1 !=? 0 then ret (lease.1, Some None) else
      let! owner := deref lease.2 in
      let! mp := calloc in
      match mp with
      | None => on_rt_xp (rl_release rt) ;;; ret (- ENOMEM, Some None)
      | Some p =>
          let strings := [xo_target_name o; xo_nqn o; xo_bdev_name o; xo_serial_number o;
                          xo_model_number o; xo_host_nqn o] in
          let! r := dup_strings strings in
          let! traddr := deref (xo_traddr o) in
          let! trsvcid := deref (xo_trsvcid o) in
          put_export p (Export rt owner None None traddr trsvcid (nth_string r 0) (nth_string r 1) (nth_string r 2)
            (nth_string r 3) (nth_string r 4) (nth_string r 5) (xo_nsid o) (xo_allow_any_host o) false false false) ;;;
          if dup_failed strings r then
            free_export p ;;; on_rt_xp (rl_release rt) ;;; ret (- ENOMEM, Some None)
          else
          let! status := dispatch_export_command self p RunCreate in
          if status !=? 0 then
            on_rt_xp (rl_release rt) ;;; free_export p ;;; ret (status, Some None)
          else ret (0, Some (Some p))
      end
  | _, _ => fail BadPointer
  end.

Definition zettide_spdk_nvmf_tcp_export_create (self : nat) (runtime : option ptr) (opts : option export_opts)
    (export_out : bool) : M St (Z * option (option ptr)) :=
  let! rc := call (PthreadSetcancelstate true) in
  if rc !=? 0 then ret (- rc, None) else
  let! r := create_export self runtime opts export_out in
  let! rc := call (PthreadSetcancelstate false) in
  assert (rc =? 0) ;;; ret r.

Definition close_export (self : nat) (export_handle : option ptr) : M St Z :=
  match export_handle with
  | None => ret (- EINVAL)
  | Some p =>
      let! t := spdk_get_thread in
      if negb (is_null t) then ret (- EDEADLK) else
      let! status := dispatch_export_command self p RunClose in
      (if status =? 0 then
         let! x := get_export p in
         on_rt_xp (rl_release (ex_runtime x)) ;;; free_export p
       else ret tt) ;;;
      ret status
  end.

Definition zettide_spdk_nvmf_tcp_export_close (self : nat) (export_handle : option ptr) : M St Z :=
  let! rc := call (PthreadSetcancelstate true) in
  if rc !=? 0 then ret (- rc) else
  let! status := close_export self export_handle in
  let! rc := call (PthreadSetcancelstate false) in
  assert (rc =? 0) ;;; ret status.

(** ** What SPDK holds for an export *)

(** Subsystems that exist, listening targets and listening subsystems, counted over
    the history: [-ENOENT] says that the listener was already gone. *)
Definition sub_delta (ev : event) : Z :=
  match ev with
  | EvCall (SpdkNvmfSubsystemCreate _ _ _ _ _) (Some _) => 1
  | EvCall (SpdkNvmfSubsystemDestroy _) rc => if rc =? 0 then -1 else 0
  | EvCall (NvmfDestroyed _) (Some _) => -1
  | _ => 0
  end.
Definition listen_delta (ev : event) : Z :=
  match ev with
  | EvCall (SpdkNvmfTgtListen _ _ _) rc => if rc =? 0 then 1 else 0
  | EvCall (SpdkNvmfTgtStopListen _) rc => if gone rc then -1 else 0
  | _ => 0
  end.
Definition listener_delta (ev : event) : Z :=
  match ev with
  | EvCall (NvmfListenerAdded _) (Some rc) => if rc =? 0 then 1 else 0
  | EvCall (SpdkNvmfSubsystemRemoveListener _) rc => if gone rc then -1 else 0
  | _ => 0
  end.

Definition subsystems (h : list event) : Z := sum_events sub_delta h.
Definition listens (h : list event) : Z := sum_events listen_delta h.
Definition listeners (h : list event) : Z := sum_events listener_delta h.

(** A point in the history, with the counts without the export. *)
Record origin := Origin {
  or_hist : list event;
  or_subsystems : Z;
  or_listens : Z;
  or_listeners : Z;
}.

(** What the flags of the export say. *)
Definition sub_held (x : export) : Z := if is_null (ex_subsystem x) then 0 else 1.
Definition listen_held (x : export) : Z := if ex_target_listener_started x then 1 else 0.
Definition listener_held (x : export) : Z := if ex_subsystem_listener_added x then 1 else 0.

(** The flags of the export say what SPDK holds for it. *)
Definition holds (h0 : origin) (x : export) (h : list event) : Prop :=
  or_hist h0 `suffix_of` h /\
  subsystems h = or_subsystems h0 + sub_held x /\
  listens h = or_listens h0 + listen_held x /\
  listeners h = or_listeners h0 + listener_held x.

Definition origin_of (x : export) (h : list event) : origin :=
  Origin h (subsystems h - sub_held x) (listens h - listen_held x) (listeners h - listener_held x).

Lemma holds_origin x h : holds (origin_of x h) x h.
Proof. unfold holds, origin_of. simpl. split; [done|lia]. Qed.

(** Listeners belong to a subsystem and a target. *)
Definition export_wf (x : export) : Prop :=
  (ex_subsystem_listener_added x = true -> is_Some (ex_subsystem x)) /\
  (ex_target_listener_started x = true -> is_Some (ex_target x)).

(** The steps of an undoing succeed, as SPDK documents for a subsystem without
    connections; otherwise the code aborts. *)
Record undo_ok (e : env) : Prop := {
  undo_stop : forall h s, oracle e h (SpdkNvmfSubsystemStop s) = 0;
  undo_stopped : forall h s st, oracle e h (NvmfStopped s) = Some st -> st = 0;
  undo_remove : forall h s, gone (oracle e h (SpdkNvmfSubsystemRemoveListener s)) = true;
  undo_listen : forall h t, gone (oracle e h (SpdkNvmfTgtStopListen t)) = true;
  undo_destroy : forall h s, oracle e h (SpdkNvmfSubsystemDestroy s) = 0 \/
    oracle e h (SpdkNvmfSubsystemDestroy s) = - EINPROGRESS;
}.

(** SPDK calls the callbacks it was given. *)
Record callbacks_called (e : env) : Prop := {
  called_added : forall h s, oracle e h (NvmfListenerAdded s) <> None;
  called_started : forall h s, oracle e h (NvmfStarted s) <> None;
  called_stopped : forall h s, oracle e h (NvmfStopped s) <> None;
  called_destroyed : forall h s, oracle e h (NvmfDestroyed s) <> None;
}.

(** A call on the owner thread: it ends with [Q]; it blocks only because SPDK does
    not call back, and aborts only because an undoing failed. *)
Definition xends {A} (e : env) (Q : A -> conf St -> Prop) (o : outcome A) (c : conf St) : Prop :=
  match o with
  | Done a => Q a c
  | Blocked => ~ callbacks_called e
  | Fault f => f = Aborted /\ ~ undo_ok e
  end.

Ltac not_called H := intros Hcalled; destruct Hcalled; symmetry in H; naive_solver.

Ltac unfold_held :=
  unfold holds, sub_held, listen_held, listener_held, subsystems, listens, listeners in *; simpl.

Lemma wp_get_export p x e (c : conf St) Q :
  xp_exports (store c) !! p = Some x -> Q (Done x) c -> wp (get_export p) e c Q.
Proof. intros Hp HQ. unfold get_export. wp_steps. by eapply wp_deref. Qed.

Lemma wp_update_export p f x e r xs l h Q :
  Q (Done tt) (Conf (XpS r (<[p:=f x]> xs)) l h) ->
  wp (update_export p f) e (Conf (XpS r (<[p:=x]> xs)) l h) Q.
Proof.
  intros HQ. unfold update_export. wp_step. eapply wp_get_export; [apply lookup_insert_eq|].
  unfold put_export. wp_step. simpl. by rewrite insert_insert_eq.
Qed.

Lemma holds_quiet h0 x h ev :
  holds h0 x h -> sub_delta ev = 0 -> listen_delta ev = 0 -> listener_delta ev = 0 -> holds h0 x (ev :: h).
Proof.
  intros (H0 & H1 & H2 & H3) E1 E2 E3. unfold_held.
  rewrite E1, E2, E3. split; [by apply suffix_cons_r|lia].
Qed.

Lemma remove_listener_spec p e h0 r xs l h x :
  holds h0 x h -> export_wf x ->
  wp (remove_listener p) e (Conf (XpS r (<[p:=x]> xs)) l h) (returns (fun err c' => exists x' h',
    c' = Conf (XpS r (<[p:=x']> xs)) l h' /\ holds h0 x' h' /\ export_wf x' /\
    (err = None /\ x' = set_added false x \/ exists rc, err = Some rc /\ rc <> 0 /\ x' = x /\ ~ undo_ok e))).
Proof.
  intros Hh [Hw1 Hw2]. unfold remove_listener. wp_step. eapply wp_get_export; [apply lookup_insert_eq|].
  destruct (ex_subsystem_listener_added x) eqn:Ha.
  - destruct (Hw1 eq_refl) as [sub Hsub]. wp_step. eapply wp_deref; [exact Hsub|].
    wp_step. wp_oracle as rc Hrc. simpl in *. destruct Hh as (H0 & H1 & H2 & H3). unfold listener_held in H3. rewrite Ha in H3.
    destruct (gone rc) eqn:Hg; simpl.
    + wp_step. apply wp_update_export. wp_step. simpl. eexists _, _. split; [reflexivity|].
      split; [|split; [split; simpl; [done|done]|by left]].
      unfold_held. rewrite Hg. split; [by apply suffix_cons_r|lia].
    + wp_step. simpl. eexists _, _. split; [reflexivity|]. split; [|split].
      * unfold_held. rewrite Hg, Ha. split; [by apply suffix_cons_r|lia].
      * by split; rewrite ?Ha.
      * right. exists rc. split_and!; try done; [intros ->; done|]. intros Hu.
        pose proof (undo_remove _ Hu h sub) as Hg'. rewrite <- Hrc in Hg'. congruence.
  - wp_step. simpl. exists x, h. split_and!; try done; [split; rewrite ?Ha; done|]. left. split; [done|].
    unfold set_added, set_flags. rewrite <- Ha. by destruct x.
Qed.

Lemma stop_listener_spec p e h0 r xs l h x :
  holds h0 x h -> export_wf x ->
  wp (stop_listener p) e (Conf (XpS r (<[p:=x]> xs)) l h) (returns (fun err c' => exists x' h',
    c' = Conf (XpS r (<[p:=x']> xs)) l h' /\ holds h0 x' h' /\ export_wf x' /\
    (err = None /\ x' = set_started false x \/ exists rc, err = Some rc /\ rc <> 0 /\ x' = x /\ ~ undo_ok e))).
Proof.
  intros Hh [Hw1 Hw2]. unfold stop_listener. wp_step. eapply wp_get_export; [apply lookup_insert_eq|].
  destruct (ex_target_listener_started x) eqn:Ha.
  - destruct (Hw2 eq_refl) as [t Ht]. wp_step. eapply wp_deref; [exact Ht|].
    wp_step. wp_oracle as rc Hrc. simpl in *. destruct Hh as (H0 & H1 & H2 & H3). unfold listen_held in H2. rewrite Ha in H2.
    destruct (gone rc) eqn:Hg; simpl.
    + wp_step. apply wp_update_export. wp_step. simpl. eexists _, _. split; [reflexivity|].
      split; [|split; [split; simpl; [done|done]|by left]].
      unfold_held. rewrite Hg. split; [by apply suffix_cons_r|lia].
    + wp_step. simpl. eexists _, _. split; [reflexivity|]. split; [|split].
      * unfold_held. rewrite Hg, Ha. split; [by apply suffix_cons_r|lia].
      * by split; rewrite ?Ha.
      * right. exists rc. split_and!; try done; [intros ->; done|]. intros Hu.
        pose proof (undo_listen _ Hu h t) as Hg'. rewrite <- Hrc in Hg'. congruence.
  - wp_step. simpl. exists x, h. split_and!; try done; [split; rewrite ?Ha; done|]. left. split; [done|].
    unfold set_started, set_flags. rewrite <- Ha. by destruct x.
Qed.

(** Runtime, owner and strings stay. *)
Definition same_export (x x' : export) : Prop :=
  ex_runtime x' = ex_runtime x /\ ex_owner x' = ex_owner x /\ ex_target_name x' = ex_target_name x /\
  ex_nqn x' = ex_nqn x /\ ex_bdev_name x' = ex_bdev_name x /\ ex_serial_number x' = ex_serial_number x /\
  ex_model_number x' = ex_model_number x /\ ex_host_nqn x' = ex_host_nqn x.

(** SPDK holds nothing, or everything, for the export. *)
Definition cleared (x : export) : Prop :=
  ex_subsystem x = None /\ ex_target_listener_started x = false /\ ex_subsystem_listener_added x = false.
Definition active (x : export) : Prop :=
  is_Some (ex_subsystem x) /\ ex_target_listener_started x = true /\ ex_subsystem_listener_added x = true.

(** How a command of the export [x] at [p] ends. *)
Definition export_end (p : ptr) (h0 : origin) (r : R) (xs : gmap ptr export) (l : gset ptr) (x : export)
    (Q : Z -> export -> Prop) (cmd : export_command) (c' : conf St) : Prop :=
  xc_completed cmd = true /\ exists x' h',
    c' = Conf (XpS r (<[p:=x']> xs)) l h' /\ holds h0 x' h' /\ export_wf x' /\ same_export x x' /\ Q (xc_status cmd) x'.

(** The subsystem is destroyed, at once or with a callback. *)
Lemma holds_destroyed h0 x h h' :
  holds h0 x h -> is_Some (ex_subsystem x) -> h `suffix_of` h' ->
  subsystems h' = subsystems h - 1 -> listens h' = listens h -> listeners h' = listeners h ->
  holds h0 (set_subsystem None x) h'.
Proof.
  intros (H0 & H1 & H2 & H3) [s Hs] Hh E1 E2 E3. unfold holds, sub_held, listen_held, listener_held in *. rewrite Hs in H1. simpl in *.
  split; [by trans h|]. lia.
Qed.

Lemma finish_rollback_spec p e h0 r xs l h x cmd :
  holds h0 x h -> export_wf x -> is_Some (ex_subsystem x) ->
  wp (finish_create_rollback p cmd) e (Conf (XpS r (<[p:=x]> xs)) l h)
    (xends e (export_end p h0 r xs l x (fun st x' => st = xc_create_status cmd /\ cleared x'))).
Proof.
  intros Hh Hw [sub Hsub]. unfold finish_create_rollback. wp_step.
  eapply wp_mono; [by apply remove_listener_spec|]. intros [err|f|] c'; simpl; [|done|done].
  intros (x1 & h1 & -> & Hh1 & Hw1 & [[-> ->]|(rc & -> & _ & _ & Hu)]); simpl; [|by wp_step]. wp_step.
  eapply wp_mono; [by apply stop_listener_spec|]. intros [err|f|] c'; simpl; [|done|done].
  intros (x2 & h2 & -> & Hh2 & Hw2 & [[-> ->]|(rc & -> & _ & _ & Hu)]); simpl; [|by wp_step].
  wp_step. eapply wp_get_export; [apply lookup_insert_eq|]. wp_step. eapply wp_deref; [exact Hsub|].
  wp_step. wp_oracle as rc Hrc. simpl in *. destruct (Z.eqb_spec rc 0) as [Hz|Hz].
  - wp_step. apply wp_update_export. unfold complete_xc. wp_step. split; [done|]. simpl. eexists _, _.
    split; [reflexivity|]. split; [|done]. eapply holds_destroyed; [exact Hh2|by eexists|solve_suffix|..];
      unfold subsystems, listens, listeners; simpl; rewrite ?Hz; simpl; lia.
  - wp_if as Hp; breflect.
    + wp_step. simpl. split; [done|]. intros Hu. destruct (undo_destroy _ Hu h2 sub); congruence.
    + wp_step. wp_oracle as od Hod. destruct od as [[]|]; [|by not_called Hod]. clear Hod. unfold create_destroyed. wp_step. apply wp_update_export.
      unfold complete_xc. wp_step. split; [done|]. simpl. eexists _, _. split; [reflexivity|]. split; [|done].
      eapply holds_destroyed; [exact Hh2|by eexists|solve_suffix|..];
        unfold subsystems, listens, listeners; simpl; rewrite ?Hp; simpl; lia.
Qed.

Lemma rollback_spec p e h0 r xs l h x cmd :
  holds h0 x h -> export_wf x -> is_Some (ex_subsystem x) -> xc_create_status cmd <> 0 ->
  wp (rollback_create p cmd) e (Conf (XpS r (<[p:=x]> xs)) l h)
    (xends e (export_end p h0 r xs l x (fun st x' => st = 0 /\ active x' \/ st <> 0 /\ cleared x'))).
Proof.
  intros Hh Hw [sub Hsub] Hst. unfold rollback_create. wp_step. eapply wp_get_export; [apply lookup_insert_eq|].
  wp_step. eapply wp_deref; [exact Hsub|]. wp_step. wp_oracle as rc Hrc. wp_if as Hz.
  { wp_step. split; [done|]. intros Hu. breflect. apply Hz. rewrite Hrc. apply (undo_stop _ Hu). }
  wp_step. wp_oracle as o Ho. simpl in *. destruct o as [st|]; [|by not_called Ho].
  unfold create_rollback_stopped. wp_if as Hz'.
  { wp_step. split; [done|]. intros Hu. breflect. apply Hz'. by eapply (undo_stopped _ Hu). }
  eapply wp_mono; [eapply finish_rollback_spec; [|done|by eexists]|].
  - apply holds_quiet; [apply holds_quiet; [exact Hh|done..]|done..].
  - intros [cmd'|f|] c'; [|done|done]. intros (Hc & x' & h' & -> & H1 & H2 & H3 & [Hs H4]). split; [done|].
    exists x', h'. split_and!; try done. right. split; [congruence|done].
Qed.

(** The end of a creation. *)
Abbreviation create_end p e h0 r xs l x :=
  (xends e (export_end p h0 r xs l x (fun st x' => st = 0 /\ active x' \/ st <> 0 /\ cleared x'))).

Lemma export_end_same p h0 r xs l x x1 Q cmd c' :
  same_export x x1 -> export_end p h0 r xs l x1 Q cmd c' -> export_end p h0 r xs l x Q cmd c'.
Proof.
  intros Hs (Hc & x' & h' & -> & H1 & H2 & H3 & H4). split; [done|]. exists x', h'. split_and!; try done.
  unfold same_export in *. intuition congruence.
Qed.

(** The subsystem listens; it is started. *)
Lemma listener_added_spec p e h0 r xs l h x cmd s0 st :
  holds h0 x h -> export_wf x -> is_Some (ex_subsystem x) ->
  ex_target_listener_started x = true -> ex_subsystem_listener_added x = false ->
  wp (create_listener_added p cmd st) e
    (Conf (XpS r (<[p:=x]> xs)) l (EvCall (NvmfListenerAdded s0 : call_sig) (Some st) :: h)) (create_end p e h0 r xs l x).
Proof.
  intros Hh Hw [sub Hsub] Hstart Hadd. unfold create_listener_added. wp_if as Hst; breflect.
  { apply rollback_spec; [|done|by eexists|done]. apply holds_quiet; [done|done|done|]. simpl.
    by rewrite (proj2 (Z.eqb_neq st 0)). }
  subst st. set (x1 := set_added true x).
  assert (holds h0 x1 (EvCall (NvmfListenerAdded s0 : call_sig) (Some 0) :: h)) as Hh1.
  { destruct Hh as (H0 & H1 & H2 & H3). unfold listener_held in H3. rewrite Hadd in H3. unfold_held.
    split; [by apply suffix_cons_r|lia]. }
  assert (export_wf x1) as Hw1 by (destruct Hw; split; simpl; auto; by eexists).
  wp_step. apply wp_update_export. fold x1. wp_step. eapply wp_get_export; [apply lookup_insert_eq|].
  wp_step. eapply wp_deref; [exact Hsub|]. wp_step. wp_step.
  wp_if as Hrc; breflect.
  { eapply wp_mono; [apply rollback_spec; [apply holds_quiet; [exact Hh1|done..]|done|by eexists|done]|].
    intros [cmd'|f|] c'; [|done|done]. by apply export_end_same. }
  wp_step. wp_oracle as os Hos. simpl. destruct os as [st|]; [|by not_called Hos]. clear Hos. unfold create_started.
  assert (holds h0 x1 (EvCall (NvmfStarted sub : call_sig) (Some st) :: EvCall (SpdkNvmfSubsystemStart sub : call_sig) r0
     :: EvCall (NvmfListenerAdded s0 : call_sig) (Some 0) :: h)) as Hh2
    by (apply holds_quiet; [apply holds_quiet; [exact Hh1|done..]|done..]).
  wp_if as Hz; breflect.
  - unfold complete_xc. wp_step. split; [done|]. simpl. eexists _, _. split_and!; try done. left. split; [done|].
    split_and!; done.
  - eapply wp_mono; [apply rollback_spec; [exact Hh2|done|by eexists|done]|].
    intros [cmd'|f|] c'; [|done|done]. by apply export_end_same.
Qed.

Lemma create_in_subsystem_spec p e h0 r xs l h x cmd target sub bdev :
  holds h0 x h -> ex_subsystem x = Some sub -> ex_target x = Some target -> ex_bdev_name x = Some bdev ->
  ex_target_listener_started x = false -> ex_subsystem_listener_added x = false ->
  wp (create_in_subsystem p target sub cmd) e (Conf (XpS r (<[p:=x]> xs)) l h) (create_end p e h0 r xs l x).
Proof.
  intros Hh Hsub Htgt Hbd Hstart Hadd.
  assert (export_wf x) as Hw by (split; congruence).
  assert (is_Some (ex_subsystem x)) as Hs by (rewrite Hsub; by eexists).
  unfold create_in_subsystem. wp_step. eapply wp_get_export; [apply lookup_insert_eq|].
  wp_step. eapply wp_deref; [exact Hbd|]. wp_step. wp_step. wp_if as Hns.
  { apply rollback_spec; try done. by apply holds_quiet. }
  match goal with |- wp _ _ (Conf _ _ ?h1) _ => assert (holds h0 x h1) as Hh1 by by apply holds_quiet end.
  wp_step. eapply (wp_mono _ _ _ (returns (fun rc c' => exists h2,
    c' = Conf (XpS r (<[p:=x]> xs)) l h2 /\ holds h0 x h2))).
  { destruct (ex_allow_any_host x); wp_step; eexists; (split; [reflexivity|]); by apply holds_quiet. }
  intros [rc|f|] c'; simpl; [|done|done]. intros (h2 & -> & Hh2). wp_if as Hrc; breflect.
  { by apply rollback_spec. }
  wp_step. wp_step. wp_if as Hl; breflect.
  { apply rollback_spec; try done. apply holds_quiet; try done. simpl. by rewrite (proj2 (Z.eqb_neq _ 0)). }
  wp_step. apply wp_update_export. wp_step. wp_step. wp_step. wp_oracle as oc Hoc. simpl.
  destruct oc as [st|]; [|by not_called Hoc]. clear Hoc. eapply wp_mono; [apply (listener_added_spec _ _ h0); try done|].
  - destruct Hh2 as (H0 & H1 & H2 & H3). unfold listen_held in H2. rewrite Hstart in H2. unfold_held.
    rewrite Hl. simpl. split; [solve_suffix|]. simpl in *. lia.
  - intros [cmd'|f|] c'; [|done|done]. by apply export_end_same.
Qed.

Lemma run_create_spec p e r xs l h x cmd nqn bdev :
  cleared x -> ex_nqn x = Some nqn -> ex_bdev_name x = Some bdev ->
  wp (run_create p cmd) e (Conf (XpS r (<[p:=x]> xs)) l h) (create_end p e (origin_of x h) r xs l x).
Proof.
  intros (Hsub & Hstart & Hadd) Hnqn Hbd. unfold run_create.
  assert (forall x1 h1, same_export x x1 -> ex_subsystem x1 = None -> ex_target_listener_started x1 = false ->
    ex_subsystem_listener_added x1 = false -> h `suffix_of` h1 -> subsystems h1 = subsystems h ->
    listens h1 = listens h -> listeners h1 = listeners h -> forall st, st <> 0 ->
    wp (complete_xc cmd st) e (Conf (XpS r (<[p:=x1]> xs)) l h1) (create_end p e (origin_of x h) r xs l x)) as Hno.
  { intros x1 h1 Hsame H1 H2 H3 Hh E1 E2 E3 st Hst. unfold complete_xc. wp_step. split; [done|]. exists x1, h1.
    split_and!; try done.
    - unfold holds, origin_of, sub_held, listen_held, listener_held. rewrite H1, H2, H3, Hsub, Hstart, Hadd. simpl.
      split; [done|lia].
    - split; congruence.
    - by right. }
  wp_step. eapply wp_get_export; [apply lookup_insert_eq|]. wp_step. wp_oracle as ot Hot. clear Hot.
  wp_step. apply wp_update_export. simpl. destruct ot as [target|]; [|apply Hno; try done; solve_suffix].
  wp_step. rewrite Hnqn. eapply wp_deref; [done|]. wp_step. wp_step. wp_if as Hf; [apply Hno; try done; solve_suffix|].
  wp_step. wp_oracle as os Hos. clear Hos. wp_step. apply wp_update_export. simpl.
  destruct os as [sub|]; [|apply Hno; try done; solve_suffix].
  eapply wp_mono; [eapply (create_in_subsystem_spec _ _ (origin_of x h)); try done|].
  - unfold holds, origin_of, sub_held, listen_held, listener_held. simpl. rewrite Hsub, Hstart, Hadd.
    split; [solve_suffix|]. unfold subsystems, listens, listeners. simpl. lia.
  - intros [cmd'|f|] c'; [|done|done]. by apply export_end_same.
Qed.

(** A close releases everything, or reports an error and what it released so far
    stays recorded in the flags. *)
Abbreviation close_end p e h0 r xs l x :=
  (xends e (export_end p h0 r xs l x (fun st x' => st = 0 -> cleared x'))).

Lemma continue_close_spec p e h0 r xs l h x cmd :
  holds h0 x h -> export_wf x ->
  wp (continue_close p cmd) e (Conf (XpS r (<[p:=x]> xs)) l h) (close_end p e h0 r xs l x).
Proof.
  intros Hh Hw. unfold continue_close, complete_xc. wp_step.
  eapply wp_mono; [by apply remove_listener_spec|]. intros [err|f|] c'; simpl; [|done|done].
  intros (x1 & h1 & -> & Hh1 & Hw1 & [[-> ->]|(rc & -> & Hrc & -> & _)]).
  2:{ wp_step. split; [done|]. exists x, h1. split_and!; try done. }
  wp_step. eapply wp_mono; [by apply stop_listener_spec|]. intros [err|f|] c'; simpl; [|done|done].
  intros (x2 & h2 & -> & Hh2 & Hw2 & [[-> ->]|(rc & -> & Hrc & -> & _)]).
  2:{ wp_step. split; [done|]. eexists _, h2. split_and!; try done. }
  wp_step. eapply wp_get_export; [apply lookup_insert_eq|]. simpl. destruct (ex_subsystem x) as [sub|] eqn:Hsub.
  2:{ wp_step. split; [done|]. eexists _, h2. split_and!; try done. }
  assert (is_Some (ex_subsystem (set_started false (set_added false x)))) as Hs by (simpl; rewrite Hsub; by eexists).
  wp_step. wp_step. wp_if as Hz; [|wp_if as Hp]; breflect.
  - wp_step. apply wp_update_export. wp_step. split; [done|]. eexists _, _. split; [reflexivity|].
    split; [|done]. eapply holds_destroyed; [exact Hh2|done|solve_suffix|..];
      unfold subsystems, listens, listeners; simpl; rewrite ?Hz; simpl; lia.
  - wp_step. split; [done|]. eexists _, _. split; [reflexivity|]. split_and!; try done.
    apply holds_quiet; try done. simpl. by rewrite (proj2 (Z.eqb_neq _ 0)).
  - wp_step. wp_oracle as od Hod. destruct od as [[]|]; [|by not_called Hod]. clear Hod. unfold close_destroyed, complete_xc. wp_step. apply wp_update_export.
    wp_step. split; [done|]. eexists _, _. split; [reflexivity|]. split; [|done].
    eapply holds_destroyed; [exact Hh2|done|solve_suffix|..]; unfold subsystems, listens, listeners; simpl; rewrite ?Hp; simpl; lia.
Qed.

Lemma run_close_spec p e h0 r xs l h x cmd :
  holds h0 x h -> export_wf x ->
  wp (run_close p cmd) e (Conf (XpS r (<[p:=x]> xs)) l h) (close_end p e h0 r xs l x).
Proof.
  intros Hh Hw. unfold run_close. wp_step. eapply wp_get_export; [apply lookup_insert_eq|].
  destruct (ex_subsystem x) as [sub|] eqn:Hsub; [|by apply continue_close_spec].
  wp_if as Hs; [by apply continue_close_spec|]. wp_step. wp_step. unfold complete_xc. wp_if as Hrc; breflect.
  { wp_step. split; [done|]. exists x. eexists. split_and!; try done. by apply holds_quiet. }
  wp_step. wp_oracle as od Hod. destruct od as [st|]; [|by not_called Hod]. clear Hod.
  match goal with |- wp _ _ (Conf _ _ ?h1) _ => assert (holds h0 x h1) as Hh1 by (apply holds_quiet; [by apply holds_quiet|done..]) end.
  unfold close_stopped, complete_xc. wp_if as Hst; breflect.
  { wp_step. split; [done|]. exists x. eexists. split_and!; try done. }
  wp_step. apply wp_update_export. eapply wp_mono; [by apply continue_close_spec|].
  intros [cmd'|f|] c'; [|done|done]. by apply export_end_same.
Qed.

(** ** Commands *)

Lemma holds_synced h0 x h h' : holds h0 x h -> synced h h' -> holds h0 x h'.
Proof.
  intros (H0 & H1 & H2 & H3) (k & -> & Hk).
  assert (forall f, (forall ev, is_pthread ev -> f ev = 0) -> sum_events f (k ++ h) = sum_events f h) as Hq.
  { intros f Hf. apply sum_events_quiet. eapply Forall_impl; [exact Hk|]. exact Hf. }
  unfold holds, subsystems, listens, listeners in *. rewrite !Hq; try (intros [[]| |]; done).
  split; [|done]. etrans; [exact H0|]. by exists k.
Qed.

(** A command is refused and nothing has happened, or the owner runs it. *)
Lemma dispatch_export_spec self p f h0 Q e r xs l h x :
  holds h0 x h -> export_wf x -> posix_ok e ->
  (forall h1, holds h0 x h1 ->
     wp (run_export_fn f p (ExportCommand false 0 0)) (Env (Some (ex_owner x)) (oracle e) (alloc_ok e))
       (Conf (XpS r (<[p:=x]> xs)) l h1)
       (xends (Env (Some (ex_owner x)) (oracle e) (alloc_ok e)) (export_end p h0 r xs l x Q))) ->
  wp (dispatch_export_command self p f) e (Conf (XpS r (<[p:=x]> xs)) l h) (xends e (fun st c' => exists x' h',
    c' = Conf (XpS r (<[p:=x']> xs)) l h' /\ holds h0 x' h' /\ export_wf x' /\ same_export x x' /\
    (Q st x' \/ st <> 0 /\ x' = x))).
Proof.
  intros Hh Hw Hpx Hrun. unfold dispatch_export_command. wp_step. apply wp_setup_sync; simpl.
  { intros rc h1 Hrc Hh1. rewrite (proj2 (Z.eqb_neq rc 0)) by done. simpl. wp_step. exists x, h1.
    split_and!; try done; [by eapply holds_synced|]. by right. }
  intros h1 _ Hh1. wp_step. eapply wp_get_export; [apply lookup_insert_eq|]. wp_step. wp_step.
  assert (forall ev, sub_delta ev = 0 -> listen_delta ev = 0 -> listener_delta ev = 0 -> holds h0 x (ev :: h1)) as Hq.
  { intros. apply holds_quiet; try done. by eapply holds_synced. }
  wp_if as Hrc; breflect.
  { wp_step. apply wp_cleanup_sync; [done|]. intros h2 Hh2. wp_step. exists x, h2.
    split_and!; try done; [|by right]. eapply holds_synced; [|exact Hh2]. by apply Hq. }
  wp_step. wp_step. eapply wp_mono; [apply Hrun; by apply Hq|].
  intros [cmd|fl|] c'; simpl; [| |intros Hb [U1 U2 U3 U4]; apply Hb; by split].
  - intros (Hc & x' & h2 & -> & H1 & H2 & H3 & H4). rewrite Hc. wp_step. apply wp_cleanup_sync; [done|].
    intros h3 Hh3. wp_step. exists x', h3. split_and!; try done; [by eapply holds_synced|by left].
  - intros [-> Hu]. split; [done|]. intros [U1 U2 U3 U4 U5]. apply Hu. by split.
Qed.

(** ** The heap of an export *)

Definition export_strings (x : export) : list (option hstring) :=
  [ex_host_nqn x; ex_model_number x; ex_serial_number x; ex_bdev_name x; ex_nqn x; ex_target_name x].

Definition string_blocks (l : list (option hstring)) : list ptr := omap (option_map fst) l.

Definition export_blocks (p : ptr) (x : export) : list ptr := string_blocks (export_strings x) ++ [p].

Lemma same_blocks p x x' : same_export x x' -> export_blocks p x' = export_blocks p x.
Proof.
  intros (_ & _ & H1 & H2 & H3 & H4 & H5 & H6). unfold export_blocks, export_strings.
  by rewrite H1, H2, H3, H4, H5, H6.
Qed.

Lemma wp_free_all ls e (s : St) l h Q :
  NoDup (omap id ls) -> (forall b, b ∈ omap id ls -> b ∈ l) ->
  (forall h', h `suffix_of` h' -> sum_events sub_delta h' = sum_events sub_delta h ->
     sum_events listen_delta h' = sum_events listen_delta h -> sum_events listener_delta h' = sum_events listener_delta h ->
     Q (Done tt) (Conf s (l ∖ list_to_set (omap id ls)) h')) ->
  wp (free_all ls) e (Conf s l h) Q.
Proof.
  revert l h. induction ls as [|[b|] ls IH]; intros l h Hnd Hin HQ; simpl in *.
  - wp_step. specialize (HQ h). rewrite difference_empty_L in HQ. by apply HQ.
  - apply NoDup_cons in Hnd as [Hb Hnd]. wp_step. apply wp_free; [apply Hin; by left|]. simpl.
    apply IH; [done| |].
    + intros b' Hb'. assert (b' <> b) by (intros ->; done). pose proof (Hin b' ltac:(by right)). set_solver.
    + intros h' Hh E1 E2 E3. simpl in *. rewrite difference_difference_l_L. apply HQ; try done. etrans; [|exact Hh]. solve_suffix.
  - wp_step. apply wp_free_null. by apply IH.
Qed.

Lemma wp_free_export p x e r xs l h Q :
  NoDup (export_blocks p x) -> (forall b, b ∈ export_blocks p x -> b ∈ l) ->
  (forall h', h `suffix_of` h' -> subsystems h' = subsystems h -> listens h' = listens h -> listeners h' = listeners h ->
     Q (Done tt) (Conf (XpS r (delete p xs)) (l ∖ list_to_set (export_blocks p x)) h')) ->
  wp (free_export p) e (Conf (XpS r (<[p:=x]> xs)) l h) Q.
Proof.
  intros Hnd Hin HQ. unfold free_export. wp_step. eapply wp_get_export; [apply lookup_insert_eq|]. wp_step.
  assert (omap id [option_map fst (ex_host_nqn x); option_map fst (ex_model_number x);
            option_map fst (ex_serial_number x); option_map fst (ex_bdev_name x);
            option_map fst (ex_nqn x); option_map fst (ex_target_name x)] = string_blocks (export_strings x)) as Hom by done.
  unfold export_blocks in *. apply NoDup_app in Hnd as (Hn1 & Hn2 & _).
  apply wp_free_all; rewrite Hom; [done|intros b Hb; apply Hin, elem_of_app; by left|].
  intros h1 Hh1 E1 E2 E3. wp_step. wp_step. simpl. apply wp_free.
  - simpl. assert (p ∈ l) by (apply Hin, elem_of_app; right; by left).
    apply elem_of_difference. split; [done|]. rewrite elem_of_list_to_set. intros Hp. apply (Hn2 p Hp). by left.
  - simpl. rewrite delete_insert_eq, difference_difference_l_L.
    replace (list_to_set (string_blocks (export_strings x)) ∪ {[p]})
      with (list_to_set (string_blocks (export_strings x) ++ [p]) : gset ptr)
      by (rewrite list_to_set_app_L; simpl; by rewrite union_empty_r_L).
    apply HQ; [by apply suffix_cons_r|..]; unfold subsystems, listens, listeners in *; simpl; lia.
Qed.

(** A copy, when there is one, is of the string. *)
Definition dup_of (s : option string) (d : option hstring) : Prop :=
  match s, d with
  | None, None | Some _, None => True
  | Some a, Some (_, b) => a = b
  | None, Some _ => False
  end.

(** SPDK holds the same as before. *)
Definition same_held (h h' : list event) : Prop :=
  subsystems h' = subsystems h /\ listens h' = listens h /\ listeners h' = listeners h.

Lemma dup_strings_spec ls e (s : St) l h :
  conf_ok (Conf s l h) ->
  wp (dup_strings ls) e (Conf s l h) (returns (fun rs c' => exists h',
    c' = Conf s (list_to_set (string_blocks rs) ∪ l) h' /\ conf_ok c' /\ h `suffix_of` h' /\ same_held h h' /\
    NoDup (string_blocks rs) /\ (forall b, b ∈ string_blocks rs -> b ∉ l) /\ Forall2 dup_of ls rs)).
Proof.
  revert l h. induction ls as [|[a|] ls IH]; intros l h Hc; simpl.
  - wp_step. exists h. simpl. rewrite (left_id_L ∅ (∪)). split_and!; try done; [constructor|set_solver].
  - wp_step. eapply (wp_mono _ _ _ (returns (fun mp c' => exists h',
      c' = Conf s (opt_set mp ∪ l) h' /\ conf_ok c' /\ h `suffix_of` h' /\ same_held h h' /\ opt_set mp ## l))).
    { apply wp_calloc.
      - eexists. simpl. rewrite (left_id_L ∅ (∪)). split; [reflexivity|]. split; [by apply (conf_ok_log (Conf s l h))|].
        split; [solve_suffix|]. split; [done|set_solver].
      - intros p Hsz. simpl in Hsz. eexists. simpl. split; [reflexivity|]. split; [by apply (conf_ok_alloc s)|].
        pose proof (fresh_not_live _ Hc) as Hf. change (p ∉ l) in Hf. split; [solve_suffix|]. split; [done|set_solver]. }
    intros [mp|f|] c'; simpl; [|done|done]. intros (h1 & -> & Hc1 & Hh1 & Hq1 & Hd). wp_step.
    eapply wp_mono; [by apply IH|]. intros [rs|f|] c'; simpl; [|done|done].
    intros (h2 & -> & Hc2 & Hh2 & Hq2 & Hnd & Hnew & Hf). wp_step. exists h2. unfold string_blocks in *.
    assert (forall b, b ∈ omap (option_map fst) rs -> b ∉ opt_set mp /\ b ∉ l) as Hnew' by (intros b Hb; specialize (Hnew b Hb); set_solver).
    destruct mp as [p|]; simpl in *.
    + replace (list_to_set (omap (option_map fst) rs) ∪ ({[p]} ∪ l)) with
        ({[p]} ∪ list_to_set (omap (option_map fst) rs) ∪ l) in * by (clear; set_solver).
      split_and!; try done; [by trans h1|unfold same_held in *; lia| | |].
      * apply NoDup_cons. split; [|done]. intros Hp. destruct (Hnew' p Hp) as [Hp' _]. set_solver.
      * intros b [->|Hb]%elem_of_cons; [set_solver|]. by destruct (Hnew' b Hb).
      * by constructor.
    + rewrite (left_id_L ∅ (∪)) in *. split_and!; try done; [by trans h1|unfold same_held in *; lia|by constructor].
  - wp_step. eapply wp_mono; [by apply IH|]. intros [rs|f|] c'; simpl; [|done|done].
    intros (h2 & -> & Hc2 & Hh2 & Hq2 & Hnd & Hnew & Hf). wp_step. exists h2. unfold string_blocks in *. simpl.
    split_and!; try done. by constructor.
Qed.

(** The blocks of the exports are live and are not shared. *)
Definition xp_ok (c : conf St) : Prop :=
  conf_ok c /\
  (forall p x, xp_exports (store c) !! p = Some x ->
     NoDup (export_blocks p x) /\ (forall b, b ∈ export_blocks p x -> b ∈ live c) /\ export_wf x) /\
  (forall p p' x x' b, xp_exports (store c) !! p = Some x -> xp_exports (store c) !! p' = Some x' ->
     b ∈ export_blocks p x -> b ∈ export_blocks p' x' -> p = p').

Lemma export_own p x : p ∈ export_blocks p x.
Proof. apply elem_of_app. right. by left. Qed.

Lemma xp_ok_insert r r' xs l h h' p x :
  xp_ok (Conf (XpS r xs) l h) -> (forall b, b ∈ export_blocks p x -> b ∉ l) -> NoDup (export_blocks p x) ->
  export_wf x -> conf_ok (Conf (XpS r' (<[p:=x]> xs)) (list_to_set (export_blocks p x) ∪ l) h') ->
  xp_ok (Conf (XpS r' (<[p:=x]> xs)) (list_to_set (export_blocks p x) ∪ l) h').
Proof.
  intros (_ & Hb & Hd) Hnew Hnd Hw Hc. cbn [store live xp_exports] in *. split; [exact Hc|].
  cbn [store live xp_exports]. split.
  - intros p' x' [[<- <-]|[_ Hx']]%lookup_insert_Some.
    + split; [exact Hnd|]. split; [|exact Hw]. intros b Hin. apply elem_of_union_l. by apply elem_of_list_to_set.
    + destruct (Hb p' x' Hx') as (H1 & H2 & H3). split_and!; try done. intros b Hin. apply elem_of_union_r. auto.
  - intros p1 p2 x1 x2 b [[<- <-]|[_ H1]]%lookup_insert_Some [[<- <-]|[_ H2]]%lookup_insert_Some B1 B2;
      [done| | |eauto]; exfalso.
    + destruct (Hb p2 x2 H2) as (_ & Hin & _). exact (Hnew b B1 (Hin b B2)).
    + destruct (Hb p1 x1 H1) as (_ & Hin & _). exact (Hnew b B2 (Hin b B1)).
Qed.

(** An export changes without its blocks. *)
Lemma xp_ok_update r xs l h h' p x x' :
  xp_ok (Conf (XpS r xs) l h) -> xs !! p = Some x -> same_export x x' -> export_wf x' -> h `suffix_of` h' ->
  xp_ok (Conf (XpS r (<[p:=x']> xs)) l h').
Proof.
  intros (Hc & Hb & Hd) Hx Hs Hw Hh. simpl in *. pose proof (same_blocks p _ _ Hs) as Hbl.
  split; [by eapply conf_ok_suffix|]. simpl. split.
  - intros p' y [[<- <-]|[_ Hy]]%lookup_insert_Some; [|eauto]. rewrite Hbl. destruct (Hb p x Hx) as (? & ? & ?). done.
  - intros p1 p2 x1 x2 b [[<- <-]|[_ H1]]%lookup_insert_Some [[<- <-]|[_ H2]]%lookup_insert_Some; rewrite ?Hbl; eauto.
Qed.

Lemma xp_ok_delete r r' xs l h h' p x :
  xp_ok (Conf (XpS r xs) l h) -> xs !! p = Some x ->
  conf_ok (Conf (XpS r' (delete p xs)) (l ∖ list_to_set (export_blocks p x)) h') ->
  xp_ok (Conf (XpS r' (delete p xs)) (l ∖ list_to_set (export_blocks p x)) h').
Proof.
  intros (_ & Hb & Hd) Hx Hc. simpl in *. split; [done|]. simpl. split.
  - intros p' x' [Hne Hx']%lookup_delete_Some. destruct (Hb p' x' Hx') as (H1 & H2 & H3). split_and!; try done.
    intros b Hin. apply elem_of_difference. split; [auto|]. rewrite elem_of_list_to_set. intros Hin'. apply Hne. by eapply Hd.
  - intros p1 p2 x1 x2 b [_ H1]%lookup_delete_Some [_ H2]%lookup_delete_Some. eauto.
Qed.

Lemma string_blocks_rev rs : string_blocks (rev rs) ≡ₚ string_blocks rs.
Proof.
  unfold string_blocks. induction rs as [|a rs IH]; [done|]. cbn [rev]. rewrite omap_app, IH.
  simpl. destruct (option_map fst a); simpl; [|by rewrite app_nil_r]. by rewrite Permutation_app_comm.
Qed.

(** The options [create] accepts have the strings it dereferences. *)
Lemma validate_opts_present runtime opts out :
  validate_opts runtime opts out = 0 -> exists rt o, runtime = Some rt /\ opts = Some o /\ out = true /\
    is_Some (xo_nqn o) /\ is_Some (xo_bdev_name o) /\ is_Some (xo_traddr o) /\ is_Some (xo_trsvcid o).
Proof.
  unfold validate_opts. destruct opts as [o|]; [|done].
  match goal with |- context [if ?b then _ else _] => destruct b; [done|] end.
  match goal with |- context [if ?b then _ else _] => destruct b eqn:Hb; [done|] end. intros _.
  rewrite !orb_false_iff, !negb_false_iff in Hb. destruct_and! Hb.
  exists (default 0%nat runtime), o. destruct runtime; [|done]. simpl.
  destruct (xo_nqn o), (xo_bdev_name o), (xo_traddr o), (xo_trsvcid o); simpl in *; try done.
Qed.

(** What a creation leaves behind: everything and a lease, or nothing. *)
Definition exported (rt : ptr) (o : export_opts) (c : conf St) (r : Z * option (option ptr)) (c' : conf St) : Prop :=
  xp_ok c' /\ rl_ok rt (xp_rt (store c')) /\ hist c `suffix_of` hist c' /\
  (r.1 <> 0 /\ mjoin r.2 = None /\ xp_exports (store c') = xp_exports (store c) /\ live c' = live c /\
     rl_leases rt (xp_rt (store c')) = rl_leases rt (xp_rt (store c)) /\ same_held (hist c) (hist c')
   \/ exists p x, r = (0, Some (Some p)) /\ active x /\ ex_runtime x = rt /\
     xp_exports (store c') = <[p:=x]> (xp_exports (store c)) /\ (forall b, b ∈ export_blocks p x -> b ∉ live c) /\
     live c' = list_to_set (export_blocks p x) ∪ live c /\
     option_map snd (ex_nqn x) = xo_nqn o /\ option_map snd (ex_bdev_name x) = xo_bdev_name o /\
     rl_leases rt (xp_rt (store c')) = rl_leases rt (xp_rt (store c)) + 1 /\
     subsystems (hist c') = subsystems (hist c) + 1 /\ listens (hist c') = listens (hist c) + 1 /\
     listeners (hist c') = listeners (hist c) + 1).

Lemma wp_on_rt_xp {A} (m : M R A) e (c : conf St) Q0 Q :
  wp m e (Conf (xp_rt (store c)) (live c) (hist c)) (returns Q0) ->
  (forall a c', Q0 a c' -> Q (Done a) (Conf (XpS (store c') (xp_exports (store c))) (live c') (hist c'))) ->
  wp (on_rt_xp m) e c Q.
Proof.
  intros Hm HQ. unfold on_rt_xp. wp_step. eapply wp_mono; [exact Hm|].
  intros [a|f|] c'; simpl; [|done|done]. apply HQ.
Qed.

(** Taking new blocks out again. *)
Lemma blocks_minus (bs : list ptr) (l : gset ptr) :
  (forall b, b ∈ bs -> b ∉ l) -> (list_to_set bs ∪ l) ∖ list_to_set bs = l.
Proof.
  intros Hnew. apply set_eq. intros b. rewrite elem_of_difference, elem_of_union, elem_of_list_to_set.
  split; [tauto|]. intros Hb. split; [by right|]. intros Hb'. exact (Hnew b Hb' Hb).
Qed.

Lemma exported_nothing rt o r xs l h rc out r' h' :
  xp_ok (Conf (XpS r xs) l h) -> rc <> 0 -> mjoin out = None -> rl_ok rt r' -> rl_leases rt r' = rl_leases rt r ->
  h `suffix_of` h' -> same_held h h' ->
  exported rt o (Conf (XpS r xs) l h) (rc, out) (Conf (XpS r' xs) l h').
Proof.
  intros (I1 & I2 & I3) Hrc Ho Hok Hle Hh Hq.
  split; [split; [by eapply conf_ok_suffix|done]|]. split; [done|]. split; [done|]. by left.
Qed.

(** The command of a new export and what follows. *)
Lemma create_dispatch_spec self rt o p x e r r0 xs l h h1 nqn bdev :
  xp_ok (Conf (XpS r0 xs) l h) -> rl_ok rt r -> rl_leases rt r = rl_leases rt r0 + 1 -> 0 <= rl_leases rt r0 -> posix_ok e ->
  cleared x -> ex_runtime x = rt -> ex_nqn x = Some nqn -> ex_bdev_name x = Some bdev ->
  option_map snd (ex_nqn x) = xo_nqn o -> option_map snd (ex_bdev_name x) = xo_bdev_name o ->
  xs !! p = None -> NoDup (export_blocks p x) -> (forall b, b ∈ export_blocks p x -> b ∉ l) ->
  h `suffix_of` h1 -> same_held h h1 ->
  conf_ok (Conf (XpS r xs) (list_to_set (export_blocks p x) ∪ l) h1) ->
  wp (let! status := dispatch_export_command self p RunCreate in
      if status !=? 0 then on_rt_xp (rl_release rt) ;;; free_export p ;;; ret (status, Some None)
      else ret (0, Some (Some p))) e
    (Conf (XpS r (<[p:=x]> xs)) (list_to_set (export_blocks p x) ∪ l) h1)
    (xends e (exported rt o (Conf (XpS r0 xs) l h))).
Proof.
  intros Hi Hok Hle Hpos Hpx Hcl Hrt Hnqn Hbd Ho1 Ho2 Hxs Hnd Hnew Hh1 Hq1 Hc1.
  assert (export_wf x) as Hw by (destruct Hcl as (_ & H2 & H3); split; congruence).
  wp_step. eapply wp_mono.
  { apply (dispatch_export_spec self p RunCreate (origin_of x h1) (fun st x' => st = 0 /\ active x' \/ st <> 0 /\ cleared x'));
      [apply holds_origin|done|done|]. intros h2 Hh2. simpl.
    eapply wp_mono; [eapply run_create_spec; [exact Hcl|exact Hnqn|exact Hbd]|].
    intros [cmd|f|] c'; simpl; [|done|done]. intros (Hc & x' & h' & -> & H1 & H2 & H3 & H4). split; [done|].
    exists x', h'. split_and!; try done. destruct Hh2 as (S0 & S1 & S2 & S3), H1 as (T0 & T1 & T2 & T3). simpl in *.
    unfold holds. simpl. split; [by trans h2|lia]. }
  intros [st|f|] c'; simpl; [|done|done]. intros (x' & h2 & -> & Hh2 & Hw' & Hs & Hres).
  pose proof (same_blocks p _ _ Hs) as Hbl. destruct Hs as (S1 & S2 & S3 & S4 & S5 & S6).
  destruct Hh2 as (T0 & T1 & T2 & T3). destruct Hcl as (C1 & C2 & C3).
  unfold origin_of, sub_held, listen_held, listener_held in T1, T2, T3. rewrite C1, C2, C3 in *. simpl in T0, T1, T2, T3.
  destruct Hq1 as (Q1 & Q2 & Q3).
  assert (conf_ok (Conf (XpS r xs) (list_to_set (export_blocks p x) ∪ l) h2)) as Hc2 by by eapply conf_ok_suffix.
  wp_if as Hst; breflect.
  - assert (cleared x') as (D1 & D2 & D3) by (destruct Hres as [[[-> _]|[_ H]]|[_ ->]]; done).
    rewrite D1, D2, D3 in *. simpl in T1. wp_step.
    eapply wp_on_rt_xp; [apply rl_release_law; simpl; [done|lia]|]. cbn [store xp_rt live hist xp_exports].
    intros _ [r2 l2 h2'] (Hok2 & -> & -> & Hle2). cbn [store xp_rt live hist xp_exports] in *. wp_step.
    apply (wp_free_export p x'); rewrite Hbl; [done|intros b Hb; apply elem_of_union_l; by apply elem_of_list_to_set|].
    intros h3 Hh3 E1 E2 E3. wp_step. rewrite (delete_id xs) by done.
    rewrite blocks_minus by done. apply exported_nothing; try done; [lia|trans h1; [done|]; by trans h2|].
    unfold same_held. lia.
  - assert (active x') as Hact by (destruct Hres as [[[_ H]|[? _]]|[? _]]; done).
    pose proof Hact as ([sub Hsub] & A2 & A3). rewrite Hsub, A2, A3 in *. simpl in T1. wp_step.
    rewrite <- Hbl in *. assert (h `suffix_of` h2) as Hh by by trans h1.
    split; [|split; [done|split; [done|right]]].
    + by eapply xp_ok_insert.
    + exists p, x'. cbn [hist fst snd store xp_rt xp_exports live]. rewrite S4, S5. split_and!; try done; try congruence; lia.
Qed.

#[local] Arguments dup_strings : simpl never.

(** The export [create] builds from copied strings has all of them. *)
Lemma dup_not_failed ls rs i s :
  Forall2 dup_of ls rs -> dup_failed ls rs = false -> ls !! i = Some (Some s) ->
  exists p, nth_string rs i = Some (p, s).
Proof.
  intros Hf. revert i. induction Hf as [|a d ls rs Had Hf IH]; intros i Hn Hi; [done|].
  unfold dup_failed in Hn. simpl in Hn. apply orb_false_iff in Hn as [Hn1 Hn2]. destruct i as [|i].
  - injection Hi as ->. destruct d as [[q b]|]; simpl in *; [|done]. subst b. by exists q.
  - by apply IH.
Qed.

(** The blocks of an export whose strings were just copied. *)
Lemma copied_blocks p x rs (l : gset ptr) :
  export_strings x = rev rs -> NoDup (string_blocks rs) -> p ∉ l ->
  (forall b, b ∈ string_blocks rs -> b ∉ {[p]} ∪ l) ->
  NoDup (export_blocks p x) /\ (forall b, b ∈ export_blocks p x -> b ∉ l) /\
  list_to_set (string_blocks rs) ∪ ({[p]} ∪ l) = (list_to_set (export_blocks p x) ∪ l : gset ptr).
Proof.
  intros Hstr Hnd Hp Hnew. unfold export_blocks. rewrite Hstr. pose proof (string_blocks_rev rs) as Hbl. split_and!.
  - rewrite Hbl. apply NoDup_app. split_and!; [done| |apply NoDup_singleton].
    intros b Hb Hb'. apply list_elem_of_singleton in Hb' as ->. specialize (Hnew p Hb). set_solver.
  - intros b [Hb| ->%list_elem_of_singleton]%elem_of_app; [|done]. rewrite Hbl in Hb. specialize (Hnew b Hb). set_solver.
  - apply set_eq. intros b. rewrite !elem_of_union, !elem_of_list_to_set, elem_of_app, Hbl. set_solver.
Qed.

Lemma create_export_spec self rt o out e (c : conf St) :
  xp_ok c -> rl_ok rt (xp_rt (store c)) -> rl_leases rt (xp_rt (store c)) < UINT64_MAX -> posix_ok e ->
  wp (create_export self (Some rt) (Some o) out) e c (xends e (exported rt o c)).
Proof.
  destruct c as [[r xs] l h]. intros Hi Hok Hmax Hpx. simpl in Hok, Hmax. unfold create_export.
  pose proof (fun rc out' r' h' => exported_nothing rt o r xs l h rc out' r' h' Hi) as Hno.
  destruct (validate_opts (Some rt) (Some o) out =? 0) eqn:Hv; simpl.
  2:{ breflect. wp_step. by apply Hno. }
  breflect. destruct (validate_opts_present _ _ _ Hv) as (rt' & o' & [= <-] & [= <-] & _ & [nq Hnq] & [bd Hbd] & [ta Hta] & [ts Hts]).
  wp_step. wp_step. wp_if as Ht; [wp_step; by apply Hno|].
  wp_step. eapply wp_on_rt_xp; [by apply rl_acquire_law|]. simpl.
  intros [rc ow] [r1 l1 h1]; simpl. intros (Hok1 & -> & -> & [(-> & [owner ->] & Hle)|(Hrc & -> & Hle)]); simpl.
  2:{ rewrite (proj2 (Z.eqb_neq rc 0)) by done. simpl. wp_step. by apply Hno. }
  pose proof (rl_leases_nonneg rt r Hok) as Hpos. wp_step. wp_step. wp_step. pose proof (proj1 Hi) as Hc.
  apply wp_calloc.
  { wp_step. eapply wp_on_rt_xp; [apply rl_release_law; simpl; [done|lia]|]. simpl.
    intros _ [r2 l2 h2] (Hok2 & -> & -> & Hle2). simpl in *. wp_step. apply Hno; try done; [lia|solve_suffix]. }
  intros p Hsz. simpl in Hsz. pose proof (fresh_not_live _ Hc) as Hp. change (p ∉ l) in Hp.
  pose proof (conf_ok_alloc _ (XpS r1 xs) l h p Hc eq_refl Hsz) as Hc1.
  wp_step. eapply wp_mono; [by apply dup_strings_spec|]. intros [rs|f|] c'; simpl; [|done|done].
  intros (h2 & -> & Hc2 & Hh2 & Hq2 & Hnd & Hnew & Hf2).
  wp_step. rewrite Hta. eapply wp_deref; [done|]. wp_step. rewrite Hts. eapply wp_deref; [done|].
  wp_step. unfold put_export. wp_step. simpl.
  set (x := Export rt owner None None ta ts _ _ _ _ _ _ _ _ _ _ _).
  assert (h `suffix_of` h2) as Hh by (etrans; [|exact Hh2]; solve_suffix).
  assert (same_held h h2) as Hq by (unfold same_held in *; simpl in *; done).
  assert (export_strings x = rev rs) as Hstr.
  { do 6 (destruct rs as [|? rs]; [by apply Forall2_length in Hf2|]). destruct rs; [done|by apply Forall2_length in Hf2]. }
  destruct (copied_blocks p x rs l Hstr Hnd Hp Hnew) as (Hndx & Hnewx & HL).
  assert (xs !! p = None) as Hxs.
  { apply eq_None_not_Some. intros [y Hy]. destruct Hi as (_ & I2 & _). destruct (I2 p y Hy) as (_ & Hin & _).
    apply Hp, Hin, export_own. }
  rewrite HL in Hc2 |- *. wp_if as Hdup.
  - wp_step. apply wp_free_export; [done|intros b Hb; apply elem_of_union_l; by apply elem_of_list_to_set|].
    intros h3 Hh3 E1 E2 E3. rewrite (delete_id xs) by done.
    rewrite blocks_minus by done.
    wp_step. eapply wp_on_rt_xp; [apply rl_release_law; simpl; [done|lia]|]. cbn [store xp_rt live hist xp_exports].
    intros _ [r2 l2 h4] (Hok2 & -> & -> & Hle2). cbn [store xp_rt live hist xp_exports] in *. wp_step.
    apply Hno; try done; [lia|by trans h2|]. unfold same_held in *. lia.
  - destruct (dup_not_failed _ _ 1 nq Hf2 Hdup ltac:(simpl; by rewrite Hnq)) as [qn Hqn].
    destruct (dup_not_failed _ _ 2 bd Hf2 Hdup ltac:(simpl; by rewrite Hbd)) as [qb Hqb].
    eapply create_dispatch_spec; try done; simpl; by rewrite ?Hqn, ?Hqb, ?Hnq, ?Hbd.
Qed.

(** What a close leaves behind: nothing, or the export as far as it was not yet
    released. *)
Definition closed (rt p : ptr) (x : export) (c : conf St) (rc : Z) (c' : conf St) : Prop :=
  xp_ok c' /\ rl_ok rt (xp_rt (store c')) /\
  (rc = 0 /\ xp_exports (store c') = delete p (xp_exports (store c)) /\
     live c' = live c ∖ list_to_set (export_blocks p x) /\
     rl_leases rt (xp_rt (store c')) = rl_leases rt (xp_rt (store c)) - 1 /\
     subsystems (hist c') = subsystems (hist c) - sub_held x /\
     listens (hist c') = listens (hist c) - listen_held x /\
     listeners (hist c') = listeners (hist c) - listener_held x
   \/ rc <> 0 /\ live c' = live c /\ xp_rt (store c') = xp_rt (store c) /\ exists x',
     xp_exports (store c') = <[p:=x']> (xp_exports (store c)) /\ same_export x x' /\
     subsystems (hist c') = subsystems (hist c) - sub_held x + sub_held x' /\
     listens (hist c') = listens (hist c) - listen_held x + listen_held x' /\
     listeners (hist c') = listeners (hist c) - listener_held x + listener_held x').

Lemma conf_ok_less {S T} (s : S) (s' : T) l l' h h' :
  conf_ok (Conf s l h) -> l' ⊆ l -> h `suffix_of` h' -> conf_ok (Conf s' l' h').
Proof.
  intros [C1 C2] Hl Hh. apply suffix_length in Hh. split; simpl in *.
  - intros b Hb. specialize (C1 b (Hl b Hb)). lia.
  - apply subseteq_size in Hl. lia.
Qed.

Lemma close_export_spec self rt p x e (c : conf St) :
  xp_ok c -> xp_exports (store c) !! p = Some x -> ex_runtime x = rt -> rl_ok rt (xp_rt (store c)) ->
  0 < rl_leases rt (xp_rt (store c)) -> posix_ok e ->
  wp (close_export self (Some p)) e c (xends e (closed rt p x c)).
Proof.
  destruct c as [[r xs] l h]. intros Hi Hx Hrt Hok Hpos Hpx. simpl in Hx, Hok, Hpos.
  destruct (proj1 (proj2 Hi) p x Hx) as (Hnd & Hin & Hw). simpl in Hin.
  assert (forall rc x' h', rc <> 0 -> same_export x x' -> export_wf x' -> holds (origin_of x h) x' h' ->
    closed rt p x (Conf (XpS r xs) l h) rc (Conf (XpS r (<[p:=x']> xs)) l h')) as Hno.
  { intros rc x' h' Hrc Hs Hw' (T0 & T1 & T2 & T3). simpl in *. split; [by eapply xp_ok_update|]. split; [done|]. right.
    split_and!; try done. exists x'. simpl. split_and!; try done; lia. }
  unfold close_export. rewrite <- (insert_id xs p x Hx) at 1.
  wp_step. wp_step. wp_if as Ht.
  { wp_step. apply Hno; try done. apply holds_origin. }
  wp_step. eapply wp_mono.
  { apply (dispatch_export_spec self p RunClose (origin_of x h) (fun st x' => st = 0 -> cleared x'));
      [apply holds_origin|done|done|]. intros h1 Hh1. by apply run_close_spec. }
  intros [st|f|] c'; simpl; [|done|done]. intros (x' & h1 & -> & Hh1 & Hw' & Hs & Hres).
  pose proof (same_blocks p _ _ Hs) as Hbl. wp_step. wp_if as Hst; breflect.
  2:{ wp_step. wp_step. by apply Hno. }
  subst st. assert (cleared x') as (D1 & D2 & D3) by (destruct Hres as [H|[? _]]; [by apply H|done]).
  destruct Hh1 as (T0 & T1 & T2 & T3). unfold sub_held, listen_held, listener_held in T1, T2, T3.
  rewrite D1, D2, D3 in *. simpl in *. destruct Hs as (S1 & _).
  wp_step. eapply wp_get_export; [apply lookup_insert_eq|]. rewrite S1, Hrt. wp_step.
  eapply wp_on_rt_xp; [by apply rl_release_law|]. simpl. intros _ [r2 l2 h2] (Hok2 & -> & -> & Hle2). simpl in *.
  apply (wp_free_export p x'); rewrite Hbl; [done|done|]. intros h3 Hh3 E1 E2 E3. wp_step.
  assert (h `suffix_of` h3) as Hh by by trans h1.
  split; [|split; [done|left; split_and!; try done; simpl]].
  - eapply xp_ok_delete; [exact Hi|done|]. eapply conf_ok_less; [exact (proj1 Hi)| |done]. set_solver.
  - unfold sub_held, listen_held, listener_held in *. lia.
  - unfold sub_held, listen_held, listener_held in *. lia.
  - unfold sub_held, listen_held, listener_held in *. lia.
Qed.

End Exports.

(** ** Properties *)

Definition fits (n : Z) (v : option string) (optional : bool) : Prop :=
  match v with None => optional = true | Some s => 0 < strlen s <= n end.

Lemma valid_string_spec v n optional : 0 <= n -> valid_string v n optional = true <-> fits n v optional.
Proof.
  intros Hn. unfold valid_string, fits. destruct v as [s|]; [|done]. pose proof (strlen_nonneg s).
  unfold strnlen. rewrite andb_true_iff, negb_true_iff, Z.eqb_neq, Z.leb_le. lia.
Qed.

(** Options are accepted exactly when every string is present or optional and
    fits its buffer, the namespace id is in range, no host is named when any host
    is allowed, and the transport is TCP; options of the size without the transport
    field mean TCP, and a size between the two versions is refused. *)
Theorem export_opts_accepted_exactly `{SpdkLimits} rt o :
  0 < NVMF_TGT_NAME_MAX_LENGTH -> 0 <= SPDK_NVMF_NQN_MAX_LEN -> 0 <= SPDK_NVME_CTRLR_SN_LEN ->
  0 <= SPDK_NVME_CTRLR_MN_LEN -> 0 <= SPDK_NVMF_TRADDR_MAX_LEN -> 0 <= SPDK_NVMF_TRSVCID_MAX_LEN -> 0 <= xo_nsid o ->
  validate_opts (Some rt) (Some o) true = 0 <->
  (xo_opts_size o = ZETTIDE_SPDK_NVMF_BASE_OPTS_SIZE \/
   ZETTIDE_SPDK_NVMF_TRANSPORT_OPTS_SIZE <= xo_opts_size o /\ xo_transport o = ZETTIDE_SPDK_NVMF_TRANSPORT_TCP) /\
  fits (NVMF_TGT_NAME_MAX_LENGTH - 1) (xo_target_name o) true /\ fits SPDK_NVMF_NQN_MAX_LEN (xo_nqn o) false /\
  fits ZETTIDE_SPDK_NVMF_BDEV_NAME_MAX (xo_bdev_name o) false /\ fits SPDK_NVME_CTRLR_SN_LEN (xo_serial_number o) true /\
  fits SPDK_NVME_CTRLR_MN_LEN (xo_model_number o) true /\ fits SPDK_NVMF_NQN_MAX_LEN (xo_host_nqn o) (xo_allow_any_host o) /\
  fits SPDK_NVMF_TRADDR_MAX_LEN (xo_traddr o) false /\ fits SPDK_NVMF_TRSVCID_MAX_LEN (xo_trsvcid o) false /\
  1 <= xo_nsid o <= ZETTIDE_SPDK_NVMF_NSID_MAX /\ (xo_allow_any_host o = true -> xo_host_nqn o = None).
Proof.
  intros H1 H2 H3 H4 H5 H6 H7. rewrite <- !valid_string_spec by (done || lia).
  unfold validate_opts, get_transport. simpl.
  change ZETTIDE_SPDK_NVMF_TRANSPORT_OPTS_SIZE with 84. change ZETTIDE_SPDK_NVMF_BASE_OPTS_SIZE with 80.
  change ZETTIDE_SPDK_NVMF_NSID_MAX with 65535.
  destruct (Z.ltb_spec (xo_opts_size o) 80); simpl; [split; [done|lia]|].
  destruct (Z.gtb_spec (xo_opts_size o) 80), (Z.ltb_spec (xo_opts_size o) 84); simpl; [split; [done|lia]| | |lia].
  all: repeat (match goal with |- context [valid_string ?v ?n ?b] => destruct (valid_string v n b) end; simpl;
    [|split; [done|naive_solver]]).
  all: destruct (Z.eqb_spec (xo_nsid o) 0); simpl; [split; [done|lia]|].
  all: destruct (Z.gtb_spec (xo_nsid o) 65535); simpl; [split; [done|lia]|].
  - destruct (xo_transport o); simpl; [|split; [done|intros ([?|[_ ?]] & _); [lia|done]]].
    destruct (xo_allow_any_host o), (xo_host_nqn o); simpl; split; try done; try (intros; split_and!; auto; lia);
      intros Hx; exfalso; destruct_and! Hx; naive_solver.
  - destruct (xo_allow_any_host o), (xo_host_nqn o); simpl; split; try done; try (intros; split_and!; auto; lia);
      intros Hx; exfalso; destruct_and! Hx; naive_solver.
Qed.

Section Properties.
Context {R : Type} `{RL : !RuntimeLease R} `{LM : !SpdkLimits}.
Implicit Types (c : conf (XpStore R)).

Lemma synced_held h h' : synced h h' -> same_held h h'.
Proof.
  intros (k & -> & Hk). unfold same_held, subsystems, listens, listeners.
  assert (forall f, (forall ev, is_pthread ev -> f ev = 0) -> sum_events f (k ++ h) = sum_events f h) as Hq.
  { intros f Hf. apply sum_events_quiet. eapply Forall_impl; [exact Hk|]. exact Hf. }
  rewrite !Hq; try (intros [[]| |]; done). done.
Qed.

(** The two calls around [create_export] and [close_export]. *)
Lemma wp_uncancelled {A B} (m : M (XpStore R) A) (refused : Z -> B) (result : A -> B) e c Q :
  posix_ok e ->
  (forall rc h, rc <> 0 -> synced (hist c) h -> Q (Done (refused (- rc))) (Conf (store c) (live c) h)) ->
  (forall h, synced (hist c) h -> wp m e (Conf (store c) (live c) h) (fun o c' =>
     match o with
     | Done a => forall h', synced (hist c') h' -> Q (Done (result a)) (Conf (store c') (live c') h')
     | Fault f => Q (Fault f) c'
     | Blocked => Q Blocked c'
     end)) ->
  wp (let! rc := call (PthreadSetcancelstate true) in
      if rc !=? 0 then ret (refused (- rc)) else
      let! r := m in
      let! rc := call (PthreadSetcancelstate false) in
      assert (rc =? 0) ;;; ret (result r)) e c Q.
Proof.
  intros Hpx Hno Hgo. destruct c as [s l h]. wp_step. wp_step. wp_if as Hrc; breflect.
  { wp_step. apply Hno; [done|solve_synced]. }
  wp_step. eapply wp_mono; [apply Hgo; solve_synced|]. intros [a|f|] c'; [|done|done]. intros Hq.
  wp_step. wp_known (restore_ok _ Hpx). wp_step. apply wp_assert; [done|]. wp_step. apply Hq. solve_synced.
Qed.

(** [exported] and [closed] do not see calls of pthread.h. *)
Lemma exported_synced rt o s l h h1 r c' h2 :
  synced h h1 -> exported rt o (Conf s l h1) r c' -> synced (hist c') h2 ->
  exported rt o (Conf s l h) r (Conf (store c') (live c') h2).
Proof.
  intros S1 (Hi & Hok & Hh & Hr) S2. pose proof (synced_held _ _ S1) as (A1 & A2 & A3).
  pose proof (synced_held _ _ S2) as (B1 & B2 & B3). destruct Hi as (I1 & I2 & I3). destruct c' as [s' l' h']. simpl in *.
  split; [split; [eapply conf_ok_suffix; [exact I1|by apply synced_suffix]|done]|]. split; [done|].
  split; [simpl; etrans; [by apply synced_suffix|]; etrans; [exact Hh|by apply synced_suffix]|].
  destruct Hr as [(R1 & R2 & R3 & R4 & R5 & R6 & R7 & R8)|(p & x & Hr)]; [left|right; exists p, x].
  - unfold same_held. split_and!; try done; simpl; lia.
  - destruct_and! Hr. split_and!; try done; simpl in *; lia.
Qed.

Lemma closed_synced rt p x s l h h1 rc c' h2 :
  synced h h1 -> closed rt p x (Conf s l h1) rc c' -> synced (hist c') h2 ->
  closed rt p x (Conf s l h) rc (Conf (store c') (live c') h2).
Proof.
  intros S1 (Hi & Hok & Hr) S2. pose proof (synced_held _ _ S1) as (A1 & A2 & A3).
  pose proof (synced_held _ _ S2) as (B1 & B2 & B3). destruct Hi as (I1 & I2 & I3). destruct c' as [s' l' h']. simpl in *.
  split; [split; [eapply conf_ok_suffix; [exact I1|by apply synced_suffix]|done]|]. split; [done|].
  destruct Hr as [Hr|(R1 & R2 & R3 & x' & Hr)]; [left|right]; destruct_and! Hr.
  - split_and!; try done; simpl in *; lia.
  - split_and!; try done. exists x'. split_and!; try done; simpl in *; lia.
Qed.


(** C22: Closing an export releases everything it holds: on success its listeners,
    its subsystem, its lease and its blocks are gone, each released once; on an
    error the export stays, its flags still say exactly what SPDK holds for it, and
    the close can be repeated.  The call waits for ever only when SPDK does not call
    back. *)
Theorem export_close_releases self rt p x e c :
  xp_ok c -> xp_exports (store c) !! p = Some x -> ex_runtime x = rt -> rl_ok rt (xp_rt (store c)) ->
  0 < rl_leases rt (xp_rt (store c)) -> posix_ok e ->
  match zettide_spdk_nvmf_tcp_export_close self (Some p) e c with
  | (Done rc, c') => closed rt p x c rc c'
  | (Blocked, _) => ~ callbacks_called e
  | (Fault f, _) => f = Aborted /\ ~ undo_ok e
  end.
Proof.
  intros Hi Hx Hrt Hok Hpos Hpx.
  cut (wp (zettide_spdk_nvmf_tcp_export_close self (Some p)) e c (xends e (closed rt p x c))).
  { unfold wp. by destruct (zettide_spdk_nvmf_tcp_export_close self (Some p) e c) as [[r|f|] c']. }
  destruct c as [[r xs] l h]. pose proof Hi as (I1 & I2 & I3).
  apply (wp_uncancelled _ id id); [done| |].
  - intros rc h1 Hrc Hs. simpl in *. apply synced_suffix in Hs as Hh. destruct (synced_held _ _ Hs) as (A1 & A2 & A3).
    split; [split; [by eapply conf_ok_suffix|done]|]. split; [done|]. right. split_and!; try done; [unfold id; lia|].
    exists x. simpl. rewrite insert_id by done. split_and!; try done; lia.
  - intros h1 Hs. simpl in *. eapply wp_mono; [eapply close_export_spec; try done|].
    + split; [|done]. eapply conf_ok_suffix; [exact I1|by apply synced_suffix].
    + intros [st|f|] c'; simpl; [|done|done]. intros Hc h2 Hs2. by eapply closed_synced.
Qed.

End Properties.
