(* ===== verification/NvmeController.v ===== *)
(** * NvmeController: services/data-node/spdk/nvme_controller.c

    Attaching a remote NVMe controller: the options are checked and copied into
    SPDK's structures, the runtime gives a lease and its owner thread, and SPDK is
    asked on that thread to create block devices for the namespaces.  The names of
    the devices are kept in an array of the size the client chose.  Detaching
    reverses all of it. *)

From S2P Require Import Prelude Effects Externals Handshake Blocking Lease.

(** ** Data *)

(** [NVME_TRANSPORT_OTHER] and [NVME_FAMILY_OTHER] stand for the values of the C
    enums without a name. *)
Inductive nvme_transport :=
  | ZETTIDE_SPDK_NVME_TRANSPORT_TCP
  | NVME_TRANSPORT_OTHER (value : Z).

Inductive nvme_address_family :=
  | ZETTIDE_SPDK_NVME_ADDRESS_FAMILY_UNSPECIFIED
  | ZETTIDE_SPDK_NVME_ADDRESS_FAMILY_IPV4
  | ZETTIDE_SPDK_NVME_ADDRESS_FAMILY_IPV6
  | NVME_FAMILY_OTHER (value : Z).

(** [enum spdk_nvmf_adrfam], the values the source uses. *)
Inductive nvmf_adrfam :=
  | SPDK_NVMF_ADRFAM_NOT_SPECIFIED
  | SPDK_NVMF_ADRFAM_IPV4
  | SPDK_NVMF_ADRFAM_IPV6.

Record controller_opts := ControllerOpts {
  co_opts_size : Z;
  co_name : option string;
  co_transport : nvme_transport;
  co_address_family : nvme_address_family;
  co_transport_address : option string;
  co_transport_service_id : option string;
  co_subsystem_nqn : option string;
  co_host_nqn : option string;
  co_connect_timeout_us : Z;
  co_namespace_name_capacity : Z;
}.

(** [sizeof(struct zettide_spdk_nvme_controller_opts)] on LP64. *)
Definition CONTROLLER_OPTS_SIZE : Z := 72.

Definition ZETTIDE_SPDK_NVME_CONTROLLER_NAME_MAX : Z := 512.
Definition ZETTIDE_SPDK_NVME_DEFAULT_NAMESPACE_CAPACITY : Z := 128.

(** The fields of [path_id.trid], [driver_options] and [bdev_options] the code
    sets. *)
Record connection := Connection {
  cn_adrfam : nvmf_adrfam;
  cn_traddr : string;
  cn_trsvcid : string;
  cn_subnqn : string;
  cn_hostnqn : string;
  cn_connect_timeout_us : Z;
  cn_multipath : bool;
}.

(** [struct zettide_spdk_nvme_controller]; [name] and [namespace_names] are blocks of
    the heap with their contents. *)
Record controller := Controller {
  nc_runtime : ptr;
  nc_owner : option thread;
  nc_name : ptr * string;
  nc_namespace_names : ptr * list (option string);
  nc_namespace_count : Z;
  nc_namespace_name_capacity : Z;
  nc_namespace_names_truncated : bool;
  nc_connection : connection;
}.

Record NcStore (R : Type) := NcS {
  ncs_rt : R;
  ncs_controllers : gmap ptr controller;
}.
Arguments NcS {R} _ _.
Arguments ncs_rt {R} _.
Arguments ncs_controllers {R} _.

(** The function a command carries. *)
Inductive controller_fn :=
  | RunAttach
  | RunDetach.

(** ** Options *)

(** [None] is [-EINVAL]; the destination has room for [size] bytes. *)
Definition copy_required_string (size : Z) (source : option string) : option string :=
  match source with
  | None => None
  | Some s =>
      let length := strnlen s size in
      if (length =? 0) || (length =? size) then None else Some s
  end.

Definition zettide_spdk_nvme_controller_opts_init (opts : bool) (opts_size : Z) : opts_init_result controller_opts :=
  if negb opts || (opts_size =? 0) then OptsUntouched
  else if opts_size >=? CONTROLLER_OPTS_SIZE then
    OptsInitialised (ControllerOpts opts_size None ZETTIDE_SPDK_NVME_TRANSPORT_TCP
            ZETTIDE_SPDK_NVME_ADDRESS_FAMILY_IPV4 None (Some "4420"%string) None None 10000000
            ZETTIDE_SPDK_NVME_DEFAULT_NAMESPACE_CAPACITY)
  else OptsCleared opts_size.

(** The first test of [attach]. *)
Definition attach_opts_ok (o : controller_opts) : bool :=
  (co_opts_size o =? CONTROLLER_OPTS_SIZE) && negb (is_null (co_name o))
  && match co_transport o with ZETTIDE_SPDK_NVME_TRANSPORT_TCP => true | _ => false end
  && negb (co_namespace_name_capacity o =? 0).

Definition adrfam_of (f : nvme_address_family) : option nvmf_adrfam :=
  match f with
  | ZETTIDE_SPDK_NVME_ADDRESS_FAMILY_UNSPECIFIED => Some SPDK_NVMF_ADRFAM_NOT_SPECIFIED
  | ZETTIDE_SPDK_NVME_ADDRESS_FAMILY_IPV4 => Some SPDK_NVMF_ADRFAM_IPV4
  | ZETTIDE_SPDK_NVME_ADDRESS_FAMILY_IPV6 => Some SPDK_NVMF_ADRFAM_IPV6
  | NVME_FAMILY_OTHER _ => None
  end.

(** ** Queries *)

Definition zettide_spdk_nvme_controller_get_namespace_count (x : option controller) : Z :=
  match x with None => 0 | Some x => nc_namespace_count x end.

Definition zettide_spdk_nvme_controller_namespace_names_truncated (x : option controller) : bool :=
  match x with None => false | Some x => nc_namespace_names_truncated x end.

(** The outer [None] is an access outside the array. *)
Definition zettide_spdk_nvme_controller_get_namespace_name (x : option controller) (index : Z)
    : option (option string) :=
  match x with
  | None => Some None
  | Some x =>
      if index >=? nc_namespace_count x then Some None
      else (nc_namespace_names x).2 !! Z.to_nat index
  end.

(** SPDK calls the callbacks of [spdk_bdev_nvme_create] and [_delete]. *)
Record outcomes_called (e : env) : Prop := {
  attach_called : forall h p, oracle e h (AttachOutcome p) <> None;
  detach_called : forall h p, oracle e h (DetachOutcome p) <> None;
}.

Section Controller.
Context {R : Type} `{RL : !RuntimeLease R} `{LM : !SpdkLimits}.
Abbreviation St := (NcStore R).

(** ** Store access *)

Definition get_ctrl (p : ptr) : M St controller :=
  let! s := get in deref (ncs_controllers s !! p).
Definition put_ctrl (p : ptr) (x : controller) : M St unit :=
  modify (fun s => NcS (ncs_rt s) (<[p:=x]> (ncs_controllers s))).
Definition on_rt_nc {A} (m : M R A) : M St A :=
  zoom ncs_rt (fun r s => NcS r (ncs_controllers s)) m.

(** The rest of [initialize_controller] after the defaults; [None] is [-EINVAL]. *)
Definition connection_of (default_host : string) (o : controller_opts) : option connection :=
  match adrfam_of (co_address_family o) with
  | None => None
  | Some family =>
      match copy_required_string (SPDK_NVMF_TRADDR_MAX_LEN + 1) (co_transport_address o) with
      | None => None
      | Some traddr =>
          match copy_required_string (SPDK_NVMF_TRSVCID_MAX_LEN + 1) (co_transport_service_id o) with
          | None => None
          | Some trsvcid =>
              match copy_required_string (SPDK_NVMF_NQN_MAX_LEN + 1) (co_subsystem_nqn o) with
              | None => None
              | Some subnqn =>
                  match co_host_nqn o with
                  | None => Some (Connection family traddr trsvcid subnqn default_host (co_connect_timeout_us o) false)
                  | Some host =>
                      match copy_required_string (SPDK_NVMF_NQN_MAX_LEN + 1) (Some host) with
                      | None => None
                      | Some host =>
                          Some (Connection family traddr trsvcid subnqn host (co_connect_timeout_us o) false)
                      end
                  end
              end
          end
      end
  end.

Definition initialize_controller (o : controller_opts) : M St (option connection) :=
  let! host := call SpdkNvmeDefaultHostnqn in
  call SpdkBdevNvmeDefaultOpts ;;;
  ret (connection_of host o).

(** [free(NULL)] does nothing. *)
Definition free_blocks (names name : option ptr) (p : ptr) : M St unit :=
  free names ;;; free name ;;;
  modify (fun s => NcS (ncs_rt s) (delete p (ncs_controllers s))) ;;; free (Some p).

Definition free_controller (p : ptr) : M St unit :=
  let! x := get_ctrl p in
  free_blocks (Some (nc_namespace_names x).1) (Some (nc_name x).1) p.

(** ** Commands *)

Definition complete_nc (cmd : command) (st : Z) : M St command :=
  match complete_command cmd st with
  | None => fail AssertFailed
  | Some (cmd, _) => ret cmd
  end.

(** SPDK has written [names] into the array. *)
Definition write_names (names : list string) (array : list (option string)) : list (option string) :=
  map Some (take (length array) names) ++ drop (length names) array.

Definition set_names (count : Z) (truncated : bool) (x : controller) : controller :=
  Controller (nc_runtime x) (nc_owner x) (nc_name x) (nc_namespace_names x) count
    (nc_namespace_name_capacity x) truncated (nc_connection x).

Definition attach_complete (p : ptr) (cmd : command) (bdev_count status : Z) : M St command :=
  let! x := get_ctrl p in
  if status =? - ERANGE then
    put_ctrl p (set_names (nc_namespace_name_capacity x) true x) ;;; complete_nc cmd 0
  else if status =? 0 then
    put_ctrl p (set_names bdev_count (nc_namespace_names_truncated x) x) ;;; complete_nc cmd status
  else complete_nc cmd status.

Definition run_attach (p : ptr) (cmd : command) : M St command :=
  let! x := get_ctrl p in
  let! status := call (SpdkBdevNvmeCreate (nc_name x).2 (nc_namespace_name_capacity x)) in
  let! cmd := (if status !=? 0 then complete_nc cmd status else ret cmd) in
  ret (owner_done cmd).1.

Definition detach_complete (cmd : command) (status : Z) : M St command := complete_nc cmd status.

Definition run_detach (p : ptr) (cmd : command) : M St command :=
  let! x := get_ctrl p in
  let! status := call (SpdkBdevNvmeDelete (nc_name x).2) in
  let! cmd := (if status !=? 0 then complete_nc cmd status else ret cmd) in
  ret (owner_done cmd).1.

(** SPDK calls back, having stored the names of the devices; until then the command
    waits. *)
Definition deliver_outcome (f : controller_fn) (p : ptr) (cmd : command) : M St command :=
  match f with
  | RunAttach =>
      let! o := call (AttachOutcome p) in
      match o with
      | None => blocked
      | Some (count, status, names) =>
          let! x := get_ctrl p in
          put_ctrl p (Controller (nc_runtime x) (nc_owner x) (nc_name x)
            ((nc_namespace_names x).1, write_names names (nc_namespace_names x).2)
            (nc_namespace_count x) (nc_namespace_name_capacity x) (nc_namespace_names_truncated x)
            (nc_connection x)) ;;;
          attach_complete p cmd count status
      end
  | RunDetach =>
      let! o := call (DetachOutcome p) in
      match o with None => blocked | Some status => detach_complete cmd status end
  end.

Definition run_fn (f : controller_fn) (p : ptr) (cmd : command) : M St command :=
  match f with RunAttach => run_attach p cmd | RunDetach => run_detach p cmd end.

Definition msg_of (f : controller_fn) : msg_fn :=
  match f with RunAttach => FnRunAttach | RunDetach => FnRunDetach end.

(** The command is on the stack at [self]. *)
Definition dispatch_controller_command (self : nat) (p : ptr) (f : controller_fn) : M St Z :=
  let! rc := command_setup in
  if rc !=? 0 then ret rc else
  let! x := get_ctrl p in
  let! owner := deref (nc_owner x) in
  let! rc := call (SpdkThreadSendMsg owner (msg_of f) self) in
  if rc !=? 0 then command_cleanup ;;; ret (rc : Z) else
  let! cmd := run_on (Some owner) (run_fn f p command_init) in
  let! cmd := (if completed cmd then ret cmd else run_on (Some owner) (deliver_outcome f p cmd)) in
  if wait_over cmd then command_cleanup ;;; ret (status cmd) else blocked.

(** ** Operations *)

(** [attach] once the memory is there. *)
Definition attach_allocated (self : nat) (rt : ptr) (o : controller_opts) (name : string) (p n a : ptr)
    : M St (Z * option (option ptr)) :=
  let! cn := initialize_controller o in
  match cn with
  | None => free_blocks (Some a) (Some n) p ;;; ret (- EINVAL, Some None)
  | Some cn =>
      let x := Controller rt None (n, name)
        (a, replicate (Z.to_nat (co_namespace_name_capacity o)) None) 0
        (co_namespace_name_capacity o) false cn in
      put_ctrl p x ;;;
      let! lease := on_rt_nc (rl_acquire rt) in
      if lease.1 !=? 0 then free_controller p ;;; ret (lease.1, Some None) else
      put_ctrl p (Controller rt lease.2 (nc_name x) (nc_namespace_names x) 0
        (co_namespace_name_capacity o) false cn) ;;;
      let! status := dispatch_controller_command self p RunAttach in
      if status !=? 0 then on_rt_nc (rl_release rt) ;;; free_controller p ;;; ret (status, Some None)
      else ret (0, Some (Some p))
  end.

(** The status and the value stored in [*controller_out], if it was written. *)
Definition zettide_spdk_nvme_controller_attach (self : nat) (runtime : option ptr)
    (opts : option controller_opts) (controller_out : bool) : M St (Z * option (option ptr)) :=
  match runtime, opts with
  | Some rt, Some o =>
      match co_name o with
      | None => ret (- EINVAL, None)
      | Some name =>
          if negb (controller_out && attach_opts_ok o) then ret (- EINVAL, None) else
          let name_length := strnlen name ZETTIDE_SPDK_NVME_CONTROLLER_NAME_MAX in
          if (name_length =? 0) || (name_length =? ZETTIDE_SPDK_NVME_CONTROLLER_NAME_MAX)
          then ret (- EINVAL, Some None) else
          let! mp := calloc in
          match mp with
          | None => ret (- ENOMEM, Some None)
          | Some p =>
              let! mn := calloc in
              let! ma := calloc in
              match mn, ma with
              | Some n, Some a => attach_allocated self rt o name p n a
              | _, _ => free_blocks ma mn p ;;; ret (- ENOMEM, Some None)
              end
          end
      end
  | _, _ => ret (- EINVAL, None)
  end.

Definition zettide_spdk_nvme_controller_detach (self : nat) (controller : option ptr) : M St Z :=
  match controller with
  | None => ret (- EINVAL)
  | Some p =>
      let! status := dispatch_controller_command self p RunDetach in
      (if status =? 0 then
         let! x := get_ctrl p in
         on_rt_nc (rl_release (nc_runtime x)) ;;; free_controller p
       else ret tt) ;;;
      ret status
  end.

(** ** Specifications *)

Lemma wp_get_ctrl p x e (c : conf St) Q :
  ncs_controllers (store c) !! p = Some x -> Q (Done x) c -> wp (get_ctrl p) e c Q.
Proof. intros Hp HQ. unfold get_ctrl. wp_steps. by eapply wp_deref. Qed.

Lemma wp_on_rt_nc {A} (m : M R A) e (c : conf St) Q0 Q :
  wp m e (Conf (ncs_rt (store c)) (live c) (hist c)) (returns Q0) ->
  (forall a c', Q0 a c' -> Q (Done a) (Conf (NcS (store c') (ncs_controllers (store c))) (live c') (hist c'))) ->
  wp (on_rt_nc m) e c Q.
Proof.
  intros Hm HQ. unfold on_rt_nc. wp_step. eapply wp_mono; [exact Hm|].
  intros [a|f|] c'; simpl; [|done|done]. apply HQ.
Qed.

Lemma wp_complete_nc cmd st e (c : conf St) Q :
  completed cmd = false -> Q (Done (Command true (owner_active cmd) st)) c -> wp (complete_nc cmd st) e c Q.
Proof. intros Hc HQ. unfold complete_nc, complete_command. rewrite Hc. done. Qed.

(** The blocks of a controller. *)
Definition ctrl_blocks (p : ptr) (x : controller) : list ptr :=
  [(nc_namespace_names x).1; (nc_name x).1; p].

(** Only the names and their number differ. *)
Definition renamed (x x' : controller) : Prop :=
  nc_runtime x' = nc_runtime x /\ nc_owner x' = nc_owner x /\ nc_name x' = nc_name x /\
  (nc_namespace_names x').1 = (nc_namespace_names x).1 /\
  nc_namespace_name_capacity x' = nc_namespace_name_capacity x /\ nc_connection x' = nc_connection x.

(** A call that returns satisfies [Q]; it waits for ever only when SPDK does not
    call back. *)
Definition ends {A} (e : env) (Q : A -> conf St -> Prop) (o : outcome A) (c : conf St) : Prop :=
  match o with Done a => Q a c | Blocked => ~ outcomes_called e | Fault _ => False end.

Lemma deliver_outcome_spec f p x cmd e (c : conf St) :
  ncs_controllers (store c) !! p = Some x -> completed cmd = false ->
  wp (deliver_outcome f p cmd) e c (ends e (fun cmd' c' => exists x',
    completed cmd' = true /\ owner_active cmd' = owner_active cmd /\ renamed x x' /\ (f = RunDetach -> x' = x) /\
    hist c `suffix_of` hist c' /\ live c' = live c /\
    store c' = NcS (ncs_rt (store c)) (<[p:=x']> (ncs_controllers (store c))))).
Proof.
  destruct c as [[r cs] l h]. intros Hx Hc. simpl in Hx. destruct f; simpl.
  - wp_step. wp_oracle as oa Hoa. destruct oa as [[[count st] names]|]; [clear Hoa|intros [Ha _]; by apply (Ha h p)].
    wp_step. eapply wp_get_ctrl; [done|]. wp_step. unfold put_ctrl at 1. wp_step. simpl.
    unfold attach_complete. wp_step. eapply wp_get_ctrl; [apply lookup_insert_eq|]. simpl. unfold put_ctrl.
    wp_if as H1; [|wp_if as H2].
    + wp_step. wp_step. apply wp_complete_nc; [done|]. simpl. eexists. rewrite insert_insert_eq.
      split_and!; [done|done| | | | |reflexivity]; try done. solve_suffix.
    + wp_step. wp_step. apply wp_complete_nc; [done|]. simpl. eexists. rewrite insert_insert_eq.
      split_and!; [done|done| | | | |reflexivity]; try done. solve_suffix.
    + apply wp_complete_nc; [done|]. simpl. eexists. split_and!; [done|done| | | | |reflexivity]; try done. solve_suffix.
  - wp_step. wp_oracle as oa Hoa. destruct oa as [st|]; [clear Hoa|intros [_ Hd]; by apply (Hd h p)]. unfold detach_complete. apply wp_complete_nc; [done|]. simpl.
    exists x. split_and!; try done; [solve_suffix|]. by rewrite insert_id.
Qed.

Lemma dispatch_controller_spec self f p x t e (c : conf St) :
  ncs_controllers (store c) !! p = Some x -> nc_owner x = Some t -> posix_ok e ->
  wp (dispatch_controller_command self p f) e c (ends e (fun _ c' => exists x',
    renamed x x' /\ (f = RunDetach -> x' = x) /\ hist c `suffix_of` hist c' /\ live c' = live c /\
    store c' = NcS (ncs_rt (store c)) (<[p:=x']> (ncs_controllers (store c))))).
Proof.
  destruct c as [[r cs] l h]. intros Hx Ht Hpx. simpl in Hx. unfold dispatch_controller_command.
  assert (forall rc h', h `suffix_of` h' -> ends e (fun (_ : Z) c' => exists x',
    renamed x x' /\ (f = RunDetach -> x' = x) /\ h `suffix_of` hist c' /\ live c' = l /\
    store c' = NcS r (<[p:=x']> cs)) (Done rc) (Conf (NcS r cs) l h')) as Hno.
  { intros rc h' Hh. exists x. simpl. split_and!; try done. by rewrite insert_id. }
  wp_step. apply wp_setup; simpl.
  { intros rc h' Hrc Hh. rewrite (proj2 (Z.eqb_neq rc 0)) by done. simpl. wp_step. by apply Hno. }
  intros h' _ Hh. wp_step. eapply wp_get_ctrl; [done|]. wp_step. rewrite Ht. eapply wp_deref; [done|].
  wp_step. wp_step. wp_if as Hsend.
  { wp_step. apply wp_cleanup; [done|]. intros h2 Hh2. wp_step. apply Hno. etrans; [|exact Hh2]. simpl.
    by apply suffix_cons_r. }
  wp_step. wp_step. simpl.
  eapply (wp_mono _ _ _ (returns (fun cmd c' => exists h2, c' = Conf (NcS r cs) l h2 /\ h `suffix_of` h2 /\
    owner_active cmd = false))).
  { destruct f; simpl; [unfold run_attach|unfold run_detach].
    all: wp_step; eapply wp_get_ctrl; [done|]; wp_step; wp_step; wp_step; wp_if as Hst.
    all: try (apply wp_complete_nc; [done|]); wp_step; try wp_step; simpl.
    all: eexists; split_and!; try done; solve_suffix. }
  intros [cmd|fl|] c'; simpl; [|done|done]. intros (h2 & -> & Hh2 & Hact). wp_step.
  destruct (completed cmd) eqn:Hcomp.
  - wp_step. unfold wait_over. rewrite Hcomp, Hact. simpl. wp_step. apply wp_cleanup; [done|]. intros h3 Hh3. wp_step.
    apply Hno. by trans h2.
  - wp_step. eapply wp_mono; [by eapply deliver_outcome_spec|]. intros [cmd'|fl|] c'; simpl;
      [|done|intros Hb [H1 H2]; apply Hb; by split].
    intros (x' & Hc' & Ha' & Hren & Hdet & Hh3 & Hl & Hs). unfold wait_over. rewrite Hc', Ha', Hact. simpl.
    wp_step. apply wp_cleanup; [done|]. intros h4 Hh4. wp_step. simpl. exists x'. split_and!; try done.
    trans h2; [done|]. by trans (hist c').
Qed.

(** The blocks of the controllers are live and are not shared. *)
Definition nc_ok (c : conf St) : Prop :=
  conf_ok c /\
  (forall p x, ncs_controllers (store c) !! p = Some x ->
     NoDup (ctrl_blocks p x) /\ (forall b, b ∈ ctrl_blocks p x -> b ∈ live c) /\ is_Some (nc_owner x)) /\
  (forall p p' x x' b, ncs_controllers (store c) !! p = Some x -> ncs_controllers (store c) !! p' = Some x' ->
     b ∈ ctrl_blocks p x -> b ∈ ctrl_blocks p' x' -> p = p').

Lemma renamed_blocks p x x' : renamed x x' -> ctrl_blocks p x' = ctrl_blocks p x.
Proof. intros (_ & _ & H1 & H2 & _). unfold ctrl_blocks. by rewrite H1, H2. Qed.

Lemma wp_free_blocks ma mn p e (c : conf St) Q :
  opt_set ma ⊆ live c -> opt_set mn ⊆ live c ∖ opt_set ma -> p ∈ live c ∖ opt_set ma ∖ opt_set mn ->
  (forall h, hist c `suffix_of` h -> Q (Done tt)
     (Conf (NcS (ncs_rt (store c)) (delete p (ncs_controllers (store c)))) (live c ∖ opt_set ma ∖ opt_set mn ∖ {[p]}) h)) ->
  wp (free_blocks ma mn p) e c Q.
Proof.
  intros Ha Hn Hp HQ. unfold free_blocks. wp_step. apply wp_free_opt; [done|]. intros h1 Hh1.
  wp_step. apply wp_free_opt; [done|]. intros h2 Hh2. wp_step. wp_step. simpl. apply wp_free; [done|]. simpl.
  apply HQ. apply suffix_cons_r. by trans h1.
Qed.

Lemma three_fresh (l : gset ptr) p mn ma :
  p ∉ l -> opt_set mn ## {[p]} ∪ l -> opt_set ma ## opt_set mn ∪ ({[p]} ∪ l) ->
  let L := opt_set ma ∪ (opt_set mn ∪ ({[p]} ∪ l)) in
  opt_set ma ⊆ L /\ opt_set mn ⊆ L ∖ opt_set ma /\ p ∈ L ∖ opt_set ma ∖ opt_set mn /\
  L ∖ opt_set ma ∖ opt_set mn ∖ {[p]} = l.
Proof. intros Hp Hn Ha. generalize dependent (opt_set mn). generalize dependent (opt_set ma). intros. split_and!; set_solver. Qed.

(** A controller whose blocks are new joins. *)
Lemma nc_ok_insert r r' cs l h h' p x :
  nc_ok (Conf (NcS r cs) l h) -> (forall b, b ∈ ctrl_blocks p x -> b ∉ l) -> NoDup (ctrl_blocks p x) ->
  is_Some (nc_owner x) ->
  conf_ok (Conf (NcS r' (<[p:=x]> cs)) (list_to_set (ctrl_blocks p x) ∪ l) h') ->
  nc_ok (Conf (NcS r' (<[p:=x]> cs)) (list_to_set (ctrl_blocks p x) ∪ l) h').
Proof.
  intros (_ & Hb & Hd) Hnew Hnd Ho Hc. cbn [store live ncs_controllers] in *. split; [exact Hc|]. cbn [store live ncs_controllers]. split.
  - intros p' x' [[<- <-]|[_ Hx']]%lookup_insert_Some.
    + split; [exact Hnd|]. split; [|exact Ho]. intros b Hin. apply elem_of_union_l. by apply elem_of_list_to_set.
    + destruct (Hb p' x' Hx') as (H1 & H2 & H3). split_and!; try done. intros b Hin. apply elem_of_union_r. auto.
  - intros p1 p2 x1 x2 b [[<- <-]|[_ H1]]%lookup_insert_Some [[<- <-]|[_ H2]]%lookup_insert_Some B1 B2;
      [done| | |eauto]; exfalso.
    + destruct (Hb p2 x2 H2) as (_ & Hin & _). exact (Hnew b B1 (Hin b B2)).
    + destruct (Hb p1 x1 H1) as (_ & Hin & _). exact (Hnew b B2 (Hin b B1)).
Qed.

(** A controller is freed with its blocks. *)
Lemma nc_ok_delete r r' cs l h h' p x :
  nc_ok (Conf (NcS r cs) l h) -> cs !! p = Some x ->
  conf_ok (Conf (NcS r' (delete p cs)) (l ∖ {[(nc_namespace_names x).1]} ∖ {[(nc_name x).1]} ∖ {[p]}) h') ->
  nc_ok (Conf (NcS r' (delete p cs)) (l ∖ {[(nc_namespace_names x).1]} ∖ {[(nc_name x).1]} ∖ {[p]}) h').
Proof.
  intros (_ & Hb & Hd) Hx Hc. simpl in *. split; [done|]. simpl. split.
  - intros p' x' [Hne Hx']%lookup_delete_Some. destruct (Hb p' x' Hx') as (H1 & H2 & H3). split_and!; try done.
    intros b Hin. assert (b ∉ ctrl_blocks p x) as Hnb by (intros Hin'; apply Hne; by eapply Hd).
    unfold ctrl_blocks in Hnb. rewrite !not_elem_of_cons in Hnb. destruct Hnb as (N1 & N2 & N3 & _).
    specialize (H2 b Hin). rewrite !elem_of_difference, !elem_of_singleton. done.
  - intros p1 p2 x1 x2 b [_ H1]%lookup_delete_Some [_ H2]%lookup_delete_Some. eauto.
Qed.

(** What [attach] leaves behind: a new controller connected as the options say and a
    lease, or nothing. *)
Definition attached (rt : ptr) (o : controller_opts) (c : conf St) (r : Z * option (option ptr)) (c' : conf St) : Prop :=
  nc_ok c' /\ rl_ok rt (ncs_rt (store c')) /\
  (r.1 <> 0 /\ mjoin r.2 = None /\ ncs_controllers (store c') = ncs_controllers (store c) /\ live c' = live c /\
     rl_leases rt (ncs_rt (store c')) = rl_leases rt (ncs_rt (store c))
   \/ exists p x host, r = (0, Some (Some p)) /\ (forall b, b ∈ ctrl_blocks p x -> b ∉ live c) /\
     ncs_controllers (store c') = <[p:=x]> (ncs_controllers (store c)) /\
     live c' = list_to_set (ctrl_blocks p x) ∪ live c /\
     co_name o = Some (nc_name x).2 /\ nc_runtime x = rt /\
     nc_namespace_name_capacity x = co_namespace_name_capacity o /\ connection_of host o = Some (nc_connection x) /\
     rl_leases rt (ncs_rt (store c')) = rl_leases rt (ncs_rt (store c)) + 1).

Lemma attached_nothing rt o r cs l h rc out r' h' :
  nc_ok (Conf (NcS r cs) l h) -> rc <> 0 -> mjoin out = None -> rl_ok rt r' -> rl_leases rt r' = rl_leases rt r ->
  h `suffix_of` h' -> attached rt o (Conf (NcS r cs) l h) (rc, out) (Conf (NcS r' cs) l h').
Proof.
  intros (Hi1 & Hi2 & Hi3) Hrc Ho Hok Hle Hh. split; [|split; [done|left; done]]. split; [by eapply conf_ok_suffix|done].
Qed.

(** Three new blocks can be freed, and then the heap is as before. *)
Lemma three_blocks (l : gset ptr) a n p :
  NoDup [a; n; p] -> (forall b, b ∈ [a; n; p] -> b ∉ l) ->
  let L := list_to_set [a; n; p] ∪ l in
  a ∈ L /\ n ∈ L ∖ {[a]} /\ p ∈ L ∖ {[a]} ∖ {[n]} /\ L ∖ {[a]} ∖ {[n]} ∖ {[p]} = l.
Proof.
  intros Hnd Hnew. rewrite !NoDup_cons, !not_elem_of_cons in Hnd. destruct Hnd as ((? & ? & _) & (? & _) & _ & _).
  assert (a ∉ l /\ n ∉ l /\ p ∉ l) as (? & ? & ?) by (split_and!; apply Hnew; set_solver).
  simpl. clear Hnew. split_and!; set_solver.
Qed.

(** A controller whose attachment failed is freed. *)
Lemma free_new_spec rt o p a n x rc e r r' cs l h h2 :
  nc_ok (Conf (NcS r cs) l h) -> cs !! p = None -> NoDup [a; n; p] -> (forall b, b ∈ [a; n; p] -> b ∉ l) ->
  rc <> 0 -> rl_ok rt r' -> rl_leases rt r' = rl_leases rt r -> h `suffix_of` h2 -> ctrl_blocks p x = [a; n; p] ->
  wp (free_controller p ;;; ret (rc, Some None)) e (Conf (NcS r' (<[p:=x]> cs)) (list_to_set [a; n; p] ∪ l) h2)
    (ends e (attached rt o (Conf (NcS r cs) l h))).
Proof.
  intros Hi Hcs Hnd Hnew Hrc Hok Hle Hh [= Hxa Hxn]. destruct (three_blocks l a n p Hnd Hnew) as (Ha & Hn & Hp & HL).
  wp_step. unfold free_controller. wp_step. eapply wp_get_ctrl; [apply lookup_insert_eq|]. rewrite Hxa, Hxn.
  apply wp_free_blocks; cbn [live opt_set]; [clear -Ha; set_solver|clear -Hn; set_solver|exact Hp|].
  intros h3 Hh3. wp_step. cbn [live opt_set store ncs_rt ncs_controllers]. rewrite HL, delete_insert_id by done.
  apply attached_nothing; try done. by trans h2.
Qed.

Lemma attach_allocated_spec self rt o name p n a e r cs l h h1 :
  nc_ok (Conf (NcS r cs) l h) -> rl_ok rt r -> rl_leases rt r < UINT64_MAX -> posix_ok e -> co_name o = Some name ->
  NoDup [a; n; p] -> (forall b, b ∈ [a; n; p] -> b ∉ l) -> h `suffix_of` h1 ->
  conf_ok (Conf (NcS r cs) (list_to_set [a; n; p] ∪ l) h1) ->
  wp (attach_allocated self rt o name p n a) e (Conf (NcS r cs) (list_to_set [a; n; p] ∪ l) h1)
    (ends e (attached rt o (Conf (NcS r cs) l h))).
Proof.
  intros Hi Hrt Hmax Hpx Hname Hnd Hnew Hh1 Hc1. set (L := list_to_set [a; n; p] ∪ l).
  destruct (three_blocks l a n p Hnd Hnew) as (Ha & Hn & Hp & HL). fold L in Ha, Hn, Hp, HL.
  assert (cs !! p = None) as Hcs.
  { apply eq_None_not_Some. intros [y Hy]. destruct Hi as (_ & Hb & _). destruct (Hb p y Hy) as (_ & Hin & _).
    apply (Hnew p); [set_solver|]. apply Hin. unfold ctrl_blocks. set_solver. }
  unfold attach_allocated, initialize_controller. do 6 wp_step. simpl.
  destruct (connection_of r0 o) as [cn|] eqn:Hcn.
  2:{ wp_step. apply wp_free_blocks; simpl; [set_solver|set_solver|done|]. intros h2 Hh2. wp_step. simpl.
      rewrite HL, (delete_id cs) by done. apply attached_nothing; try done. etrans; [exact Hh1|]. etrans; [|exact Hh2]. solve_suffix. }
  wp_step. unfold put_ctrl at 1. wp_step. simpl. wp_step.
  eapply wp_on_rt_nc; [by apply rl_acquire_law|]. simpl.
  intros [rc ow] [r2 l1 h2]; simpl. intros (Hok1 & -> & -> & [(-> & [t ->] & Hle)|(Hrc & -> & Hle)]); simpl.
  2:{ rewrite (proj2 (Z.eqb_neq rc 0)) by done. simpl. apply free_new_spec; try done. etrans; [exact Hh1|]. solve_suffix. }
  wp_step. unfold put_ctrl. wp_step. simpl. rewrite insert_insert_eq. wp_step.
  eapply wp_mono; [eapply dispatch_controller_spec; [apply lookup_insert_eq|done|done]|].
  intros [st|f|] [s2 l2 h2]; simpl; [|done|done]. intros (x' & Hren & _ & Hh2 & -> & ->). rewrite insert_insert_eq.
  assert (h `suffix_of` h2) as Hh3 by (etrans; [exact Hh1|]; etrans; [|exact Hh2]; solve_suffix).
  assert (ctrl_blocks p x' = [a; n; p]) as Hbl by (by rewrite (renamed_blocks p _ _ Hren)). destruct Hren as (Hr1 & Hr2 & Hr3 & Hr4 & Hr5 & Hr6).
  simpl in Hr1, Hr2, Hr3, Hr5, Hr6, Hh2. wp_if as Hst; breflect.
  - wp_step. pose proof (rl_leases_nonneg rt r Hrt).
    eapply wp_on_rt_nc; [apply rl_release_law; simpl; [done|lia]|]. simpl.
    intros _ [r3 l3 h3] (Hok3 & -> & -> & Hle3). simpl in *. apply free_new_spec; try done. lia.
  - wp_step. unfold L in *. rewrite <- Hbl in Hnd, Hnew, Hc1 |- *.
    assert (conf_ok (Conf (NcS r2 (<[p:=x']> cs)) (list_to_set (ctrl_blocks p x') ∪ l) h2)) as Hc2.
    { eapply conf_ok_suffix; [exact Hc1|]. etrans; [|exact Hh2]. solve_suffix. }
    split; [|split; [exact Hok1|]].
    + by eapply nc_ok_insert.
    + right. exists p, x', r0. cbn [store live ncs_controllers ncs_rt]. split_and!; try done; try congruence. by rewrite Hr3.
Qed.

Lemma attach_spec self rt o out e (c : conf St) :
  nc_ok c -> rl_ok rt (ncs_rt (store c)) -> rl_leases rt (ncs_rt (store c)) < UINT64_MAX -> posix_ok e ->
  wp (zettide_spdk_nvme_controller_attach self (Some rt) (Some o) out) e c (ends e (attached rt o c)).
Proof.
  destruct c as [[r cs] l h]. intros Hi Hrt Hmax Hpx. simpl in Hrt, Hmax. unfold zettide_spdk_nvme_controller_attach.
  assert (forall rc x h', rc <> 0 -> mjoin x = None -> h `suffix_of` h' ->
    attached rt o (Conf (NcS r cs) l h) (rc, x) (Conf (NcS r cs) l h')) as Hno by (intros; by apply attached_nothing).
  destruct (co_name o) as [name|] eqn:Hname; [|wp_step; by apply Hno].
  wp_if as H1; [wp_step; by apply Hno|]. cbv zeta. wp_if as H2; [wp_step; by apply Hno|].
  pose proof (proj1 Hi) as Hc. wp_step. apply wp_calloc_fresh; [done|].
  intros [p|] h1 Hh1 Hp Hc1; simpl in Hh1; [|wp_step; simpl; rewrite (left_id_L ∅ (∪)); by apply Hno].
  wp_step. apply wp_calloc_fresh; [done|]. intros mn h2 Hh2 Hn Hc2. simpl in Hh2, Hn.
  wp_step. apply wp_calloc_fresh; [done|]. intros ma h3 Hh3 Ha Hc3. simpl in Hh3, Ha.
  assert (h `suffix_of` h3) as Hh by (trans h2; [by trans h1|done]).
  assert (p ∉ l) as Hpl by (simpl in Hp; set_solver).
  destruct (three_fresh l p mn ma Hpl Hn Ha) as (F1 & F2 & F3 & F4).
  assert (wp (free_blocks ma mn p ;;; ret (- ENOMEM, Some None)) e
    (Conf (NcS r cs) (opt_set ma ∪ (opt_set mn ∪ ({[p]} ∪ l))) h3) (ends e (attached rt o (Conf (NcS r cs) l h)))) as Hoom.
  { wp_step. apply wp_free_blocks; [done|done|done|]. intros h4 Hh4. wp_step. cbn [store live ncs_controllers ncs_rt].
    rewrite F4. assert (cs !! p = None) as Hcs.
    { apply eq_None_not_Some. intros [y Hy]. destruct Hi as (_ & Hb & _). destruct (Hb p y Hy) as (_ & Hin & _).
      apply Hpl. apply Hin. unfold ctrl_blocks. set_solver. }
    rewrite (delete_id cs) by done. apply Hno; try done. by trans h3. }
  destruct mn as [n|]; [|by destruct ma]. destruct ma as [a|]; [|exact Hoom].
  assert (a <> n /\ a <> p /\ n <> p /\ a ∉ l /\ n ∉ l) as (? & ? & ? & ? & ?)
    by (simpl in Hn, Ha; clear -Hn Ha; set_solver).
  assert (opt_set (Some a) ∪ (opt_set (Some n) ∪ ({[p]} ∪ l)) = list_to_set [a; n; p] ∪ l) as HL
    by (simpl; clear; set_solver).
  change (conf_ok (Conf (NcS r cs) (opt_set (Some a) ∪ (opt_set (Some n) ∪ ({[p]} ∪ l))) h3)) in Hc3.
  change (wp (attach_allocated self rt o name p n a) e
    (Conf (NcS r cs) (opt_set (Some a) ∪ (opt_set (Some n) ∪ ({[p]} ∪ l))) h3) (ends e (attached rt o (Conf (NcS r cs) l h)))).
  rewrite HL in Hc3 |- *. apply (attach_allocated_spec _ _ _ _ _ _ _ _ _ _ _ h); try done.
  - rewrite !NoDup_cons, !not_elem_of_cons. split_and!; try done; try (by apply not_elem_of_nil); try constructor.
  - intros b. rewrite !elem_of_cons. intros [->|[->|[->|Hb]]]; try done. by apply elem_of_nil in Hb.
Qed.

Lemma detach_spec self p x rt e (c : conf St) :
  nc_ok c -> ncs_controllers (store c) !! p = Some x -> nc_runtime x = rt -> rl_ok rt (ncs_rt (store c)) ->
  0 < rl_leases rt (ncs_rt (store c)) -> posix_ok e ->
  wp (zettide_spdk_nvme_controller_detach self (Some p)) e c (ends e (fun rc c' =>
    nc_ok c' /\ rl_ok rt (ncs_rt (store c')) /\
    (rc = 0 /\ ncs_controllers (store c') = delete p (ncs_controllers (store c)) /\
       live c' = live c ∖ list_to_set (ctrl_blocks p x) /\
       rl_leases rt (ncs_rt (store c')) = rl_leases rt (ncs_rt (store c)) - 1
     \/ rc <> 0 /\ store c' = store c /\ live c' = live c))).
Proof.
  destruct c as [[r cs] l h]. intros Hi Hx Hxr Hrt Hpos Hpx. simpl in Hx, Hrt, Hpos.
  pose proof (proj1 (proj2 Hi) p x Hx) as (Hnd & Hin & [t Ht]).
  unfold zettide_spdk_nvme_controller_detach. wp_step.
  eapply wp_mono; [by eapply dispatch_controller_spec|]. intros [st|f|] [s2 l2 h2]; simpl; [|done|done].
  intros (x' & _ & Hx' & Hh & -> & ->). specialize (Hx' eq_refl). subst x'. rewrite insert_id by done. wp_step.
  wp_if as Hst; breflect.
  - wp_step. eapply wp_get_ctrl; [done|]. rewrite Hxr. wp_step.
    eapply wp_on_rt_nc; [by apply rl_release_law|]. simpl. intros _ [r3 l3 h3] (Hok3 & -> & -> & Hle3). simpl in *.
    unfold free_controller. wp_step. eapply wp_get_ctrl; [done|].
    assert ((nc_namespace_names x).1 ∈ l /\ (nc_name x).1 ∈ l ∖ {[(nc_namespace_names x).1]} /\
      p ∈ l ∖ {[(nc_namespace_names x).1]} ∖ {[(nc_name x).1]}) as (B1 & B2 & B3).
    { unfold ctrl_blocks in *. rewrite !NoDup_cons, !not_elem_of_cons in Hnd. destruct Hnd as ((? & ? & _) & (? & _) & _ & _).
      assert (forall b, b ∈ ctrl_blocks p x -> b ∈ l) as Hin' by exact Hin. clear Hin.
      assert ((nc_namespace_names x).1 ∈ l /\ (nc_name x).1 ∈ l /\ p ∈ l) as (? & ? & ?)
        by (split_and!; apply Hin'; unfold ctrl_blocks; set_solver). clear Hin'. split_and!; set_solver. }
    apply wp_free_blocks; simpl; [set_solver|set_solver|done|]. intros h4 Hh4. wp_step.
    assert (conf_ok (Conf (NcS r3 (delete p cs)) (l ∖ {[(nc_namespace_names x).1]} ∖ {[(nc_name x).1]} ∖ {[p]}) h4)) as Hc4.
    { eapply (conf_ok_suffix (NcS r cs)); [|exact Hh4]. destruct (proj1 Hi) as [C1 C2]. apply suffix_length in Hh. split; simpl in *.
      - intros b Hb. assert (b ∈ l) as Hbl by set_solver. specialize (C1 b Hbl). lia.
      - assert (l ∖ {[(nc_namespace_names x).1]} ∖ {[(nc_name x).1]} ∖ {[p]} ⊆ l) as Hs by set_solver.
        apply subseteq_size in Hs. lia. }
    split; [by eapply nc_ok_delete|]. split; [done|]. left. split_and!; try done. simpl. clear. set_solver.
  - wp_step. wp_step. simpl. split; [|split; [done|right; done]]. destruct Hi as (Hi1 & Hi2 & Hi3).
    split; [by eapply conf_ok_suffix|done].
Qed.

End Controller.

(** ** Properties *)

(** A string that fits a buffer with room for [n] characters and the NUL. *)
Definition string_fits (n : Z) (s : string) : Prop := 0 < strlen s <= n.

Lemma copy_required_string_spec n src s :
  0 <= n -> copy_required_string (n + 1) src = Some s <-> src = Some s /\ string_fits n s.
Proof.
  intros Hn. unfold copy_required_string, string_fits, strnlen. destruct src as [s'|]; [|naive_solver].
  pose proof (strlen_nonneg s').
  destruct (Z.eqb_spec (Z.min (strlen s') (n + 1)) 0), (Z.eqb_spec (Z.min (strlen s') (n + 1)) (n + 1)); simpl;
    split; try (intros [= <-]; split; [done|lia]); try done; intros [[= ->] ?]; lia || done.
Qed.

(** A write of names into an array, read back. *)
Lemma write_names_lookup names array i :
  (i < length array)%nat -> (i < length names)%nat -> write_names names array !! i = Some (names !! i).
Proof.
  intros Ha Hn. unfold write_names. rewrite lookup_app_l by (rewrite length_map, length_take; lia).
  rewrite list_lookup_fmap, lookup_take_lt by done. destruct (lookup_lt_is_Some_2 names i Hn) as [s Hs]. by rewrite Hs.
Qed.

Section Properties.
Context {R : Type} `{RL : !RuntimeLease R} `{LM : !SpdkLimits}.
Implicit Types (c : conf (NcStore R)).



(** The names of the namespaces can be read without leaving the array, also when
    there are more namespaces than the array has room for: after SPDK's callback the
    first [namespace_count] names are those SPDK stored, every other index gives
    NULL, and [truncated] is set exactly when SPDK reported [-ERANGE]. *)
Theorem namespace_names_readable p x cmd count st names e c :
  ncs_controllers (store c) !! p = Some x -> completed cmd = false ->
  oracle e (hist c) (AttachOutcome p) = Some (count, st, names) ->
  Z.of_nat (length (nc_namespace_names x).2) = nc_namespace_name_capacity x ->
  nc_namespace_names_truncated x = false ->
  (st = 0 /\ count = Z.of_nat (length names) /\ count <= nc_namespace_name_capacity x \/
   st = - ERANGE /\ nc_namespace_name_capacity x <= Z.of_nat (length names)) ->
  exists cmd' c' x', deliver_outcome RunAttach p cmd e c = (Done cmd', c') /\ status cmd' = 0 /\
    ncs_controllers (store c') !! p = Some x' /\
    zettide_spdk_nvme_controller_namespace_names_truncated (Some x') = (st =? - ERANGE) /\
    forall i, 0 <= i ->
      zettide_spdk_nvme_controller_get_namespace_name (Some x') i =
        Some (if i <? zettide_spdk_nvme_controller_get_namespace_count (Some x') then names !! Z.to_nat i else None).
Proof.
  destruct c as [[r cs] l h]. intros Hx Hc Ho Hlen Htr Hst. simpl in Hx, Ho.
  unfold deliver_outcome, attach_complete, complete_nc, complete_command, get_ctrl, put_ctrl, bind, call, get, deref, modify.
  simpl. rewrite Ho. simpl. rewrite Hx. simpl. rewrite lookup_insert_eq. simpl.
  assert (forall n b i, n <= Z.of_nat (length names) -> n <= nc_namespace_name_capacity x -> 0 <= i ->
    zettide_spdk_nvme_controller_get_namespace_name (Some (set_names n b (Controller (nc_runtime x) (nc_owner x) (nc_name x)
      ((nc_namespace_names x).1, write_names names (nc_namespace_names x).2) (nc_namespace_count x)
      (nc_namespace_name_capacity x) (nc_namespace_names_truncated x) (nc_connection x)))) i
    = Some (if i <? n then names !! Z.to_nat i else None)) as Hread.
  { intros n b i Hn Hn' Hi. simpl. rewrite Z.geb_leb, Z.ltb_antisym. destruct (Z.leb_spec n i); simpl; [done|].
    apply write_names_lookup; lia. }
  destruct Hst as [(-> & -> & Hcap)|[-> Hcap]]; simpl; rewrite Hc; simpl.
  all: eexists _, _, _; split; [reflexivity|]; split; [reflexivity|]; simpl; split; [apply lookup_insert_eq|];
    split; [done|]; intros i Hi; apply Hread; simpl; lia.
Qed.

End Properties.

(** The options of a connection are accepted exactly when each string is present
    and fits SPDK's buffer for it, and they are then passed on unchanged; without a
    host NQN SPDK's default stays. *)
Theorem connection_accepted_exactly `{SpdkLimits} host o cn :
  0 <= SPDK_NVMF_TRADDR_MAX_LEN -> 0 <= SPDK_NVMF_TRSVCID_MAX_LEN -> 0 <= SPDK_NVMF_NQN_MAX_LEN ->
  connection_of host o = Some cn <->
  adrfam_of (co_address_family o) = Some (cn_adrfam cn) /\
  co_transport_address o = Some (cn_traddr cn) /\ string_fits SPDK_NVMF_TRADDR_MAX_LEN (cn_traddr cn) /\
  co_transport_service_id o = Some (cn_trsvcid cn) /\ string_fits SPDK_NVMF_TRSVCID_MAX_LEN (cn_trsvcid cn) /\
  co_subsystem_nqn o = Some (cn_subnqn cn) /\ string_fits SPDK_NVMF_NQN_MAX_LEN (cn_subnqn cn) /\
  (co_host_nqn o = None /\ cn_hostnqn cn = host \/
   co_host_nqn o = Some (cn_hostnqn cn) /\ string_fits SPDK_NVMF_NQN_MAX_LEN (cn_hostnqn cn)) /\
  cn_connect_timeout_us cn = co_connect_timeout_us o /\ cn_multipath cn = false.
Proof.
  intros H1 H2 H3. unfold connection_of. split.
  - destruct (adrfam_of (co_address_family o)) as [fam|]; [|done].
    destruct (copy_required_string _ (co_transport_address o)) as [a|] eqn:Ea; [|done].
    destruct (copy_required_string _ (co_transport_service_id o)) as [s|] eqn:Es; [|done].
    destruct (copy_required_string _ (co_subsystem_nqn o)) as [q|] eqn:Eq; [|done].
    apply copy_required_string_spec in Ea as [-> ?], Es as [-> ?], Eq as [-> ?]; [|done..].
    destruct (co_host_nqn o) as [hn|].
    + destruct (copy_required_string _ (Some hn)) as [hn'|] eqn:Eh; [|done].
      apply copy_required_string_spec in Eh as [[= ->] ?]; [|done]. intros [= <-]. simpl. split_and!; auto.
    + intros [= <-]. simpl. split_and!; auto.
  - destruct cn as [fam a s q hn to mp]. simpl. intros (-> & -> & Ha & -> & Hs & -> & Hq & Hh & -> & ->).
    rewrite (proj2 (copy_required_string_spec _ _ a H1)) by done.
    rewrite (proj2 (copy_required_string_spec _ _ s H2)) by done.
    rewrite (proj2 (copy_required_string_spec _ _ q H3)) by done.
    destruct Hh as [[-> ->]|[-> Hh]]; [done|].
    pose proof (proj2 (copy_required_string_spec _ (Some hn) hn H3) (conj eq_refl Hh)) as E. simpl in E |- *. by rewrite E.
Qed.
