(* ===== verification/System.v ===== *)
(** * System: the components put together

    The clients of the runtime and of the endpoint are proved against the
    interfaces of Lease.v and Port.v.  Here they run on the models of runtime.c and
    bdev_endpoint.c themselves: theorems that need both sides, and the properties
    of the clients at concrete inputs. *)

From S2P Require Import Prelude Effects Externals Handshake Blocking Lease Runtime Endpoint Port.
From S2P Require Import Dispatcher ReadBatch ProviderIo Provider NvmfExport NvmeController.

(** ** The runtime under its clients *)

(** Stopping and destroying the runtime at [rt] are refused and change nothing. *)
Definition runtime_kept (rt : ptr) (s : RtStore) : Prop :=
  forall joined e l h, posix_ok e ->
    (exists rc h', zettide_spdk_runtime_stop (Some rt) false joined e (Conf s l h) = (Done rc, Conf s l h') /\ rc <> 0) /\
    zettide_spdk_runtime_destroy (Some rt) e (Conf s l h) = (Done (- EBUSY), Conf s l h).

Lemma leased_runtime_kept rt s : rl_ok rt s -> 0 < rl_leases rt s -> runtime_kept rt s.
Proof.
  intros Hok Hl joined e l h Hpx. split; [|by apply leased_destroy_refused].
  destruct (wp_returns_run _ _ _ _ (leased_stop_refused rt joined e (Conf s l h) Hpx Hok Hl))
    as (rc & [s' l' h'] & E & Hrc & Hs & Hl'). simpl in *. subst. by exists rc, h'.
Qed.

(** C11: An open dispatcher keeps its runtime: once [dispatcher_open] has returned 0,
    stopping the runtime it was opened on is refused without any change, and so is
    destroying it. *)
Theorem open_dispatcher_keeps_runtime self rt name wr out e (c c' : conf (DispStore RtStore (conf EpStore))) d :
  disp_ok c -> sends_accepted e -> posix_ok e -> rl_ok rt (ds_rt (store c)) ->
  rl_leases rt (ds_rt (store c)) < UINT64_MAX ->
  zettide_spdk_bdev_dispatcher_open self (Some rt) name wr out e c = (Done (0, Some (Some d)), c') ->
  runtime_kept rt (ds_rt (store c')).
Proof.
  intros Hd Hs Hpx Hr Hm E.
  pose proof (wp_run _ _ _ _ _ _ (dispatcher_open_spec self rt name wr out e c Hd Hs Hpx Hr Hm) E) as (t & _ & Hok & Hl).
  pose proof (rl_leases_nonneg rt _ Hr). apply leased_runtime_kept; [exact Hok|]. rewrite Hl. cbn [fst Z.eqb]. lia.
Qed.


(** ** Default options *)

Lemma default_device_accepted name submit count :
  1 <= count -> count * 4096 <= UINT64_MAX ->
  let o := ProviderOpts PROVIDER_OPTS_SIZE (Some name) 4096 count 1 256 0 (Some submit) false in
  opts_fields_ok o && opts_sizes_ok o = true.
Proof.
  intros Hc Hm. unfold opts_fields_ok, opts_sizes_ok. simpl.
  assert (UINT64_MAX / 4096 = 4503599627370495) as -> by reflexivity. unfold UINT64_MAX in Hm.
  rewrite (proj2 (Z.eqb_neq count 0)) by lia. simpl.
  change (SIZE_MAX / 4096) with 4503599627370495. rewrite !Z.gtb_ltb, !(proj2 (Z.ltb_ge _ _)) by lia. reflexivity.
Qed.

Lemma default_export_accepted `{SpdkLimits} size nqn bdev host traddr trsvcid transport :
  fits SPDK_NVMF_NQN_MAX_LEN (Some nqn) false -> fits ZETTIDE_SPDK_NVMF_BDEV_NAME_MAX (Some bdev) false ->
  fits SPDK_NVMF_NQN_MAX_LEN (Some host) false -> fits SPDK_NVMF_TRADDR_MAX_LEN (Some traddr) false ->
  fits SPDK_NVMF_TRSVCID_MAX_LEN (Some trsvcid) false ->
  size = ZETTIDE_SPDK_NVMF_BASE_OPTS_SIZE \/ size = ZETTIDE_SPDK_NVMF_TRANSPORT_OPTS_SIZE ->
  exists o, zettide_spdk_nvmf_tcp_export_opts_init true size transport = OptsInitialised o /\
    validate_opts (Some 1%nat) (Some (ExportOpts (xo_opts_size o) (xo_target_name o) (Some nqn) (Some bdev)
      (xo_serial_number o) (xo_model_number o) (Some host) (Some traddr) (Some trsvcid) (xo_nsid o)
      (xo_allow_any_host o) (xo_transport o))) true = 0.
Proof.
  intros Hnqn Hbdev Hhost Htr Hsvc Hs.
  assert (forall n s, fits n (Some s) false -> valid_string (Some s) n false = true) as Hv.
  { intros n s Hf. apply valid_string_spec; [simpl in Hf; lia|done]. }
  apply Hv in Hnqn, Hbdev, Hhost, Htr, Hsvc.
  destruct Hs as [-> | ->]; (eexists; split; [reflexivity|]); unfold validate_opts; cbn [xo_opts_size xo_target_name
    xo_nqn xo_bdev_name xo_serial_number xo_model_number xo_host_nqn xo_traddr xo_trsvcid xo_nsid xo_allow_any_host];
    rewrite Hnqn, Hbdev, Hhost, Htr, Hsvc; [reflexivity|].
  unfold get_transport. cbn [xo_opts_size xo_transport]. destruct transport as [|v]; [reflexivity|].
  assert (clear_low_bytes (Z.min 4 (ZETTIDE_SPDK_NVMF_TRANSPORT_OPTS_SIZE - ZETTIDE_SPDK_NVMF_BASE_OPTS_SIZE))
    (NVMF_TRANSPORT_OTHER v) = ZETTIDE_SPDK_NVMF_TRANSPORT_TCP) as ->; [|reflexivity].
  unfold clear_low_bytes. change (8 * Z.min 4 _) with 32. rewrite Z.shiftr_div_pow2 by lia.
  rewrite (Z.div_small (u32 v)); [reflexivity|]. pose proof (u32_range v) as Hr. unfold is_u32, UINT32_MAX in Hr. lia.
Qed.

Lemma default_connection_accepted `{SpdkLimits} host nqn traddr name :
  fits SPDK_NVMF_NQN_MAX_LEN (Some nqn) false -> fits SPDK_NVMF_TRADDR_MAX_LEN (Some traddr) false ->
  4 <= SPDK_NVMF_TRSVCID_MAX_LEN ->
  connection_of host (ControllerOpts CONTROLLER_OPTS_SIZE (Some name) ZETTIDE_SPDK_NVME_TRANSPORT_TCP
    ZETTIDE_SPDK_NVME_ADDRESS_FAMILY_IPV4 (Some traddr) (Some "4420"%string) (Some nqn) None 10000000
    ZETTIDE_SPDK_NVME_DEFAULT_NAMESPACE_CAPACITY) =
  Some (Connection SPDK_NVMF_ADRFAM_IPV4 traddr "4420" nqn host 10000000 false).
Proof.
  intros Hnqn Htr H4.
  assert (forall n s, fits n (Some s) false -> copy_required_string (n + 1) (Some s) = Some s) as Hcopy.
  { intros n s Hf. simpl in Hf. unfold copy_required_string, strnlen. rewrite Z.min_l by lia.
    by rewrite !(proj2 (Z.eqb_neq _ _)) by lia. }
  unfold connection_of. simpl adrfam_of. cbn [co_transport_address co_transport_service_id co_subsystem_nqn co_host_nqn].
  by rewrite !Hcopy.
Qed.

(** The options an [opts_init] function sets up for the size of its struct are
    accepted once the fields without a default are filled in: the name of the
    runtime; name, block count and backend of a device; the strings of an export
    that names its host; the name, address and subsystem of a controller.  For an
    export this holds for both sizes of the struct, whatever its transport field
    held before. *)
Theorem default_opts_accepted `{SpdkLimits} name nqn bdev host default_host traddr trsvcid count submit transport :
  1 <= count -> count * 4096 <= UINT64_MAX -> fits SPDK_NVMF_NQN_MAX_LEN (Some nqn) false ->
  fits ZETTIDE_SPDK_NVMF_BDEV_NAME_MAX (Some bdev) false -> fits SPDK_NVMF_NQN_MAX_LEN (Some host) false ->
  fits SPDK_NVMF_TRADDR_MAX_LEN (Some traddr) false -> fits SPDK_NVMF_TRSVCID_MAX_LEN (Some trsvcid) false ->
  4 <= SPDK_NVMF_TRSVCID_MAX_LEN ->
  (exists o, zettide_spdk_runtime_opts_init true sizeof_runtime_opts = OptsInitialised o /\
     opts_invalid (Some (RuntimeOpts (opts_size o) (Some name) (o_reactor_mask o) (o_json_data o) (o_json_data_size o)
       (o_mem_size_mb o) (o_no_pci o) (o_no_huge o) (o_disable_signal_handlers o) (o_disable_cpumask_locks o)
       (o_retired_vhost_socket_path o))) true = false) /\
  (exists o, zettide_spdk_bdev_provider_opts_init true PROVIDER_OPTS_SIZE = OptsInitialised o /\
     let o' := ProviderOpts (po_opts_size o) (Some name) (po_block_size o) count (po_write_unit_blocks o)
       (po_max_io_blocks o) (po_backend_context o) (Some submit) (po_read_buffers_unchanged o) in
     opts_fields_ok o' && opts_sizes_ok o' = true) /\
  (forall size, size = ZETTIDE_SPDK_NVMF_BASE_OPTS_SIZE \/ size = ZETTIDE_SPDK_NVMF_TRANSPORT_OPTS_SIZE ->
   exists o, zettide_spdk_nvmf_tcp_export_opts_init true size transport = OptsInitialised o /\
     validate_opts (Some 1%nat) (Some (ExportOpts (xo_opts_size o) (xo_target_name o) (Some nqn) (Some bdev)
       (xo_serial_number o) (xo_model_number o) (Some host) (Some traddr) (Some trsvcid) (xo_nsid o)
       (xo_allow_any_host o) (xo_transport o))) true = 0) /\
  (exists o, zettide_spdk_nvme_controller_opts_init true CONTROLLER_OPTS_SIZE = OptsInitialised o /\
     let o' := ControllerOpts (co_opts_size o) (Some name) (co_transport o) (co_address_family o) (Some traddr)
       (co_transport_service_id o) (Some nqn) (co_host_nqn o) (co_connect_timeout_us o) (co_namespace_name_capacity o) in
     attach_opts_ok o' = true /\ connection_of default_host o' =
       Some (Connection SPDK_NVMF_ADRFAM_IPV4 traddr "4420" nqn default_host 10000000 false)).
Proof.
  intros Hc Hm Hnqn Hbdev Hhost Htr Hsvc H4. split_and!.
  - eexists. split; [reflexivity|]. reflexivity.
  - eexists. split; [reflexivity|]. by apply default_device_accepted.
  - intros size Hs. apply default_export_accepted; assumption.
  - eexists. split; [reflexivity|]. split; [reflexivity|]. by apply default_connection_accepted.
Qed.

(** ** A runtime and an endpoint *)

(** A ready runtime at address 5. *)
Definition sample_rt (leases : Z) : RtStore := RtS true {[5%nat := set_leases leases sample_runtime]}.

Lemma sample_rt_ok n : is_u64 n -> rl_ok 5 (sample_rt n).
Proof.
  intros Hn. exists (set_leases n sample_runtime). split; [done|]. split; [exact Hn|]. split; [by left|]. intros _.
  split; [by eexists|]. exists 3%nat. split; [|split; [lia|split; [done|simpl; lia]]].
  destruct sample_owners_ok. by split.
Qed.

Lemma sample_port_ok : port_ok sample_opened.
Proof.
  split; [exact sample_opened_inv|]. intros r r' rq rq' Hr. vm_compute in Hr. discriminate Hr.
Qed.

Lemma sample_sends t : sends_accepted (sample_env t).
Proof. done. Qed.

Lemma default_opts_accepted_witness :
  exists o, zettide_spdk_runtime_opts_init true sizeof_runtime_opts = OptsInitialised o.
Proof.
  destruct (@default_opts_accepted sample_limits "a" "b" "c" "d" "e" "f" "g" 1 1%nat (NVMF_TRANSPORT_OTHER 3))
    as [(o & Ho & _) _]; try (vm_compute; split; reflexivity || discriminate); try (vm_compute; discriminate).
  exists o. exact Ho.
Defined.

(** ** The dispatcher *)

Definition disp_conf0 : conf (DispStore RtStore (conf EpStore)) :=
  Conf (DispS (sample_rt 0) sample_opened ∅) {[5%nat]} [EvAlloc None; EvAlloc None; EvAlloc None; EvAlloc None; EvAlloc (Some 1%nat)].
Definition sample_dispatcher : dispatcher := Dispatcher 1 (Some 5%nat) (Some 1%nat).
Definition disp_conf1 : conf (DispStore RtStore (conf EpStore)) :=
  Conf (DispS (sample_rt 1) sample_opened {[6%nat := sample_dispatcher]}) {[5%nat; 6%nat]}
    (EvAlloc None :: hist disp_conf0).

Lemma disp_conf0_ok : disp_ok disp_conf0.
Proof.
  split; [|split; [intros d x Hd; discriminate Hd|exact sample_port_ok]]. split; [|by vm_compute]. simpl. intros p ->%elem_of_singleton. lia.
Qed.

Lemma disp_conf1_ok : disp_ok disp_conf1.
Proof.
  split; [|split; [|exact sample_port_ok]].
  - split; [|by vm_compute]. simpl. intros p Hp. assert (p = 5%nat \/ p = 6%nat) as [-> | ->] by set_solver; lia.
  - simpl. intros d x [<- _]%lookup_singleton_Some. set_solver.
Qed.

Lemma sample_endpoint_open : 1%nat ∈ port_eps sample_opened.
Proof. apply elem_of_dom. vm_compute. by eexists. Qed.

Lemma dispatcher_open_all_or_nothing_witness :
  exists r c', zettide_spdk_bdev_dispatcher_open 9 (Some 5%nat) (Some "bdev0"%string) true true (sample_env None) disp_conf0
      = (Done r, c') /\
    exists t, opened t (Some 5%nat) disp_conf0 r c' /\
      rl_leases 5 (ds_rt (store c')) = rl_leases 5 (sample_rt 0) + (if r.1 =? 0 then 1 else 0).
Proof.
  apply (dispatcher_open_all_or_nothing 9 5 (Some "bdev0"%string) true true (sample_env None) disp_conf0).
  - exact disp_conf0_ok.
  - exact (sample_sends None).
  - exact (sample_posix_ok None).
  - apply sample_rt_ok. unfold is_u64, UINT64_MAX. lia.
  - vm_compute. reflexivity.
Defined.

Lemma dispatcher_close_returns_lease_witness :
  exists rc c', zettide_spdk_bdev_dispatcher_close 9 (Some 6%nat) (sample_env None) disp_conf1 = (Done rc, c') /\ disp_ok c'.
Proof.
  destruct (dispatcher_close_returns_lease 9 6 sample_dispatcher 1 5 (sample_env None) disp_conf1)
    as (rc & c' & E & H & _).
  - exact disp_conf1_ok.
  - exact (sample_sends None).
  - exact (sample_posix_ok None).
  - vm_compute. reflexivity.
  - reflexivity.
  - exact sample_endpoint_open.
  - reflexivity.
  - apply sample_rt_ok. unfold is_u64, UINT64_MAX. lia.
  - vm_compute. reflexivity.
  - exists rc, c'. split; [exact E|exact H].
Defined.


Definition disp_conf2 : conf (DispStore RtStore (conf EpStore)) :=
  (zettide_spdk_bdev_dispatcher_open 9 (Some 5%nat) (Some "bdev0"%string) true true (sample_env None) disp_conf0).2.

Lemma open_dispatcher_keeps_runtime_witness : runtime_kept 5 (ds_rt (store disp_conf2)).
Proof.
  apply (open_dispatcher_keeps_runtime 9 5 (Some "bdev0"%string) true true (sample_env None) disp_conf0 disp_conf2 6).
  - exact disp_conf0_ok.
  - exact (sample_sends None).
  - exact (sample_posix_ok None).
  - apply sample_rt_ok. unfold is_u64, UINT64_MAX. lia.
  - vm_compute. reflexivity.
  - vm_compute. reflexivity.
Defined.

(** ** Read batches *)

Definition batch_conf0 : conf (BatchStore (conf EpStore)) :=
  Conf (BatchS sample_opened {[6%nat := sample_dispatcher]} ∅ ∅ (fun _ => 0) ∅) ∅ [].
Definition sample_submit : batch_label :=
  BSubmit (Some 6%nat) (Some [ReadRange 4096 0 512; ReadRange 8192 512 1024]) (Some 20%nat) (Some 3%nat) 4.
Definition batch_at (c : conf (BatchStore (conf EpStore))) (e : env) (l : batch_label)
    : conf (BatchStore (conf EpStore)) := (batch_exec l e c).2.
Definition batch_conf1 := batch_at batch_conf0 (sample_env None) sample_submit.
Definition batch_conf2 := batch_at batch_conf1 (sample_env (Some 1%nat)) (BRun 1).
Definition batch_conf3 := batch_at batch_conf2 (sample_env (Some 1%nat)) (BDeliver 1 1).
Definition batch_conf4 := batch_at batch_conf3 (sample_env (Some 1%nat)) (BDeliver 1 0).

Lemma batch_conf0_start : batch_start batch_conf0.
Proof.
  split; [split; [intros p Hp; set_solver|by vm_compute]|]. split; [exact sample_port_ok|]. split_and!; try reflexivity.
Qed.

Lemma batch_step_exec e l (c : conf (BatchStore (conf EpStore))) :
  batch_enabled l (store c) -> (batch_exec l e c).1 = Done tt -> batch_step c (batch_at c e l).
Proof.
  intros Hen Ho. apply (BatchStep e l); [exact Hen|]. unfold batch_at. destruct (batch_exec l e c) as [o c'].
  simpl in *. by subst.
Qed.

Lemma sample_submit_enabled : batch_enabled sample_submit (store batch_conf0).
Proof.
  split; [|split].
  - intros p [= <-]. exists sample_dispatcher, 1%nat. split; [reflexivity|]. split; [reflexivity|]. exact sample_endpoint_open.
  - intros l [= <-]. unfold is_u64, UINT64_MAX, UINTPTR_MAX, UINT64_MAX. repeat constructor; simpl; lia.
  - intros a _ b x Hb. vm_compute in Hb. discriminate Hb.
Qed.

Lemma batch_conf1_reach : rtc batch_step batch_conf0 batch_conf1.
Proof. apply rtc_once, batch_step_exec; [exact sample_submit_enabled|vm_compute; reflexivity]. Qed.

Lemma batch_conf2_enabled : batch_enabled (BRun 1) (store batch_conf1).
Proof. apply (bool_decide_unpack (1%nat ∈ bs_queued (store batch_conf1))). vm_compute. exact I. Qed.

Lemma batch_conf2_reach : rtc batch_step batch_conf0 batch_conf2.
Proof.
  eapply rtc_r; [exact batch_conf1_reach|]. apply batch_step_exec; [exact batch_conf2_enabled|vm_compute; reflexivity].
Qed.

Lemma batch_conf3_enabled : batch_enabled (BDeliver 1 1) (store batch_conf2).
Proof.
  apply (bool_decide_unpack ((1, 1)%nat ∈ ep_port_inflight (bs_port (store batch_conf2)))). vm_compute. exact I.
Qed.

Lemma batch_conf3_step : batch_step batch_conf2 batch_conf3.
Proof. apply batch_step_exec; [exact batch_conf3_enabled|vm_compute; reflexivity]. Qed.

Lemma batch_conf4_step : batch_step batch_conf3 batch_conf4.
Proof.
  apply batch_step_exec; [|vm_compute; reflexivity].
  apply (bool_decide_unpack ((1, 0)%nat ∈ ep_port_inflight (bs_port (store batch_conf3)))). vm_compute. exact I.
Qed.

Lemma batch_conf4_reach : rtc batch_step batch_conf2 batch_conf4.
Proof. eapply rtc_l; [exact batch_conf3_step|]. apply rtc_once. exact batch_conf4_step. Qed.

Lemma read_batch_never_faults_witness :
  exists c', batch_exec (BDeliver 1 1) (sample_env (Some 1%nat)) batch_conf2 = (Done tt, c') /\ batch_step batch_conf2 c'.
Proof.
  exact (read_batch_never_faults batch_conf0 batch_conf2 (sample_env (Some 1%nat)) (BDeliver 1 1)
    batch_conf0_start batch_conf2_reach batch_conf3_enabled).
Defined.

Lemma read_batch_callback_exactly_once_witness :
  bs_batches (store batch_conf4) !! 1%nat = None /\ batch_callbacks 1 (hist batch_conf4) = 1.
Proof.
  destruct (read_batch_callback_exactly_once batch_conf0 batch_conf2 batch_conf4 1 batch_conf0_start batch_conf2_reach
    ltac:(vm_compute; by eexists) batch_conf4_reach) as [([x Hx] & _)|H].
  - exfalso. vm_compute in Hx. discriminate Hx.
  - exact H.
Defined.

Lemma read_batch_statuses_filled_witness :
  Forall (@is_Some Z) [Some 0; Some 0].
Proof.
  apply (read_batch_statuses_filled batch_conf0 batch_conf4 1 3 4 true [Some 0; Some 0] tt batch_conf0_start).
  - etrans; [exact batch_conf2_reach|exact batch_conf4_reach].
  - vm_compute. left.
Defined.

(** ** Devices *)

Definition life_conf0 : conf (PrStore RtStore) :=
  Conf (PrS (sample_rt 0) ∅ ∅ ∅) {[5%nat]} (hist disp_conf0).
Definition life_at (c : conf (PrStore RtStore)) (lb : life_label) : conf (PrStore RtStore) :=
  (life_exec 5 lb (sample_env None) c).2.
Definition life_conf1 := life_at life_conf0 (LCreate 9 sample_provider_opts true).
Definition sample_device : ptr := hd 0%nat (elements (dom (prs_providers (store life_conf1)))).
Definition life_conf2 := life_at life_conf1 (LWait 3 9 sample_device).
Definition life_conf3 := life_at life_conf2 (LStart (OnStack 9)).
Definition life_conf4 := life_at life_conf3 (LDestruct (OnStack 9)).
Definition life_conf5 := life_at life_conf4 (LDone (OnStack 9) 0).

Lemma life_conf0_start : life_start_conf 5 life_conf0.
Proof.
  split; [|split; [apply sample_rt_ok; unfold is_u64, UINT64_MAX; lia|split; reflexivity]].
  split; [|by vm_compute]. simpl. intros p ->%elem_of_singleton. lia.
Qed.

Lemma sample_life_env t : life_env (sample_env t).
Proof. split; [done|]. split; [apply sample_posix_ok|done]. Qed.

Lemma life_step_exec lb c :
  life_enabled 5 lb (store c) -> (life_exec 5 lb (sample_env None) c).1 = Done tt -> life_step 5 c (life_at c lb).
Proof.
  intros Hen Ho. apply (LifeStep 5 (sample_env None) lb); [apply sample_life_env|exact Hen|]. unfold life_at.
  destruct (life_exec 5 lb (sample_env None) c) as [o c']. simpl in *. by subst.
Qed.

Lemma life_conf1_reach : rtc (life_step 5) life_conf0 life_conf1.
Proof. apply rtc_once, life_step_exec; vm_compute; reflexivity. Qed.

Lemma life_conf2_enabled : life_enabled 5 (LWait 3 9 sample_device) (store life_conf1).
Proof.
  split; [split; [vm_compute; by eexists|]|split; vm_compute; reflexivity].
  intros r x ph Hr. vm_compute in Hr. discriminate Hr.
Qed.

Lemma life_conf5_reach : rtc (life_step 5) life_conf0 life_conf5.
Proof.
  do 3 (eapply rtc_r; [|apply life_step_exec; [vm_compute; by eexists|vm_compute; reflexivity]]).
  eapply rtc_r; [exact life_conf1_reach|]. apply life_step_exec; [exact life_conf2_enabled|vm_compute; reflexivity].
Qed.

Lemma provider_life_never_faults_witness :
  exists c', life_exec 5 (LReturn 9) (sample_env None) life_conf5 = (Done tt, c') /\ life_step 5 life_conf5 c'.
Proof.
  destruct (provider_life_never_faults 5 life_conf0 life_conf5 (sample_env None) (LReturn 9) life_conf0_start
    life_conf5_reach (sample_life_env None) ltac:(vm_compute; by eexists)) as [H|(f & s & p & c' & Hl & _)].
  - exact H.
  - discriminate Hl.
Defined.

Lemma provider_leases_balance_witness : rl_leases 5 (prs_rt (store life_conf5)) = rl_leases 5 (sample_rt 0).
Proof.
  destruct (provider_leases_balance 5 life_conf0 life_conf5 life_conf0_start life_conf5_reach) as [_ H].
  apply H; vm_compute; reflexivity.
Defined.


Lemma delete_wait_returns_when_over_witness :
  prs_deletes (store life_conf5) !! OnStack 9 = None.
Proof.
  destruct (delete_wait_returns_when_over 5 life_conf0 life_conf5 (delete_wait_end 9 (sample_env None) life_conf5).2
    (sample_env None) 9 0 life_conf0_start life_conf5_reach ltac:(vm_compute; reflexivity)) as [H _].
  exact H.
Defined.



(** ** Exports *)

#[local] Existing Instance sample_limits.

Definition sample_export_opts : export_opts :=
  ExportOpts ZETTIDE_SPDK_NVMF_TRANSPORT_OPTS_SIZE None (Some "nqn.sub"%string) (Some "disk0"%string) (Some "SN1"%string) None
    (Some "nqn.host"%string) (Some "10.0.0.1"%string) (Some "4420"%string) 1 false ZETTIDE_SPDK_NVMF_TRANSPORT_TCP.

Definition xp_conf0 : conf (XpStore RtStore) := Conf (XpS (sample_rt 0) ∅) {[5%nat]} (hist disp_conf0).
Definition xp_conf1 : conf (XpStore RtStore) :=
  (zettide_spdk_nvmf_tcp_export_create 9 (Some 5%nat) (Some sample_export_opts) true (sample_env None) xp_conf0).2.

(** A complete export at address 1, with the lease 5. *)
Definition sample_export : export :=
  Export 5 1 (Some 11%nat) (Some 12%nat) "10.0.0.1" "4420" None (Some (2%nat, "nqn.sub"%string))
    (Some (3%nat, "disk0"%string)) None None (Some (4%nat, "nqn.host"%string)) 1 false true true false.
Definition xp_conf2 : conf (XpStore RtStore) :=
  Conf (XpS (sample_rt 1) {[1%nat := sample_export]}) (list_to_set [1; 2; 3; 4; 5]%nat) (hist disp_conf0).

Lemma small_conf_ok {S} (s : S) ls :
  Forall (fun p => (p <= 5)%nat) ls -> (length ls <= 5)%nat -> conf_ok (Conf s (list_to_set ls) (hist disp_conf0)).
Proof.
  intros Hl Hn. split; simpl.
  - intros p Hp%elem_of_list_to_set. rewrite Forall_forall in Hl. exact (Hl p Hp).
  - assert (size (list_to_set ls : gset ptr) <= length ls)%nat; [|unfold UINTPTR_MAX, UINT64_MAX; lia].
    clear. induction ls as [|p ls IH]; simpl; [by vm_compute|]. rewrite size_union_alt, size_singleton.
    pose proof (subseteq_size (list_to_set ls ∖ {[p]} : gset ptr) (list_to_set ls) ltac:(set_solver)). lia.
Qed.

Lemma xp_conf2_ok : xp_ok xp_conf2.
Proof.
  split; [|split].
  - apply small_conf_ok; [repeat constructor; lia|simpl; lia].
  - simpl. intros p x [<- <-]%lookup_singleton_Some. vm_compute export_blocks. split_and!.
    + apply (bool_decide_unpack _). vm_compute. exact I.
    + intros b Hb. clear -Hb. set_solver.
    + split; intros _; by eexists.
  - simpl. intros p p' x x' b [<- _]%lookup_singleton_Some [<- _]%lookup_singleton_Some _ _. reflexivity.
Qed.

Lemma xp_conf0_ok : xp_ok xp_conf0.
Proof.
  split; [split; [|by vm_compute]|split]; simpl.
  - intros p ->%elem_of_singleton. lia.
  - intros p x Hp. discriminate Hp.
  - intros p p' x x' b Hp. discriminate Hp.
Qed.

Lemma sample_undo_ok t : undo_ok (sample_env t).
Proof. split; try done; [naive_solver|by left]. Qed.

Lemma sample_callbacks_called t : callbacks_called (sample_env t).
Proof. by split. Qed.

Lemma export_opts_accepted_exactly_witness : validate_opts (Some 5%nat) (Some sample_export_opts) true = 0.
Proof.
  apply (export_opts_accepted_exactly 5 sample_export_opts); simpl; try lia.
  split_and!; try lia; try (by vm_compute); try done. right. split; [by vm_compute|done].
Defined.


Lemma export_close_releases_witness :
  exists rc c', zettide_spdk_nvmf_tcp_export_close 9 (Some 1%nat) (sample_env None) xp_conf2 = (Done rc, c') /\
    closed 5 1 sample_export xp_conf2 rc c'.
Proof.
  pose proof (export_close_releases 9 5 1 sample_export (sample_env None) xp_conf2 xp_conf2_ok
    ltac:(vm_compute; reflexivity) eq_refl (sample_rt_ok 1 ltac:(unfold is_u64, UINT64_MAX; lia))
    ltac:(vm_compute; reflexivity) (sample_posix_ok None)) as H.
  destruct (zettide_spdk_nvmf_tcp_export_close 9 (Some 1%nat) (sample_env None) xp_conf2) as [[rc|f|] c'] eqn:E.
  - exists rc, c'. split; [reflexivity|exact H].
  - destruct H as [_ H]. destruct (H (sample_undo_ok None)).
  - destruct (H (sample_callbacks_called None)).
Defined.

(** ** Controllers *)

Definition sample_controller_opts : controller_opts :=
  ControllerOpts CONTROLLER_OPTS_SIZE (Some "nvme0"%string) ZETTIDE_SPDK_NVME_TRANSPORT_TCP
    ZETTIDE_SPDK_NVME_ADDRESS_FAMILY_IPV4 (Some "10.0.0.1"%string) (Some "4420"%string) (Some "nqn.sub"%string)
    None 10000000 2.
Definition sample_connection : connection :=
  Connection SPDK_NVMF_ADRFAM_IPV4 "10.0.0.1" "4420" "nqn.sub" "host" 10000000 false.
Definition nc_conf0 : conf (NcStore RtStore) := Conf (NcS (sample_rt 0) ∅) (list_to_set [5%nat]) (hist disp_conf0).
Definition sample_controller : controller :=
  Controller 5 (Some 1%nat) (2%nat, "nvme0"%string) (3%nat, [None; None]) 0 2 false sample_connection.
Definition nc_conf1 : conf (NcStore RtStore) :=
  Conf (NcS (sample_rt 1) {[1%nat := sample_controller]}) (list_to_set [1; 2; 3; 5]%nat) (hist disp_conf0).

Lemma nc_conf0_ok : nc_ok nc_conf0.
Proof.
  split; [|split].
  - apply small_conf_ok; [repeat constructor; lia|simpl; lia].
  - intros p x Hp. discriminate Hp.
  - intros p p' x x' b Hp. discriminate Hp.
Qed.

Lemma nc_conf1_ok : nc_ok nc_conf1.
Proof.
  split; [|split].
  - apply small_conf_ok; [repeat constructor; lia|simpl; lia].
  - simpl. intros p x [<- <-]%lookup_singleton_Some. vm_compute ctrl_blocks. split_and!.
    + apply (bool_decide_unpack _). vm_compute. exact I.
    + intros b Hb. clear -Hb. set_solver.
    + by eexists.
  - simpl. intros p p' x x' b [<- _]%lookup_singleton_Some [<- _]%lookup_singleton_Some _ _. reflexivity.
Qed.

Lemma sample_outcomes_called t : outcomes_called (sample_env t).
Proof. by split. Qed.



Lemma namespace_names_readable_witness :
  exists cmd' c' x', deliver_outcome RunAttach 1 command_init (sample_env (Some 1%nat)) nc_conf1 = (Done cmd', c') /\
    ncs_controllers (store c') !! 1%nat = Some x' /\
    forall i, 0 <= i -> zettide_spdk_nvme_controller_get_namespace_name (Some x') i =
      Some (if i <? zettide_spdk_nvme_controller_get_namespace_count (Some x') then ["n0"%string] !! Z.to_nat i else None).
Proof.
  destruct (namespace_names_readable 1 sample_controller command_init 1 0 ["n0"%string] (sample_env (Some 1%nat)) nc_conf1)
    as (cmd' & c' & x' & E & _ & Hx & _ & Hn).
  - vm_compute. reflexivity.
  - reflexivity.
  - reflexivity.
  - reflexivity.
  - reflexivity.
  - left. split; [reflexivity|]. split; [reflexivity|]. vm_compute. discriminate.
  - exists cmd', c', x'. split; [exact E|]. split; [exact Hx|exact Hn].
Defined.

Lemma connection_accepted_exactly_witness :
  connection_of "host" sample_controller_opts = Some sample_connection.
Proof.
  apply (connection_accepted_exactly "host" sample_controller_opts sample_connection); try (vm_compute; discriminate).
  split_and!; try reflexivity; try (by vm_compute). left. split; reflexivity.
Defined.
